(* ===== verification/_CoqProject ===== *)
-Q . S2P
Prelude.v
StateErr.v
Ring.v
PyStruct.v
PyFloat.v
PyText.v
PyJson.v
PyJsonText.v
Messages.v
IQHeader.v
CHeader.v
Rebuffer.v
GwStream.v
GwFir.v
GwTop.v
SpiTransport.v
GwSpi.v
GwFft.v
HwControl.v
HwRequests.v
HwWire.v
HwcRelay.v
DelaySync.v
RtlDaq.v
CalLoop.v
IqRouter.v
IqSource.v
FedHealth.v
SignalScheduler.v
FedScheduler.v
Shmem.v
Election.v
ElectionSafety.v
ElectionCluster.v
TxDuty.v
RfControl.v
TxSafety.v
TxSample.v
TxInvariants.v
TxPermits.v
