(* ===== verification/Prelude.v ===== *)
(** * HeIMDALL DAQ firmware: a verification library

    The firmware is a chain of processes that turn the samples of a coherent
    multichannel receiver into IQ frames (C and Python, [Firmware/_daq_core]),
    a controller that retunes the receiver while the chain runs, an optional FPGA
    that filters the samples ([Firmware/_fpga_gateware]), a federation of such
    stations under an elected coordinator, and an active-array extension that
    may transmit ([Firmware/_active]).  This library translates the parts
    whose correctness is a matter of protocol, state and data layout, and proves
    the properties they are relied on for.  All paths below are under
    [src/Firmware] unless they start with [util].

    ** How the code is represented

    A Python method is a function on the record of its object; a method that
    may raise returns [res] (below) or runs in a state-and-exception monad
    ([StateErr], and a monad of its own in [Election]) in which an exception
    keeps the assignments made before it.  Integers are [Z] with masks and field
    widths written out; bytes are [Z] below 256; a [dict] is an association list
    in insertion order.  Clock readings, durations and the floats of schedules
    are exact rationals with NaN and the infinities ([pynum]) where the code can
    meet them; floats that go through [struct] are IEEE values ([PyFloat]).
    What a component reads from outside (clocks, sensors, file and line writes,
    network replies) is an argument, quantified over in the theorems.  A
    concurrent component is a step function over the events of its threads, and
    its theorems are about every list of events.  A Verilog module is a record of
    registers with one function for a clock edge ([Gw.hw]); modules are wired
    with [Gw.compose], and [Gw.implements] says that in every sequence of clock
    edges and stalls the words given are those of a list function.

    ** Files

    - [Prelude], [StateErr]: exceptions, the two monads, list and rational
      lemmas, tactics and hint databases.
    - [PyStruct], [PyFloat], [PyText], [PyJson], [PyJsonText]: what the code uses
      of [struct], binary32 rounding, UTF-8, [int()], CRC-32, and JSON values and
      text.
    - [Ring]: circular byte buffers.
    - [Messages] ([inter_module_messages.py]): the 128-byte control messages
      between the hardware controller and the receiver process.
    - [IQHeader] ([iq_header.py]): the 1024-byte header of every IQ frame.
    - [CHeader] ([iq_header.h], [iq_header.c]): the layout the C compiler gives
      the same header.
    - [Rebuffer] ([rebuffer.c], [frame_sizes.h]): the process that cuts the
      receiver's blocks into coherent processing intervals, with its rings.
    - [GwStream] ([iq_deinterleave.v], [u8_to_f32.v], [output_reinterleave.v],
      [fifo_sync.v]), [GwFir] ([fir_mac.v], [fir_decimate.v]), [GwTop]
      ([config_regs.v], [id_register.v], [top.v]), [GwSpi] ([spi_slave.v]),
      [GwFft] ([fft_radix2.v], [xcorr_engine.v]): the gateware.
    - [SpiTransport] ([transport_spi.c]): the host's side of the SPI link.
    - [HwControl] ([hw_controller.py], [HWC]): the per-frame state machine that
      tunes gains, drives the noise source and executes commands; [HwRequests]
      ([CtrRequest], [ControlPlane], [CtrIfaceServer._submit_request],
      [_drain_control_requests]): requests between server threads and the main
      loop, and the fencing of old leaders; [HwWire] ([process_ctr_frame], the
      chunked upload, [util/heimdall_ctl/client/ctl.py]): the command frames of
      both sides; [HwcRelay] ([hwc_relay.py]): the state document and the
      recalibration requests the controller leaves for the synchroniser.
    - [DelaySync] ([delay_sync.py]): the calibration state machine, the sync
      flags and telemetry of the outbound headers, the relay files; what numpy
      measures on the samples is an input of each frame.
    - [RtlDaq] ([rtl_daq.c], [rtl_daq.h]): the receiver process: its control
      thread, the frames it stamps, its tuner requests and dummy frames, and the
      ring of USB transfers.
    - [CalLoop]: [RtlDaq], [DelaySync] and [HwControl] closed to the loop they
      form, with frames on their way between them.
    - [IqRouter] ([federation_iq_router.py], [_Aligner], [ClientSink]): the queues
      that merge the frames of the stations by time stamp, the queue and the
      sender of each client, and both together ([Route]); [IqSource] (its source
      readers): the tags written into headers, the counters of lost frames, the
      cutting of the byte stream into frames, and the reconnection delays.
    - [FedHealth] ([federation_health.py], [FederationHealth]): the table of peers,
      what polls make of it, the events and the advisory election.
    - [SignalScheduler] ([signal_scheduler.py]): the hopping state machine the
      hardware controller ticks once per frame header; the database is the
      class [ScheduleStore].
    - [FedScheduler] ([federation_scheduler.py]): validation, partitioning and
      transfer of a master schedule; its target documents are read back by the
      parser of [SignalScheduler].
    - [Shmem] ([shmemIface.py], [sh_mem_util.c]): the double-buffer link between
      two processes of the chain, Python and C sides, against the classes
      [OutSide] and [InSide].
    - [Election] ([federation_election.py] and the verbs PREVOTE and LEASE of
      [federation_coordinator.py]): one candidate; [ElectionSafety]: its local
      properties; [ElectionCluster]: all candidates as an interleaving of their
      locked sections, message losses and restarts.
    - [TxDuty] ([active_tx_safety.py], [DutyCycleMeter]); [RfControl]
      ([active_rf_control.py], [RfControl]): PA, T/R and LNA lines with failing
      writes; [TxSafety] ([active_tx_safety.py], [TxSafetyController]), which
      drives both; [TxSample]: a bench session on which the witnesses evaluate;
      [TxInvariants], [TxPermits]: its theorems.

    ** What is shown

    - Wire formats: messages and headers round-trip, a relay that decodes and
      encodes changes no byte, telemetry slots do not interfere, and the C
      struct puts every field where the Python format reads it.
    - Acquisition: the rebuffer sends, channel by channel, the samples it read in
      order and without loss, its ring is never overrun where a frame is not
      shorter than a block, and it ends when its input does.
    - Gateware: the pipeline from the SPI bytes to the output bytes computes the
      conversion, the decimating filter and the packing of its specification
      for every pattern of stalls; frames and FFT likewise; payloads survive the
      SPI link, corruption is refused.
    - Control: calibration bursts leave gains and AGC as the user set them, gain
      indices stay in the tuner's table, gain tuning ends; a request reported as
      refused never runs and an acknowledgement reports what happened, in every
      interleaving; commands of superseded leaders are not executed; every
      client command is decoded as it was meant; a schedule uploaded in chunks
      arrives whole; events and recalibration requests are taken exactly once.
    - Calibration: the receiver understands every message the Python processes
      build, and a frame that is not a dummy was taken with the settings its
      header states; a frame claims the lock only after a complete calibration,
      and while tracking at one frequency only; the track is lost exactly when
      the failed checks outweigh the passed ones by the limit; corrections
      counteract the measured delays.  The closed loop calibrates the array and
      comes to rest with the user's gains after a bounded number of frames,
      whatever the order in which frames are sent, swallowed and processed.
    - IQ router: a client gets whole frames, of each source in the order in which
      it sent them, whatever the order of arrivals, releases, drops and partial
      writes; queues stay bounded and no frame is held longer than the window;
      sources that keep up leave in the order of their time stamps; losses are
      counted exactly across wraps of the counter; tags change their own fields
      only; how the network cuts the stream does not matter.
    - Health monitor: a peer is alive, and flaps, exactly by the rules in terms of
      its history of polls; a subscriber to the events knows the peers that are
      alive; replies of the documented types never end the monitor; stations that
      see the same healthy stations name the same coordinator.
    - Hopping: the commands issued are exactly the hop order of the schedule,
      the dwell is exact, a hop always comes, and a restart resumes.
    - Federated schedules: a partition loses and duplicates nothing, every
      target document is accepted by the member's parser and together they run
      the master schedule; documents fit the limits checked beforehand.
    - Link: in every interleaving the consumer reads a prefix of what was handed
      over, buffers are never shared, and a waiting producer is released.
    - Election: at most one leader and one durable vote per term; leases are
      sticky, outlast a restart and are live when counted; terms stay bounded;
      an unopposed campaign wins.
    - Transmit safety: for every sequence of calls, every environment and every
      interruption by a trip or a signal, a burst starts only on a valid unused
      permit, bursts stay within the duty limit, a trip wins over what it
      interrupts, faults stay latched, a violated condition stops the
      transmitter at the next poll, shutdown runs to its end whatever fails, and
      a PA line is on only while armed unless a line command failed; switches
      never move under power.

    Some lemmas record behaviour that departs from what the code documents:
    [Sig.skip_dwells_without_retune], [Fed.infinite_frequency_overflows],
    [Fed.infinite_dwell_accepted], [ElSafe.adopted_term_bypasses_lease],
    [ElSafe.unreadable_file_loses_vote], [Shm.c_eof_counts_as_drop],
    [Shm.unknown_signal_differs], [TxSample.reset_overwrites_trip],
    [TxSample.nan_frequency_arms], [Align.full_queue_reorders],
    [Conn.reader_gives_up], [Health.odd_reply_ends_monitor],
    [Health.busy_counts_on]; the last sections of [Rebuffer],
    [SpiTransport], [HwControl], [GwStream], [GwFir], [GwTop], [GwSpi] and [GwFft]
    hold those of these files, and [Sync.retune_before_tracking_unnoticed] and
    [Sync.undefined_ranges_pass] those of the synchroniser.

    ** Bounds

    Loops are structural recursions over the list they consume, without fuel,
    except these.  [El.drive] runs the locked sections of a tick: with eight steps
    it is the whole tick ([El.tick_is_sections]).  [Rebuf.loop] takes a number of
    rounds; each reads a header, so that the length of the input is enough
    ([Rebuf.rebuffer_terminates]).  [Wire.pump] takes the number of chunks and
    [Wire._ack_payload] the length of the reason for its binary search; the
    theorems about them show that this is enough.  The FFT engine is shown to
    be done after [Fft.fft_edges] clock edges, and a queued event to be on disk
    after eight actions of the main loop.  The loop of [CalLoop] rests after
    [3 * room + 23] processed frames, where [room] frames fit into the chain.
    [Align.release_all] takes the number of frames held, of which each turn takes
    one, and [Conn.run_connection] one more than the bytes of the stream, of
    which each frame takes some ([Conn.cut_enough]).  Runs are lists or inductive
    relations of any length.  Witnesses evaluate small concrete instances.

    ** Not modelled

    The decimation process, the network, USB and PCIe transports and the DSP
    offload engines, which are driven by sample data; sockets, threads, HTTP,
    databases, device and board drivers; the rest of the coordinator, the
    registration of members with it; configuration checks and tools.  Within the modelled parts: parsing of the configuration
    by [rebuffer.c] and [hw_controller.py], the controller's database, events,
    antenna and link budget; the correlations, delay estimates and IQ
    differences of [delay_sync.py], its front-end telemetry, configuration and
    status; device set-up and antenna switches of [rtl_daq.c], whose main loop
    counts a frame and applies the requests in one step; the listening sockets,
    statistics, clock skew and source names of the IQ router; the PLL and the transmit side of [spi_slave.v];
    GPIO and device set-up of [transport_spi.c]; creation and removal of shared
    memory, FIFOs and temporary schedule files; [ElectionRunner] and the atomic
    replacement of the term file; hardware T/R sequencing (ATR), line parsing and
    the interlock and power-monitor files of [active_rf_control.py]; and, of the
    safety controller, the numeric RF verdicts (power, reflection, spectrum,
    frequency plan, static checks), which are arbitrary inputs, its events,
    banner, status, listeners, and model reload. *)
From Stdlib Require Export ZArith QArith Qround Lqa.
From stdpp Require Export base list gmap strings numbers.
#[local] Set Default Goal Selector "!".
#[export] Set Warnings "-notation-overridden,-ambiguous-paths".

Open Scope Z_scope.
#[export] Unset Printing Use Implicit Types.

(** ** Exceptions as values

    The classes of Python exceptions the modelled code raises or catches.
    [UnicodeError] is a subclass of [ValueError] in Python; [is_value_error]
    is the test an [except ValueError] clause performs. *)
Inductive exc :=
  | ValueError | TypeError | KeyError | IndexError | AttributeError
  | OverflowError | ZeroDivisionError | StructError | UnicodeError | OSError.

#[export] Instance exc_eq_dec : EqDecision exc.
Proof. solve_decision. Defined.

Definition is_value_error (e : exc) : bool :=
  match e with ValueError | UnicodeError => true | _ => false end.

Inductive res (A : Type) :=
  | Ok (a : A)
  | Raise (e : exc).
Arguments Ok {A} a.
Arguments Raise {A} e.

#[export] Instance res_ret : MRet res := fun A a => Ok a.
#[export] Instance res_bind : MBind res := fun A B f m =>
  match m with Ok a => f a | Raise e => Raise e end.
#[export] Instance res_fmap : FMap res := fun A B f m =>
  match m with Ok a => Ok (f a) | Raise e => Raise e end.

Lemma Ok_inj {A} (a b : A) : Ok a = Ok b -> a = b.
Proof. congruence. Qed.

Lemma Raise_inj {A} (e e' : exc) : @Raise A e = Raise e' -> e = e'.
Proof. congruence. Qed.

Definition res_to_option {A} (r : res A) : option A :=
  match r with Ok a => Some a | Raise _ => None end.

Definition is_ok {A} (r : res A) : bool :=
  match r with Ok _ => true | Raise _ => false end.

(** [try: m  except <pred>: raise e'] *)
Definition catch {A} (m : res A) (p : exc -> bool) (h : exc -> res A) : res A :=
  match m with
  | Ok a => Ok a
  | Raise e => if p e then h e else Raise e
  end.

(** [[f x for x in l]] where [f] may raise: the first exception wins. *)
Fixpoint res_mapM {A B} (f : A -> res B) (l : list A) : res (list B) :=
  match l with
  | [] => Ok []
  | x :: l => y ← f x; ys ← res_mapM f l; Ok (y :: ys)
  end.

(** ** Tactics *)

(** Destruct the scrutinee of the first match or [if] of the goal (or of a
    hypothesis), keeping the equation. *)
Ltac case_goal :=
  match goal with
  | |- context [match ?x with _ => _ end] =>
      lazymatch x with context [match _ with _ => _ end] => fail | _ => destruct x eqn:? end
  end.

Ltac case_hyp H :=
  match type of H with
  | context [match ?x with _ => _ end] =>
      lazymatch x with context [match _ with _ => _ end] => fail | _ => destruct x eqn:? end
  end.

(** Invert equations between [Ok]/[Raise]/[Some] values, unfolding binds. *)
Ltac simp_res :=
  repeat (progress (unfold mret, mbind, res_ret, res_bind, fmap, res_fmap in * )
          || match goal with
             | H : Ok _ = Ok _ |- _ => apply Ok_inj in H; try subst
             | H : Raise _ = Raise _ |- _ => apply Raise_inj in H; try subst
             | H : Ok _ = Raise _ |- _ => discriminate H
             | H : Raise _ = Ok _ |- _ => discriminate H
             | H : true = false |- _ => discriminate H
             | H : false = true |- _ => discriminate H
             end).

(** Turn boolean comparisons in the context into propositions. *)
Ltac bool_prop :=
  repeat match goal with
    | H : (_ && _)%bool = true |- _ => apply andb_true_iff in H; destruct H
    | H : (_ || _)%bool = false |- _ => apply orb_false_iff in H; destruct H
    | H : negb _ = true |- _ => apply negb_true_iff in H
    | H : negb _ = false |- _ => apply negb_false_iff in H
    | H : (_ <=? _) = true |- _ => apply Z.leb_le in H
    | H : (_ <=? _) = false |- _ => apply Z.leb_gt in H
    | H : (_ <? _) = true |- _ => apply Z.ltb_lt in H
    | H : (_ <? _) = false |- _ => apply Z.ltb_ge in H
    | H : (_ =? _) = true |- _ => apply Z.eqb_eq in H
    | H : (_ =? _) = false |- _ => apply Z.eqb_neq in H
    | H : bool_decide _ = true |- _ => apply bool_decide_eq_true in H
    | H : bool_decide _ = false |- _ => apply bool_decide_eq_false in H
    end.

Create HintDb heimdall.

(** ** Generic lemmas *)

Lemma res_bind_ok {A B} (m : res A) (f : A -> res B) b :
  (x ← m; f x) = Ok b <-> exists a, m = Ok a /\ f a = Ok b.
Proof.
  destruct m as [a|e]; simp_res; split.
  - eauto.
  - by intros (? & [= ->] & ?).
  - done.
  - by intros (? & ? & ?).
Qed.

Lemma res_mapM_ok {A B} (f : A -> res B) l k :
  res_mapM f l = Ok k <-> Forall2 (fun x y => f x = Ok y) l k.
Proof.
  revert k; induction l as [|x l IH]; intros k; cbn.
  - split; [by intros [= <-] | by intros ->%Forall2_nil_inv_l].
  - split.
    + intros (y & Hy & (ys & Hys & [= <-])%res_bind_ok)%res_bind_ok.
      constructor; [done | by apply IH].
    + intros (y & ys & Hy & Hys & ->)%Forall2_cons_inv_l.
      rewrite Hy; cbn. apply IH in Hys. by rewrite Hys.
Qed.

Lemma res_mapM_length {A B} (f : A -> res B) l k :
  res_mapM f l = Ok k -> length k = length l.
Proof. intros H%res_mapM_ok. symmetry. by eapply Forall2_length. Qed.

(** ** Boolean order on rationals (clock readings are modelled in [Q]) *)
Definition Qltb (x y : Q) : bool := negb (Qle_bool y x).

Lemma Qltb_lt x y : Qltb x y = true <-> (x < y)%Q.
Proof.
  unfold Qltb. rewrite negb_true_iff, <-not_true_iff_false, Qle_bool_iff.
  split; [apply Qnot_le_lt | apply Qlt_not_le].
Qed.

Lemma Qltb_ge x y : Qltb x y = false <-> (y <= x)%Q.
Proof. unfold Qltb. by rewrite negb_false_iff, Qle_bool_iff. Qed.

Lemma Qleb_gt x y : Qle_bool x y = false <-> (y < x)%Q.
Proof. rewrite <-Qltb_lt. unfold Qltb. by rewrite negb_true_iff. Qed.

Ltac q_prop :=
  repeat match goal with
    | H : Qltb _ _ = true |- _ => apply Qltb_lt in H
    | H : Qltb _ _ = false |- _ => apply Qltb_ge in H
    | H : Qle_bool _ _ = true |- _ => apply Qle_bool_iff in H
    | H : Qle_bool _ _ = false |- _ => apply Qleb_gt in H
    end.

(** ** Numbers as Python floats

    A float that only takes part in comparisons, rounding and conversion is
    modelled by its exact rational value, or one of the three special values. *)
Inductive pynum := NaN | PInf | NInf | Fin (q : Q).

(** [round(x)]: to the nearest integer, ties to even. *)
Definition Qround_even (q : Q) : Z :=
  let f := Qfloor q in
  match Qcompare (q - inject_Z f) (1 # 2) with
  | Lt => f
  | Gt => f + 1
  | Eq => if Z.even f then f else f + 1
  end.

Lemma Qround_even_close q : (inject_Z (Qround_even q) - (1 # 2) <= q <= inject_Z (Qround_even q) + (1 # 2))%Q.
Proof.
  unfold Qround_even. pose proof (Qfloor_le q) as Hl. pose proof (Qlt_floor q) as Hu.
  rewrite inject_Z_plus in Hu. change (inject_Z 1) with 1%Q in Hu.
  set (f := Qfloor q) in *.
  destruct (Qcompare_spec (q - inject_Z f) (1 # 2)) as [H|H|H].
  - destruct (Z.even f); rewrite ?inject_Z_plus; change (inject_Z 1) with 1%Q; split; lra.
  - split; lra.
  - rewrite inject_Z_plus; change (inject_Z 1) with 1%Q; split; lra.
Qed.

Lemma Qround_even_Z z : Qround_even (inject_Z z) = z.
Proof.
  unfold Qround_even. rewrite Qfloor_Z.
  destruct (Qcompare_spec (inject_Z z - inject_Z z) (1 # 2)) as [H|H|H]; lra || done.
Qed.

(** [int(x)]: truncation toward zero. *)
Definition Qtrunc (q : Q) : Z := if Qle_bool 0 q then Qfloor q else Qceiling q.

(** [lst[i] = v] on a list: out of range raises. *)
Definition py_set {A} (l : list A) (i : nat) (v : A) : res (list A) :=
  if bool_decide (i < length l)%nat then Ok (<[i:=v]> l) else Raise IndexError.

Definition py_get {A} (l : list A) (i : nat) : res A :=
  match l !! i with Some v => Ok v | None => Raise IndexError end.

Lemma py_get_Some {A} (l : list A) i x : l !! i = Some x -> py_get l i = Ok x.
Proof. unfold py_get. by intros ->. Qed.

Lemma py_set_get {A} (l : list A) i v l' :
  py_set l i v = Ok l' -> py_get l' i = Ok v.
Proof.
  unfold py_set, py_get. case_bool_decide; intros; simp_res. by rewrite list_lookup_insert_eq.
Qed.

Lemma py_set_get_ne {A} (l : list A) i j v l' :
  i <> j -> py_set l i v = Ok l' -> py_get l' j = py_get l j.
Proof.
  unfold py_set, py_get. intros Hne. case_bool_decide; intros; simp_res.
  by rewrite list_lookup_insert_ne.
Qed.

Lemma py_set_length {A} (l : list A) i v l' : py_set l i v = Ok l' -> length l' = length l.
Proof. unfold py_set. case_bool_decide; intros; simp_res. apply length_insert. Qed.

(** [x & 0xFFFFFFFF] on an unbounded integer. *)
Definition mask32 (z : Z) : Z := Z.land z 4294967295.

Lemma mask32_mod z : mask32 z = z mod 2 ^ 32.
Proof. unfold mask32. by rewrite <-(Z.land_ones _ 32) by lia. Qed.

Lemma mask32_range z : 0 <= mask32 z < 2 ^ 32.
Proof. rewrite mask32_mod. by apply Z.mod_pos_bound. Qed.

Lemma mask32_id z : 0 <= z < 2 ^ 32 -> mask32 z = z.
Proof. rewrite mask32_mod. apply Z.mod_small. Qed.
