(* ===== verification/StateErr.v ===== *)
(** * A state and exception monad

    For the components whose methods mutate one object and raise exceptions of
    their own; an exception keeps the changes made before it.  [pres R m] says
    that [m] moves the state only along the preorder [R]: with a latch or an
    invariant as [R] it is the notion the safety proofs use. *)
From S2P Require Import Prelude.

Definition SE (S E A : Type) : Type := S -> S * (A + E).

#[export] Instance SE_ret {S E} : MRet (SE S E) := fun A a s => (s, inl a).
#[export] Instance SE_bind {S E} : MBind (SE S E) := fun A B f m s =>
  match m s with
  | (s', inl a) => f a s'
  | (s', inr e) => (s', inr e)
  end.

Section Ops.
Context {S E : Type}.

Definition get : SE S E S := fun s => (s, inl s).
Definition gets {A} (f : S -> A) : SE S E A := fun s => (s, inl (f s)).
Definition modify (f : S -> S) : SE S E unit := fun s => (f s, inl tt).
Definition throw {A} (e : E) : SE S E A := fun s => (s, inr e).
Definition when (b : bool) (m : SE S E unit) : SE S E unit := if b then m else mret tt.

(** [try: m  except Exception: h] *)
Definition catch {A} (m : SE S E A) (h : E -> SE S E A) : SE S E A := fun s =>
  match m s with
  | (s', inl a) => (s', inl a)
  | (s', inr e) => h e s'
  end.

(** The outcome of [m] as a value; the exception is swallowed. *)
Definition attempt (m : SE S E unit) : SE S E bool := fun s =>
  match m s with
  | (s', inl _) => (s', inl true)
  | (s', inr _) => (s', inl false)
  end.

Fixpoint for_each {A} (l : list A) (body : A -> SE S E unit) : SE S E unit :=
  match l with
  | [] => mret tt
  | x :: l => body x;; for_each l body
  end.

(** ** Moving the state along a preorder *)
Definition pres {A} (R : S -> S -> Prop) (m : SE S E A) : Prop := forall s, R s (m s).1.

Section Pres.
Context (R : S -> S -> Prop) `{!PreOrder R}.

Lemma pres_ret {A} (a : A) : pres R (mret a).
Proof. intros s. cbn. reflexivity. Qed.

Lemma pres_bind {A B} (m : SE S E A) (f : A -> SE S E B) :
  pres R m -> (forall a, pres R (f a)) -> pres R (m ≫= f).
Proof.
  intros Hm Hf s. specialize (Hm s). unfold mbind, SE_bind.
  destruct (m s) as [s' [a|e]]; [|done]. cbn in Hm. etrans; [exact Hm | apply Hf].
Qed.

Lemma pres_get : pres R get.
Proof. intros s. cbn. reflexivity. Qed.

Lemma pres_gets {A} (f : S -> A) : pres R (gets f).
Proof. intros s. cbn. reflexivity. Qed.

Lemma pres_modify f : (forall s, R s (f s)) -> pres R (modify f).
Proof. intros H s. apply H. Qed.

Lemma pres_throw {A} e : pres R (throw (A := A) e).
Proof. intros s. cbn. reflexivity. Qed.

Lemma pres_when b m : pres R m -> pres R (when b m).
Proof. intros H. destruct b; [done | apply pres_ret]. Qed.

Lemma pres_catch {A} (m : SE S E A) h :
  pres R m -> (forall e, pres R (h e)) -> pres R (catch m h).
Proof.
  intros Hm Hh s. specialize (Hm s). unfold catch.
  destruct (m s) as [s' [a|e]]; [done|]. cbn in Hm. etrans; [exact Hm | apply Hh].
Qed.

Lemma pres_attempt m : pres R m -> pres R (attempt m).
Proof. intros Hm s. specialize (Hm s). unfold attempt. by destruct (m s) as [s' [a|e]]. Qed.

Lemma pres_for_each {A} (l : list A) body : (forall x, pres R (body x)) -> pres R (for_each l body).
Proof. intros H. induction l; cbn; [apply pres_ret | by apply pres_bind]. Qed.

End Pres.

(** ** Outcomes *)

(** From [P], [m] returns [a] with [Q a] or raises [e] with [X e]. *)
Definition triple {A} (P : S -> Prop) (m : SE S E A) (Q : A -> S -> Prop) (X : E -> S -> Prop) : Prop :=
  forall s, P s -> match m s with (s', inl a) => Q a s' | (s', inr e) => X e s' end.

Lemma triple_bind {A B} P Q X (m : SE S E A) (f : A -> SE S E B) Q' :
  triple P m Q X -> (forall a, triple (Q a) (f a) Q' X) -> triple P (m ≫= f) Q' X.
Proof.
  intros Hm Hf s Hs. specialize (Hm s Hs). unfold mbind, SE_bind.
  destruct (m s) as [s' [a|e]]; [by apply Hf | done].
Qed.

Lemma triple_conseq {A} (P P' : S -> Prop) (m : SE S E A) (Q Q' : A -> S -> Prop) (X X' : E -> S -> Prop) :
  triple P m Q X -> (forall s, P' s -> P s) -> (forall a s, Q a s -> Q' a s) ->
  (forall e s, X e s -> X' e s) -> triple P' m Q' X'.
Proof.
  intros Hm HP HQ HX s Hs. specialize (Hm s (HP s Hs)). destruct (m s) as [s' [a|e]]; auto.
Qed.

Lemma triple_ret {A} (a : A) (P : S -> Prop) (Q : A -> S -> Prop) X :
  (forall s, P s -> Q a s) -> triple P (mret a) Q X.
Proof. intros H s Hs. by apply H. Qed.

Lemma triple_get (P : S -> Prop) (Q : S -> S -> Prop) X :
  (forall s, P s -> Q s s) -> triple P get Q X.
Proof. intros H s Hs. by apply H. Qed.

Lemma triple_modify f (P : S -> Prop) (Q : unit -> S -> Prop) X :
  (forall s, P s -> Q tt (f s)) -> triple P (modify f) Q X.
Proof. intros H s Hs. by apply H. Qed.

Lemma triple_throw {A} e (P : S -> Prop) (Q : A -> S -> Prop) (X : E -> S -> Prop) :
  (forall s, P s -> X e s) -> triple P (throw e) Q X.
Proof. intros H s Hs. by apply H. Qed.

Lemma triple_when b m (P : S -> Prop) (Q : unit -> S -> Prop) X :
  (b = true -> triple P m Q X) -> (b = false -> forall s, P s -> Q tt s) -> triple P (when b m) Q X.
Proof. intros H1 H2 s Hs. destruct b; [by apply H1 | by apply H2]. Qed.

Lemma triple_catch {A} (m : SE S E A) h P Q X X' :
  triple P m Q X -> (forall e, triple (X e) (h e) Q X') -> triple P (catch m h) Q X'.
Proof.
  intros Hm Hh s Hs. specialize (Hm s Hs). unfold catch.
  destruct (m s) as [s' [a|e]]; [done | by apply Hh].
Qed.

Lemma triple_attempt (m : SE S E unit) P Q X X' :
  triple P m Q X -> triple P (attempt m) (fun b s => if b then Q tt s else exists e, X e s) X'.
Proof.
  intros Hm s Hs. specialize (Hm s Hs). unfold attempt.
  destruct (m s) as [s' [[]|e]]; eauto.
Qed.

Lemma triple_for_each {A} (l : list A) body (I : S -> Prop) X :
  (forall x, x ∈ l -> triple I (body x) (fun _ => I) X) -> triple I (for_each l body) (fun _ => I) X.
Proof.
  induction l as [|x l IH]; intros H; cbn; [by apply triple_ret|].
  eapply triple_bind; [apply H; set_solver | intros ?; apply IH; set_solver].
Qed.

(** A bind that finishes normally went through its first part. *)
Lemma bind_ok {A B} (m : SE S E A) (f : A -> SE S E B) s s' b :
  (m ≫= f) s = (s', inl b) <-> exists s1 a, m s = (s1, inl a) /\ f a s1 = (s', inl b).
Proof.
  unfold mbind, SE_bind. split.
  - destruct (m s) as [s1 [a|e]]; [eauto | done].
  - by intros (s1 & a & -> & ?).
Qed.

End Ops.

(** Unfold the monad of a concrete method. *)
Ltac se_unfold := unfold get, gets, modify, throw, when, mret, mbind, SE_ret, SE_bind in *; cbn beta iota in *.

(** The structure of a method, down to its [modify]s and the methods with a
    lemma in [db]. *)
Ltac pres_step :=
  first
    [ assumption
    | solve [eauto with pres nocore]
    | apply pres_bind; [typeclasses eauto | | intros ?]
    | apply pres_ret; typeclasses eauto | apply pres_get; typeclasses eauto
    | apply pres_gets; typeclasses eauto | apply pres_throw; typeclasses eauto
    | apply pres_when; [typeclasses eauto|] | apply pres_attempt
    | apply pres_catch; [typeclasses eauto | | intros ?]
    | apply pres_for_each; [typeclasses eauto | intros ?]
    | case_goal ].

Create HintDb pres discriminated.
