(* ===== verification/Ring.v ===== *)
(** * Ring buffers

    A queue stored in a ring from an offset on: writing at its end, reading from
    its start and forgetting a prefix.  Shared by the rebuffer and the
    gateware FIFO. *)
From S2P Require Import Prelude.

Module Ring.

Lemma mod_wrap n a : (a < n + n)%nat -> (a mod n = if bool_decide (a < n) then a else a - n)%nat.
Proof.
  intros H. case_bool_decide; [by apply Nat.mod_small|].
  rewrite <-(Nat.mod_small (a - n) n) by lia. rewrite <-(Nat.Div0.mod_add (a - n) 1 n). f_equal. lia.
Qed.

Ltac ring_wrap := repeat (rewrite mod_wrap by lia; case_bool_decide); try lia.

Section Ring.
Context {A : Type}.
Implicit Types (ring p b : list A).

(** The ring of [n] cells holds the queue [p] from offset [wr] on. *)
Definition holds (n : nat) (ring : list A) (wr : nat) (p : list A) : Prop :=
  length ring = n /\ forall i, (i < length p)%nat -> ring !! ((wr + i) mod n)%nat = p !! i.

Lemma holds_push n ring wr p b rd :
  holds n ring wr p -> (wr < n)%nat -> rd = ((wr + length p) mod n)%nat -> (rd + length b <= n)%nat ->
  (length p + length b <= n)%nat ->
  holds n (take rd ring ++ b ++ drop (rd + length b) ring) wr (p ++ b).
Proof.
  intros [Hl Hp] Hwr -> Hb Hn. split.
  { rewrite !length_app, length_take, length_drop. lia. }
  intros i Hi. rewrite length_app in Hi. set (rd := ((wr + length p) mod n)%nat) in *.
  destruct (decide (i < length p)%nat) as [Hlt|Hge].
  - rewrite (lookup_app_l p) by done. rewrite <-Hp by done.
    assert ((wr + i) mod n < rd \/ rd + length b <= (wr + i) mod n < n)%nat as [Hc|Hc].
    { revert Hb. unfold rd. ring_wrap. }
    + rewrite lookup_app_l by (rewrite length_take; lia). by rewrite lookup_take_lt.
    + rewrite lookup_app_r by (rewrite length_take; lia). rewrite length_take, lookup_app_r by lia.
      rewrite lookup_drop. f_equal. lia.
  - rewrite (lookup_app_r p) by lia.
    assert ((wr + i) mod n = rd + (i - length p))%nat as -> by (revert Hb; unfold rd; ring_wrap).
    rewrite lookup_app_r, lookup_app_l by (rewrite length_take; lia). f_equal. rewrite length_take. lia.
Qed.

Lemma holds_drop n ring wr p k :
  holds n ring wr p -> (wr < n)%nat -> (k <= length p <= n)%nat -> holds n ring ((wr + k) mod n) (drop k p).
Proof.
  intros [Hl Hp] Hwr Hk. split; [done|]. intros i Hi. rewrite length_drop in Hi.
  rewrite lookup_drop, <-Hp by lia. rewrite Nat.Div0.add_mod_idemp_l. do 2 f_equal. lia.
Qed.

(** A stretch of the ring that does not cross its end. *)
Lemma holds_slice n ring wr p k :
  holds n ring wr p -> (k <= length p)%nat -> (wr + k <= n)%nat -> (wr < n)%nat ->
  take k (drop wr ring) = take k p.
Proof.
  intros [Hl Hp] Hk Hn Hwr. apply list_eq. intros i.
  destruct (decide (i < k)%nat); [|by rewrite !lookup_take_ge by lia].
  rewrite !lookup_take_lt, lookup_drop, <-Hp by lia. f_equal. ring_wrap.
Qed.

Lemma holds_prefix m ring wr p b : holds m ring wr (p ++ b) -> holds m ring wr p.
Proof.
  intros [Hl Hp]. split; [done|]. intros i Hi. rewrite Hp by (rewrite length_app; lia). by apply lookup_app_l.
Qed.

End Ring.
End Ring.
