(* ===== verification/PyStruct.v ===== *)
(** * The [struct] module, as the firmware uses it

    Fixed-width integer fields, byte strings and native alignment
    ([pack]/[unpack]/[unpack_from]/[Struct.size]) on a little-endian 64-bit
    host.  A byte is a [Z] in [0 .. 255]; [pack] raises [struct.error] for a
    value outside its field and for a wrong number of values. *)
From S2P Require Import Prelude.

Abbreviation bytes := (list Z).

Definition byte_ok (b : Z) : Prop := 0 <= b < 256.

(** ** Little-endian integers *)
Fixpoint le_bytes (n : nat) (z : Z) : bytes :=
  match n with
  | O => []
  | S n => z mod 256 :: le_bytes n (z / 256)
  end.

Fixpoint le_val (bs : bytes) : Z :=
  match bs with
  | [] => 0
  | b :: bs => b + 256 * le_val bs
  end.

Lemma le_bytes_length n z : length (le_bytes n z) = n.
Proof. revert z; induction n; intros z; cbn; auto. Qed.

Lemma le_bytes_ok n z : Forall byte_ok (le_bytes n z).
Proof.
  revert z; induction n as [|n IH]; intros z; cbn; constructor; [|done].
  by apply Z.mod_pos_bound.
Qed.

Lemma le_val_bytes n z : le_val (le_bytes n z) = z mod 256 ^ Z.of_nat n.
Proof.
  revert z; induction n as [|n IH]; intros z; cbn [le_bytes le_val].
  { by rewrite Z.mod_1_r. }
  rewrite IH, Nat2Z.inj_succ, Z.pow_succ_r by lia.
  rewrite (Z.rem_mul_r z 256) by lia. lia.
Qed.

Lemma le_val_small n z : 0 <= z < 256 ^ Z.of_nat n -> le_val (le_bytes n z) = z.
Proof. intros H. by rewrite le_val_bytes, Z.mod_small. Qed.

Lemma le_val_range bs :
  Forall byte_ok bs -> 0 <= le_val bs < 256 ^ Z.of_nat (length bs).
Proof.
  induction 1 as [|b bs Hb _ IH]; cbn [le_val length]; [done|].
  rewrite Nat2Z.inj_succ, Z.pow_succ_r by lia. unfold byte_ok in Hb. lia.
Qed.

Lemma le_bytes_val bs : Forall byte_ok bs -> le_bytes (length bs) (le_val bs) = bs.
Proof.
  induction 1 as [|b bs Hb Hbs IH]; cbn [le_val le_bytes length]; [done|].
  unfold byte_ok in Hb. f_equal.
  - rewrite Z.mul_comm, Z.mod_add by lia. by apply Z.mod_small.
  - rewrite Z.mul_comm, Z.div_add by lia. by rewrite Z.div_small.
Qed.

#[export] Hint Resolve le_bytes_length le_bytes_ok : heimdall.

(** ** Struct formats in native mode *)
Inductive field :=
  | Fb                (* 'b': signed char *)
  | FI                (* 'I': 32-bit unsigned *)
  | FQ                (* 'Q': 64-bit unsigned *)
  | Fs (n : nat).     (* '<n>s': n bytes *)

Inductive value := VInt (z : Z) | VBytes (bs : bytes).

Definition size_of (f : field) : nat :=
  match f with Fb => 1 | FI => 4 | FQ => 8 | Fs n => n end.

Definition align_of (f : field) : nat :=
  match f with FI => 4 | FQ => 8 | _ => 1 end.

(** Padding inserted before a field at offset [off]. *)
Definition pad (off a : nat) : nat := ((a - off mod a) mod a)%nat.

(** Two's complement of a signed char, and back. *)
Definition sx (w v : Z) : Z := if 2 ^ (w - 1) <=? v then v - 2 ^ w else v.

(** ['16s'] zero-pads a short byte string and truncates a long one. *)
Definition fit (n : nat) (bs : bytes) : bytes :=
  take n bs ++ replicate (n - length bs) 0.

Definition enc (f : field) (v : value) : res bytes :=
  match f, v with
  | Fb, VInt z => if (-128 <=? z) && (z <=? 127) then Ok [z mod 256] else Raise StructError
  | FI, VInt z => if (0 <=? z) && (z <? 2 ^ 32) then Ok (le_bytes 4 z) else Raise StructError
  | FQ, VInt z => if (0 <=? z) && (z <? 2 ^ 64) then Ok (le_bytes 8 z) else Raise StructError
  | Fs n, VBytes bs => Ok (fit n bs)
  | _, _ => Raise StructError
  end.

Definition dec (f : field) (bs : bytes) : value :=
  match f with
  | Fb => VInt (sx 8 (le_val bs))
  | FI | FQ => VInt (le_val bs)
  | Fs _ => VBytes bs
  end.

Fixpoint calcsize_at (off : nat) (fmt : list field) : nat :=
  match fmt with
  | [] => off
  | f :: fmt => calcsize_at (off + pad off (align_of f) + size_of f) fmt
  end.

Definition calcsize (fmt : list field) : nat := calcsize_at 0 fmt.

Fixpoint pack_at (off : nat) (fmt : list field) (vs : list value) : res bytes :=
  match fmt, vs with
  | [], [] => Ok []
  | f :: fmt, v :: vs =>
      bs ← enc f v;
      rest ← pack_at (off + pad off (align_of f) + size_of f) fmt vs;
      Ok (replicate (pad off (align_of f)) 0 ++ bs ++ rest)
  | _, _ => Raise StructError
  end.

Definition pack (fmt : list field) (vs : list value) : res bytes := pack_at 0 fmt vs.

Fixpoint unpack_at (off : nat) (fmt : list field) (bs : bytes) : list value :=
  match fmt with
  | [] => []
  | f :: fmt =>
      let p := pad off (align_of f) in
      let body := drop p bs in
      dec f (take (size_of f) body)
        :: unpack_at (off + p + size_of f) fmt (drop (size_of f) body)
  end.

(** [Struct.unpack] needs a buffer of exactly the struct's size;
    [unpack_from] reads a prefix. *)
Definition unpack (fmt : list field) (bs : bytes) : res (list value) :=
  if bool_decide (length bs = calcsize fmt) then Ok (unpack_at 0 fmt bs)
  else Raise StructError.

Definition unpack_from (fmt : list field) (bs : bytes) (off : nat) : res (list value) :=
  if bool_decide (off + calcsize fmt <= length bs)%nat
  then Ok (unpack_at 0 fmt (take (calcsize fmt) (drop off bs)))
  else Raise StructError.

(** What a packed value reads back as: byte strings are fitted to their field. *)
Definition norm (f : field) (v : value) : value :=
  match f, v with
  | Fs n, VBytes bs => VBytes (fit n bs)
  | _, _ => v
  end.

(** The padding bytes of [bs] are zero. *)
Fixpoint pad_zero_at (off : nat) (fmt : list field) (bs : bytes) : bool :=
  match fmt with
  | [] => true
  | f :: fmt =>
      let p := pad off (align_of f) in
      bool_decide (take p bs = replicate p 0)
      && pad_zero_at (off + p + size_of f) fmt (drop (p + size_of f) bs)
  end.

(** ** Lemmas *)
Lemma le_val_one b : le_val [b] = b.
Proof. cbn. lia. Qed.

(** Sign extension inverts the two's complement mask. *)
Lemma sx_mod w z : 0 < w -> - 2 ^ (w - 1) <= z < 2 ^ (w - 1) -> sx w (z mod 2 ^ w) = z.
Proof.
  intros Hw Hz. unfold sx.
  assert (2 ^ w = 2 * 2 ^ (w - 1)) as Hp.
  { rewrite <-Z.pow_succ_r by lia. f_equal. lia. }
  destruct (decide (0 <= z)).
  - rewrite Z.mod_small by lia. by rewrite (proj2 (Z.leb_gt _ _)) by lia.
  - assert (z mod 2 ^ w = z + 2 ^ w) as ->.
    { symmetry. apply (Z.mod_unique _ _ (-1)); lia. }
    rewrite (proj2 (Z.leb_le _ _)) by lia. lia.
Qed.

Lemma sx_range w v : 0 < w -> 0 <= v < 2 ^ w -> - 2 ^ (w - 1) <= sx w v < 2 ^ (w - 1).
Proof.
  intros Hw Hv. unfold sx.
  assert (2 ^ w = 2 * 2 ^ (w - 1)) by (rewrite <-Z.pow_succ_r by lia; f_equal; lia).
  destruct (Z.leb_spec (2 ^ (w - 1)) v); lia.
Qed.

Lemma sx_mod_id w v : 0 < w -> 0 <= v < 2 ^ w -> sx w v mod 2 ^ w = v.
Proof.
  intros Hw Hv. unfold sx. destruct (Z.leb_spec (2 ^ (w - 1)) v).
  - replace (v - 2 ^ w) with (v + (-1) * 2 ^ w) by lia.
    rewrite Z.mod_add by lia. by apply Z.mod_small.
  - by apply Z.mod_small.
Qed.

Lemma pad_aligned off a : (a | off)%nat -> pad off a = 0%nat.
Proof.
  intros [k ->]. unfold pad. by rewrite Nat.Div0.mod_mul, Nat.sub_0_r, Nat.Div0.mod_same.
Qed.

Lemma fit_length n bs : length (fit n bs) = n.
Proof. unfold fit. rewrite length_app, length_take, length_replicate. lia. Qed.

Lemma fit_id bs : fit (length bs) bs = bs.
Proof. unfold fit. by rewrite firstn_all, Nat.sub_diag, app_nil_r. Qed.

Lemma fit_ok n bs : Forall byte_ok bs -> Forall byte_ok (fit n bs).
Proof.
  intros H. unfold fit. apply Forall_app; split.
  - by apply Forall_take.
  - apply Forall_replicate. unfold byte_ok. lia.
Qed.

Lemma enc_length f v bs : enc f v = Ok bs -> length bs = size_of f.
Proof.
  destruct f, v; cbn; intros H; repeat case_hyp H; simp_res; auto using fit_length.
Qed.

Lemma enc_dec f v bs : enc f v = Ok bs -> dec f bs = norm f v.
Proof.
  destruct f, v; cbn [enc dec norm]; intros H; repeat case_hyp H; simp_res; bool_prop; try done.
  - f_equal. rewrite le_val_one. apply (sx_mod 8); lia.
  - f_equal. by apply le_val_small.
  - f_equal. by apply le_val_small.
Qed.

Lemma dec_enc f bs :
  Forall byte_ok bs -> length bs = size_of f -> enc f (dec f bs) = Ok bs.
Proof.
  intros Hok Hlen. pose proof (le_val_range bs Hok) as Hr. rewrite Hlen in Hr.
  destruct f; cbn [enc dec size_of] in *.
  - destruct bs as [|b [|]]; cbn in Hlen; try lia. rewrite le_val_one in *.
    pose proof (sx_range 8 b ltac:(lia) ltac:(lia)).
    rewrite (proj2 (Z.leb_le _ _)), (proj2 (Z.leb_le _ _)) by lia. cbn [andb].
    do 2 f_equal. apply (sx_mod_id 8); lia.
  - change (256 ^ Z.of_nat 4) with (2 ^ 32) in Hr.
    rewrite (proj2 (Z.leb_le _ _)), (proj2 (Z.ltb_lt _ _)) by lia. cbn [andb].
    f_equal. rewrite <-Hlen. by apply le_bytes_val.
  - change (256 ^ Z.of_nat 8) with (2 ^ 64) in Hr.
    rewrite (proj2 (Z.leb_le _ _)), (proj2 (Z.ltb_lt _ _)) by lia. cbn [andb].
    f_equal. rewrite <-Hlen. by apply le_bytes_val.
  - f_equal. rewrite <-Hlen. apply fit_id.
Qed.

Lemma calcsize_at_ge off fmt : (off <= calcsize_at off fmt)%nat.
Proof. revert off; induction fmt as [|f fmt IH]; intros off; cbn; [lia|]. etrans; [|apply IH]. lia. Qed.

Lemma calcsize_at_shift off fmt fmt' :
  calcsize_at off (fmt ++ fmt') = calcsize_at (calcsize_at off fmt) fmt'.
Proof. revert off; induction fmt as [|f fmt IH]; intros off; cbn; auto. Qed.

Lemma pack_at_length off fmt vs bs :
  pack_at off fmt vs = Ok bs -> (off + length bs = calcsize_at off fmt)%nat.
Proof.
  revert off vs bs; induction fmt as [|f fmt IH]; intros off [|v vs] bs; cbn; intros H;
    simp_res; cbn; try lia.
  repeat case_hyp H; simp_res. apply enc_length in Heqr.
  rewrite <-(IH _ _ _ Heqr0), !length_app, length_replicate. lia.
Qed.

Lemma pack_length fmt vs bs : pack fmt vs = Ok bs -> length bs = calcsize fmt.
Proof. intros H. by apply (pack_at_length 0) in H. Qed.

Lemma unpack_pack_at off fmt vs bs :
  pack_at off fmt vs = Ok bs -> unpack_at off fmt bs = zip_with norm fmt vs.
Proof.
  revert off vs bs; induction fmt as [|f fmt IH]; intros off [|v vs] bs; cbn; intros H;
    simp_res; try done.
  repeat case_hyp H; simp_res. pose proof (enc_length _ _ _ Heqr) as Hl.
  rewrite (drop_app_length' (replicate _ 0)) by by rewrite length_replicate.
  rewrite take_app_length', drop_app_length' by done.
  by rewrite (enc_dec _ _ _ Heqr), (IH _ _ _ Heqr0).
Qed.

(** Reading back a packed struct gives the values that were packed (byte
    strings fitted to their field width). *)
Lemma unpack_pack fmt vs bs :
  pack fmt vs = Ok bs -> unpack fmt bs = Ok (zip_with norm fmt vs).
Proof.
  intros H. unfold unpack. rewrite bool_decide_eq_true_2 by by eapply pack_length.
  f_equal. by apply unpack_pack_at.
Qed.

Lemma unpack_at_length off fmt bs : length (unpack_at off fmt bs) = length fmt.
Proof. revert off bs; induction fmt; intros; cbn; auto. Qed.

Lemma pack_unpack_at off fmt bs :
  Forall byte_ok bs -> (off + length bs = calcsize_at off fmt)%nat ->
  pad_zero_at off fmt bs = true ->
  pack_at off fmt (unpack_at off fmt bs) = Ok bs.
Proof.
  revert off bs; induction fmt as [|f fmt IH]; intros off bs Hok Hlen Hz; cbn in *.
  { destruct bs; cbn in *; [done|lia]. }
  set (p := pad off (align_of f)) in *.
  apply andb_true_iff in Hz as [Hz0 Hz].
  pose proof (calcsize_at_ge (off + p + size_of f) fmt) as Hge.
  rewrite dec_enc; cycle 1.
  { by apply Forall_take, Forall_drop. }
  { rewrite length_take, length_drop. lia. }
  cbn. rewrite drop_drop, IH; cycle 1.
  { by apply Forall_drop. }
  { rewrite length_drop. lia. }
  { done. }
  cbn. f_equal.
  apply bool_decide_eq_true in Hz0. rewrite <-Hz0.
  rewrite <-drop_drop. by rewrite take_drop, take_drop.
Qed.

(** Decoding a buffer and packing the result gives the buffer back when its
    alignment padding is zero (it is, for every buffer this codec wrote). *)
Lemma pack_unpack fmt bs vs :
  Forall byte_ok bs -> pad_zero_at 0 fmt bs = true ->
  unpack fmt bs = Ok vs -> pack fmt vs = Ok bs.
Proof.
  unfold unpack. intros Hok Hz H. case_bool_decide; simp_res. by apply pack_unpack_at.
Qed.

(** Packing a concatenation, aligned runs of words, and totality. *)
Lemma pack_at_app off f1 f2 v1 v2 bs :
  length v1 = length f1 -> pack_at off (f1 ++ f2) (v1 ++ v2) = Ok bs ->
  exists b1 b2, pack_at off f1 v1 = Ok b1 /\ pack_at (calcsize_at off f1) f2 v2 = Ok b2
                /\ bs = b1 ++ b2.
Proof.
  revert off v1 bs; induction f1 as [|f f1 IH]; intros off [|v v1] bs Hl; cbn in Hl; try lia; cbn.
  { intros H. by exists [], bs. }
  intros (b & Hb & (r & Hr & [= <-])%res_bind_ok)%res_bind_ok.
  apply IH in Hr as (b1 & b2 & H1 & H2 & ->); [|lia].
  exists (replicate (pad off (align_of f)) 0 ++ b ++ b1), b2.
  rewrite Hb. cbn. rewrite H1. cbn. by rewrite <-!app_assoc.
Qed.

Lemma pack_at_ok off fmt vs :
  Forall2 (fun f v => is_ok (enc f v) = true) fmt vs -> exists bs, pack_at off fmt vs = Ok bs.
Proof.
  intros H. revert off; induction H as [|f v fmt vs Hfv _ IH]; intros off; cbn; [by eexists|].
  destruct (enc f v) as [b|]; [|done]. cbn.
  destruct (IH (off + pad off (align_of f) + size_of f)%nat) as [r ->]. cbn. by eexists.
Qed.

Lemma pack_u32_run off zs bs :
  (4 | off)%nat -> pack_at off (replicate (length zs) FI) (map VInt zs) = Ok bs ->
  bs = concat (map (le_bytes 4) zs).
Proof.
  revert off bs; induction zs as [|z zs IH]; intros off bs Hd; cbn [length replicate map pack_at].
  { by intros [= <-]. }
  rewrite pad_aligned by done. cbn [enc]. case_goal; [|done]. unfold mbind at 1, res_bind at 1.
  intros (r & Hr & <-%Ok_inj)%res_bind_ok. cbn [replicate concat]. rewrite app_nil_l. f_equal.
  eapply IH; [|done]. destruct Hd as [k ->]. exists (k + 1)%nat. cbn [size_of]. lia.
Qed.

Lemma pack_at_bytes_ok off fmt vs bs :
  Forall (fun v => match v with VBytes b => Forall byte_ok b | VInt _ => True end) vs ->
  pack_at off fmt vs = Ok bs -> Forall byte_ok bs.
Proof.
  revert off vs bs; induction fmt as [|f fmt IH]; intros off [|v vs] bs Hv; cbn; intros H;
    simp_res; try done.
  inversion Hv; subst. repeat case_hyp H; simp_res. rewrite !Forall_app; split_and!.
  - apply Forall_replicate. unfold byte_ok. lia.
  - destruct f, v; cbn [enc] in Heqr; repeat case_hyp Heqr; simp_res; auto using le_bytes_ok, fit_ok.
    constructor; [by apply Z.mod_pos_bound|done].
  - by eapply IH.
Qed.

(** The [i]-th word of a run of words. *)
Lemma word_at zs i z rest :
  zs !! i = Some z ->
  take 4 (drop (4 * i) (concat (map (le_bytes 4) zs) ++ rest)) = le_bytes 4 z.
Proof.
  revert i; induction zs as [|x zs IH]; intros i Hi; [done|]. cbn [map concat].
  rewrite <-app_assoc. destruct i as [|i]; cbn in Hi.
  - simplify_eq. rewrite Nat.mul_0_r, drop_0, take_app_length'; [done|by rewrite le_bytes_length].
  - replace (4 * S i)%nat with (4 + 4 * i)%nat by lia.
    rewrite <-drop_drop, drop_app_length' by by rewrite le_bytes_length. by apply IH.
Qed.

Lemma pack_app f1 f2 v1 v2 bs n :
  calcsize f1 = n -> length v1 = length f1 -> pack (f1 ++ f2) (v1 ++ v2) = Ok bs ->
  exists b1 b2, length b1 = n /\ pack_at n f2 v2 = Ok b2 /\ bs = b1 ++ b2.
Proof.
  intros <- Hl (b1 & b2 & H1 & H2 & ->)%pack_at_app; [|done].
  exists b1, b2. split_and!; [by eapply pack_length|done|done].
Qed.
