(* ===== verification/PyFloat.v ===== *)
(** * Binary floats of the [struct] format ['f']

    A Python float is a binary64 value ([spec_float] of the Standard Library);
    [pack('f', x)] rounds it to binary32 (nearest, ties to even) and stores
    the IEEE bit pattern. *)
From S2P Require Import Prelude PyStruct.
From Stdlib Require Import SpecFloat.

(** Rounding of a binary64 value to binary32. *)
Definition to_f32 (x : spec_float) : spec_float :=
  match x with
  | S754_finite s m e => binary_normalize 24 128 (if s then Zneg m else Zpos m) e s
  | _ => x
  end.

Definition is_inf (x : spec_float) : bool :=
  match x with S754_infinity _ => true | _ => false end.

Definition sign_bit (s : bool) : Z := if s then 2 ^ 31 else 0.

Definition f32_bits (x : spec_float) : Z :=
  match x with
  | S754_zero s => sign_bit s
  | S754_infinity s => sign_bit s + 255 * 2 ^ 23
  | S754_nan => 255 * 2 ^ 23 + 2 ^ 22
  | S754_finite s m e =>
      if Zpos m <? 2 ^ 23 then sign_bit s + Zpos m
      else sign_bit s + (e + 150) * 2 ^ 23 + (Zpos m - 2 ^ 23)
  end.

Definition f32_of_bits (z : Z) : spec_float :=
  let s := 2 ^ 31 <=? z in
  let r := z mod 2 ^ 31 in
  let ex := r / 2 ^ 23 in
  let mn := r mod 2 ^ 23 in
  if ex =? 255 then (if mn =? 0 then S754_infinity s else S754_nan)
  else if ex =? 0 then
    match mn with Zpos m => S754_finite s m (-149) | _ => S754_zero s end
  else match mn + 2 ^ 23 with Zpos m => S754_finite s m (ex - 150) | _ => S754_nan end.

(** [pack('f', x)]: a finite value that rounds to infinity raises. *)
Definition pack_f (x : spec_float) : res bytes :=
  if is_inf (to_f32 x) && negb (is_inf x) then Raise OverflowError
  else Ok (le_bytes 4 (f32_bits (to_f32 x))).

Definition unpack_f (bs : bytes) : spec_float := f32_of_bits (le_val bs).

Lemma digits2_pos_bounds m :
  2 ^ (Zpos (digits2_pos m) - 1) <= Zpos m < 2 ^ Zpos (digits2_pos m).
Proof.
  assert (2 ^ Z.log2 (Zpos m) <= Zpos m < 2 ^ Z.succ (Z.log2 (Zpos m))) as H
    by by apply Z.log2_spec.
  assert (Zpos (digits2_pos m) = Z.succ (Z.log2 (Zpos m))) as ->.
  { induction m as [m IH|m IH|]; cbn [digits2_pos]; [| |done].
    - rewrite Pos2Z.inj_succ, IH by by apply Z.log2_spec.
      destruct m; cbn; lia.
    - rewrite Pos2Z.inj_succ, IH by by apply Z.log2_spec.
      destruct m; cbn; lia. }
  by replace (Z.succ (Z.log2 (Zpos m)) - 1) with (Z.log2 (Zpos m)) by lia.
Qed.

(** What [valid_binary 24 128] says of a finite binary32 value. *)
Lemma valid_f32_bounds s m e :
  valid_binary 24 128 (S754_finite s m e) = true ->
  (Zpos m < 2 ^ 23 /\ e = -149) \/ (2 ^ 23 <= Zpos m < 2 ^ 24 /\ -149 <= e <= 104).
Proof.
  cbn. unfold bounded, canonical_mantissa, fexp, emin. intros [Hc He]%andb_true_iff.
  apply Z.eqb_eq in Hc. apply Zle_bool_imp_le in He.
  pose proof (digits2_pos_bounds m) as [Hlo Hhi].
  set (d := Zpos (digits2_pos m)) in *.
  assert (d <= 24) by lia.
  destruct (decide (d = 24)) as [->|Hd].
  - right. change (2 ^ (24 - 1)) with (2 ^ 23) in Hlo. lia.
  - left. split; [|lia]. eapply Z.lt_le_trans; [exact Hhi|].
    apply Z.pow_le_mono_r; lia.
Qed.

Lemma f32_bits_range x :
  valid_binary 24 128 x = true -> 0 <= f32_bits x < 2 ^ 32.
Proof.
  destruct x as [s|s| |s m e]; unfold f32_bits, sign_bit; intros Hv; try (destruct s; lia); [lia|].
  apply valid_f32_bounds in Hv. destruct (Z.ltb_spec (Zpos m) (2 ^ 23)); destruct s; lia.
Qed.

(** The bit pattern of a binary32 value decodes to the value. *)
Lemma f32_of_bits_bits x : valid_binary 24 128 x = true -> f32_of_bits (f32_bits x) = x.
Proof.
  destruct x as [s|s| |s m e]; intros Hv; [by destruct s|by destruct s|done|].
  apply valid_f32_bounds in Hv. unfold f32_bits.
  set (body := if Zpos m <? 2 ^ 23 then Zpos m else (e + 150) * 2 ^ 23 + (Zpos m - 2 ^ 23)).
  assert ((if Zpos m <? 2 ^ 23 then sign_bit s + Zpos m
           else sign_bit s + (e + 150) * 2 ^ 23 + (Zpos m - 2 ^ 23)) = sign_bit s + body) as ->.
  { unfold body. destruct (_ <? _); lia. }
  assert (0 <= body < 2 ^ 31) as Hb.
  { unfold body. destruct (Z.ltb_spec (Zpos m) (2 ^ 23)); lia. }
  unfold f32_of_bits.
  assert ((2 ^ 31 <=? sign_bit s + body) = s) as ->.
  { unfold sign_bit. destruct s; [apply Z.leb_le|apply Z.leb_gt]; lia. }
  assert ((sign_bit s + body) mod 2 ^ 31 = body) as ->.
  { unfold sign_bit. destruct s.
    - replace (2 ^ 31 + body) with (body + 1 * 2 ^ 31) by lia.
      rewrite Z.mod_add by lia. by apply Z.mod_small.
    - by apply Z.mod_small. }
  unfold body. destruct (Z.ltb_spec (Zpos m) (2 ^ 23)) as [Hm|Hm].
  - rewrite Z.div_small, Z.mod_small by lia. cbn. destruct Hv as [[_ ->]|]; [done|lia].
  - assert (((e + 150) * 2 ^ 23 + (Zpos m - 2 ^ 23)) / 2 ^ 23 = e + 150) as ->.
    { rewrite Z.div_add_l, Z.div_small by lia. lia. }
    assert (((e + 150) * 2 ^ 23 + (Zpos m - 2 ^ 23)) mod 2 ^ 23 = Zpos m - 2 ^ 23) as ->.
    { rewrite Z.add_comm, Z.mod_add by lia. apply Z.mod_small. lia. }
    rewrite (proj2 (Z.eqb_neq _ _)), (proj2 (Z.eqb_neq _ _)) by lia.
    replace (Zpos m - 2 ^ 23 + 2 ^ 23) with (Zpos m) by lia. f_equal. lia.
Qed.

Lemma pack_f_length x bs : pack_f x = Ok bs -> length bs = 4%nat.
Proof. unfold pack_f. case_goal; intros H; simp_res. apply le_bytes_length. Qed.

Lemma unpack_pack_f x bs :
  valid_binary 24 128 (to_f32 x) = true -> pack_f x = Ok bs -> unpack_f bs = to_f32 x.
Proof.
  intros Hv. unfold pack_f. case_goal; intros H; simp_res. unfold unpack_f.
  rewrite le_val_small by by apply f32_bits_range. by apply f32_of_bits_bits.
Qed.

Example pack_f_one_and_a_half :
  pack_f (S754_finite false 6755399441055744 (-52)) = Ok [0; 0; 192; 63].
Proof. reflexivity. Qed.
