(* ===== verification/PyText.v ===== *)
(** * Text: UTF-8, decimal integers, whitespace, CRC-32

    What the modelled code uses of [str], [bytes.decode], [int()] and
    [zlib.crc32].  A Python string is a list of code points where its
    encoding matters ([utf8_encode]/[utf8_decode]) and a [string] of
    characters below 256 elsewhere. *)
From S2P Require Import Prelude PyStruct.
From Stdlib Require Import Ascii DecimalString DecimalZ DecimalPos DecimalFacts.

(** ** UTF-8, strict error handling *)
Definition is_surrogate (c : Z) : bool := (55296 <=? c) && (c <=? 57343).

Definition utf8_char (c : Z) : res bytes :=
  if c <? 128 then Ok [c]
  else if c <? 2048 then Ok [192 + c / 64; 128 + c mod 64]
  else if is_surrogate c then Raise UnicodeError
  else if c <? 65536 then Ok [224 + c / 4096; 128 + (c / 64) mod 64; 128 + c mod 64]
  else Ok [240 + c / 262144; 128 + (c / 4096) mod 64; 128 + (c / 64) mod 64; 128 + c mod 64].

Fixpoint utf8_encode (s : list Z) : res bytes :=
  match s with
  | [] => Ok []
  | c :: s => b ← utf8_char c; r ← utf8_encode s; Ok (b ++ r)
  end.

(** A continuation byte. *)
Definition cont (b : Z) : bool := (128 <=? b) && (b <? 192).

Fixpoint utf8_decode (bs : bytes) : res (list Z) :=
  match bs with
  | [] => Ok []
  | b0 :: t =>
      if b0 <? 128 then r ← utf8_decode t; Ok (b0 :: r)
      else match t with
      | [] => Raise UnicodeError
      | b1 :: t1 =>
          if negb (cont b1) then Raise UnicodeError
          else if (194 <=? b0) && (b0 <? 224) then
            r ← utf8_decode t1; Ok ((b0 - 192) * 64 + (b1 - 128) :: r)
          else match t1 with
          | [] => Raise UnicodeError
          | b2 :: t2 =>
              if negb (cont b2) then Raise UnicodeError
              else if (224 <=? b0) && (b0 <? 240) then
                let c := (b0 - 224) * 4096 + (b1 - 128) * 64 + (b2 - 128) in
                if (c <? 2048) || is_surrogate c then Raise UnicodeError
                else r ← utf8_decode t2; Ok (c :: r)
              else match t2 with
              | [] => Raise UnicodeError
              | b3 :: t3 =>
                  if negb (cont b3) then Raise UnicodeError
                  else if (240 <=? b0) && (b0 <? 245) then
                    let c := (b0 - 240) * 262144 + (b1 - 128) * 4096
                             + (b2 - 128) * 64 + (b3 - 128) in
                    if (c <? 65536) || (1114111 <? c) then Raise UnicodeError
                    else r ← utf8_decode t3; Ok (c :: r)
                  else Raise UnicodeError
              end
          end
      end
  end.

(** A Unicode scalar value. *)
Definition scalar (c : Z) : Prop := 0 <= c <= 1114111 /\ is_surrogate c = false.

Ltac split_bool :=
  repeat match goal with
    | |- context [?a <? ?b] => destruct (Z.ltb_spec a b)
    | |- context [?a <=? ?b] => destruct (Z.leb_spec a b)
    end.

Lemma utf8_decode_char c b rest :
  scalar c -> utf8_char c = Ok b ->
  utf8_decode (b ++ rest) = (r ← utf8_decode rest; Ok (c :: r)).
Proof.
  intros [Hc Hs] H. unfold utf8_char in H. rewrite Hs in H.
  unfold is_surrogate in Hs.
  destruct (Z.ltb_spec c 128); [simp_res; cbn; by rewrite (proj2 (Z.ltb_lt _ _)) by lia|].
  destruct (Z.ltb_spec c 2048); [|destruct (Z.ltb_spec c 65536)]; simp_res;
    cbn [app utf8_decode]; unfold cont, is_surrogate.
  - assert (c / 64 * 64 + c mod 64 = c) by (rewrite Z.mul_comm; symmetry; apply Z.div_mod; lia).
    pose proof (Z.mod_pos_bound c 64).
    rewrite (proj2 (Z.ltb_ge _ 128)), (proj2 (Z.leb_le 128 _)), (proj2 (Z.ltb_lt _ 192)),
      (proj2 (Z.leb_le 194 _)), (proj2 (Z.ltb_lt _ 224)) by lia. cbn [andb negb].
    replace ((192 + c / 64 - 192) * 64 + (128 + c mod 64 - 128)) with c by lia. done.
  - pose proof (Z.mod_pos_bound c 64). pose proof (Z.mod_pos_bound (c / 64) 64).
    pose proof (Z.div_mod c 64 ltac:(lia)). pose proof (Z.div_mod (c / 64) 64 ltac:(lia)).
    rewrite Z.div_div in * by lia. change (64 * 64) with 4096 in *.
    rewrite (proj2 (Z.ltb_ge _ 128)), (proj2 (Z.leb_le 128 _)), (proj2 (Z.ltb_lt _ 192)) by lia.
    rewrite (proj2 (Z.ltb_ge _ 224)) by lia. rewrite andb_false_r. cbn [andb negb].
    rewrite (proj2 (Z.leb_le 128 _)), (proj2 (Z.ltb_lt _ 192)) by lia. cbn [andb negb].
    rewrite (proj2 (Z.leb_le 224 _)), (proj2 (Z.ltb_lt _ 240)) by lia. cbn [andb].
    replace ((224 + c / 4096 - 224) * 4096 + (128 + (c / 64) mod 64 - 128) * 64
             + (128 + c mod 64 - 128)) with c by lia.
    by rewrite (proj2 (Z.ltb_ge _ 2048)), Hs by lia.
  - pose proof (Z.mod_pos_bound c 64). pose proof (Z.mod_pos_bound (c / 64) 64).
    pose proof (Z.mod_pos_bound (c / 4096) 64).
    pose proof (Z.div_mod c 64 ltac:(lia)). pose proof (Z.div_mod (c / 64) 64 ltac:(lia)).
    pose proof (Z.div_mod (c / 4096) 64 ltac:(lia)).
    rewrite !Z.div_div in * by lia. change (64 * 64) with 4096 in *.
    change (4096 * 64) with 262144 in *.
    rewrite (proj2 (Z.ltb_ge _ 128)), (proj2 (Z.leb_le 128 _)), (proj2 (Z.ltb_lt _ 192)) by lia.
    rewrite (proj2 (Z.ltb_ge _ 224)) by lia. rewrite andb_false_r. cbn [andb negb].
    rewrite (proj2 (Z.leb_le 128 _)), (proj2 (Z.ltb_lt _ 192)) by lia.
    rewrite (proj2 (Z.ltb_ge _ 240)) by lia. rewrite andb_false_r. cbn [andb negb].
    rewrite (proj2 (Z.leb_le 128 _)), (proj2 (Z.ltb_lt _ 192)) by lia.
    rewrite (proj2 (Z.leb_le 240 _)), (proj2 (Z.ltb_lt _ 245)) by lia. cbn [andb negb].
    replace ((240 + c / 262144 - 240) * 262144 + (128 + (c / 4096) mod 64 - 128) * 4096
             + (128 + (c / 64) mod 64 - 128) * 64 + (128 + c mod 64 - 128)) with c by lia.
    by rewrite (proj2 (Z.ltb_ge _ 65536)), (proj2 (Z.ltb_ge 1114111 _)) by lia.
Qed.

(** Decoding an encoded string gives the string back. *)
Lemma utf8_roundtrip s bs :
  Forall scalar s -> utf8_encode s = Ok bs -> utf8_decode bs = Ok s.
Proof.
  intros Hs. revert bs; induction Hs as [|c s Hc _ IH]; intros bs; cbn [utf8_encode].
  { by intros [= <-]. }
  intros (b & Hb & (r & Hr & [= <-])%res_bind_ok)%res_bind_ok.
  rewrite (utf8_decode_char c) by done. by rewrite (IH _ Hr).
Qed.

Lemma utf8_encode_ok s : Forall scalar s -> exists bs, utf8_encode s = Ok bs /\ Forall byte_ok bs.
Proof.
  induction 1 as [|c s [Hc Hs] _ (bs & IH & Hbs)]; cbn [utf8_encode]; [by exists []|].
  assert (exists b, utf8_char c = Ok b /\ Forall byte_ok b) as (b & -> & Hb).
  { unfold utf8_char. rewrite Hs.
    repeat case_goal; eexists; (split; [done|]); bool_prop; unfold byte_ok; repeat constructor;
      Z.to_euclidean_division_equations; lia. }
  rewrite IH. cbn. eexists; split; [done|]. by apply Forall_app.
Qed.

Lemma utf8_char_2 b0 b1 :
  194 <= b0 < 224 -> 128 <= b1 < 192 -> utf8_char ((b0 - 192) * 64 + (b1 - 128)) = Ok [b0; b1].
Proof.
  intros. unfold utf8_char. rewrite (proj2 (Z.ltb_ge _ _)), (proj2 (Z.ltb_lt _ _)) by lia.
  rewrite Z.div_add_l, (Z.add_comm (_ * 64)), Z.mod_add by lia.
  rewrite Z.div_small, Z.mod_small by lia. f_equal. repeat f_equal; lia.
Qed.

Lemma utf8_char_3 b0 b1 b2 c :
  c = (b0 - 224) * 4096 + (b1 - 128) * 64 + (b2 - 128) ->
  224 <= b0 < 240 -> 128 <= b1 < 192 -> 128 <= b2 < 192 ->
  (c <? 2048) || is_surrogate c = false -> utf8_char c = Ok [b0; b1; b2].
Proof.
  intros Hc ? ? ? [? Hs]%orb_false_iff. bool_prop. unfold utf8_char. rewrite Hs.
  rewrite (proj2 (Z.ltb_ge _ 128)), (proj2 (Z.ltb_ge _ 2048)), (proj2 (Z.ltb_lt _ 65536)) by lia.
  f_equal. repeat f_equal; Z.to_euclidean_division_equations; lia.
Qed.

Lemma utf8_char_4 b0 b1 b2 b3 c :
  c = (b0 - 240) * 262144 + (b1 - 128) * 4096 + (b2 - 128) * 64 + (b3 - 128) ->
  240 <= b0 < 245 -> 128 <= b1 < 192 -> 128 <= b2 < 192 -> 128 <= b3 < 192 ->
  65536 <= c -> utf8_char c = Ok [b0; b1; b2; b3].
Proof.
  intros Hc ? ? ? ? ?. unfold utf8_char.
  assert (is_surrogate c = false) as ->.
  { unfold is_surrogate. rewrite (proj2 (Z.leb_gt c 57343)) by lia. apply andb_false_r. }
  rewrite (proj2 (Z.ltb_ge _ 128)), (proj2 (Z.ltb_ge _ 2048)), (proj2 (Z.ltb_ge _ 65536)) by lia.
  f_equal. repeat f_equal; Z.to_euclidean_division_equations; lia.
Qed.

(** Strict decoding is injective: re-encoding gives the same bytes. *)
Lemma utf8_decode_encode bs s : utf8_decode bs = Ok s -> utf8_encode s = Ok bs.
Proof.
  remember (length bs) as n eqn:Hn. revert bs s Hn.
  induction n as [n IH] using (well_founded_induction lt_wf); intros bs s ->.
  assert (forall c b t r, (length t < length bs)%nat -> utf8_char c = Ok b ->
            utf8_decode t = Ok r -> utf8_encode (c :: r) = Ok (b ++ t)) as Hstep.
  { intros c b t r Hlt Hc Hr. cbn [utf8_encode]. rewrite Hc. cbn. by rewrite (IH _ Hlt t r). }
  destruct bs as [|b0 t]; cbn [utf8_decode]; [by intros [= <-]|].
  destruct (Z.ltb_spec b0 128).
  { intros (r & Hr & [= <-])%res_bind_ok. apply (Hstep _ [b0]); [cbn; lia| |done].
    unfold utf8_char. by rewrite (proj2 (Z.ltb_lt _ _)). }
  destruct t as [|b1 t]; [done|]. destruct (cont b1) eqn:E1; cbn [negb]; [|done].
  unfold cont in E1. destruct ((194 <=? b0) && (b0 <? 224))%bool eqn:E0; bool_prop.
  { intros (r & Hr & [= <-])%res_bind_ok. apply (Hstep _ [b0; b1]); [cbn; lia| |done].
    apply utf8_char_2; lia. }
  clear E0. destruct t as [|b2 t]; [done|]. destruct (cont b2) eqn:E2; cbn [negb]; [|done].
  unfold cont in E2. destruct ((224 <=? b0) && (b0 <? 240))%bool eqn:E0; bool_prop.
  { destruct (_ || _)%bool eqn:Es; [done|]. intros (r & Hr & [= <-])%res_bind_ok.
    apply (Hstep _ [b0; b1; b2]); [cbn; lia| |done]. by apply utf8_char_3. }
  clear E0. destruct t as [|b3 t]; [done|]. destruct (cont b3) eqn:E3; cbn [negb]; [|done].
  unfold cont in E3. destruct ((240 <=? b0) && (b0 <? 245))%bool eqn:E0; bool_prop; [|done].
  destruct (_ || _)%bool eqn:Es; [done|]. bool_prop. intros (r & Hr & [= <-])%res_bind_ok.
  apply (Hstep _ [b0; b1; b2; b3]); [cbn; lia| |done]. by apply utf8_char_4.
Qed.

(** ** Decimal integers *)
Definition str_of_int (z : Z) : string := NilZero.string_of_int (Z.to_int z).

Definition char_code (c : ascii) : Z := Z.of_nat (Ascii.nat_of_ascii c).

Definition is_digit (c : ascii) : bool := (48 <=? char_code c) && (char_code c <=? 57).

(** [str.isspace] on one character below 256. *)
Definition is_space (c : ascii) : bool :=
  let n := char_code c in
  ((9 <=? n) && (n <=? 13)) || ((28 <=? n) && (n <=? 32)) || (n =? 133) || (n =? 160).

Abbreviation chars := (list ascii).

Fixpoint to_chars (s : string) : chars :=
  match s with
  | EmptyString => []
  | String c s => c :: to_chars s
  end.

Fixpoint of_chars (l : chars) : string :=
  match l with
  | [] => EmptyString
  | c :: l => String c (of_chars l)
  end.

Fixpoint drop_while (p : ascii -> bool) (l : chars) : chars :=
  match l with
  | [] => []
  | c :: l' => if p c then drop_while p l' else l
  end.

(** [str.strip()] *)
Definition strip (l : chars) : chars :=
  reverse (drop_while is_space (reverse (drop_while is_space l))).

(** [str.split()]: the maximal runs of non-whitespace characters. *)
Fixpoint split_go (acc : chars) (l : chars) : list chars :=
  match l with
  | [] => match acc with [] => [] | _ => [reverse acc] end
  | c :: l =>
      if is_space c
      then match acc with [] => split_go [] l | _ => reverse acc :: split_go [] l end
      else split_go (c :: acc) l
  end.

Definition split_ws (l : chars) : list chars := split_go [] l.

(** [str.split(sep)] for a one-character separator. *)
Fixpoint split_on_go (sep : ascii) (acc : chars) (l : chars) : list chars :=
  match l with
  | [] => [reverse acc]
  | c :: l =>
      if bool_decide (c = sep) then reverse acc :: split_on_go sep [] l
      else split_on_go sep (c :: acc) l
  end.

Definition split_on (sep : ascii) (l : chars) : list chars := split_on_go sep [] l.

(** Digits with single underscores between them; [None] otherwise. *)
Fixpoint digits_val (acc : Z) (prev_digit : bool) (l : chars) : option Z :=
  match l with
  | [] => if prev_digit then Some acc else None
  | c :: l =>
      if is_digit c then digits_val (acc * 10 + (char_code c - 48)) true l
      else if bool_decide (c = "_"%char) && prev_digit then digits_val acc false l
      else None
  end.

(** [int(s)] of a string ([None] = [ValueError]). *)
Definition int_of_chars (l : chars) : option Z :=
  match strip l with
  | [] => None
  | c :: r =>
      if bool_decide (c = "-"%char) then Z.opp <$> digits_val 0 false r
      else if bool_decide (c = "+"%char) then digits_val 0 false r
      else digits_val 0 false (c :: r)
  end.

(** [s.isdigit() and s.isascii()] *)
Definition isdigit (l : chars) : bool :=
  match l with [] => false | _ => forallb is_digit l end.

(** ** CRC-32 (zlib) *)
Fixpoint crc_bits (n : nat) (c : Z) : Z :=
  match n with
  | O => c
  | S n => crc_bits n (if Z.odd c then Z.lxor (Z.shiftr c 1) 3988292384 else Z.shiftr c 1)
  end.

Definition crc_step (c b : Z) : Z := crc_bits 8 (Z.lxor c b).

Definition crc32 (bs : bytes) : Z := Z.lxor (foldl crc_step 4294967295 bs) 4294967295.

(** ** Lemmas *)
Lemma to_of_chars l : to_chars (of_chars l) = l.
Proof. induction l; cbn; congruence. Qed.

Lemma of_to_chars s : of_chars (to_chars s) = s.
Proof. induction s; cbn; congruence. Qed.

Lemma crc32_check : crc32 (map char_code (to_chars "123456789")) = 3421780262.
Proof. vm_compute. reflexivity. Qed.

Lemma lxor_range n a b :
  0 <= n -> 0 <= a < 2 ^ n -> 0 <= b < 2 ^ n -> 0 <= Z.lxor a b < 2 ^ n.
Proof.
  intros Hn Ha Hb. destruct (decide (a = 0)) as [->|]; [by rewrite Z.lxor_0_l|].
  destruct (decide (b = 0)) as [->|]; [by rewrite Z.lxor_0_r|].
  assert (0 <= Z.lxor a b) by (apply Z.lxor_nonneg; lia). split; [done|].
  destruct (decide (Z.lxor a b = 0)) as [->|]; [lia|].
  apply Z.log2_lt_pow2; [lia|]. eapply Z.le_lt_trans; [apply Z.log2_lxor; lia|].
  apply Z.max_lub_lt; apply Z.log2_lt_pow2; lia.
Qed.

Lemma crc_bits_range n c : 0 <= c < 2 ^ 32 -> 0 <= crc_bits n c < 2 ^ 32.
Proof.
  revert c; induction n as [|n IH]; intros c Hc; cbn [crc_bits]; [done|]. apply IH.
  assert (0 <= Z.shiftr c 1 < 2 ^ 32).
  { rewrite Z.shiftr_div_pow2 by lia. Z.to_euclidean_division_equations; lia. }
  case_goal; [|done]. apply lxor_range; lia.
Qed.

(** A CRC is a 32-bit value, so masking it with [0xFFFFFFFF] changes nothing. *)
Lemma crc32_range bs : Forall byte_ok bs -> 0 <= crc32 bs < 2 ^ 32.
Proof.
  intros Hbs. unfold crc32. apply lxor_range; [lia| |lia].
  assert (forall c, 0 <= c < 2 ^ 32 -> 0 <= foldl crc_step c bs < 2 ^ 32) as H.
  { induction Hbs as [|b bs Hb _ IH]; intros c Hc; cbn [foldl]; [done|]. apply IH.
    apply crc_bits_range, lxor_range; [lia|done|]. unfold byte_ok in Hb. lia. }
  apply H. lia.
Qed.

(** ** Printing and reading integers *)
(** Evaluate one digit of [digits_val]. *)
Ltac eval_digit :=
  cbn -[Z.mul Z.add Z.sub Pos.mul Pos.add is_digit char_code];
  match goal with
  | |- (if is_digit ?c then digits_val (_ + ?k) _ _ else _) = _ =>
      change (is_digit c) with true; let v := eval vm_compute in k in change k with v
  end; cbn match.

Lemma digits_val_acc u acc :
  digits_val (Zpos acc) true (to_chars (NilEmpty.string_of_uint u)) = Some (Zpos (Pos.of_uint_acc u acc)).
Proof.
  revert acc. induction u; intros acc; [reflexivity|..]; eval_digit; rewrite <- IHu; f_equal; lia.
Qed.

Lemma digits_val_uint u b :
  u <> Decimal.Nil \/ b = true ->
  digits_val 0 b (to_chars (NilEmpty.string_of_uint u)) = Some (Z.of_N (Pos.of_uint u)).
Proof.
  revert b. induction u; intros b H;
    [destruct H as [?| ->]; [congruence|reflexivity]|..]; eval_digit; [apply IHu; auto|..]; apply digits_val_acc.
Qed.

Lemma uint_digits u : Forall (fun c => is_digit c = true) (to_chars (NilEmpty.string_of_uint u)).
Proof. induction u; constructor; done. Qed.

(** Printing a natural number: its digits, and reading it back. *)
Lemma str_of_int_digits z :
  0 <= z ->
  exists u, u <> Decimal.Nil /\ str_of_int z = NilEmpty.string_of_uint u /\ Z.of_N (Pos.of_uint u) = z.
Proof.
  intros Hz. destruct z as [|p|p]; [exists (Decimal.D0 Decimal.Nil); done| |lia].
  exists (Pos.to_uint p). pose proof (DecimalPos.Unsigned.to_uint_nonnil p).
  split_and!; [done| |by rewrite DecimalPos.Unsigned.of_to].
  unfold str_of_int. cbn. by destruct (Pos.to_uint p).
Qed.

Lemma drop_while_id p l : match l with [] => True | c :: _ => p c = false end -> drop_while p l = l.
Proof. destruct l as [|c l]; [done|]. cbn. by intros ->. Qed.

(** No white space at either end. *)
Definition trimmed (l : chars) : Prop :=
  match l with [] => True | c :: _ => is_space c = false end /\
  match reverse l with [] => True | c :: _ => is_space c = false end.

Lemma strip_trimmed l : trimmed l -> strip l = l.
Proof.
  intros [H1 H2]. unfold strip. rewrite (drop_while_id _ l H1), (drop_while_id _ _ H2).
  apply reverse_involutive.
Qed.

Lemma no_space_trimmed l : Forall (fun c => is_space c = false) l -> trimmed l.
Proof.
  intros H. assert (Forall (fun c => is_space c = false) (reverse l)) as H' by by rewrite Forall_reverse.
  split; [destruct H|destruct H']; done.
Qed.

Lemma digit_not_space c : is_digit c = true -> is_space c = false.
Proof. unfold is_digit, is_space. intros. bool_prop. apply not_true_is_false. intros ?. bool_prop. lia. Qed.

Lemma drop_while_head p l : match drop_while p l with [] => True | c :: _ => p c = false end.
Proof. induction l as [|c l IH]; cbn; [done|]. destruct (p c) eqn:E; [done|by rewrite E]. Qed.

Lemma drop_while_suffix p l : exists k, l = k ++ drop_while p l /\ Forall (fun c => p c = true) k.
Proof.
  induction l as [|c l [k [E H]]]; cbn; [by exists []|].
  destruct (p c) eqn:Ec; [exists (c :: k)|by exists []]. split; [by rewrite E at 1|by constructor].
Qed.

Lemma strip_is_trimmed l : trimmed (strip l).
Proof.
  unfold strip. set (m := drop_while is_space l). split; [|rewrite reverse_involutive; apply drop_while_head].
  pose proof (drop_while_head is_space l) as Hm. fold m in Hm.
  destruct (drop_while_suffix is_space (reverse m)) as [k [E _]].
  apply (f_equal reverse) in E. rewrite reverse_involutive, reverse_app in E.
  destruct (reverse (drop_while is_space (reverse m))) as [|c r]; [done|]. by rewrite E in Hm.
Qed.

Lemma strip_idem l : strip (strip l) = strip l.
Proof. apply strip_trimmed, strip_is_trimmed. Qed.

Lemma int_of_str_of_int z :
  0 <= z ->
  int_of_chars (to_chars (str_of_int z)) = Some z /\ isdigit (to_chars (str_of_int z)) = true.
Proof.
  intros Hz. destruct (str_of_int_digits z Hz) as (u & Hu & -> & <-).
  pose proof (uint_digits u) as Hd. pose proof (digits_val_uint u false (or_introl Hu)) as Hv.
  assert (Forall (fun c => is_space c = false) (to_chars (NilEmpty.string_of_uint u))) as Hs
    by exact (Forall_impl _ digit_not_space Hd).
  unfold int_of_chars, isdigit. rewrite strip_trimmed by by apply no_space_trimmed.
  destruct (to_chars (NilEmpty.string_of_uint u)) as [|c l] eqn:El; [done|].
  inversion_clear Hd as [|? ? Hc Hl].
  split; [|by apply forallb_forall, List.Forall_forall; constructor].
  rewrite !bool_decide_eq_false_2; [done|..]; by intros ->.
Qed.

(** The number of digits printed. *)
Lemma digits_val_ge l acc b v :
  digits_val acc b l = Some v -> Forall (fun c => is_digit c = true) l -> 0 <= acc ->
  acc * 10 ^ Z.of_nat (length l) <= v.
Proof.
  revert acc b. induction l as [|c l IH]; intros acc b H Hd Hacc.
  - cbn in *. destruct b; [injection H as <-; lia|done].
  - inversion_clear Hd as [|? ? Hc Hl]. cbn [digits_val] in H. rewrite Hc in H.
    assert (0 <= char_code c - 48) as Hcc by (unfold is_digit in Hc; bool_prop; lia).
    apply IH in H; [|done|lia]. cbn [length]. rewrite Nat2Z.inj_succ, Z.pow_succ_r by lia. nia.
Qed.

Lemma str_of_int_length z k : 0 <= z < 10 ^ Z.of_nat k -> (0 < k)%nat -> (length (to_chars (str_of_int z)) <= k)%nat.
Proof.
  intros [Hz Hk] Hpos. destruct z as [|p|p]; [cbn; lia| |lia].
  set (u := Pos.to_uint p).
  assert (str_of_int (Z.pos p) = NilEmpty.string_of_uint u) as ->.
  { unfold str_of_int, u. cbn. pose proof (DecimalPos.Unsigned.to_uint_nonnil p). by destruct (Pos.to_uint p). }
  pose proof (digits_val_uint u false (or_introl (DecimalPos.Unsigned.to_uint_nonnil p))) as Hv.
  assert (Z.of_N (Pos.of_uint u) = Z.pos p) as E by (unfold u; by rewrite DecimalPos.Unsigned.of_to).
  rewrite E in Hv. pose proof (uint_digits u) as Hd.
  destruct (to_chars (NilEmpty.string_of_uint u)) as [|c l] eqn:El; [cbn; lia|].
  inversion_clear Hd as [|? ? Hc Hl]. cbn [digits_val] in Hv. rewrite Hc in Hv.
  assert (1 <= 0 * 10 + (char_code c - 48)) as H1.
  { assert (Decimal.unorm u = u) as Hun.
    { pose proof (DecimalPos.Unsigned.to_of u) as H. unfold u in H |- *. by rewrite DecimalPos.Unsigned.of_to in H. }
    assert (u <> Decimal.D0 Decimal.Nil) as Hu0 by apply DecimalPos.Unsigned.to_uint_nonzero.
    clearbody u. clear -El Hun Hu0.
    destruct u as [|u|u|u|u|u|u|u|u|u|u]; try (cbn in El; injection El as <- _; by apply (bool_decide_unpack _));
      [done|].
    exfalso. unfold Decimal.unorm in Hun. cbn [Decimal.nzhead] in Hun. destruct (Decimal.nzhead u) as [|x|x|x|x|x|x|x|x|x|x] eqn:En;
      try discriminate Hun; first [exact (DecimalFacts.nzhead_nonzero _ _ En) | by injection Hun as <-]. }
  apply digits_val_ge in Hv; [|done|lia]. cbn [length].
  assert (10 ^ Z.of_nat (length l) < 10 ^ Z.of_nat k) as Hlt by nia.
  apply Z.pow_lt_mono_r_iff in Hlt; lia.
Qed.
