(* ===== verification/PyJson.v ===== *)
(** * JSON documents as Python values

    [dict]s keep insertion order, so an object is an association list;
    [int()] and [float()] conversions with the exceptions they raise. *)
From S2P Require Import Prelude PyStruct PyText.
From Stdlib Require Import Ascii.
#[local] Set Warnings "-register-all".

Inductive json :=
  | JNull
  | JBool (b : bool)
  | JInt (z : Z)
  | JFloat (f : pynum)
  | JStr (s : string)
  | JArr (l : list json)
  | JObj (d : list (string * json)).

Abbreviation dict := (list (string * json)).

(** ** Dictionaries *)
Fixpoint dict_get (k : string) (d : dict) : option json :=
  match d with
  | [] => None
  | (k', v) :: d => if bool_decide (k' = k) then Some v else dict_get k d
  end.

(** [d[k] = v]: in place when the key exists, appended otherwise. *)
Fixpoint dict_set (k : string) (v : json) (d : dict) : dict :=
  match d with
  | [] => [(k, v)]
  | (k', v') :: d => if bool_decide (k' = k) then (k, v) :: d else (k', v') :: dict_set k v d
  end.

(** [d.pop(k, None)] *)
Fixpoint dict_pop (k : string) (d : dict) : dict :=
  match d with
  | [] => []
  | (k', v) :: d => if bool_decide (k' = k) then dict_pop k d else (k', v) :: dict_pop k d
  end.

Definition dict_mem (k : string) (d : dict) : bool :=
  match dict_get k d with Some _ => true | None => false end.

(** [d.get(k)] (a missing key reads as [None]) and [d.get(k, default)]. *)
Definition get_null (k : string) (d : dict) : json := default JNull (dict_get k d).
Definition get_or (k : string) (dflt : json) (d : dict) : json := default dflt (dict_get k d).

Definition is_null (j : json) : bool := match j with JNull => true | _ => false end.

(** [bool(j)] *)
Definition truthy (j : json) : bool :=
  match j with
  | JNull => false
  | JBool b => b
  | JInt z => negb (z =? 0)
  | JFloat (Fin q) => negb (Qeq_bool q 0)
  | JFloat _ => true
  | JStr s => negb (bool_decide (s = ""))
  | JArr l => match l with [] => false | _ => true end
  | JObj d => match d with [] => false | _ => true end
  end.

(** Numeric value for [==] (booleans are integers in Python). *)
Definition num_of (j : json) : option pynum :=
  match j with
  | JBool b => Some (Fin (if b then 1 else 0))
  | JInt z => Some (Fin (inject_Z z))
  | JFloat f => Some f
  | _ => None
  end.

Definition num_eqb (a b : pynum) : bool :=
  match a, b with
  | Fin p, Fin q => Qeq_bool p q
  | PInf, PInf | NInf, NInf => true
  | _, _ => false
  end.

(** [a < b] of two floats *)
Definition num_lt (a b : pynum) : bool :=
  match a, b with
  | NaN, _ | _, NaN => false
  | Fin x, Fin y => Qltb x y
  | NInf, NInf => false
  | NInf, _ => true
  | _, PInf => match a with PInf => false | _ => true end
  | _, _ => false
  end.

(** [a == b] on JSON values: numbers by value, objects without order. *)
Fixpoint py_eqb (a b : json) {struct a} : bool :=
  match a, b with
  | JNull, JNull => true
  | JStr s, JStr s' => bool_decide (s = s')
  | JArr l, JArr l' =>
      (fix go l l' := match l, l' with
                      | [], [] => true
                      | x :: l, y :: l' => py_eqb x y && go l l'
                      | _, _ => false
                      end) l l'
  | JObj d, JObj d' =>
      bool_decide (length d = length d') &&
      (fix go d := match d with
                   | [] => true
                   | (k, x) :: d =>
                       match dict_get k d' with Some y => py_eqb x y | None => false end && go d
                   end) d
  | _, _ =>
      match num_of a, num_of b with Some x, Some y => num_eqb x y | _, _ => false end
  end.

(** ** Conversions *)

(** [int(j)] *)
Definition py_int (j : json) : res Z :=
  match j with
  | JBool b => Ok (if b then 1 else 0)
  | JInt z => Ok z
  | JFloat (Fin q) => Ok (Qtrunc q)
  | JFloat NaN => Raise ValueError
  | JFloat _ => Raise OverflowError
  | JStr s => match int_of_chars (to_chars s) with Some z => Ok z | None => Raise ValueError end
  | JNull | JArr _ | JObj _ => Raise TypeError
  end.

(** Decimal literals of [float()]: digits, fraction, exponent. *)
Fixpoint take_digits (acc : Z) (n : nat) (l : chars) : Z * nat * chars :=
  match l with
  | c :: l' => if is_digit c then take_digits (acc * 10 + (char_code c - 48)) (S n) l'
               else (acc, n, l)
  | [] => (acc, n, l)
  end.

Definition scale10 (m : Z) (e : Z) : Q :=
  if 0 <=? e then inject_Z (m * 10 ^ e) else inject_Z m / inject_Z (10 ^ (- e)).

Definition exponent (l : chars) : option Z :=
  match l with
  | [] => Some 0
  | c :: l =>
      if (char_code c =? 101) || (char_code c =? 69) then
        let '(sg, l) := match l with
                        | c :: l' => if char_code c =? 45 then (-1, l')
                                     else if char_code c =? 43 then (1, l') else (1, l)
                        | [] => (1, l)
                        end in
        match take_digits 0 0 l with
        | (v, S _, []) => Some (sg * v)
        | _ => None
        end
      else None
  end.

(** [str.lower] on one character below 256. *)
Definition lower (c : ascii) : ascii :=
  let n := char_code c in
  if ((65 <=? n) && (n <=? 90)) || ((192 <=? n) && (n <=? 222) && negb (n =? 215))
  then Ascii.ascii_of_nat (Ascii.nat_of_ascii c + 32) else c.

(** Unsigned part of a float literal. *)
Definition float_body (l : chars) : option pynum :=
  let w := of_chars (map lower l) in
  if bool_decide (w = "inf" \/ w = "infinity") then Some PInf
  else if bool_decide (w = "nan") then Some NaN
  else
    let '(i, n, r) := take_digits 0 0 l in
    let '(m, k, r) :=
      match r with
      | c :: r' => if char_code c =? 46
                   then let '(m, k, r'') := take_digits i 0 r' in (m, k, r'')
                   else (i, 0%nat, r)
      | [] => (i, 0%nat, r)
      end in
    if bool_decide (n + k = 0)%nat then None
    else match exponent r with
         | Some e => Some (Fin (scale10 m (e - Z.of_nat k)))
         | None => None
         end.

Definition float_neg (f : pynum) : pynum :=
  match f with Fin q => Fin (- q) | PInf => NInf | NInf => PInf | NaN => NaN end.

(** [float(s)] of a string, with the exact value of the literal. *)
Definition float_of_chars (l : chars) : option pynum :=
  match strip l with
  | [] => None
  | c :: r =>
      if char_code c =? 45 then float_neg <$> float_body r
      else if char_code c =? 43 then float_body r
      else float_body (c :: r)
  end.

(** [float(j)] *)
Definition py_float (j : json) : res pynum :=
  match j with
  | JBool b => Ok (Fin (if b then 1 else 0))
  | JInt z => if Z.abs z <? 2 ^ 1024 - 2 ^ 970 then Ok (Fin (inject_Z z)) else Raise OverflowError
  | JFloat f => Ok f
  | JStr s => match float_of_chars (to_chars s) with Some f => Ok f | None => Raise ValueError end
  | JNull | JArr _ | JObj _ => Raise TypeError
  end.

(** ['{:s}'.format(j)]: only a string accepts the [s] presentation type. *)
Definition fmt_s (j : json) : res unit :=
  match j with
  | JStr _ => Ok tt
  | JBool _ | JInt _ | JFloat _ => Raise ValueError
  | JNull | JArr _ | JObj _ => Raise TypeError
  end.

(** ** Lemmas *)
Lemma dict_get_set k k' v d :
  dict_get k (dict_set k' v d) = if bool_decide (k = k') then Some v else dict_get k d.
Proof.
  induction d as [|[k0 v0] d IH]; cbn.
  - repeat case_bool_decide; congruence.
  - destruct (bool_decide (k0 = k')) eqn:E1; cbn; [|rewrite IH]; bool_prop;
      repeat case_bool_decide; congruence.
Qed.

Lemma dict_get_pop k k' d :
  dict_get k (dict_pop k' d) = if bool_decide (k = k') then None else dict_get k d.
Proof.
  induction d as [|[k0 v0] d IH]; cbn; [by case_bool_decide|].
  destruct (bool_decide (k0 = k')) eqn:E1; cbn; rewrite IH; bool_prop;
    repeat case_bool_decide; congruence.
Qed.

Example py_float_literal : py_float (JStr "-1.25e2") = Ok (Fin (- inject_Z 125)).
Proof. vm_compute. reflexivity. Qed.

(** ** Case *)
Lemma lower_idem c : lower (lower c) = lower c.
Proof. by destruct c as [[] [] [] [] [] [] [] []]. Qed.

Lemma lower_space c : is_space (lower c) = is_space c.
Proof. by destruct c as [[] [] [] [] [] [] [] []]. Qed.

(** ** More on dictionaries *)
Lemma dict_set_same k v d : dict_get k d = Some v -> dict_set k v d = d.
Proof.
  induction d as [|[k0 v0] d IH]; cbn; [done|]. destruct (bool_decide (k0 = k)) eqn:E.
  - intros [= ->]. by bool_prop; subst.
  - intros H. by rewrite IH.
Qed.

Lemma dict_pop_absent k d : dict_get k d = None -> dict_pop k d = d.
Proof.
  induction d as [|[k0 v0] d IH]; cbn; [done|]. destruct (bool_decide (k0 = k)); [done|].
  intros H. by rewrite IH.
Qed.

Lemma dict_get_not_in k (d : dict) : k ∉ map fst d -> dict_get k d = None.
Proof.
  induction d as [|[k0 v0] d IH]; cbn; [done|]. rewrite not_elem_of_cons. intros [H1 H2].
  rewrite bool_decide_eq_false_2 by done. by apply IH.
Qed.

Lemma dict_get_app k (d d' : dict) :
  dict_get k (d ++ d') = match dict_get k d with Some v => Some v | None => dict_get k d' end.
Proof. induction d as [|[k0 v0] d IH]; cbn; [done|]. by destruct (bool_decide _). Qed.

Lemma dict_get_in k v d : dict_get k d = Some v -> (k, v) ∈ d.
Proof.
  induction d as [|[k0 v0] d IH]; cbn; [done|]. case_bool_decide; [|right; auto].
  intros [= ->]. subst. left.
Qed.

(** Keys of a dictionary are distinct. *)
Definition unique_keys (d : dict) : Prop := NoDup (map fst d).

Lemma dict_set_keys k v d :
  map fst (dict_set k v d) = if bool_decide (k ∈ map fst d) then map fst d else map fst d ++ [k].
Proof.
  induction d as [|[k0 v0] d IH]; cbn; [done|]. destruct (bool_decide (k0 = k)) eqn:E; bool_prop.
  - subst. rewrite bool_decide_eq_true_2 by (by left). done.
  - cbn. rewrite IH. destruct (bool_decide (k ∈ map fst d)) eqn:Ek; bool_prop.
    + rewrite bool_decide_eq_true_2 by (by right). done.
    + rewrite bool_decide_eq_false_2; [done|]. rewrite not_elem_of_cons. naive_solver.
Qed.

Lemma unique_keys_set k v d : unique_keys d -> unique_keys (dict_set k v d).
Proof.
  unfold unique_keys. intros H. rewrite dict_set_keys. destruct (bool_decide (k ∈ map fst d)) eqn:E; [done|].
  bool_prop. apply list.NoDup_app. split_and!; [done| |apply NoDup_singleton].
  by intros x Hx ->%list_elem_of_singleton.
Qed.
