(* ===== verification/PyJsonText.v ===== *)
(** * [json.dumps] with compact separators

    The ASCII text of a JSON value ([ensure_ascii], separators [","] and
    [":"]).  The shortest decimal form of a finite float is a parameter. *)
From S2P Require Import Prelude PyStruct PyText PyJson.
From Stdlib Require Import Ascii.

Definition hex_digit (n : Z) : ascii :=
  Ascii.ascii_of_nat (Z.to_nat (if n <? 10 then 48 + n else 87 + n)).

(** One character of a JSON string literal. *)
Definition escape (c : ascii) : chars :=
  let n := char_code c in
  let bs := Ascii.ascii_of_nat 92 in
  if (n =? 34) || (n =? 92) then [bs; c]
  else if n =? 10 then [bs; "n"%char]
  else if n =? 13 then [bs; "r"%char]
  else if n =? 9 then [bs; "t"%char]
  else if n =? 8 then [bs; "b"%char]
  else if n =? 12 then [bs; "f"%char]
  else if (32 <=? n) && (n <=? 126) then [c]
  else [bs; "u"%char; "0"%char; "0"%char; hex_digit (n / 16); hex_digit (n mod 16)].

Definition quote : ascii := Ascii.ascii_of_nat 34.

Definition dump_str (s : string) : chars := quote :: concat (map escape (to_chars s)) ++ [quote].

(** [sep.join(parts)] *)
Fixpoint join (sep : ascii) (parts : list chars) : chars :=
  match parts with
  | [] => []
  | [p] => p
  | p :: ps => p ++ sep :: join sep ps
  end.

Section Dumps.
Variable float_repr : Q -> chars.

Fixpoint dumps (j : json) : chars :=
  match j with
  | JNull => to_chars "null"
  | JBool b => to_chars (if b then "true" else "false")
  | JInt z => to_chars (str_of_int z)
  | JFloat NaN => to_chars "NaN"
  | JFloat PInf => to_chars "Infinity"
  | JFloat NInf => to_chars "-Infinity"
  | JFloat (Fin q) => float_repr q
  | JStr s => dump_str s
  | JArr l => "["%char :: join ","%char (map dumps l) ++ ["]"%char]
  | JObj d => "{"%char :: join ","%char (map (fun kv => dump_str kv.1 ++ ":"%char :: dumps kv.2) d) ++ ["}"%char]
  end.

(** ** Sizes *)
Definition sum (l : list nat) : nat := foldr Nat.add O l.

Lemma length_join sep ps : length (join sep ps) = (sum (map length ps) + (length ps - 1))%nat.
Proof.
  induction ps as [|p ps IH]; [done|]. destruct ps as [|q ps]; [cbn; lia|].
  change (join sep (p :: q :: ps)) with (p ++ sep :: join sep (q :: ps)).
  rewrite length_app. cbn [length]. rewrite IH. cbn [sum map foldr length]. lia.
Qed.

Lemma sum_perm l k : Permutation l k -> sum l = sum k.
Proof. unfold sum. induction 1; cbn in *; lia. Qed.

Lemma sum_app l k : sum (l ++ k) = (sum l + sum k)%nat.
Proof. unfold sum. induction l as [|x l IH]; cbn; [done|]. rewrite IH. lia. Qed.

(** An array of some of the elements is no longer than the whole array. *)
Lemma dumps_part l k rest :
  Permutation l (k ++ rest) -> (length (dumps (JArr k)) <= length (dumps (JArr l)))%nat.
Proof.
  intros H. cbn [dumps length]. rewrite !length_app, !length_join, !length_map.
  pose proof (Permutation_length H) as Hl. rewrite length_app in Hl.
  assert (sum (map length (map dumps l)) = sum (map length (map dumps k)) + sum (map length (map dumps rest)))%nat.
  { rewrite <- sum_app, <- !map_app. apply sum_perm, Permutation_map, Permutation_map, H. }
  lia.
Qed.

(** Field by field. *)
Definition field_size (kv : string * json) : nat := length (dump_str kv.1 ++ ":"%char :: dumps kv.2).

Lemma dumps_obj_length d :
  length (dumps (JObj d)) = (2 + sum (map field_size d) + (length d - 1))%nat.
Proof.
  cbn [dumps length]. rewrite length_app, length_join, !length_map, map_map. cbn [length].
  fold field_size. change (fun x => length _) with field_size. lia.
Qed.

(** Length of a string inside its literal. *)
Definition escaped (x : string) : nat := length (concat (map escape (to_chars x))).

Lemma escaped_app s s' : escaped (s +:+ s') = (escaped s + escaped s')%nat.
Proof.
  unfold escaped. assert (to_chars (s +:+ s') = to_chars s ++ to_chars s') as ->.
  { induction s as [|c s IH]; [done|]. cbn. rewrite <- IH. reflexivity. }
  by rewrite map_app, concat_app, length_app.
Qed.

Lemma dump_str_length x : length (dump_str x) = (2 + escaped x)%nat.
Proof. unfold dump_str, escaped. cbn [length]. rewrite length_app. cbn. lia. Qed.

End Dumps.
