(* ===== verification/Messages.v ===== *)
(** * Inter-module messages ([_daq_core/inter_module_messages.py])

    Every message is exactly 128 bytes: the signed source module id, the
    command character and 126 parameter bytes.  The [pack_msg_*] builders and
    the [unpack_*] readers are translated one to one; [im_msg] is the abstract
    command and [im_encode]/[im_decode] dispatch on it with the parameter
    counts the source documents. *)
From S2P Require Import Prelude PyStruct PyFloat.
From Stdlib Require Import SpecFloat.

Module Msg.

Definition MSG_LENGTH : nat := 128.
Definition PARAMS_OFFSET : nat := 2.
Definition MAX_MSG_CHANNELS : nat := 31.

(** Command characters (ASCII codes). *)
Definition CMD_R : Z := 114.
Definition CMD_C : Z := 99.
Definition CMD_G : Z := 103.
Definition CMD_A : Z := 97.
Definition CMD_N : Z := 110.
Definition CMD_S : Z := 115.
Definition CMD_B : Z := 98.

Definition _check_channel_count {A} (values : list A) : res unit :=
  if bool_decide (MAX_MSG_CHANNELS < length values)%nat then Raise ValueError else Ok tt.

(** ** Readers *)
Definition unpack_msg (buf : bytes) : res (Z * Z * bytes) :=
  if negb (bool_decide (length buf = MSG_LENGTH)) then Raise ValueError
  else
    v ← unpack_from [Fb] buf 0;
    match v, take 1 (drop 1 buf) with
    | [VInt module_id], [command] => Ok (module_id, command, drop PARAMS_OFFSET buf)
    | _, _ => Raise TypeError
    end.

Definition int_values (vs : list value) : list Z :=
  flat_map (fun v => match v with VInt z => [z] | VBytes _ => [] end) vs.

Definition unpack_u32_params (params : bytes) (count : Z) : res (list Z) :=
  if (count <? 0) || (Z.of_nat (length params) <? count * 4) then Raise ValueError
  else
    vs ← unpack_from (replicate (Z.to_nat count) FI) params 0;
    Ok (int_values vs).

(** ['f' * count] has no padding: [count] consecutive 4-byte groups. *)
Fixpoint unpack_fs (n : nat) (bs : bytes) : list spec_float :=
  match n with
  | O => []
  | S n => unpack_f (take 4 bs) :: unpack_fs n (drop 4 bs)
  end.

Definition unpack_f32_params (params : bytes) (count : Z) : res (list spec_float) :=
  if (count <? 0) || (Z.of_nat (length params) <? count * 4) then Raise ValueError
  else Ok (unpack_fs (Z.to_nat count) params).

(** ** Builders *)
Definition header (module_identifier command : Z) : res bytes :=
  b ← pack [Fb] [VInt module_identifier];
  Ok (b ++ [command]).

Definition pack_msg_reconfiguration (module_identifier center_frequency sample_rate gain : Z)
  : res bytes :=
  msg_byte_array ← header module_identifier CMD_R;
  p ← pack [FI; FI; FI] [VInt center_frequency; VInt sample_rate; VInt gain];
  Ok (msg_byte_array ++ p ++ replicate (128 - 1 - 1 - 12) 0).

Definition pack_msg_rf_tune (module_identifier center_frequency : Z) : res bytes :=
  msg_byte_array ← header module_identifier CMD_C;
  p ← pack [FI] [VInt center_frequency];
  Ok (msg_byte_array ++ p ++ replicate (128 - 1 - 1 - 4) 0).

(** [for v in vs: msg += pack('I', v)] *)
Fixpoint pack_each (vs : list Z) : res bytes :=
  match vs with
  | [] => Ok []
  | v :: vs => p ← pack [FI] [VInt v]; rest ← pack_each vs; Ok (p ++ rest)
  end.

Fixpoint pack_each_f (vs : list spec_float) : res bytes :=
  match vs with
  | [] => Ok []
  | v :: vs => p ← pack_f v; rest ← pack_each_f vs; Ok (p ++ rest)
  end.

Definition pack_msg_set_gain (module_identifier : Z) (gains : list Z) : res bytes :=
  _ ← _check_channel_count gains;
  msg_byte_array ← header module_identifier CMD_G;
  p ← pack_each gains;
  Ok (msg_byte_array ++ p ++ replicate (128 - 1 - 1 - length gains * 4) 0).

Definition pack_msg_enable_agc (module_identifier : Z) : res bytes :=
  msg_byte_array ← header module_identifier CMD_A;
  Ok (msg_byte_array ++ replicate (128 - 1 - 1) 0).

Definition pack_msg_noise_source_ctr (module_identifier : Z) (state : bool) : res bytes :=
  msg_byte_array ← header module_identifier CMD_N;
  p ← (if state then pack [Fb] [VInt 1] else pack [Fb] [VInt 0]);
  Ok (msg_byte_array ++ p ++ replicate (128 - 1 - 1 - 1) 0).

Definition pack_msg_sample_freq_tune (module_identifier : Z) (fs_ppm_offsets : list spec_float)
  : res bytes :=
  _ ← _check_channel_count fs_ppm_offsets;
  msg_byte_array ← header module_identifier CMD_S;
  p ← pack_each_f fs_ppm_offsets;
  Ok (msg_byte_array ++ p ++ replicate (128 - 1 - 1 - length fs_ppm_offsets * 4) 0).

Definition pack_msg_set_bias_tee (module_identifier : Z) (states : list bool) : res bytes :=
  _ ← _check_channel_count states;
  msg_byte_array ← header module_identifier CMD_B;
  p ← pack_each (map (fun s : bool => if s then 1 else 0) states);
  Ok (msg_byte_array ++ p ++ replicate (128 - 1 - 1 - length states * 4) 0).

(** ** The abstract command and its dispatch *)
Inductive im_msg :=
  | Reconfigure (center_frequency sample_rate gain : Z)
  | RfTune (center_frequency : Z)
  | SetGain (gains : list Z)
  | EnableAgc
  | NoiseSource (state : bool)
  | SampleFreq (offsets : list spec_float)
  | SetBiasTee (states : list bool).

Definition im_encode (module_identifier : Z) (m : im_msg) : res bytes :=
  match m with
  | Reconfigure f s g => pack_msg_reconfiguration module_identifier f s g
  | RfTune f => pack_msg_rf_tune module_identifier f
  | SetGain gs => pack_msg_set_gain module_identifier gs
  | EnableAgc => pack_msg_enable_agc module_identifier
  | NoiseSource b => pack_msg_noise_source_ctr module_identifier b
  | SampleFreq fs => pack_msg_sample_freq_tune module_identifier fs
  | SetBiasTee ss => pack_msg_set_bias_tee module_identifier ss
  end.

(** ['r' uses count=3, 'c' count=1, 'g', 'b' and 's' count=M]; the noise
    source state is the first parameter byte. *)
Definition im_decode (M : nat) (buf : bytes) : res (Z * im_msg) :=
  '(id, cmd, params) ← unpack_msg buf;
  if cmd =? CMD_R then
    v ← unpack_u32_params params 3;
    match v with
    | [f; s; g] => Ok (id, Reconfigure f s g)
    | _ => Raise ValueError
    end
  else if cmd =? CMD_C then
    v ← unpack_u32_params params 1;
    match v with [f] => Ok (id, RfTune f) | _ => Raise ValueError end
  else if cmd =? CMD_G then
    v ← unpack_u32_params params (Z.of_nat M); Ok (id, SetGain v)
  else if cmd =? CMD_A then Ok (id, EnableAgc)
  else if cmd =? CMD_N then Ok (id, NoiseSource (negb (default 0 (head params) =? 0)))
  else if cmd =? CMD_S then
    v ← unpack_f32_params params (Z.of_nat M); Ok (id, SampleFreq v)
  else if cmd =? CMD_B then
    v ← unpack_u32_params params (Z.of_nat M);
    Ok (id, SetBiasTee (map (fun z => negb (z =? 0)) v))
  else Raise ValueError.

(** Per-channel lists of a command have [M] entries, and offsets are already
    representable as binary32 (what the receiver sees is the rounded value). *)
Definition fits (M : nat) (m : im_msg) : Prop :=
  match m with
  | SetGain gs => length gs = M
  | SetBiasTee ss => length ss = M
  | SampleFreq fs =>
      length fs = M /\ Forall (fun x => valid_binary 24 128 x = true /\ to_f32 x = x) fs
  | _ => True
  end.

Definition u32 (z : Z) : Prop := 0 <= z < 2 ^ 32.

(** The values a command may carry: what the builders accept. *)
Definition encodable (id : Z) (m : im_msg) : Prop :=
  -128 <= id <= 127 /\
  match m with
  | Reconfigure f s g => u32 f /\ u32 s /\ u32 g
  | RfTune f => u32 f
  | SetGain gs => (length gs <= 31)%nat /\ Forall u32 gs
  | SetBiasTee ss => (length ss <= 31)%nat
  | SampleFreq fs =>
      (length fs <= 31)%nat /\
      Forall (fun x => is_inf (to_f32 x) && negb (is_inf x) = false) fs
  | EnableAgc | NoiseSource _ => True
  end.

(** ** Lemmas *)
Lemma pack_one_u32 z bs : pack [FI] [VInt z] = Ok bs <-> u32 z /\ bs = le_bytes 4 z.
Proof.
  unfold pack, u32. cbn [pack_at]. change (pad 0 (align_of FI)) with 0%nat. cbn [enc].
  destruct ((0 <=? z) && (z <? 2 ^ 32))%bool eqn:E; bool_prop.
  - simp_res. rewrite app_nil_r. split; [intros [= <-]; auto | by intros [_ ->]].
  - apply andb_false_iff in E. split; [done|]. intros [? _]. destruct E; bool_prop; lia.
Qed.

Lemma header_spec id c bs :
  header id c = Ok bs <-> (-128 <= id <= 127) /\ bs = [id mod 256; c].
Proof.
  unfold header, pack. cbn [pack_at]. change (pad 0 (align_of Fb)) with 0%nat. cbn [enc].
  destruct ((-128 <=? id) && (id <=? 127))%bool eqn:E; bool_prop.
  - simp_res. cbn. split; [intros [= <-]; split; [lia|done] | by intros [_ ->]].
  - apply andb_false_iff in E. split; [done|]. intros [? _]. destruct E; bool_prop; lia.
Qed.

Lemma pack_each_spec vs bs :
  pack_each vs = Ok bs <-> Forall u32 vs /\ bs = concat (map (le_bytes 4) vs).
Proof.
  revert bs; induction vs as [|v vs IH]; intros bs; cbn [pack_each].
  { split; [intros [= <-]; by split | by intros [_ ->]]. }
  rewrite res_bind_ok. split.
  - intros (p & Hp & (r & Hr & [= <-])%res_bind_ok).
    apply pack_one_u32 in Hp as [? ->]. apply IH in Hr as [? ->]. by split; [constructor|].
  - intros [Hv ->]. inversion Hv; subst. eexists. rewrite pack_one_u32. split; [done|].
    rewrite res_bind_ok. eexists. rewrite IH. by split.
Qed.

Lemma pack_each_f_ok fs :
  Forall (fun x => is_inf (to_f32 x) && negb (is_inf x) = false) fs <->
  pack_each_f fs = Ok (concat (map (fun x => le_bytes 4 (f32_bits (to_f32 x))) fs)).
Proof.
  induction fs as [|x fs IH]; cbn [pack_each_f]; [by split|]. split.
  - intros H. inversion H as [|? ? Hx Hfs]; subst. apply IH in Hfs. rewrite Hfs.
    unfold pack_f. by rewrite Hx.
  - unfold pack_f. destruct (_ && _)%bool eqn:Ex; [done|]. intros (p & Hp & Hq)%res_bind_ok.
    apply res_bind_ok in Hq as (q & Hq & Heq). simp_res. cbn [map concat] in Heq. constructor; [done|].
    apply app_inv_head in Heq. apply IH. congruence.
Qed.

Lemma concat_le_length {A} (f : A -> bytes) (n : nat) (l : list A) :
  (forall x, length (f x) = n) -> length (concat (map f l)) = (length l * n)%nat.
Proof. intros H. induction l as [|x l IH]; cbn; [done|]. by rewrite length_app, H, IH. Qed.

Lemma unpack_u32s_at vs off rest :
  Forall u32 vs -> (4 | off)%nat ->
  unpack_at off (replicate (length vs) FI) (concat (map (le_bytes 4) vs) ++ rest)
  = map VInt vs.
Proof.
  intros Hv. revert off; induction Hv as [|v vs Hv _ IH]; intros off Hd; cbn [length replicate];
    [done|]. cbn [unpack_at map concat]. rewrite pad_aligned by done.
  rewrite drop_0, <-app_assoc.
  rewrite take_app_length', drop_app_length' by by rewrite le_bytes_length.
  cbn [dec]. rewrite le_val_small by exact Hv. f_equal. apply IH.
  destruct Hd as [k ->]. exists (k + 1)%nat. cbn [size_of]. lia.
Qed.

Lemma calcsize_u32s n : calcsize (replicate n FI) = (n * 4)%nat.
Proof.
  unfold calcsize. assert (forall off, (4 | off)%nat -> calcsize_at off (replicate n FI) = (off + n * 4)%nat) as H.
  { induction n as [|n IH]; intros off Hd; cbn [replicate calcsize_at]; [lia|].
    rewrite pad_aligned by done. rewrite IH; [cbn; lia|]. destruct Hd as [k ->]. exists (k + 1)%nat. cbn. lia. }
  rewrite H; [lia|]. by exists 0%nat.
Qed.

Lemma int_values_map vs : int_values (map VInt vs) = vs.
Proof. induction vs as [|v vs IH]; cbn; [done|]. by f_equal. Qed.

(** Reading the [count] leading words of a parameter block. *)
Lemma unpack_u32_params_ok vs rest :
  Forall u32 vs ->
  unpack_u32_params (concat (map (le_bytes 4) vs) ++ rest) (Z.of_nat (length vs)) = Ok vs.
Proof.
  intros Hv. unfold unpack_u32_params.
  assert (length (concat (map (le_bytes 4) vs)) = length vs * 4)%nat as Hl
    by (apply concat_le_length; intros; apply le_bytes_length).
  rewrite (proj2 (Z.ltb_ge _ _)), (proj2 (Z.ltb_ge _ _)) by (rewrite ?length_app; lia).
  cbn [orb]. rewrite Nat2Z.id. unfold unpack_from. rewrite calcsize_u32s.
  rewrite bool_decide_eq_true_2 by (rewrite length_app; lia).
  unfold mbind, res_bind. rewrite drop_0, take_app_length' by done. rewrite <-(app_nil_r (concat _)).
  rewrite unpack_u32s_at by (try done; by exists 0%nat). by rewrite int_values_map.
Qed.

Lemma unpack_fs_ok fs rest :
  Forall (fun x => valid_binary 24 128 x = true /\ to_f32 x = x) fs ->
  unpack_fs (length fs) (concat (map (fun x => le_bytes 4 (f32_bits (to_f32 x))) fs) ++ rest) = fs.
Proof.
  induction 1 as [|x fs [Hv Hx] _ IH]; cbn [length unpack_fs map concat]; [done|].
  rewrite <-app_assoc, take_app_length', drop_app_length' by by rewrite le_bytes_length.
  rewrite IH. f_equal. unfold unpack_f. rewrite Hx, le_val_small by by apply f32_bits_range.
  by apply f32_of_bits_bits.
Qed.

Lemma unpack_msg_ok id c params :
  -128 <= id <= 127 -> length params = 126%nat ->
  unpack_msg ([id mod 256; c] ++ params) = Ok (id, c, params).
Proof.
  intros Hid Hl. unfold unpack_msg, MSG_LENGTH. cbn [app length].
  rewrite bool_decide_eq_true_2 by lia. cbn [negb].
  unfold unpack_from. rewrite bool_decide_eq_true_2 by (cbn; lia). cbn -[le_val].
  rewrite le_val_one. do 3 f_equal. apply (sx_mod 8); lia.
Qed.

Definition params_of (m : im_msg) : bytes :=
  match m with
  | Reconfigure f s g => concat (map (le_bytes 4) [f; s; g])
  | RfTune f => concat (map (le_bytes 4) [f])
  | SetGain gs => concat (map (le_bytes 4) gs)
  | EnableAgc => []
  | NoiseSource b => [if b then 1 else 0]
  | SampleFreq fs => concat (map (fun x => le_bytes 4 (f32_bits (to_f32 x))) fs)
  | SetBiasTee ss => concat (map (le_bytes 4) (map (fun s : bool => if s then 1 else 0) ss))
  end.

Definition cmd_of (m : im_msg) : Z :=
  match m with
  | Reconfigure _ _ _ => CMD_R | RfTune _ => CMD_C | SetGain _ => CMD_G | EnableAgc => CMD_A
  | NoiseSource _ => CMD_N | SampleFreq _ => CMD_S | SetBiasTee _ => CMD_B
  end.

Lemma params_of_length id m : encodable id m -> (length (params_of m) <= 126)%nat.
Proof.
  intros [_ H]. destruct m; cbn [params_of]; try (cbn; lia);
    rewrite (concat_le_length _ 4), ?length_map
      by (intros; apply le_bytes_length); tauto || lia.
Qed.

Lemma check_channel_count_ok {A} (vs : list A) :
  _check_channel_count vs = Ok tt <-> (length vs <= 31)%nat.
Proof.
  unfold _check_channel_count, MAX_MSG_CHANNELS. case_bool_decide; split; intros; try done; lia.
Qed.

Lemma pack_reconf_ok f s g p :
  pack [FI; FI; FI] [VInt f; VInt s; VInt g] = Ok p <->
  (u32 f /\ u32 s /\ u32 g) /\ p = concat (map (le_bytes 4) [f; s; g]).
Proof.
  unfold pack, u32. cbn [pack_at enc].
  destruct ((0 <=? f) && (f <? 2 ^ 32))%bool eqn:Ef; bool_prop;
    [|apply andb_false_iff in Ef; split; [done|]; intros [? _]; destruct Ef; bool_prop; lia].
  destruct ((0 <=? s) && (s <? 2 ^ 32))%bool eqn:Es; bool_prop;
    [|apply andb_false_iff in Es; split; [done|]; intros [? _]; destruct Es; bool_prop; lia].
  destruct ((0 <=? g) && (g <? 2 ^ 32))%bool eqn:Eg; bool_prop;
    [|apply andb_false_iff in Eg; split; [done|]; intros [? _]; destruct Eg; bool_prop; lia].
  simp_res. split; [intros [= <-]; auto 6 | by intros [_ ->]].
Qed.

Lemma pack_each_ok_f fs p :
  pack_each_f fs = Ok p ->
  Forall (fun x => is_inf (to_f32 x) && negb (is_inf x) = false) fs.
Proof.
  revert p; induction fs as [|x fs IH]; intros p; cbn [pack_each_f]; [constructor|].
  intros (q & Hq & (r & Hr & _)%res_bind_ok)%res_bind_ok. constructor; [|by eapply IH].
  unfold pack_f in Hq. by destruct (_ && _)%bool.
Qed.

Lemma if_pack_b (b : bool) :
  (if b then pack [Fb] [VInt 1] else pack [Fb] [VInt 0]) = Ok [if b then 1 else 0].
Proof. by destruct b. Qed.

(** Every builder writes the same layout: the module id, the command, the
    parameters, zero padding up to 128 bytes; it succeeds on exactly the
    encodable commands. *)
Lemma im_encode_layout id m bs :
  im_encode id m = Ok bs <->
  encodable id m /\
  bs = [id mod 256; cmd_of m] ++ params_of m ++ replicate (126 - length (params_of m)) 0.
Proof.
  unfold encodable. split.
  - destruct m; cbn [im_encode params_of cmd_of];
      unfold pack_msg_reconfiguration, pack_msg_rf_tune, pack_msg_set_gain, pack_msg_enable_agc,
        pack_msg_noise_source_ctr, pack_msg_sample_freq_tune, pack_msg_set_bias_tee;
      rewrite ?if_pack_b; intros H;
      repeat (apply res_bind_ok in H as (? & ? & H)); simp_res;
      repeat match goal with
        | H : header _ _ = Ok _ |- _ => apply header_spec in H as [? ->]
        | H : pack [FI] _ = Ok _ |- _ => apply pack_one_u32 in H as [? ->]
        | H : pack [FI; FI; FI] _ = Ok _ |- _ => apply pack_reconf_ok in H as [? ->]
        | H : pack_each _ = Ok _ |- _ => apply pack_each_spec in H as [? ->]
        | H : pack_each_f ?l = Ok _ |- _ =>
            pose proof (pack_each_ok_f _ _ H); rewrite (proj1 (pack_each_f_ok l)) in H by done;
            apply Ok_inj in H as <-
        | H : _check_channel_count _ = Ok ?u |- _ =>
            destruct u; apply check_channel_count_ok in H
        end;
      cbn [map concat]; rewrite ?app_nil_r;
      rewrite ?(concat_le_length _ 4), ?length_map by (intros; apply le_bytes_length); auto.
  - destruct m; cbn [im_encode params_of cmd_of];
      unfold pack_msg_reconfiguration, pack_msg_rf_tune, pack_msg_set_gain, pack_msg_enable_agc,
        pack_msg_noise_source_ctr, pack_msg_sample_freq_tune, pack_msg_set_bias_tee;
      rewrite ?if_pack_b; intros [[Hid Hm] ->];
      rewrite ?(proj2 (check_channel_count_ok _)) by (try apply Hm; lia);
      rewrite (proj2 (header_spec id _ _) (conj Hid eq_refl)); unfold mbind, res_bind.
    + by rewrite (proj2 (pack_reconf_ok _ _ _ _) (conj Hm eq_refl)).
    + rewrite (proj2 (pack_one_u32 _ _) (conj Hm eq_refl)).
      cbn [map concat]. by rewrite app_nil_r.
    + rewrite (proj2 (pack_each_spec _ _) (conj (proj2 Hm) eq_refl)).
      by rewrite (concat_le_length _ 4) by apply le_bytes_length.
    + done.
    + done.
    + rewrite (proj1 (pack_each_f_ok _) (proj2 Hm)).
      by rewrite (concat_le_length _ 4) by (intros; apply le_bytes_length).
    + assert (Forall u32 (map (fun s : bool => if s then 1 else 0) states)) as Hs
        by (apply Forall_map, Forall_true; intros []; unfold u32; cbn; lia).
      rewrite (proj2 (pack_each_spec _ _) (conj Hs eq_refl)).
      by rewrite (concat_le_length _ 4), length_map by apply le_bytes_length.
Qed.

Lemma params_of_ok m : Forall byte_ok (params_of m).
Proof.
  assert (forall vs, Forall byte_ok (concat (map (le_bytes 4) vs))) as H.
  { intros vs. apply Forall_concat, Forall_map, Forall_true. intros; apply le_bytes_ok. }
  destruct m; cbn [params_of]; auto.
  - constructor; [|done]. destruct state; unfold byte_ok; lia.
  - apply Forall_concat, Forall_map, Forall_true. intros; apply le_bytes_ok.
Qed.

(** A message builder succeeds on exactly the commands whose fields fit
    (module id a signed char, 32-bit words, at most 31 channels, no finite
    offset that overflows binary32), and what it builds is always a 128-byte
    message of valid bytes. *)
Theorem message_is_128_bytes id m :
  (encodable id m <-> is_ok (im_encode id m) = true) /\
  forall bs, im_encode id m = Ok bs -> length bs = MSG_LENGTH /\ Forall byte_ok bs.
Proof.
  split.
  - split.
    + intros H. destruct (im_encode id m) as [|e] eqn:E; [done|].
      assert (im_encode id m = Ok ([id mod 256; cmd_of m] ++ params_of m
        ++ replicate (126 - length (params_of m)) 0)) by by apply im_encode_layout.
      congruence.
    + destruct (im_encode id m) as [bs|] eqn:E; [|done]. by apply im_encode_layout in E as [? _].
  - intros bs [He ->]%im_encode_layout. pose proof (params_of_length _ _ He) as Hl.
    split; [rewrite !length_app, length_replicate; unfold MSG_LENGTH; cbn; lia|].
    rewrite !Forall_app; split_and!.
    + constructor; [by apply Z.mod_pos_bound|]. constructor; [|done].
      by destruct m; split; vm_compute.
    + apply params_of_ok.
    + apply Forall_replicate. unfold byte_ok. lia.
Qed.

(** Decoding what a builder wrote gives back the source module id and the
    command with all its parameters, for every command kind and every channel
    count [M]. *)
Theorem message_roundtrip M id m bs :
  fits M m -> im_encode id m = Ok bs -> im_decode M bs = Ok (id, m).
Proof.
  intros Hf [He ->]%im_encode_layout. pose proof (params_of_length _ _ He) as Hl.
  destruct He as [Hid He]. unfold im_decode. rewrite unpack_msg_ok; [|done|].
  2:{ rewrite length_app, length_replicate. lia. }
  unfold mbind, res_bind.
  destruct m; cbn [cmd_of params_of fits] in *;
    cbn [CMD_R CMD_C CMD_G CMD_A CMD_N CMD_S CMD_B Z.eqb Pos.eqb].
  - rewrite (unpack_u32_params_ok [_; _; _]); [done|]. by repeat constructor; apply He.
  - rewrite (unpack_u32_params_ok [_]); [done|]. by repeat constructor; apply He.
  - rewrite <-Hf, unpack_u32_params_ok by apply He. done.
  - done.
  - by destruct state.
  - destruct Hf as [<- Hf]. unfold unpack_f32_params.
    rewrite (proj2 (Z.ltb_ge _ _)), (proj2 (Z.ltb_ge _ _)).
    + cbn [orb]. rewrite Nat2Z.id. by rewrite unpack_fs_ok.
    + rewrite (concat_le_length _ 4) in * by (intros; apply le_bytes_length).
      rewrite length_app, (concat_le_length _ 4), length_replicate
        by (intros; apply le_bytes_length). lia.
    + lia.
  - rewrite <-Hf, <-(length_map (fun s : bool => if s then 1 else 0)), unpack_u32_params_ok.
    + do 2 f_equal. rewrite map_map. rewrite <-(map_id states) at 2. f_equal.
      by apply map_ext; intros [].
    + apply Forall_map, Forall_true. intros []; unfold u32; cbn; lia.
Qed.

Lemma message_roundtrip_witness :
  im_decode 3 (match im_encode 5 (SetGain [0; 496; 4294967295]) with Ok b => b | Raise _ => [] end)
  = Ok (5, SetGain [0; 496; 4294967295]).
Proof. apply (message_roundtrip 3); [reflexivity | vm_compute; reflexivity]. Defined.

End Msg.
