(* ===== verification/IQHeader.v ===== *)
(** * The 1024-byte IQ frame header ([_daq_core/iq_header.py])

    The struct format, [decode_header]/[encode_header], the accessors of the
    named slots of the [reserved] region and [check_sync_word]. *)
From S2P Require Import Prelude PyStruct PyText.

Module Hdr.

(** ["II16sIIIQQQIQIIQIII" + "I"*32 + "IIII" + "I"*192 + "I"], native alignment. *)
Definition HEADER_FORMAT : list field :=
  [FI; FI; Fs 16; FI; FI; FI; FQ; FQ; FQ; FI; FQ; FI; FI; FQ; FI; FI; FI]
  ++ replicate 32 FI ++ [FI; FI; FI; FI] ++ replicate 192 FI ++ [FI].

Definition SYNC_WORD : Z := 737655130.
Definition reserved_words : nat := 192.

(** Slot indices inside [reserved]. *)
Definition RSV_EXT_LNA_GAINS : nat := 0.
Definition RSV_TOTAL_GAINS : nat := 32.
Definition RSV_SYSTEM_NF_MDB : nat := 64.
Definition RSV_COMPRESSION_FLAGS : nat := 96.
Definition RSV_BIAS_TEE_STATE : nat := 97.
Definition RSV_ANTENNA_AZ_CDEG : nat := 98.
Definition RSV_ANTENNA_EL_CDEG : nat := 99.
Definition RSV_ROTATOR_STATE : nat := 100.
Definition RSV_AGG_POWER_MDB : nat := 101.
Definition RSV_BUFFER_OVERRUN_CNT : nat := 102.
Definition RSV_ROUTER_SEQ : nat := 103.
Definition RSV_ROUTER_RX_TS_LO : nat := 104.
Definition RSV_ROUTER_RX_TS_HI : nat := 105.
Definition RSV_SOURCE_INSTANCE : nat := 106.
Definition RSV_SOURCE_KEY_CRC32 : nat := 107.
Definition RSV_NODE_ID_CRC32 : nat := 108.
Definition RSV_DECIMATOR_DROP_CNT : nat := 109.
Definition RSV_CAL_QUALITY_MDB : nat := 110.
Definition RSV_IQ_COMP_CNT : nat := 111.
Definition RSV_SAMPLE_COMP_CNT : nat := 112.
Definition RSV_RECAL_GEN : nat := 113.

Record t := mk {
  sync_word : Z; frame_type : Z;
  hardware_id : list Z;                (* str: its code points *)
  unit_id : Z; active_ant_chs : Z; ioo_type : Z;
  rf_center_freq : Z; adc_sampling_freq : Z; sampling_freq : Z;
  cpi_length : Z; time_stamp : Z; daq_block_index : Z; cpi_index : Z;
  ext_integration_cntr : Z; data_type : Z; sample_bit_depth : Z; adc_overdrive_flags : Z;
  if_gains : list Z;
  delay_sync_flag : Z; iq_sync_flag : Z; sync_state : Z; noise_source_state : Z;
  reserved : list Z;
  header_version : Z }.

(** [IQHeader()] *)
Definition init : t :=
  mk SYNC_WORD 0 [] 0 0 0 0 0 0 0 0 0 0 0 0 0 0 (replicate 32 0) 0 0 0 0
     (replicate reserved_words 0) 0.

Definition with_reserved (h : t) (r : list Z) : t :=
  mk (sync_word h) (frame_type h) (hardware_id h) (unit_id h) (active_ant_chs h) (ioo_type h)
     (rf_center_freq h) (adc_sampling_freq h) (sampling_freq h) (cpi_length h) (time_stamp h)
     (daq_block_index h) (cpi_index h) (ext_integration_cntr h) (data_type h)
     (sample_bit_depth h) (adc_overdrive_flags h) (if_gains h) (delay_sync_flag h)
     (iq_sync_flag h) (sync_state h) (noise_source_state h) r (header_version h).

(** ** Codec *)
Definition int_at (l : list value) (i : nat) : Z :=
  match l !! i with Some (VInt z) => z | _ => 0 end.

Definition bytes_at (l : list value) (i : nat) : bytes :=
  match l !! i with Some (VBytes b) => b | _ => [] end.

(** [decode_header] assigns the attributes in order: when the hardware id is
    not valid UTF-8 the exception leaves the sync word and the frame type
    already replaced and every other attribute unchanged. *)
Definition decode_header (h : t) (iq_header_byte_array : bytes) : t * option exc :=
  match unpack HEADER_FORMAT iq_header_byte_array with
  | Raise e => (h, Some e)
  | Ok l =>
      match utf8_decode (bytes_at l 2) with
      | Raise e =>
          (mk (int_at l 0) (int_at l 1) (hardware_id h) (unit_id h) (active_ant_chs h)
             (ioo_type h) (rf_center_freq h) (adc_sampling_freq h) (sampling_freq h)
             (cpi_length h) (time_stamp h) (daq_block_index h) (cpi_index h)
             (ext_integration_cntr h) (data_type h) (sample_bit_depth h)
             (adc_overdrive_flags h) (if_gains h) (delay_sync_flag h) (iq_sync_flag h)
             (sync_state h) (noise_source_state h) (reserved h) (header_version h), Some e)
      | Ok hid =>
          (mk (int_at l 0) (int_at l 1) hid (int_at l 3) (int_at l 4) (int_at l 5)
             (int_at l 6) (int_at l 7) (int_at l 8) (int_at l 9) (int_at l 10) (int_at l 11)
             (int_at l 12) (int_at l 13) (int_at l 14) (int_at l 15) (int_at l 16)
             (map (int_at l) (seq 17 32))
             (int_at l 49) (int_at l 50) (int_at l 51) (int_at l 52)
             (map (int_at l) (seq 53 reserved_words))
             (int_at l (52 + reserved_words + 1)), None)
      end
  end.

(** [[self.if_gains[m] for m in range(32)]]: a short list raises. *)
Definition gains32 (h : t) : res (list Z) := res_mapM (py_get (if_gains h)) (seq 0 32).

Definition reserved192 (h : t) : list Z :=
  map (fun m => match reserved h !! m with Some v => mask32 v | None => 0 end)
      (seq 0 reserved_words).

Definition head_fields (h : t) (hid : bytes) : list value :=
  [VInt (sync_word h); VInt (frame_type h); VBytes hid; VInt (unit_id h);
   VInt (active_ant_chs h); VInt (ioo_type h); VInt (rf_center_freq h);
   VInt (adc_sampling_freq h); VInt (sampling_freq h); VInt (cpi_length h);
   VInt (time_stamp h); VInt (daq_block_index h); VInt (cpi_index h);
   VInt (ext_integration_cntr h); VInt (data_type h); VInt (sample_bit_depth h);
   VInt (adc_overdrive_flags h)].

Definition encode_header (h : t) : res bytes :=
  hid ← utf8_encode (hardware_id h);
  gains ← gains32 h;
  pack HEADER_FORMAT
    (head_fields h hid ++ map VInt gains
     ++ map VInt [delay_sync_flag h; iq_sync_flag h; sync_state h; noise_source_state h]
     ++ map VInt (reserved192 h) ++ [VInt (header_version h)]).

Definition check_sync_word (h : t) : Z := if sync_word h =? SYNC_WORD then 0 else -1.

(** ** Reserved-region accessors *)
Definition _sx32 (value : Z) : Z :=
  let value := mask32 value in
  if Z.shiftl 1 31 <=? value then value - Z.shiftl 1 32 else value.

Definition _set_u32 (slot : nat) (value : Z) (h : t) : res t :=
  r ← py_set (reserved h) slot (mask32 value); Ok (with_reserved h r).

Definition _get_u32 (slot : nat) (h : t) : res Z := v ← py_get (reserved h) slot; Ok (mask32 v).

(** Signed slots: the getter sign-extends. *)
Definition _get_s32 (slot : nat) (h : t) : res Z := v ← py_get (reserved h) slot; Ok (_sx32 v).

Fixpoint _set_reserved_block (start : nat) (values : list Z) (h : t) : res t :=
  match values with
  | [] => Ok h
  | v :: values =>
      h' ← (if bool_decide (start < reserved_words)%nat then _set_u32 start v h else Ok h);
      _set_reserved_block (S start) values h'
  end.

Definition _get_reserved_block (start count : nat) (signed : bool) (h : t) : list Z :=
  let vals := take count (drop start (reserved h)) in
  if signed then map _sx32 vals else map mask32 vals.

Definition set_ext_lna_gains := _set_reserved_block RSV_EXT_LNA_GAINS.
Definition get_ext_lna_gains (num_ch : nat) := _get_reserved_block RSV_EXT_LNA_GAINS num_ch true.
Definition set_total_system_gains := _set_reserved_block RSV_TOTAL_GAINS.
Definition get_total_system_gains (num_ch : nat) := _get_reserved_block RSV_TOTAL_GAINS num_ch true.
Definition set_system_nf_mdb := _set_reserved_block RSV_SYSTEM_NF_MDB.
Definition get_system_nf_mdb (num_ch : nat) := _get_reserved_block RSV_SYSTEM_NF_MDB num_ch true.

Definition set_compression_flags := _set_u32 RSV_COMPRESSION_FLAGS.
Definition get_compression_flags := _get_u32 RSV_COMPRESSION_FLAGS.
Definition set_bias_tee_state := _set_u32 RSV_BIAS_TEE_STATE.
Definition get_bias_tee_state := _get_u32 RSV_BIAS_TEE_STATE.
Definition set_rotator_state := _set_u32 RSV_ROTATOR_STATE.
Definition get_rotator_state := _get_u32 RSV_ROTATOR_STATE.
Definition set_aggregate_power_mdb := _set_u32 RSV_AGG_POWER_MDB.
Definition get_aggregate_power_mdb := _get_s32 RSV_AGG_POWER_MDB.
Definition set_buffer_overrun_cnt := _set_u32 RSV_BUFFER_OVERRUN_CNT.
Definition get_buffer_overrun_cnt := _get_u32 RSV_BUFFER_OVERRUN_CNT.
Definition set_router_seq := _set_u32 RSV_ROUTER_SEQ.
Definition get_router_seq := _get_u32 RSV_ROUTER_SEQ.
Definition set_source_instance := _set_u32 RSV_SOURCE_INSTANCE.
Definition get_source_instance := _get_u32 RSV_SOURCE_INSTANCE.
Definition set_source_key_crc32 := _set_u32 RSV_SOURCE_KEY_CRC32.
Definition get_source_key_crc32 := _get_u32 RSV_SOURCE_KEY_CRC32.
Definition set_node_id_crc32 := _set_u32 RSV_NODE_ID_CRC32.
Definition get_node_id_crc32 := _get_u32 RSV_NODE_ID_CRC32.
Definition set_decimator_drop_cnt := _set_u32 RSV_DECIMATOR_DROP_CNT.
Definition get_decimator_drop_cnt := _get_u32 RSV_DECIMATOR_DROP_CNT.
Definition set_iq_comp_cnt := _set_u32 RSV_IQ_COMP_CNT.
Definition get_iq_comp_cnt := _get_u32 RSV_IQ_COMP_CNT.
Definition set_sample_comp_cnt := _set_u32 RSV_SAMPLE_COMP_CNT.
Definition get_sample_comp_cnt := _get_u32 RSV_SAMPLE_COMP_CNT.
Definition set_recal_gen := _set_u32 RSV_RECAL_GEN.
Definition get_recal_gen := _get_u32 RSV_RECAL_GEN.

(** Centi-degrees, elevation offset by 90 degrees (exact arithmetic). *)
Definition set_antenna_bearing (az_deg el_deg : Q) (h : t) : res t :=
  h ← _set_u32 RSV_ANTENNA_AZ_CDEG (Qround_even (az_deg * 100)) h;
  _set_u32 RSV_ANTENNA_EL_CDEG (Qround_even ((el_deg + 90) * 100)) h.

Definition get_antenna_bearing (h : t) : res (Q * Q) :=
  az ← _get_s32 RSV_ANTENNA_AZ_CDEG h;
  el ← _get_s32 RSV_ANTENNA_EL_CDEG h;
  Ok (inject_Z az / 100, inject_Z el / 100 - 90)%Q.

(** The 64-bit timestamp is split over two slots. *)
Definition set_router_rx_ts_ms (ts_ms : Z) (h : t) : res t :=
  let ts := Z.land ts_ms 18446744073709551615 in
  r ← py_set (reserved h) RSV_ROUTER_RX_TS_LO (mask32 ts);
  r ← py_set r RSV_ROUTER_RX_TS_HI (Z.shiftr ts 32);
  Ok (with_reserved h r).

Definition get_router_rx_ts_ms (h : t) : res Z :=
  hi ← _get_u32 RSV_ROUTER_RX_TS_HI h;
  lo ← _get_u32 RSV_ROUTER_RX_TS_LO h;
  Ok (Z.lor (Z.shiftl hi 32) lo).

(** Saturating: NaN is stored as 0, values beyond int32 saturate. *)
Definition cal_quality_value (mdb : pynum) : Z :=
  match mdb with
  | NaN => 0
  | PInf => 2147483647
  | NInf => -2147483648
  | Fin q =>
      if Qle_bool (inject_Z 2147483647) q then 2147483647
      else if Qle_bool q (inject_Z (-2147483648)) then -2147483648
      else Qround_even q
  end.

Definition set_cal_quality_mdb (mdb : pynum) : t -> res t :=
  _set_u32 RSV_CAL_QUALITY_MDB (cal_quality_value mdb).
Definition get_cal_quality_mdb := _get_s32 RSV_CAL_QUALITY_MDB.

(** ** Well-formed headers: the ranges of the wire fields *)
Definition u32 (z : Z) : Prop := 0 <= z < 2 ^ 32.
Definition u64 (z : Z) : Prop := 0 <= z < 2 ^ 64.

#[export] Instance u32_dec z : Decision (u32 z).
Proof. unfold u32. apply _. Defined.
#[export] Instance u64_dec z : Decision (u64 z).
Proof. unfold u64. apply _. Defined.

Record wf (h : t) : Prop := {
  wf_u32 : Forall u32 ([sync_word h; frame_type h; unit_id h; active_ant_chs h; ioo_type h;
              cpi_length h; daq_block_index h; cpi_index h; data_type h; sample_bit_depth h;
              adc_overdrive_flags h; delay_sync_flag h; iq_sync_flag h; sync_state h;
              noise_source_state h; header_version h] ++ if_gains h ++ reserved h);
  wf_u64 : Forall u64 [rf_center_freq h; adc_sampling_freq h; sampling_freq h; time_stamp h;
              ext_integration_cntr h];
  wf_gains : length (if_gains h) = 32%nat;
  wf_reserved : length (reserved h) = reserved_words;
  wf_hid : Forall scalar (hardware_id h) }.

(** ** Lemmas *)
Lemma header_format_size : calcsize HEADER_FORMAT = 1024%nat.
Proof. vm_compute. reflexivity. Qed.

(** The fields before [reserved] take 252 bytes. *)
Definition front_format : list field :=
  [FI; FI; Fs 16; FI; FI; FI; FQ; FQ; FQ; FI; FQ; FI; FI; FQ; FI; FI; FI]
  ++ replicate 32 FI ++ [FI; FI; FI; FI].

Lemma header_format_split :
  HEADER_FORMAT = front_format ++ replicate 192 FI ++ [FI] /\ calcsize front_format = 252%nat.
Proof. by vm_compute. Qed.

Lemma res_mapM_get {A} (l : list A) k n :
  (k + n <= length l)%nat -> res_mapM (py_get l) (seq k n) = Ok (take n (drop k l)).
Proof.
  revert k; induction n as [|n IH]; intros k Hk; cbn [seq res_mapM]; [done|].
  destruct (lookup_lt_is_Some_2 l k) as [x Hx]; [lia|].
  rewrite (py_get_Some _ _ _ Hx). cbn. rewrite IH by lia. cbn.
  by rewrite (drop_S l x k Hx).
Qed.

Lemma gains32_spec h : length (if_gains h) = 32%nat -> gains32 h = Ok (if_gains h).
Proof.
  intros Hl. unfold gains32. rewrite res_mapM_get by lia. rewrite drop_0, firstn_all2; [done|lia].
Qed.

Lemma gains32_length h g : gains32 h = Ok g -> length g = 32%nat.
Proof. intros H%res_mapM_length. by rewrite length_seq in H. Qed.

Lemma reserved192_length h : length (reserved192 h) = 192%nat.
Proof. unfold reserved192. by rewrite length_map, length_seq. Qed.

Lemma reserved192_lookup h k :
  (k < 192)%nat ->
  reserved192 h !! k = Some (match reserved h !! k with Some v => mask32 v | None => 0 end).
Proof.
  intros Hk. unfold reserved192. rewrite list_lookup_fmap, lookup_seq_lt by done. done.
Qed.

Lemma reserved192_id h :
  Forall u32 (reserved h) -> length (reserved h) = reserved_words -> reserved192 h = reserved h.
Proof.
  intros Hr Hl. apply list_eq_same_length with 192%nat; [done|apply reserved192_length|].
  intros i x y Hi Hx Hy. rewrite reserved192_lookup in Hx by done. rewrite Hy in Hx.
  simplify_eq. apply mask32_id. by eapply (Forall_lookup_1 u32) in Hr.
Qed.

(** Indexing into a decoded value list. *)
Lemma map_int_at pre xs post k :
  length pre = k -> map (int_at (pre ++ map VInt xs ++ post)) (seq k (length xs)) = xs.
Proof.
  intros <-. apply list_eq_same_length with (length xs);
    [done | by rewrite length_map, length_seq |].
  intros i x y Hi Hx Hy. rewrite list_lookup_fmap, lookup_seq_lt in Hx by done. cbn in Hx.
  unfold int_at in Hx. rewrite lookup_app_r in Hx by lia.
  replace (length pre + i - length pre)%nat with i in Hx by lia.
  rewrite lookup_app_l in Hx by (rewrite length_map; lia).
  rewrite list_lookup_fmap, Hy in Hx. cbn in Hx. congruence.
Qed.

Lemma zip_norm_ints fmt xs :
  length fmt = length xs -> zip_with norm fmt (map VInt xs) = map VInt xs.
Proof.
  revert fmt; induction xs as [|x xs IH]; intros [|f fmt] Hl; cbn in *; try lia; [done|].
  rewrite IH by lia. f_equal. by destruct f.
Qed.

Definition all_fields (h : t) (hid : bytes) (gains : list Z) : list value :=
  head_fields h hid ++ map VInt gains
  ++ map VInt [delay_sync_flag h; iq_sync_flag h; sync_state h; noise_source_state h]
  ++ map VInt (reserved192 h) ++ [VInt (header_version h)].

Lemma all_fields_norm h hid gains :
  length gains = 32%nat ->
  zip_with norm HEADER_FORMAT (all_fields h hid gains) = all_fields h (fit 16 hid) gains.
Proof.
  intros Hg. unfold HEADER_FORMAT, all_fields.
  rewrite !zip_with_app; try done;
    rewrite ?length_map, ?length_replicate, ?reserved192_length, ?Hg; try done.
  change [VInt (header_version h)] with (map VInt [header_version h]).
  rewrite !zip_norm_ints; try done; by rewrite length_replicate, ?reserved192_length, ?Hg.
Qed.

(** Decoding a buffer that holds [all_fields]. *)
Lemma decode_all_fields h0 h hid hidb gains bs :
  length gains = 32%nat -> utf8_decode hidb = Ok hid ->
  unpack HEADER_FORMAT bs = Ok (all_fields h hidb gains) ->
  decode_header h0 bs =
  (mk (sync_word h) (frame_type h) hid (unit_id h) (active_ant_chs h) (ioo_type h)
     (rf_center_freq h) (adc_sampling_freq h) (sampling_freq h) (cpi_length h) (time_stamp h)
     (daq_block_index h) (cpi_index h) (ext_integration_cntr h) (data_type h)
     (sample_bit_depth h) (adc_overdrive_flags h) gains (delay_sync_flag h)
     (iq_sync_flag h) (sync_state h) (noise_source_state h) (reserved192 h)
     (header_version h), None).
Proof.
  intros Hg Hu Hun. unfold decode_header. rewrite Hun.
  assert (forall i, (17 <= i)%nat -> int_at (all_fields h hidb gains) i =
    int_at (map VInt (gains ++ [delay_sync_flag h; iq_sync_flag h; sync_state h; noise_source_state h]
              ++ reserved192 h ++ [header_version h])) (i - 17)) as Hat.
  { intros i Hi. unfold int_at, all_fields. rewrite lookup_app_r by done.
    by rewrite !map_app. }
  change (bytes_at (all_fields h hidb gains) 2) with hidb. rewrite Hu. f_equal. f_equal;
    try reflexivity.
  - unfold all_fields. rewrite <-Hg. by apply map_int_at.
  - rewrite Hat by lia. unfold int_at. rewrite list_lookup_fmap, lookup_app_r by (rewrite Hg; lia).
    by rewrite Hg.
  - rewrite Hat by lia. unfold int_at. rewrite list_lookup_fmap, lookup_app_r by (rewrite Hg; lia).
    by rewrite Hg.
  - rewrite Hat by lia. unfold int_at. rewrite list_lookup_fmap, lookup_app_r by (rewrite Hg; lia).
    by rewrite Hg.
  - rewrite Hat by lia. unfold int_at. rewrite list_lookup_fmap, lookup_app_r by (rewrite Hg; lia).
    by rewrite Hg.
  - unfold all_fields. change reserved_words with 192%nat. rewrite <-(reserved192_length h).
    rewrite (app_assoc (map VInt gains)), (app_assoc (head_fields _ _)). apply map_int_at.
    rewrite !length_app, length_map, Hg. done.
  - rewrite Hat by (cbn; lia). unfold int_at.
    rewrite list_lookup_fmap, lookup_app_r by (rewrite Hg; cbn; lia).
    rewrite Hg, lookup_app_r by (cbn; lia).
    rewrite lookup_app_r by (rewrite reserved192_length; cbn; lia).
    by rewrite reserved192_length.
Qed.

Lemma encode_unfold h bs :
  encode_header h = Ok bs <->
  exists hid gains, utf8_encode (hardware_id h) = Ok hid /\ gains32 h = Ok gains /\
                    pack HEADER_FORMAT (all_fields h hid gains) = Ok bs.
Proof.
  unfold encode_header. split.
  - intros (hid & Hh & (g & Hg & Hp)%res_bind_ok)%res_bind_ok. eauto.
  - intros (hid & g & Hh & Hg & Hp). by rewrite Hh, Hg.
Qed.

Lemma enc_u32s zs :
  Forall u32 zs ->
  Forall2 (fun f v => is_ok (enc f v) = true) (replicate (length zs) FI) (map VInt zs).
Proof.
  induction 1 as [|z zs Hz _ IH]; cbn [length replicate map]; constructor; [|done].
  unfold u32 in Hz. cbn [enc].
  by rewrite (proj2 (Z.leb_le _ _)), (proj2 (Z.ltb_lt _ _)) by lia.
Qed.

Lemma enc_u64 z : u64 z -> is_ok (enc FQ (VInt z)) = true.
Proof.
  unfold u64. intros Hz. cbn [enc].
  by rewrite (proj2 (Z.leb_le _ _)), (proj2 (Z.ltb_lt _ _)) by lia.
Qed.

Lemma enc_u32 z : u32 z -> is_ok (enc FI (VInt z)) = true.
Proof.
  unfold u32. intros Hz. cbn [enc].
  by rewrite (proj2 (Z.leb_le _ _)), (proj2 (Z.ltb_lt _ _)) by lia.
Qed.

(** Every well-formed header encodes. *)
Lemma encode_wf h :
  wf h -> exists hid bs, utf8_encode (hardware_id h) = Ok hid /\ Forall byte_ok hid /\
    encode_header h = Ok bs /\ pack HEADER_FORMAT (all_fields h hid (if_gains h)) = Ok bs.
Proof.
  intros [H32 H64 Hg Hr Hh]. destruct (utf8_encode_ok _ Hh) as (hid & Hhid & Hok).
  apply Forall_app in H32 as [H32 [Hgs Hrs]%Forall_app].
  assert (exists bs, pack HEADER_FORMAT (all_fields h hid (if_gains h)) = Ok bs) as [bs Hbs].
  { apply pack_at_ok. unfold HEADER_FORMAT, all_fields.
    rewrite (reserved192_id h) by done.
    rewrite Forall_forall in H32, H64.
    apply Forall2_app; [|apply Forall2_app; [|apply Forall2_app; [|apply Forall2_app]]].
    - repeat apply Forall2_cons; try apply Forall2_nil; try done; split_and?;
        first [apply enc_u32, H32; set_solver | apply enc_u64, H64; set_solver | done | idtac].
    - rewrite <-Hg. by apply enc_u32s.
    - apply (enc_u32s [_; _; _; _]). repeat constructor; apply H32; set_solver.
    - change 192%nat with reserved_words. rewrite <-Hr. by apply enc_u32s.
    - apply (enc_u32s [_]). repeat constructor; apply H32; set_solver. }
  exists hid, bs. split_and!; try done. apply encode_unfold.
  exists hid, (if_gains h). split_and!; [done|by apply gains32_spec|done].
Qed.

(** The header after a trip over the wire: the hardware id comes back padded
    with NUL characters up to the 16 bytes of its field. *)
Definition padded (h : t) (n : nat) : t :=
  mk (sync_word h) (frame_type h) (hardware_id h ++ replicate n 0) (unit_id h)
     (active_ant_chs h) (ioo_type h) (rf_center_freq h) (adc_sampling_freq h)
     (sampling_freq h) (cpi_length h) (time_stamp h) (daq_block_index h) (cpi_index h)
     (ext_integration_cntr h) (data_type h) (sample_bit_depth h) (adc_overdrive_flags h)
     (if_gains h) (delay_sync_flag h) (iq_sync_flag h) (sync_state h) (noise_source_state h)
     (reserved h) (header_version h).

Lemma utf8_encode_app s1 s2 b1 b2 :
  utf8_encode s1 = Ok b1 -> utf8_encode s2 = Ok b2 -> utf8_encode (s1 ++ s2) = Ok (b1 ++ b2).
Proof.
  revert b1; induction s1 as [|c s1 IH]; intros b1; cbn [utf8_encode app]; [by intros [= <-]|].
  intros (b & Hb & (r & Hr & [= <-])%res_bind_ok)%res_bind_ok H2.
  rewrite Hb. cbn. rewrite (IH r) by done. cbn. by rewrite app_assoc.
Qed.

Lemma utf8_encode_zeros n : utf8_encode (replicate n 0) = Ok (replicate n 0).
Proof. induction n as [|n IH]; cbn [replicate utf8_encode]; [done|]. by rewrite IH. Qed.

(** [C9] Round trip of the frame header: a header whose fields are in range
    encodes to exactly 1024 bytes, and decoding them restores every field,
    whatever the decoding object held before (the hardware id is padded with
    NULs to its 16-byte field, as long as it fits). *)
Theorem header_roundtrip h h0 hid :
  wf h -> utf8_encode (hardware_id h) = Ok hid -> (length hid <= 16)%nat ->
  exists bs, encode_header h = Ok bs /\ length bs = 1024%nat /\
             decode_header h0 bs = (padded h (16 - length hid), None).
Proof.
  intros Hwf Hhid Hlen. destruct (encode_wf h Hwf) as (hid' & bs & Hh' & _ & Henc & Hpack).
  rewrite Hhid in Hh'. apply Ok_inj in Hh' as <-. exists bs. split; [done|].
  destruct Hwf as [H32 H64 Hg Hr Hs].
  split; [rewrite <-header_format_size; by eapply pack_length|].
  apply unpack_pack in Hpack. rewrite all_fields_norm in Hpack by done.
  rewrite (decode_all_fields h0 h (hardware_id h ++ replicate (16 - length hid) 0) (fit 16 hid)
             (if_gains h)); [|done| |done].
  - rewrite reserved192_id; [done| |done]. by apply Forall_app in H32 as [_ [_ ?]%Forall_app].
  - apply utf8_roundtrip.
    + apply Forall_app; split; [done|]. apply Forall_replicate. by vm_compute.
    + rewrite (utf8_encode_app _ _ _ _ Hhid (utf8_encode_zeros _)).
      unfold fit. by rewrite firstn_all2 by lia.
Qed.

Definition sample_header : t :=
  mk SYNC_WORD 0 [107; 52] 3 5 1 433920000 2400000 1000000 1048576 1700000000123 7 42 0 3 32 0
     (replicate 32 496) 1 1 6 0 (replicate reserved_words 4294967295) 8.

Lemma sample_header_wf : wf sample_header.
Proof.
  constructor; try reflexivity.
  - apply (bool_decide_unpack _). vm_compute. exact I.
  - apply (bool_decide_unpack _). vm_compute. exact I.
  - repeat constructor; try (cbn; lia).
Qed.

Lemma header_roundtrip_witness :
  exists bs, encode_header sample_header = Ok bs /\ length bs = 1024%nat /\
             decode_header init bs = (padded sample_header 14, None).
Proof.
  apply (header_roundtrip sample_header init [107; 52]).
  - exact sample_header_wf.
  - reflexivity.
  - cbn. lia.
Defined.

(** Types of the decoded values. *)
Definition typed (f : field) (v : value) : Prop :=
  match f, v with
  | FI, VInt z => u32 z
  | FQ, VInt z => u64 z
  | Fs n, VBytes b => length b = n
  | Fb, VInt _ => True
  | _, _ => False
  end.

Lemma unpack_typed off fmt bs :
  Forall byte_ok bs -> (off + length bs = calcsize_at off fmt)%nat ->
  Forall2 typed fmt (unpack_at off fmt bs).
Proof.
  revert off bs; induction fmt as [|f fmt IH]; intros off bs Hok Hl; cbn [unpack_at]; constructor.
  - cbn [calcsize_at] in Hl.
    pose proof (calcsize_at_ge (off + pad off (align_of f) + size_of f) fmt).
    set (b := take (size_of f) (drop (pad off (align_of f)) bs)).
    assert (length b = size_of f) as Hb by (unfold b; rewrite length_take, length_drop; lia).
    assert (Forall byte_ok b) as Hbo by by apply Forall_take, Forall_drop.
    pose proof (le_val_range b Hbo) as Hr. rewrite Hb in Hr.
    destruct f; cbn [dec typed size_of] in *; [done|exact Hr|exact Hr|done].
  - cbn [calcsize_at] in Hl.
    pose proof (calcsize_at_ge (off + pad off (align_of f) + size_of f) fmt).
    apply IH; [by repeat apply Forall_drop|]. rewrite !length_drop. lia.
Qed.

Lemma unpack_ok_typed fmt bs l :
  Forall byte_ok bs -> unpack fmt bs = Ok l -> Forall2 typed fmt l.
Proof.
  intros Hok. unfold unpack. case_bool_decide as Hsz; intros Hl; simp_res.
  by apply unpack_typed.
Qed.

Lemma list_as_values (l : list value) (fmt : list field) i :
  Forall2 typed fmt l -> fmt !! i = Some FI \/ fmt !! i = Some FQ ->
  l !! i = Some (VInt (int_at l i)).
Proof.
  intros H Hf. unfold int_at.
  assert (exists f, fmt !! i = Some f /\ (f = FI \/ f = FQ)) as (f & Hfi & Hff)
    by (destruct Hf; eauto).
  destruct (Forall2_lookup_l _ _ _ _ _ H Hfi) as (v & Hv & Ht). rewrite Hv.
  destruct Hff as [-> | ->], v; cbn in Ht; done.
Qed.

(** The value list of a decoded header is the field list of the header. *)
Lemma decoded_fields h0 h bs l :
  Forall byte_ok bs -> unpack HEADER_FORMAT bs = Ok l -> decode_header h0 bs = (h, None) ->
  exists hid, utf8_encode (hardware_id h) = Ok hid /\ gains32 h = Ok (if_gains h) /\
              l = all_fields h hid (if_gains h).
Proof.
  intros Hok Hl Hd. unfold decode_header in Hd. rewrite Hl in Hd.
  destruct (utf8_decode (bytes_at l 2)) as [hid|] eqn:Hu; [|done].
  apply (f_equal fst) in Hd. cbn [fst] in Hd. subst h. exists (bytes_at l 2).
  split; [by apply utf8_decode_encode|].
  split; [apply gains32_spec; cbn [if_gains]; by rewrite length_map, length_seq|].
  pose proof (unpack_ok_typed _ _ _ Hok Hl) as Ht. clear Hl.
  assert (length l = 246%nat) as Hlen by (apply Forall2_length in Ht; by rewrite <-Ht).
  assert (forall i, (i < 246)%nat -> i <> 2%nat -> l !! i = Some (VInt (int_at l i))) as Hi.
  { intros i Hi Hne. apply (list_as_values l HEADER_FORMAT i Ht).
    assert (forallb (fun i => Nat.eqb i 2 || match HEADER_FORMAT !! i with
              | Some FI | Some FQ => true | _ => false end) (seq 0 246) = true) as Hall
      by (vm_compute; reflexivity).
    rewrite forallb_forall in Hall. specialize (Hall i). rewrite in_seq in Hall.
    specialize (Hall ltac:(lia)). apply orb_true_iff in Hall as [H2%Nat.eqb_eq|Hf]; [lia|].
    destruct (HEADER_FORMAT !! i) as [[]|]; try done; auto. }
  assert (l !! 2%nat = Some (VBytes (bytes_at l 2))) as H2.
  { destruct (Forall2_lookup_l _ _ _ 2%nat (Fs 16) Ht eq_refl) as (v & Hv & Htv).
    unfold bytes_at. rewrite Hv. by destruct v. }
  assert (reserved192 (mk (int_at l 0) (int_at l 1) hid (int_at l 3) (int_at l 4) (int_at l 5)
             (int_at l 6) (int_at l 7) (int_at l 8) (int_at l 9) (int_at l 10) (int_at l 11)
             (int_at l 12) (int_at l 13) (int_at l 14) (int_at l 15) (int_at l 16)
             (map (int_at l) (seq 17 32))
             (int_at l 49) (int_at l 50) (int_at l 51) (int_at l 52)
             (map (int_at l) (seq 53 reserved_words))
             (int_at l (52 + reserved_words + 1))) = map (int_at l) (seq 53 192)) as Hres.
  { apply reserved192_id; cbn [reserved]; [|by rewrite length_map, length_seq].
    apply Forall_forall. intros x (i & <- & Hin)%in_map_iff.
    apply in_seq in Hin. unfold reserved_words in Hin.
    assert (HEADER_FORMAT !! i = Some FI) as Hf.
    { destruct header_format_split as [-> _]. rewrite lookup_app_r by (cbn; lia).
      rewrite lookup_app_l by (rewrite length_replicate; cbn; lia).
      apply lookup_replicate_2. cbn. lia. }
    destruct (Forall2_lookup_l _ _ _ _ _ Ht Hf) as (v & Hv & Htv).
    unfold int_at. rewrite Hv. destruct v; cbn in Htv; done. }
  apply list_eq_same_length with 246%nat; [|done|].
  { unfold all_fields. rewrite !length_app, !length_map, reserved192_length. done. }
  intros i x y Hlt Hx Hy. destruct (decide (i = 2%nat)) as [->|Hne].
  { rewrite H2 in Hx. cbn in Hy. congruence. }
  rewrite Hi in Hx by done. unfold all_fields in Hy. rewrite Hres in Hy.
  cbn [if_gains delay_sync_flag iq_sync_flag sync_state noise_source_state header_version] in Hy.
  assert (forall a n, map VInt (map (int_at l) (seq a n)) = map (fun i => VInt (int_at l i)) (seq a n))
    as Hmm by (intros; by rewrite map_map).
  rewrite !Hmm in Hy.
  assert (y = VInt (int_at l i)); [|congruence].
  do 246 (destruct i as [|i]; [cbn in Hy; congruence|]). lia.
Qed.

(** Relay transparency: a stage that decodes a header and encodes it
    again writes the identical 1024 bytes, for every buffer with zero
    alignment padding (which every encoder of this format writes) and a
    hardware id that is valid UTF-8. *)
Theorem header_reencode h0 h bs :
  Forall byte_ok bs -> pad_zero_at 0 HEADER_FORMAT bs = true ->
  decode_header h0 bs = (h, None) -> encode_header h = Ok bs.
Proof.
  intros Hok Hz Hd.
  destruct (unpack HEADER_FORMAT bs) as [l|e] eqn:Hl;
    [|unfold decode_header in Hd; by rewrite Hl in Hd].
  destruct (decoded_fields _ _ _ _ Hok Hl Hd) as (hid & Hh & Hg & ->).
  apply encode_unfold. exists hid, (if_gains h). split_and!; [done|done|].
  by apply pack_unpack.
Qed.

Definition sample_bytes : bytes :=
  match encode_header sample_header with Ok bs => bs | Raise _ => [] end.

Lemma header_reencode_witness :
  encode_header (padded sample_header 14) = Ok sample_bytes.
Proof.
  apply (header_reencode init).
  - apply (bool_decide_unpack (Forall (fun b => 0 <= b < 256) sample_bytes)).
    vm_compute. exact I.
  - vm_compute. reflexivity.
  - vm_compute. reflexivity.
Defined.

(** Wire position of the reserved slots: word [k] of the reserved region
    is stored little-endian at byte offset [252 + 4*k] of the encoded header,
    masked to 32 bits, and reads as zero when the list is shorter. *)
Theorem slot_wire_offset h bs k :
  encode_header h = Ok bs -> (k < reserved_words)%nat ->
  le_val (take 4 (drop (252 + 4 * k) bs))
  = match reserved h !! k with Some v => v mod 2 ^ 32 | None => 0 end.
Proof.
  intros (hid & g & _ & Hg & Hp)%encode_unfold Hk. apply gains32_length in Hg.
  destruct header_format_split as [Hf Hsz].
  unfold all_fields in Hp. rewrite Hf in Hp.
  rewrite !(app_assoc (head_fields h hid)) in Hp. rewrite !(app_assoc _ (map VInt [_; _; _; _])) in Hp.
  apply (pack_app _ _ _ _ _ _ Hsz) in Hp as (b1 & b2 & Hl1 & H2 & ->);
    [|rewrite !length_app, !length_map, Hg; reflexivity].
  apply pack_at_app in H2 as (b3 & b4 & H3 & _ & ->);
    [|by rewrite length_map, length_replicate, reserved192_length].
  assert (b3 = concat (map (le_bytes 4) (reserved192 h))) as ->.
  { eapply (pack_u32_run 252); [by exists 63%nat|]. by rewrite reserved192_length. }
  rewrite <-drop_drop, drop_app_length' by done.
  erewrite word_at by by apply reserved192_lookup.
  rewrite le_val_bytes. change (256 ^ Z.of_nat 4) with (2 ^ 32).
  destruct (reserved h !! k); [|done]. rewrite mask32_mod. by rewrite Z.mod_mod by lia.
Qed.

Lemma slot_wire_offset_witness :
  le_val (take 4 (drop (252 + 4 * 103) sample_bytes)) = 4294967295.
Proof.
  rewrite (slot_wire_offset sample_header sample_bytes 103).
  - vm_compute. reflexivity.
  - vm_compute. reflexivity.
  - vm_compute. lia.
Defined.

(** ** Accessors *)
Lemma sx32_sx v : _sx32 v = sx 32 (v mod 2 ^ 32).
Proof. unfold _sx32, sx. rewrite mask32_mod. done. Qed.

Lemma sx32_mask v : - 2 ^ 31 <= v < 2 ^ 31 -> _sx32 (mask32 v) = v.
Proof.
  intros Hv. rewrite sx32_sx, mask32_mod, Z.mod_mod by lia. by apply sx_mod.
Qed.

Lemma set_u32_spec k v h h' :
  _set_u32 k v h = Ok h' <->
  (k < length (reserved h))%nat /\ h' = with_reserved h (<[k := mask32 v]> (reserved h)).
Proof.
  unfold _set_u32, py_set. case_bool_decide; simp_res; split; intros Hs; try done.
  - by simp_res.
  - by destruct Hs as [_ ->].
  - by destruct Hs.
Qed.

Lemma get_u32_set k v h h' : _set_u32 k v h = Ok h' -> _get_u32 k h' = Ok (v mod 2 ^ 32).
Proof.
  intros [Hk ->]%set_u32_spec. unfold _get_u32. cbn [reserved with_reserved].
  rewrite (py_get_Some _ _ (mask32 v)) by by apply list_lookup_insert_eq. cbn.
  by rewrite !mask32_mod, Z.mod_mod by lia.
Qed.

Lemma get_s32_set k v h h' :
  - 2 ^ 31 <= v < 2 ^ 31 -> _set_u32 k v h = Ok h' -> _get_s32 k h' = Ok v.
Proof.
  intros Hv [Hk ->]%set_u32_spec. unfold _get_s32. cbn [reserved with_reserved].
  rewrite (py_get_Some _ _ (mask32 v)) by by apply list_lookup_insert_eq. cbn.
  by rewrite sx32_mask.
Qed.

Lemma get_u32_set_ne j k v h h' : j <> k -> _set_u32 k v h = Ok h' -> _get_u32 j h' = _get_u32 j h.
Proof.
  intros Hne [Hk ->]%set_u32_spec. unfold _get_u32, py_get. cbn [reserved with_reserved].
  by rewrite list_lookup_insert_ne.
Qed.

(** The scalar slots, in the order of the source. *)
Definition scalar_slots : list nat :=
  [RSV_COMPRESSION_FLAGS; RSV_BIAS_TEE_STATE; RSV_ANTENNA_AZ_CDEG; RSV_ANTENNA_EL_CDEG;
   RSV_ROTATOR_STATE; RSV_AGG_POWER_MDB; RSV_BUFFER_OVERRUN_CNT; RSV_ROUTER_SEQ;
   RSV_ROUTER_RX_TS_LO; RSV_ROUTER_RX_TS_HI; RSV_SOURCE_INSTANCE; RSV_SOURCE_KEY_CRC32;
   RSV_NODE_ID_CRC32; RSV_DECIMATOR_DROP_CNT; RSV_CAL_QUALITY_MDB; RSV_IQ_COMP_CNT;
   RSV_SAMPLE_COMP_CNT; RSV_RECAL_GEN].

Lemma set_block_spec start vs h :
  length (reserved h) = reserved_words ->
  exists h', _set_reserved_block start vs h = Ok h' /\ length (reserved h') = reserved_words /\
    forall k, reserved h' !! k =
      if bool_decide (start <= k < start + length vs /\ k < reserved_words)%nat
      then mask32 <$> vs !! (k - start)%nat else reserved h !! k.
Proof.
  revert start h; induction vs as [|v vs IH]; intros start h Hl; cbn [_set_reserved_block].
  { exists h. split_and!; [done|done|]. intros k. rewrite bool_decide_eq_false_2; [done|].
    cbn [length]. lia. }
  assert (exists h1, (if bool_decide (start < reserved_words)%nat then _set_u32 start v h else Ok h) = Ok h1
    /\ length (reserved h1) = reserved_words /\
    forall k, reserved h1 !! k = if bool_decide (k = start /\ k < reserved_words)%nat
                                then Some (mask32 v) else reserved h !! k) as (h1 & -> & Hl1 & Hk1).
  { case_bool_decide as Hs.
    - eexists. split; [apply set_u32_spec; split; [by rewrite Hl|reflexivity]|].
      cbn [reserved with_reserved]. rewrite length_insert. split; [done|]. intros k.
      case_bool_decide as Hk; [destruct Hk as [-> _]; apply list_lookup_insert_eq; by rewrite Hl|].
      apply list_lookup_insert_ne. intros ->. apply Hk. lia.
    - exists h. split_and!; [done|done|]. intros k. rewrite bool_decide_eq_false_2; [done|].
      intros [-> ?]. lia. }
  destruct (IH (S start) h1 Hl1) as (h' & Hh' & Hl' & Hk'). cbn. exists h'. split_and!; [done|done|].
  intros k. rewrite Hk', Hk1. cbn [length].
  destruct (decide (k < reserved_words)%nat);
    [|repeat (rewrite bool_decide_eq_false_2 by lia); done].
  destruct (decide (k = start)) as [->|Hne].
  - rewrite bool_decide_eq_false_2, !bool_decide_eq_true_2 by lia. by rewrite Nat.sub_diag.
  - rewrite (bool_decide_eq_false_2 (k = start /\ _)) by lia.
    destruct (decide (start < k < start + S (length vs))%nat).
    + rewrite !bool_decide_eq_true_2 by lia.
      by replace (k - start)%nat with (S (k - S start)) by lia.
    + by rewrite !bool_decide_eq_false_2 by lia.
Qed.

Lemma get_block_frame start n h h' :
  length (reserved h) = length (reserved h') ->
  (forall k, (start <= k < start + n)%nat -> reserved h' !! k = reserved h !! k) ->
  _get_reserved_block start n true h' = _get_reserved_block start n true h.
Proof.
  intros Hl Hk. unfold _get_reserved_block. f_equal. apply list_eq. intros i.
  destruct (decide (i < n)%nat).
  - rewrite !lookup_take_lt, !lookup_drop by done. apply Hk. lia.
  - by rewrite !lookup_take_ge by lia.
Qed.

Lemma get_block_set start vs h' :
  (start + length vs <= reserved_words)%nat -> Forall (fun v => - 2 ^ 31 <= v < 2 ^ 31) vs ->
  length (reserved h') = reserved_words ->
  (forall k, (start <= k < start + length vs)%nat ->
     reserved h' !! k = mask32 <$> vs !! (k - start)%nat) ->
  _get_reserved_block start (length vs) true h' = vs.
Proof.
  intros Hs Hv Hl Hk. unfold _get_reserved_block.
  apply list_eq_same_length with (length vs); [done| |].
  { rewrite length_map, length_take, length_drop. lia. }
  intros i x y Hi Hx Hy. rewrite list_lookup_fmap, lookup_take_lt, lookup_drop, Hk in Hx by lia.
  replace (start + i - start)%nat with i in Hx by lia. rewrite Hy in Hx. cbn in Hx.
  simplify_eq. apply sx32_mask. by eapply (Forall_lookup_1 (fun v => - 2 ^ 31 <= v < 2 ^ 31)) in Hv.
Qed.

(** The scalar telemetry slots do not interfere: the slot indices are
    pairwise distinct and inside the reserved region, writing one slot makes
    its getter return the value masked to 32 bits and changes no other slot,
    no per-channel gain block and no other header field. *)
Theorem scalar_slot_frame k v h h' :
  In k scalar_slots -> length (reserved h) = reserved_words -> _set_u32 k v h = Ok h' ->
  NoDup scalar_slots /\ length (reserved h') = reserved_words /\
  _get_u32 k h' = Ok (v mod 2 ^ 32) /\
  (forall j, j <> k -> _get_u32 j h' = _get_u32 j h) /\
  (forall n, (n <= 32)%nat ->
     get_ext_lna_gains n h' = get_ext_lna_gains n h /\
     get_total_system_gains n h' = get_total_system_gains n h /\
     get_system_nf_mdb n h' = get_system_nf_mdb n h) /\
  with_reserved h' (reserved h) = h.
Proof.
  intros Hk Hl Hs. assert (96 <= k)%nat as Hge.
  { cut (forallb (fun k => Nat.leb 96 k) scalar_slots = true); [|by vm_compute].
    rewrite forallb_forall. intros H. by apply Nat.leb_le, H. }
  split; [apply (bool_decide_unpack _); vm_compute; exact I|].
  pose proof (get_u32_set _ _ _ _ Hs) as Hget.
  pose proof (fun j Hj => get_u32_set_ne j _ _ _ _ Hj Hs) as Hne.
  apply set_u32_spec in Hs as [Hlt ->]. cbn [reserved with_reserved]. rewrite length_insert.
  split_and!; [done|done|done| |by destruct h].
  intros n Hn. split_and!; apply get_block_frame; cbn [reserved with_reserved];
    try (by rewrite length_insert); intros i Hi; apply list_lookup_insert_ne;
    unfold RSV_EXT_LNA_GAINS, RSV_TOTAL_GAINS, RSV_SYSTEM_NF_MDB in *; lia.
Qed.

Lemma scalar_slot_frame_witness :
  exists h', set_router_seq 4294967296 sample_header = Ok h' /\ get_router_seq h' = Ok 0.
Proof.
  eexists. split; [reflexivity|].
  apply (scalar_slot_frame RSV_ROUTER_SEQ 4294967296 sample_header).
  - vm_compute. tauto.
  - reflexivity.
  - reflexivity.
Defined.

(** The per-channel blocks (external LNA gains, total gains, noise
    figure): after the three writes of a frame, for up to 32 channels of signed
    32-bit values each, the getters return exactly the values written, sign
    included, and every scalar slot is untouched. *)
Theorem gain_blocks_roundtrip e g n h :
  length (reserved h) = reserved_words ->
  (length e <= 32 /\ length g <= 32 /\ length n <= 32)%nat ->
  Forall (fun v => - 2 ^ 31 <= v < 2 ^ 31) (e ++ g ++ n) ->
  exists h1 h2 h3,
    set_ext_lna_gains e h = Ok h1 /\ set_total_system_gains g h1 = Ok h2 /\
    set_system_nf_mdb n h2 = Ok h3 /\
    get_ext_lna_gains (length e) h3 = e /\ get_total_system_gains (length g) h3 = g /\
    get_system_nf_mdb (length n) h3 = n /\
    forall k, (96 <= k)%nat -> _get_u32 k h3 = _get_u32 k h.
Proof.
  intros Hl (He & Hg & Hn) [Hve [Hvg Hvn]%Forall_app]%Forall_app.
  destruct (set_block_spec RSV_EXT_LNA_GAINS e h Hl) as (h1 & H1 & Hl1 & K1).
  destruct (set_block_spec RSV_TOTAL_GAINS g h1 Hl1) as (h2 & H2 & Hl2 & K2).
  destruct (set_block_spec RSV_SYSTEM_NF_MDB n h2 Hl2) as (h3 & H3 & Hl3 & K3).
  exists h1, h2, h3. split_and!; [done|done|done| | | |];
    unfold get_ext_lna_gains, get_total_system_gains, get_system_nf_mdb, RSV_EXT_LNA_GAINS,
      RSV_TOTAL_GAINS, RSV_SYSTEM_NF_MDB, reserved_words in *.
  - apply get_block_set; [unfold reserved_words; lia|done|done|]. intros k Hk. rewrite K3, K2, K1.
    rewrite !bool_decide_eq_false_2 by lia. by rewrite bool_decide_eq_true_2 by lia.
  - apply get_block_set; [unfold reserved_words; lia|done|done|]. intros k Hk. rewrite K3, K2.
    rewrite bool_decide_eq_false_2 by lia. by rewrite bool_decide_eq_true_2 by lia.
  - apply get_block_set; [unfold reserved_words; lia|done|done|]. intros k Hk. rewrite K3.
    by rewrite bool_decide_eq_true_2 by lia.
  - intros k Hk. unfold _get_u32, py_get. rewrite K3, K2, K1.
    by rewrite !bool_decide_eq_false_2 by lia.
Qed.

Lemma gain_blocks_roundtrip_witness :
  exists h1 h2 h3,
    set_ext_lna_gains [200; -35] init = Ok h1 /\ set_total_system_gains [696] h1 = Ok h2 /\
    set_system_nf_mdb [-1] h2 = Ok h3 /\
    get_ext_lna_gains 2 h3 = [200; -35] /\ get_total_system_gains 1 h3 = [696] /\
    get_system_nf_mdb 1 h3 = [-1] /\ forall k, (96 <= k)%nat -> _get_u32 k h3 = _get_u32 k init.
Proof.
  apply (gain_blocks_roundtrip [200; -35] [696] [-1] init).
  - reflexivity.
  - cbn. lia.
  - apply (bool_decide_unpack _). vm_compute. exact I.
Defined.

Lemma land_u64 z : Z.land z 18446744073709551615 = z mod 2 ^ 64.
Proof. by rewrite <-(Z.land_ones _ 64) by lia. Qed.

(** The router receive time is a 64-bit value split over two slots: for
    every integer, reading it back gives the value modulo 2^64, and stamping
    never fails on a header with a full reserved region. *)
Theorem router_timestamp_roundtrip ts h :
  length (reserved h) = reserved_words ->
  exists h', set_router_rx_ts_ms ts h = Ok h' /\ get_router_rx_ts_ms h' = Ok (ts mod 2 ^ 64).
Proof.
  intros Hl. unfold set_router_rx_ts_ms, py_set.
  rewrite Hl, bool_decide_eq_true_2 by (unfold RSV_ROUTER_RX_TS_LO, RSV_ROUTER_RX_TS_HI, reserved_words; lia). unfold mbind, res_bind.
  rewrite length_insert, Hl, bool_decide_eq_true_2 by (unfold RSV_ROUTER_RX_TS_LO, RSV_ROUTER_RX_TS_HI, reserved_words; lia).
  eexists. split; [done|]. unfold get_router_rx_ts_ms, _get_u32. cbn [reserved with_reserved].
  rewrite (py_get_Some _ RSV_ROUTER_RX_TS_HI (Z.shiftr (Z.land ts 18446744073709551615) 32))
    by (apply list_lookup_insert_eq; rewrite length_insert, Hl; unfold RSV_ROUTER_RX_TS_LO, RSV_ROUTER_RX_TS_HI, reserved_words; lia).
  rewrite (py_get_Some _ RSV_ROUTER_RX_TS_LO (mask32 (Z.land ts 18446744073709551615)))
    by (rewrite list_lookup_insert_ne by done; apply list_lookup_insert_eq; rewrite Hl; unfold RSV_ROUTER_RX_TS_LO, RSV_ROUTER_RX_TS_HI, reserved_words; lia).
  cbn -[Z.lor Z.shiftl Z.shiftr Z.land]. f_equal. rewrite land_u64.
  set (w := ts mod 2 ^ 64). assert (0 <= w < 2 ^ 64) as Hw by by apply Z.mod_pos_bound.
  rewrite (mask32_id (mask32 w)) by apply mask32_range.
  rewrite (mask32_id (Z.shiftr w 32)).
  2:{ rewrite Z.shiftr_div_pow2 by lia. Z.to_euclidean_division_equations; lia. }
  rewrite mask32_mod, <-Z.land_ones by lia. rewrite <-Z.ldiff_ones_r by lia.
  apply Z.lor_ldiff_and.
Qed.

Lemma router_timestamp_roundtrip_witness :
  exists h', set_router_rx_ts_ms 1700000000123 init = Ok h' /\
             get_router_rx_ts_ms h' = Ok (1700000000123 mod 2 ^ 64).
Proof. apply (router_timestamp_roundtrip 1700000000123 init). reflexivity. Defined.

Lemma cal_quality_range mdb : - 2 ^ 31 <= cal_quality_value mdb < 2 ^ 31.
Proof.
  destruct mdb as [| | |q]; cbn [cal_quality_value]; try lia.
  destruct (Qle_bool (inject_Z 2147483647) q) eqn:Hhi; [lia|].
  destruct (Qle_bool q (inject_Z (-2147483648))) eqn:Hlo; [lia|]. q_prop.
  pose proof (Qround_even_close q) as [H1 H2].
  assert (inject_Z 2147483648 == inject_Z 2147483647 + 1)%Q as E1 by reflexivity.
  assert (inject_Z (-2147483649) == inject_Z (-2147483648) - 1)%Q as E2 by reflexivity.
  assert (inject_Z (Qround_even q) < inject_Z 2147483648)%Q as Ha by lra.
  assert (inject_Z (-2147483649) < inject_Z (Qround_even q))%Q as Hb by lra.
  rewrite <-Zlt_Qlt in Ha, Hb. lia.
Qed.

(** Calibration quality saturates instead of wrapping: for every float,
    NaN and infinities included, the value read back is the stored signed
    32-bit value; it is 0 for NaN, the nearest representable bound outside the
    int32 range, and within half a unit of the input inside it. *)
Theorem cal_quality_saturates mdb h :
  length (reserved h) = reserved_words ->
  exists h' v, set_cal_quality_mdb mdb h = Ok h' /\ get_cal_quality_mdb h' = Ok v /\
    - 2 ^ 31 <= v < 2 ^ 31 /\
    match mdb with
    | NaN => v = 0
    | PInf => v = 2 ^ 31 - 1
    | NInf => v = - 2 ^ 31
    | Fin q =>
        ((inject_Z (2 ^ 31 - 1) <= q)%Q /\ v = 2 ^ 31 - 1) \/
        ((q <= inject_Z (- 2 ^ 31))%Q /\ v = - 2 ^ 31) \/
        (inject_Z v - (1 # 2) <= q <= inject_Z v + (1 # 2))%Q
    end.
Proof.
  intros Hl. pose proof (cal_quality_range mdb) as Hr.
  unfold set_cal_quality_mdb, get_cal_quality_mdb.
  assert (exists h', _set_u32 RSV_CAL_QUALITY_MDB (cal_quality_value mdb) h = Ok h') as [h' Hs].
  { eexists. apply set_u32_spec. rewrite Hl. split; [unfold RSV_CAL_QUALITY_MDB, reserved_words; lia|done]. }
  exists h', (cal_quality_value mdb). split_and!; [done|by eapply get_s32_set|lia|lia|].
  destruct mdb as [| | |q]; cbn [cal_quality_value]; try done.
  destruct (Qle_bool (inject_Z 2147483647) q) eqn:Hhi; [left|right]; q_prop; [done|].
  destruct (Qle_bool q (inject_Z (-2147483648))) eqn:Hlo; [left|right]; q_prop; [done|].
  apply Qround_even_close.
Qed.

Lemma cal_quality_saturates_witness :
  exists h' v, set_cal_quality_mdb (Fin (25 # 2)) init = Ok h' /\ get_cal_quality_mdb h' = Ok v /\
    - 2 ^ 31 <= v < 2 ^ 31 /\
    (((inject_Z (2 ^ 31 - 1) <= 25 # 2)%Q /\ v = 2 ^ 31 - 1) \/
     ((25 # 2 <= inject_Z (- 2 ^ 31))%Q /\ v = - 2 ^ 31) \/
     (inject_Z v - (1 # 2) <= 25 # 2 <= inject_Z v + (1 # 2))%Q).
Proof. apply (cal_quality_saturates (Fin (25 # 2)) init). reflexivity. Defined.

(** Antenna bearing: azimuth in 0..360 and elevation in -90..90 degrees
    come back within half a centi-degree. *)
Theorem bearing_roundtrip az el h :
  length (reserved h) = reserved_words ->
  (0 <= az <= 360)%Q -> (-90 <= el <= 90)%Q ->
  exists h' az' el', set_antenna_bearing az el h = Ok h' /\
    get_antenna_bearing h' = Ok (az', el') /\
    (az' - (1 # 200) <= az <= az' + (1 # 200))%Q /\
    (el' - (1 # 200) <= el <= el' + (1 # 200))%Q.
Proof.
  intros Hl Haz Hel. unfold set_antenna_bearing, get_antenna_bearing.
  pose proof (Qround_even_close (az * 100)) as Ca. pose proof (Qround_even_close ((el + 90) * 100)) as Ce.
  assert (forall q, (-1 <= q <= 40000)%Q -> - 2 ^ 31 <= Qround_even q < 2 ^ 31) as Hb.
  { intros q Hq. pose proof (Qround_even_close q).
    assert (inject_Z (-2) < inject_Z (Qround_even q))%Q as H1.
    { assert (inject_Z (-2) == -2)%Q as -> by reflexivity. lra. }
    assert (inject_Z (Qround_even q) < inject_Z 40001)%Q as H2.
    { assert (inject_Z 40001 == 40001)%Q as -> by reflexivity. lra. }
    rewrite <-Zlt_Qlt in H1, H2. lia. }
  assert (forall k v h, (k < reserved_words)%nat -> length (reserved h) = reserved_words ->
            exists h', _set_u32 k v h = Ok h' /\ length (reserved h') = reserved_words) as Hset.
  { intros k v h1 Hk Hl1. eexists. split; [apply set_u32_spec; by rewrite Hl1|].
    cbn [reserved with_reserved]. by rewrite length_insert. }
  destruct (Hset RSV_ANTENNA_AZ_CDEG (Qround_even (az * 100)) h) as (h1 & H1 & Hl1);
    [unfold RSV_ANTENNA_AZ_CDEG, reserved_words; lia|done|].
  destruct (Hset RSV_ANTENNA_EL_CDEG (Qround_even ((el + 90) * 100)) h1) as (h2 & H2 & Hl2);
    [unfold RSV_ANTENNA_EL_CDEG, reserved_words; lia|done|].
  rewrite H1. cbn -[_set_u32]. rewrite H2. do 3 eexists. split; [done|].
  assert (_get_s32 RSV_ANTENNA_AZ_CDEG h2 = Ok (Qround_even (az * 100))) as ->.
  { apply get_s32_set in H1; [|apply Hb; lra]. rewrite <-H1.
    apply set_u32_spec in H2 as [_ ->]. unfold _get_s32, py_get. cbn [reserved with_reserved].
    by rewrite list_lookup_insert_ne. }
  rewrite (get_s32_set _ _ _ _ (Hb ((el + 90) * 100)%Q ltac:(lra)) H2).
  split; [done|]. unfold Qdiv. change (/ 100)%Q with (1 # 100). split; lra.
Qed.

Lemma bearing_roundtrip_witness :
  exists h' az' el', set_antenna_bearing (1801 # 10) (-5) init = Ok h' /\
    get_antenna_bearing h' = Ok (az', el') /\
    (az' - (1 # 200) <= 1801 # 10 <= az' + (1 # 200))%Q /\
    (el' - (1 # 200) <= -5 <= el' + (1 # 200))%Q.
Proof.
  apply (bearing_roundtrip (1801 # 10) (-5) init); [reflexivity| |]; split; vm_compute; discriminate.
Defined.

End Hdr.
