(* ===== verification/CHeader.v ===== *)
(** * The frame header as the C programs see it ([_daq_core/iq_header.h], [iq_header.c])

    [struct iq_header_struct] is its 1024 bytes in memory; a field is read and
    written at the offset the C layout rules give it (natural alignment,
    little-endian).  The theorem says that the C structure and the [struct]
    format of [IQHeader] describe the same bytes. *)
From S2P Require Import Prelude PyStruct PyText IQHeader.

Module CHdr.

Inductive ctype := U32 | U64 | Chars (n : nat) | U32s (n : nat).

Definition csize (c : ctype) : nat :=
  match c with U32 => 4 | U64 => 8 | Chars n => n | U32s n => 4 * n end.
Definition calign (c : ctype) : nat :=
  match c with U32 | U32s _ => 4 | U64 => 8 | Chars _ => 1 end.

Definition iq_header_struct : list (string * ctype) :=
  [("sync_word", U32); ("frame_type", U32); ("hardware_id", Chars 16); ("unit_id", U32);
   ("active_ant_chs", U32); ("ioo_type", U32); ("rf_center_freq", U64); ("adc_sampling_freq", U64);
   ("sampling_freq", U64); ("cpi_length", U32); ("time_stamp", U64); ("daq_block_index", U32);
   ("cpi_index", U32); ("ext_integration_cntr", U64); ("data_type", U32); ("sample_bit_depth", U32);
   ("adc_overdrive_flags", U32); ("if_gains", U32s 32); ("delay_sync_flag", U32); ("iq_sync_flag", U32);
   ("sync_state", U32); ("noise_source_state", U32); ("reserved", U32s 192); ("header_version", U32)].

(** Offset and type of every member, and the end of the last one. *)
Fixpoint layout (off : nat) (ms : list (string * ctype)) : list (string * (nat * ctype)) * nat :=
  match ms with
  | [] => ([], off)
  | (n, c) :: ms =>
      let o := (off + pad off (calign c))%nat in
      let r := layout (o + csize c) ms in ((n, (o, c)) :: r.1, r.2)
  end.

(** The structure is padded to a multiple of its strictest alignment. *)
Definition sizeof (ms : list (string * ctype)) : nat :=
  let e := (layout 0 ms).2 in (e + pad e (foldr Nat.max 1 (map (fun m => calign m.2) ms)))%nat.

Definition offsetof (n : string) : nat :=
  match list_find (fun m => m.1 = n) (layout 0 iq_header_struct).1 with
  | Some (_, (_, (o, _))) => o
  | None => 0%nat
  end.

Definition IQ_HEADER_LENGTH : nat := 1024.
Definition FRAME_TYPE_DATA : Z := 0.
Definition FRAME_TYPE_DUMMY : Z := 1.
Definition FRAME_TYPE_RAMP : Z := 2.
Definition FRAME_TYPE_CAL : Z := 3.
Definition FRAME_TYPE_TRIGW : Z := 4.

(** ** Member access *)
Definition read_at (o n : nat) (bs : bytes) : Z := le_val (take n (drop o bs)).
Definition write_at (o n : nat) (v : Z) (bs : bytes) : bytes :=
  take o bs ++ le_bytes n v ++ drop (o + n) bs.

Definition sync_word (h : bytes) : Z := read_at 0 4 h.
Definition frame_type (h : bytes) : Z := read_at 4 4 h.
Definition active_ant_chs (h : bytes) : Z := read_at 28 4 h.
Definition rf_center_freq (h : bytes) : Z := read_at 40 8 h.
Definition adc_sampling_freq (h : bytes) : Z := read_at 48 8 h.
Definition sampling_freq (h : bytes) : Z := read_at 56 8 h.
Definition cpi_length (h : bytes) : Z := read_at 64 4 h.
Definition time_stamp (h : bytes) : Z := read_at 72 8 h.
Definition daq_block_index (h : bytes) : Z := read_at 80 4 h.
Definition cpi_index (h : bytes) : Z := read_at 84 4 h.
Definition data_type (h : bytes) : Z := read_at 96 4 h.
Definition sample_bit_depth (h : bytes) : Z := read_at 100 4 h.
Definition adc_overdrive_flags (h : bytes) : Z := read_at 104 4 h.
Definition if_gain (m : nat) (h : bytes) : Z := read_at (108 + 4 * m) 4 h.
Definition sync_state (h : bytes) : Z := read_at 244 4 h.
Definition noise_source_state (h : bytes) : Z := read_at 248 4 h.
Definition reserved (k : nat) (h : bytes) : Z := read_at (252 + 4 * k) 4 h.
Definition header_version (h : bytes) : Z := read_at 1020 4 h.

Definition set_sampling_freq (v : Z) : bytes -> bytes := write_at 56 8 v.
Definition set_cpi_length (v : Z) : bytes -> bytes := write_at 64 4 v.
Definition set_time_stamp (v : Z) : bytes -> bytes := write_at 72 8 v.
Definition set_cpi_index (v : Z) : bytes -> bytes := write_at 84 4 v.
Definition set_data_type (v : Z) : bytes -> bytes := write_at 96 4 v.
Definition set_sample_bit_depth (v : Z) : bytes -> bytes := write_at 100 4 v.
Definition set_adc_overdrive_flags (v : Z) : bytes -> bytes := write_at 104 4 v.
Definition set_reserved (k : nat) (v : Z) : bytes -> bytes := write_at (252 + 4 * k) 4 v.

(** 0 when the word is right, -1 otherwise. *)
Definition check_sync_word (h : bytes) : Z := if sync_word h =? Hdr.SYNC_WORD then 0 else -1.

(** ** The layout *)

(** The compile-time assertions of [iq_header.h], and the offsets the accessors
    above use. *)
Lemma layout_asserts :
  sizeof iq_header_struct = IQ_HEADER_LENGTH /\ offsetof "reserved" = 252%nat /\
  offsetof "header_version" = 1020%nat /\ offsetof "time_stamp" = 72%nat /\
  map offsetof ["sync_word"; "frame_type"; "active_ant_chs"; "rf_center_freq"; "adc_sampling_freq"; "sampling_freq";
                "cpi_length"; "daq_block_index"; "cpi_index"; "data_type"; "sample_bit_depth";
                "adc_overdrive_flags"; "if_gains"; "sync_state"; "noise_source_state"]
  = [0; 4; 28; 40; 48; 56; 64; 80; 84; 96; 100; 104; 108; 244; 248]%nat.
Proof. vm_compute. done. Qed.

Lemma read_write o n v bs :
  (o + n <= length bs)%nat -> read_at o n (write_at o n v bs) = v mod 256 ^ Z.of_nat n.
Proof.
  intros H. unfold read_at, write_at. rewrite drop_app_length' by (rewrite length_take; lia).
  rewrite take_app_length' by (by rewrite le_bytes_length). apply le_val_bytes.
Qed.

Lemma write_at_length o n v bs : (o + n <= length bs)%nat -> length (write_at o n v bs) = length bs.
Proof.
  intros H. unfold write_at. rewrite !length_app, length_take, length_drop, le_bytes_length. lia.
Qed.

(** A field that does not overlap the one written keeps its bytes. *)
Lemma read_write_ne o n v o' n' bs :
  (o + n <= length bs)%nat -> (o' + n' <= o \/ o + n <= o')%nat ->
  read_at o' n' (write_at o n v bs) = read_at o' n' bs.
Proof.
  intros H Hd. unfold read_at, write_at. f_equal. destruct Hd as [Hd|Hd].
  - rewrite drop_app_le, take_app_le by (rewrite ?length_drop, length_take; lia).
    rewrite skipn_firstn_comm, take_take. f_equal. lia.
  - rewrite drop_app_ge by (rewrite length_take; lia). rewrite length_take.
    rewrite drop_app_ge by (rewrite le_bytes_length; lia). rewrite le_bytes_length, drop_drop.
    do 2 f_equal. lia.
Qed.

(** The bytes a field of a struct format is read from. *)
Fixpoint places (off pos : nat) (fmt : list field) : list (field * nat) :=
  match fmt with
  | [] => []
  | f :: fmt =>
      let p := (pos + pad off (align_of f))%nat in
      (f, p) :: places (off + pad off (align_of f) + size_of f) (p + size_of f) fmt
  end.

Lemma unpack_places off pos fmt bs :
  unpack_at off fmt (drop pos bs) = map (fun fp => dec fp.1 (take (size_of fp.1) (drop fp.2 bs))) (places off pos fmt).
Proof.
  revert off pos. induction fmt as [|f fmt IH]; intros off pos; cbn [unpack_at places map]; [done|].
  rewrite !drop_drop. f_equal. apply IH.
Qed.

Lemma int_at_places bs i f p :
  length bs = IQ_HEADER_LENGTH -> places 0 0 Hdr.HEADER_FORMAT !! i = Some (f, p) ->
  match unpack Hdr.HEADER_FORMAT bs with Ok l => Hdr.int_at l i | Raise _ => 0 end =
  match dec f (take (size_of f) (drop p bs)) with VInt z => z | VBytes _ => 0 end.
Proof.
  intros Hl Hp. unfold unpack. rewrite bool_decide_eq_true_2 by (by rewrite Hl).
  rewrite <-(drop_0 bs) at 1. rewrite unpack_places. unfold Hdr.int_at. by rewrite list_lookup_fmap, Hp.
Qed.

(** A 4-byte or 8-byte integer field of the format is the C member there. *)
Lemma int_field bs l i f p :
  unpack Hdr.HEADER_FORMAT bs = Ok l -> places 0 0 Hdr.HEADER_FORMAT !! i = Some (f, p) ->
  f = FI \/ f = FQ -> Hdr.int_at l i = read_at p (size_of f) bs.
Proof.
  intros Hu Hp Hf. assert (length bs = IQ_HEADER_LENGTH) as Hl.
  { unfold unpack in Hu. case_bool_decide as H; [|done]. by rewrite H. }
  pose proof (int_at_places bs i f p Hl Hp) as H. rewrite Hu in H. rewrite H. by destruct Hf as [-> | ->].
Qed.

Lemma word_field bs l i :
  unpack Hdr.HEADER_FORMAT bs = Ok l -> (17 <= i < 246)%nat -> Hdr.int_at l i = read_at (108 + 4 * (i - 17)) 4 bs.
Proof.
  intros Hu Hi. apply (int_field bs l i FI _ Hu); [|by left].
  assert (drop 17 (places 0 0 Hdr.HEADER_FORMAT) = map (fun k => (FI, 108 + 4 * k)%nat) (seq 0 229)) as H
    by (by vm_compute).
  replace i with (17 + (i - 17))%nat at 1 by lia.
  rewrite <-lookup_drop, H, list_lookup_fmap, lookup_seq_lt by lia. done.
Qed.

(** One header, two languages: when the Python side decodes the bytes of a
    header, every field it finds is the member of the C structure of that
    name, the gains and the reserved words included. *)
Theorem c_layout_agrees h0 h bs :
  Hdr.decode_header h0 bs = (h, None) ->
  sync_word bs = Hdr.sync_word h /\ frame_type bs = Hdr.frame_type h /\
  active_ant_chs bs = Hdr.active_ant_chs h /\ rf_center_freq bs = Hdr.rf_center_freq h /\
  adc_sampling_freq bs = Hdr.adc_sampling_freq h /\ sampling_freq bs = Hdr.sampling_freq h /\
  cpi_length bs = Hdr.cpi_length h /\ time_stamp bs = Hdr.time_stamp h /\
  daq_block_index bs = Hdr.daq_block_index h /\ cpi_index bs = Hdr.cpi_index h /\
  data_type bs = Hdr.data_type h /\ sample_bit_depth bs = Hdr.sample_bit_depth h /\
  adc_overdrive_flags bs = Hdr.adc_overdrive_flags h /\ sync_state bs = Hdr.sync_state h /\
  noise_source_state bs = Hdr.noise_source_state h /\ header_version bs = Hdr.header_version h /\
  check_sync_word bs = Hdr.check_sync_word h /\
  (forall m, (m < 32)%nat -> Hdr.if_gains h !! m = Some (if_gain m bs)) /\
  (forall k, (k < 192)%nat -> Hdr.reserved h !! k = Some (reserved k bs)).
Proof.
  intros Hd. unfold Hdr.decode_header in Hd. destruct (unpack _ bs) as [l|] eqn:Hu; [|done].
  destruct (utf8_decode _) as [hid|]; [|done]. injection Hd as <-.
  assert (sync_word bs = Hdr.int_at l 0) as Hs by (symmetry; apply (int_field bs l 0 FI 0 Hu); [done|by left]).
  split_and!; try done;
    try (symmetry; first [eapply (int_field bs l _ FI _ Hu); [reflexivity|by left]
                         | eapply (int_field bs l _ FQ _ Hu); [reflexivity|by right]]).
  - unfold check_sync_word, Hdr.check_sync_word. cbn. by rewrite Hs.
  - intros m Hm. change (map (Hdr.int_at l) (seq 17 32) !! m = Some (if_gain m bs)).
    rewrite list_lookup_fmap, lookup_seq_lt by lia. cbn [fmap option_fmap option_map]. f_equal.
    rewrite (word_field bs l _ Hu) by lia. unfold if_gain. f_equal; lia.
  - intros k Hk. change (map (Hdr.int_at l) (seq 53 192) !! k = Some (reserved k bs)).
    rewrite list_lookup_fmap, lookup_seq_lt by lia. cbn [fmap option_fmap option_map]. f_equal.
    rewrite (word_field bs l _ Hu) by lia. unfold reserved. f_equal; lia.
Qed.

Lemma c_layout_agrees_witness : rf_center_freq Hdr.sample_bytes = 433920000.
Proof.
  refine (eq_trans (proj1 (proj2 (proj2 (proj2
    (c_layout_agrees Hdr.init (Hdr.decode_header Hdr.init Hdr.sample_bytes).1 Hdr.sample_bytes _))))) _).
  - vm_compute. reflexivity.
  - vm_compute. reflexivity.
Defined.

End CHdr.
