(* ===== verification/Rebuffer.v ===== *)
(** * The rebuffer ([_daq_core/rebuffer.c], [frame_sizes.h])

    Reads the blocks of the acquisition process from its standard input into one
    ring per channel and sends frames of the size of a CPI (or of a calibration
    block) to the decimator.  The main loop is a function on the variables of
    [main]; [None] stands for undefined behaviour in C (an access outside an
    object, a float that does not fit the integer it is converted to).  The
    transport is an oracle: the k-th [transport_get_write_buf] returns [io k].

    The theorems: every access stays inside its object; the frames sent are the
    input stream of every channel cut into blocks, refining a queue that knows
    nothing of rings; the loop ends on every input. *)
From S2P Require Import Prelude PyStruct PyFloat PyText IQHeader CHeader Ring.
From Stdlib Require Import SpecFloat.

Module Rebuf.
Import CHdr Ring.

Record configuration := Config {
  num_ch : Z; cal_size : Z; cpi_size : Z; daq_buffer_size : Z; decimation_ratio : Z; log_level : Z;
  instance_id : Z; port_stride : Z; rebuffer_transport : string }.

(** The checks of [main] before anything is allocated. *)
Definition config_ok (c : configuration) : bool :=
  negb ((num_ch c <? 1) || (32 <? num_ch c)) && negb (daq_buffer_size c <? 1)
  && negb ((cpi_size c <? 1) || (decimation_ratio c <? 1) || (cal_size c <? 1)).

(** ** [frame_sizes.h] *)
Definition HD_IQ_HEADER_BYTES : Z := 1024.
Definition HD_MAX_FRAME_SAMPLES : Z := 8388608.
Definition HD_CF32_SAMPLE_BYTES : Z := 8.
Definition HD_CU8_SAMPLE_BYTES : Z := 2.

Definition hd_max_size (a b : Z) : Z := if b <=? a then a else b.
Definition hd_iq_frame_bytes (M Ncpi Nc : Z) : Z :=
  HD_IQ_HEADER_BYTES + hd_max_size Ncpi Nc * M * HD_CF32_SAMPLE_BYTES.
Definition hd_worst_frame_bytes (M : Z) : Z :=
  HD_IQ_HEADER_BYTES + HD_MAX_FRAME_SAMPLES * M * HD_CF32_SAMPLE_BYTES.
Definition hd_decimator_in_samples (Ncpi R Nc : Z) : Z := hd_max_size (Ncpi * R) Nc.
Definition hd_decimator_in_object_bytes (M Ncpi R Nc : Z) : Z :=
  HD_IQ_HEADER_BYTES + hd_decimator_in_samples Ncpi R Nc * M * HD_CU8_SAMPLE_BYTES.
Definition hd_decimator_in_consumer_map_bytes (M Ncpi R Nc : Z) : Z :=
  HD_IQ_HEADER_BYTES + hd_decimator_in_samples Ncpi R Nc * M * HD_CF32_SAMPLE_BYTES.

(** ** Sizes of [main] *)
Section Main.
Variable c : configuration.
Variable io : nat -> Z.

Definition in_buffer_size : Z := daq_buffer_size c.
Definition out_buffer_size : Z := cpi_size c * decimation_ratio c.
Definition cal_out_buffer_size : Z := cal_size c.
Definition buffer_num : Z :=
  let buffer_num_data := Z.quot out_buffer_size in_buffer_size + 2 in
  let buffer_num_cal := Z.quot cal_out_buffer_size in_buffer_size + 2 in
  if buffer_num_cal <=? buffer_num_data then buffer_num_data else buffer_num_cal.
Definition ring_bytes : Z := buffer_num * in_buffer_size * 2.
Definition object_bytes : Z :=
  hd_decimator_in_object_bytes (num_ch c) (cpi_size c) (decimation_ratio c) cal_out_buffer_size.

Definition ERR_IQFRAME_READ : Z := 11.
Definition ERR_IQFRAME_SYC_WORD : Z := 13.
Definition ERR_DATA_PIPE_CLOSE : Z := 14.

Record st := mk {
  rings : list bytes;                    (* circ_buff_structs[m].iq_circ_buffer *)
  rd_offset : Z; wr_offset : Z; available : Z;
  expected_frame_index : Z;              (* uint32_t *)
  iq_header : bytes;
  active_out_buffer_size : Z;
  overdrive : Z;                         (* adc_overdrive_flags of main *)
  read_size : Z;
  exit_flag : Z;
  stdin : bytes; eof : bool;
  calls : nat;                           (* transport_get_write_buf so far *)
  sent : list bytes }.                   (* frames submitted, oldest first *)

Definition set_rings x s := mk x (rd_offset s) (wr_offset s) (available s) (expected_frame_index s) (iq_header s)
  (active_out_buffer_size s) (overdrive s) (read_size s) (exit_flag s) (stdin s) (eof s) (calls s) (sent s).
Definition set_rd x s := mk (rings s) x (wr_offset s) (available s) (expected_frame_index s) (iq_header s)
  (active_out_buffer_size s) (overdrive s) (read_size s) (exit_flag s) (stdin s) (eof s) (calls s) (sent s).
Definition set_wr x s := mk (rings s) (rd_offset s) x (available s) (expected_frame_index s) (iq_header s)
  (active_out_buffer_size s) (overdrive s) (read_size s) (exit_flag s) (stdin s) (eof s) (calls s) (sent s).
Definition set_available x s := mk (rings s) (rd_offset s) (wr_offset s) x (expected_frame_index s) (iq_header s)
  (active_out_buffer_size s) (overdrive s) (read_size s) (exit_flag s) (stdin s) (eof s) (calls s) (sent s).
Definition set_expected x s := mk (rings s) (rd_offset s) (wr_offset s) (available s) x (iq_header s)
  (active_out_buffer_size s) (overdrive s) (read_size s) (exit_flag s) (stdin s) (eof s) (calls s) (sent s).
Definition set_header x s := mk (rings s) (rd_offset s) (wr_offset s) (available s) (expected_frame_index s) x
  (active_out_buffer_size s) (overdrive s) (read_size s) (exit_flag s) (stdin s) (eof s) (calls s) (sent s).
Definition set_active x s := mk (rings s) (rd_offset s) (wr_offset s) (available s) (expected_frame_index s)
  (iq_header s) x (overdrive s) (read_size s) (exit_flag s) (stdin s) (eof s) (calls s) (sent s).
Definition set_overdrive x s := mk (rings s) (rd_offset s) (wr_offset s) (available s) (expected_frame_index s)
  (iq_header s) (active_out_buffer_size s) x (read_size s) (exit_flag s) (stdin s) (eof s) (calls s) (sent s).
Definition set_read_size x s := mk (rings s) (rd_offset s) (wr_offset s) (available s) (expected_frame_index s)
  (iq_header s) (active_out_buffer_size s) (overdrive s) x (exit_flag s) (stdin s) (eof s) (calls s) (sent s).
Definition set_exit x s := mk (rings s) (rd_offset s) (wr_offset s) (available s) (expected_frame_index s)
  (iq_header s) (active_out_buffer_size s) (overdrive s) (read_size s) x (stdin s) (eof s) (calls s) (sent s).
Definition set_stdin x e s := mk (rings s) (rd_offset s) (wr_offset s) (available s) (expected_frame_index s)
  (iq_header s) (active_out_buffer_size s) (overdrive s) (read_size s) (exit_flag s) x e (calls s) (sent s).
Definition set_calls x s := mk (rings s) (rd_offset s) (wr_offset s) (available s) (expected_frame_index s)
  (iq_header s) (active_out_buffer_size s) (overdrive s) (read_size s) (exit_flag s) (stdin s) (eof s) x (sent s).
Definition set_sent x s := mk (rings s) (rd_offset s) (wr_offset s) (available s) (expected_frame_index s)
  (iq_header s) (active_out_buffer_size s) (overdrive s) (read_size s) (exit_flag s) (stdin s) (eof s) (calls s) x.

(** [calloc]ed rings and header; [expected_frame_index] is [(uint32_t) -1]. *)
Definition init (input : bytes) : st :=
  mk (replicate (Z.to_nat (num_ch c)) (replicate (Z.to_nat ring_bytes) 0)) 0 0 0 (2 ^ 32 - 1)
     (replicate IQ_HEADER_LENGTH 0) 0 0 0 0 input false 0 [].

(** [fread] of [n] bytes: what it delivers, and the stream after it. *)
Definition fread (n : nat) (s : st) : bytes * st :=
  (take n (stdin s), set_stdin (drop n (stdin s)) (eof s || bool_decide (length (stdin s) < n)%nat) s).

(** Bytes stored at an offset of an object. *)
Definition store (off : Z) (data obj : bytes) : option bytes :=
  if bool_decide (0 <= off /\ off + Z.of_nat (length data) <= Z.of_nat (length obj))
  then Some (take (Z.to_nat off) obj ++ data ++ drop (Z.to_nat off + length data) obj)
  else None.

(** Bytes copied from an offset of an object. *)
Definition load (off len : Z) (obj : bytes) : option bytes :=
  if bool_decide (0 <= off /\ 0 <= len /\ off + len <= Z.of_nat (length obj))
  then Some (take (Z.to_nat len) (drop (Z.to_nat off) obj))
  else None.

(** The header of the next frame, its checks and the frame counter.  [false]:
    the loop is left. *)
Definition read_header (s : st) : st * bool :=
  if eof s then (set_exit ERR_DATA_PIPE_CLOSE s, false)
  else
    let '(data, s) := fread IQ_HEADER_LENGTH s in
    let s := set_header (data ++ drop (length data) (iq_header s)) s in
    let s := set_read_size (if bool_decide (length data = IQ_HEADER_LENGTH) then 1 else 0) s in
    if negb (read_size s =? 1) then (set_exit ERR_IQFRAME_READ s, false)
    else if negb (check_sync_word (iq_header s) =? 0) then (set_exit ERR_IQFRAME_SYC_WORD s, false)
    else
      (* unset, mismatched or as expected: the received index plus one *)
      let expected :=
        if expected_frame_index s =? 2 ^ 32 - 1 then daq_block_index (iq_header s) else expected_frame_index s in
      let expected :=
        if negb (expected =? daq_block_index (iq_header s)) then daq_block_index (iq_header s) else expected in
      (set_expected ((expected + 1) mod 2 ^ 32) s, true).

(** The samples of [n] channels from the [m]-th on.  The [break] of a short
    read leaves this loop only. *)
Fixpoint read_channels (n m : nat) (s : st) : option st :=
  match n with
  | O => Some s
  | S n =>
      ring ← rings s !! m;
      let k := Z.to_nat (in_buffer_size * 2) in
      let '(data, s) := fread k s in
      ring ← store (rd_offset s) data ring;
      let s := set_read_size (Z.of_nat (length data)) (set_rings (<[m := ring]> (rings s)) s) in
      if negb (read_size s =? in_buffer_size * 2) then Some (set_exit ERR_IQFRAME_READ s)
      else read_channels n (S m) s
  end.

Definition read_payload (s : st) : option st :=
  if 0 <? cpi_length (iq_header s) then read_channels (Z.to_nat (active_ant_chs (iq_header s))) 0 s else Some s.

(** [switch(iq_header->frame_type)] *)
Definition account (s : st) : st :=
  let ft := frame_type (iq_header s) in
  if ft =? FRAME_TYPE_DUMMY then
    let zero := replicate (Z.to_nat ring_bytes) 0 in
    set_available 0 (set_rd 0 (set_wr 0 (set_rings (map (fun _ => zero) (rings s)) s)))
  else if (ft =? FRAME_TYPE_DATA) || (ft =? FRAME_TYPE_CAL) then
    let s := set_rd (Z.rem (rd_offset s + in_buffer_size * 2) ring_bytes) s in
    let s := set_available (available s + read_size s) s in
    set_overdrive (Z.lor (overdrive s) (adc_overdrive_flags (iq_header s))) s
  else s.

Definition get_write_buf (s : st) : Z * st := (io (calls s), set_calls (S (calls s)) s).

Definition submit (frame : bytes) (s : st) : option st :=
  if bool_decide (Z.of_nat (length frame) <= object_bytes) then Some (set_sent (sent s ++ [frame]) s) else None.

(** A dummy frame is forwarded without data; the size of the previous frame
    is only forgotten when a buffer is free. *)
Definition write_dummy (s : st) : option st :=
  let '(idx, s) := get_write_buf s in
  if (idx =? 0) || (idx =? 1) then
    let s := set_header (set_cpi_length 0 (iq_header s)) (set_active 0 s) in
    submit (iq_header s) s
  else if idx =? 3 then Some s
  else Some (set_exit 1 s).

Definition select_size (s : st) : st :=
  let ft := frame_type (iq_header s) in
  if (ft =? FRAME_TYPE_CAL) && (cal_out_buffer_size * 2 <=? available s) then set_active cal_out_buffer_size s
  else if (ft =? FRAME_TYPE_DATA) && (out_buffer_size * 2 <=? available s) then set_active out_buffer_size s
  else set_active 0 s.

(** [(int) round(x)] of a float. *)
Definition c_round (x : spec_float) : option Z :=
  r ← match x with
      | S754_zero _ => Some 0
      | S754_finite sg m e =>
          let a := if 0 <=? e then Zpos m * 2 ^ e else (Zpos m + 2 ^ (- e - 1)) / 2 ^ (- e) in
          Some (if sg : bool then - a else a)
      | _ => None
      end;
  if (- 2 ^ 31 <=? r) && (r <? 2 ^ 31) then Some r else None.

Definition f32 (z : Z) : spec_float := binary_normalize 24 128 z 0 false.

(** [(float) bytes / 2 * 1000 / sampling_freq], in milliseconds. *)
Definition timestamp_adjust (left_bytes freq : Z) : spec_float :=
  SFdiv 24 128 (SFmul 24 128 (SFdiv 24 128 (f32 left_bytes) (f32 2)) (f32 1000)) (f32 freq).

(** What the frame takes from one ring: up to its end, the rest from its start. *)
Definition take_ring (ring : bytes) (off len : Z) : option bytes :=
  let chunk_size := ring_bytes - off in
  if len <=? chunk_size then load off len ring
  else
    a ← load off chunk_size ring;
    b ← load 0 (len - chunk_size) ring;
    Some (a ++ b).

Fixpoint take_rings (n m : nat) (rs : list bytes) (off len : Z) : option bytes :=
  match n with
  | O => Some []
  | S n =>
      ring ← rs !! m;
      a ← take_ring ring off len;
      b ← take_rings n (S m) rs off len;
      Some (a ++ b)
  end.

Definition next_wr (off len : Z) : Z :=
  let chunk_size := ring_bytes - off in
  if len <=? chunk_size then Z.rem (off + len) ring_bytes else len - chunk_size.

(** A frame whose samples have been collected is sent or dropped. *)
Definition write_frame (s : st) : option st :=
  let len := active_out_buffer_size s * 2 in
  let '(idx, s) := get_write_buf s in
  if (idx =? 0) || (idx =? 1) then
    let h := set_adc_overdrive_flags (overdrive s) (set_cpi_length (active_out_buffer_size s) (iq_header s)) in
    adj ← c_round (timestamp_adjust (available s - len) (sampling_freq h));
    let h := set_time_stamp ((time_stamp h - adj) mod 2 ^ 64) h in
    let s := set_overdrive 0 (set_header h s) in
    data ← take_rings (Z.to_nat (active_ant_chs h)) 0 (rings s) (wr_offset s) len;
    let s := set_wr (next_wr (wr_offset s) len) s in
    let s := set_available (available s - len) s in
    submit (h ++ data) s
  else if idx =? 3 then
    Some (set_available (available s - len) (set_wr (Z.rem (wr_offset s + len) ring_bytes) s))
  else Some (set_exit 1 s).

(** One round of [while(!exit_flag && !sig_exit_flag)]. *)
Definition round (s : st) : option st :=
  let '(s, go) := read_header s in
  if negb go then Some s
  else
    s ← read_payload s;
    let s := account s in
    s ← (if frame_type (iq_header s) =? FRAME_TYPE_DUMMY then write_dummy s else Some (select_size s));
    if negb (active_out_buffer_size s =? 0) then write_frame s else Some s.

(** The loop, for at most [fuel] rounds; [sig k] tells whether a signal has
    arrived before the k-th.  The result is the state in which it was left. *)
Fixpoint loop (fuel : nat) (sig : nat -> bool) (k : nat) (s : st) : option (st * bool) :=
  if negb (exit_flag s =? 0) || sig k then Some (s, true)
  else match fuel with
       | O => Some (s, false)
       | S fuel => s ← round s; loop fuel sig (S k) s
       end.

(** ** What the rebuffer promises: a queue per channel

    A frame arrives as its header and one block per channel.  Queues know
    nothing of rings and offsets. *)
Record frame := Frame { hd : bytes; blocks : list bytes }.

Definition wire (f : frame) : bytes := hd f ++ concat (blocks f).

(** Frames as the acquisition process writes them. *)
Definition wf_frame (f : frame) : Prop :=
  length (hd f) = IQ_HEADER_LENGTH /\ check_sync_word (hd f) = 0 /\
  active_ant_chs (hd f) = num_ch c /\
  (frame_type (hd f) = FRAME_TYPE_DUMMY \/ 0 < cpi_length (hd f)) /\
  Forall (fun b => length b = Z.to_nat (in_buffer_size * 2)) (blocks f) /\
  length (blocks f) = (if 0 <? cpi_length (hd f) then Z.to_nat (num_ch c) else 0%nat).

Record queue := Queue {
  pending : list bytes;      (* per channel, oldest byte first *)
  flags : Z;                 (* overdrive flags not yet reported *)
  asked : nat;               (* buffers requested so far *)
  collected : Z }.           (* samples of the last frame collected, 0 if none *)

Inductive event :=
  | Sent (header : bytes) (samples : list bytes)
  | Dropped (samples : list bytes).

Definition frame_bytes (e : event) : option bytes :=
  match e with Sent h l => Some (h ++ concat l) | Dropped _ => None end.

Definition size_for (ft : Z) : option Z :=
  if ft =? FRAME_TYPE_CAL then Some cal_out_buffer_size
  else if ft =? FRAME_TYPE_DATA then Some out_buffer_size else None.

Definition queued (q : queue) : Z := match pending q with [] => 0 | p :: _ => Z.of_nat (length p) end.

(** The header of a frame of [len] samples, [rest] bytes later ones pending. *)
Definition stamp (len fl rest : Z) (h : bytes) : option bytes :=
  let h := set_adc_overdrive_flags fl (set_cpi_length len h) in
  adj ← c_round (timestamp_adjust rest (sampling_freq h));
  Some (set_time_stamp ((time_stamp h - adj) mod 2 ^ 64) h).

(** A collected frame leaves the queue, sent or dropped. *)
Definition spec_emit (h : bytes) (len : Z) (q : queue) : option (queue * list event) :=
  let n := Z.to_nat (len * 2) in
  let q' := Queue (map (drop n) (pending q)) (flags q) (S (asked q)) len in
  let data := map (take n) (pending q) in
  if (io (asked q) =? 0) || (io (asked q) =? 1) then
    h ← stamp len (flags q) (queued q - len * 2) h;
    Some (Queue (pending q') 0 (asked q') len, [Sent h data])
  else if io (asked q) =? 3 then Some (q', [Dropped data])
  else None.

(** One frame.  [None]: outside the contract (a dummy frame dropped right
    after a collected frame, a full ring, a transport failure, a leftover whose
    duration does not fit an int). *)
Definition spec_step (q : queue) (f : frame) : option (queue * list event) :=
  let ft := frame_type (hd f) in
  if ft =? FRAME_TYPE_DUMMY then
    let q' := Queue (map (fun _ => []) (pending q)) (flags q) (S (asked q)) 0 in
    if (io (asked q) =? 0) || (io (asked q) =? 1) then Some (q', [Sent (set_cpi_length 0 (hd f)) []])
    else if (io (asked q) =? 3) && (collected q =? 0) then Some (q', [])
    else None
  else if ring_bytes <? queued q + in_buffer_size * 2 then None
  else match size_for ft with
  | None => Some (Queue (pending q) (flags q) (asked q) 0, [])
  | Some len =>
      let q := Queue (zip_with app (pending q) (blocks f)) (Z.lor (flags q) (adc_overdrive_flags (hd f)))
                     (asked q) 0 in
      if len * 2 <=? queued q then spec_emit (hd f) len q else Some (q, [])
  end.

Fixpoint spec_run (q : queue) (fs : list frame) : option (queue * list event) :=
  match fs with
  | [] => Some (q, [])
  | f :: fs =>
      r ← spec_step q f;
      r' ← spec_run r.1 fs;
      Some (r'.1, r.2 ++ r'.2)
  end.

Definition spec_init : queue := Queue (replicate (Z.to_nat (num_ch c)) []) 0 0 0.

Ltac st_cbn := cbn [rings rd_offset wr_offset available expected_frame_index iq_header active_out_buffer_size
  overdrive read_size exit_flag stdin eof calls sent set_rings set_rd set_wr set_available set_expected set_header
  set_active set_overdrive set_read_size set_exit set_stdin set_calls set_sent] in *.

(** ** The ring implements the queue *)
Section Refinement.
Hypothesis Hok : config_ok c = true.

Abbreviation n := (Z.to_nat ring_bytes).
Abbreviation k := (Z.to_nat (in_buffer_size * 2)).

Lemma sizes_pos :
  1 <= num_ch c <= 32 /\ 0 < in_buffer_size /\ 0 < out_buffer_size /\ 0 < cal_out_buffer_size /\ 2 <= buffer_num.
Proof.
  unfold config_ok in Hok. rewrite !andb_true_iff, !negb_true_iff, !orb_false_iff, !Z.ltb_ge in Hok.
  destruct Hok as [[[H1 H2] H3] [[H4 H5] H6]].
  unfold in_buffer_size, out_buffer_size, cal_out_buffer_size, buffer_num.
  assert (0 <= Z.quot (cpi_size c * decimation_ratio c) (daq_buffer_size c)) by (apply Z.quot_pos; lia).
  assert (0 <= Z.quot (cal_size c) (daq_buffer_size c)) by (apply Z.quot_pos; lia).
  unfold out_buffer_size, in_buffer_size, cal_out_buffer_size.
  split_and!; try lia. destruct (_ <=? _); lia.
Qed.

Definition splice (rd : nat) (b r : bytes) : bytes := take rd r ++ b ++ drop (rd + length b) r.

Lemma store_splice rd b r :
  (Z.to_nat rd + length b <= length r)%nat -> 0 <= rd -> store rd b r = Some (splice (Z.to_nat rd) b r).
Proof. intros. unfold store. by rewrite bool_decide_eq_true_2 by lia. Qed.

Lemma read_channels_S j m s r b rest :
  rings s !! m = Some r -> stdin s = b ++ rest -> length b = k -> 0 <= rd_offset s ->
  (Z.to_nat (rd_offset s) + k <= length r)%nat ->
  read_channels (S j) m s =
  read_channels j (S m) (set_read_size (in_buffer_size * 2)
    (set_rings (<[m := splice (Z.to_nat (rd_offset s)) b r]> (rings s)) (set_stdin rest (eof s) s))).
Proof.
  intros Hm Hin Hb Hrd Hfit. pose proof sizes_pos as Hs. cbn [read_channels]. rewrite Hm. cbn [mbind option_bind].
  unfold fread. rewrite Hin, take_app_length', drop_app_length' by done.
  rewrite bool_decide_eq_false_2 by (rewrite length_app; lia). rewrite orb_false_r. st_cbn.
  rewrite store_splice by lia. cbn [mbind option_bind]. st_cbn.
  replace (Z.of_nat (length b)) with (in_buffer_size * 2) by lia. by rewrite Z.eqb_refl.
Qed.

Lemma payload_chain a r x e a' r' x' e' s :
  set_read_size a (set_rings r (set_stdin x e (set_read_size a' (set_rings r' (set_stdin x' e' s)))))
  = set_read_size a (set_rings r (set_stdin x e s)).
Proof. done. Qed.

(** Reading one block per channel, from the [m]-th on. *)
Lemma read_channels_ok bs : forall m s rest,
  Forall (fun b => length b = k) bs -> stdin s = concat bs ++ rest ->
  length (rings s) = (m + length bs)%nat -> Forall (fun r => length r = n) (rings s) ->
  0 <= rd_offset s -> (Z.to_nat (rd_offset s) + k <= n)%nat ->
  read_channels (length bs) m s =
  Some (set_read_size (if bs is [] then read_size s else in_buffer_size * 2)
         (set_rings (take m (rings s)
                     ++ zip_with (fun r b => splice (Z.to_nat (rd_offset s)) b r) (drop m (rings s)) bs)
            (set_stdin rest (eof s) s))).
Proof.
  induction bs as [|b bs IH]; intros m s rest Hb Hin Hlen Hr Hrd Hfit.
  { cbn [concat app] in Hin. cbn [length] in Hlen. rewrite take_ge, drop_ge by lia.
    rewrite zip_with_nil_r, app_nil_r. subst rest. by destruct s. }
  apply list.Forall_cons in Hb as [Hb Hbs]. cbn [length concat] in *. rewrite <-app_assoc in Hin.
  destruct (lookup_lt_is_Some_2 (rings s) m ltac:(lia)) as [r Hm].
  assert (length r = n) as Hrl by by eapply (Forall_lookup_1 _ _ _ _ Hr).
  rewrite (read_channels_S _ _ _ _ _ _ Hm Hin) by lia.
  rewrite (IH _ _ rest); st_cbn; try done.
  - rewrite payload_chain. do 2 f_equal; [by destruct bs|]. f_equal.
    rewrite (take_S_r _ _ (splice (Z.to_nat (rd_offset s)) b r)) by (rewrite list_lookup_insert_eq; [done|lia]).
    rewrite take_insert_ge, drop_insert_lt by lia. rewrite (drop_S _ _ _ Hm). cbn [zip_with]. by rewrite <-app_assoc.
  - rewrite length_insert. lia.
  - apply Forall_insert; [done|]. unfold splice. rewrite !length_app, length_take, length_drop. lia.
Qed.

Lemma ring_pos : 0 < ring_bytes /\ (in_buffer_size * 2 | ring_bytes) /\ 0 < in_buffer_size * 2.
Proof.
  pose proof sizes_pos as (_ & Hin & _ & _ & Hb). unfold ring_bytes. split_and!; [nia| |lia].
  exists buffer_num. lia.
Qed.

Lemma load_take off len r :
  0 <= off -> 0 <= len -> (Z.to_nat off + Z.to_nat len <= length r)%nat ->
  load off len r = Some (take (Z.to_nat len) (drop (Z.to_nat off) r)).
Proof. intros. unfold load. by rewrite bool_decide_eq_true_2 by lia. Qed.

Lemma take_ring_ok r wr len p :
  holds n r (Z.to_nat wr) p -> 0 <= wr < ring_bytes -> 0 <= len -> (Z.to_nat len <= length p <= n)%nat ->
  take_ring r wr len = Some (take (Z.to_nat len) p).
Proof.
  intros Hh Hwr Hlen Hp. pose proof Hh as [Hl _]. unfold take_ring. destruct (Z.leb_spec len (ring_bytes - wr)) as [Hc|Hc].
  - rewrite load_take by lia. f_equal. apply (holds_slice n); [done|lia|lia|lia].
  - rewrite !load_take by lia. cbn [mbind option_bind]. f_equal.
    assert (holds n r 0 (drop (Z.to_nat (ring_bytes - wr)) p)) as Hd.
    { pose proof (holds_drop n r (Z.to_nat wr) p (Z.to_nat (ring_bytes - wr)) Hh ltac:(lia) ltac:(lia)) as H.
      replace (Z.to_nat wr + Z.to_nat (ring_bytes - wr))%nat with n in H by lia.
      by rewrite Nat.Div0.mod_same in H. }
    rewrite (holds_slice n r (Z.to_nat wr) p) by (done || lia). change (Z.to_nat 0) with 0%nat.
    rewrite (holds_slice n r 0 _ (Z.to_nat (len - (ring_bytes - wr))) Hd) by (rewrite ?length_drop; lia).
    rewrite take_take_drop. f_equal. lia.
Qed.

Lemma take_rings_ok rs ps wr len : forall j m,
  Forall2 (fun r p => holds n r (Z.to_nat wr) p) rs ps -> (m + j = length rs)%nat ->
  0 <= wr < ring_bytes -> 0 <= len -> Forall (fun p => Z.to_nat len <= length p <= n)%nat ps ->
  take_rings j m rs wr len = Some (concat (map (take (Z.to_nat len)) (drop m ps))).
Proof.
  induction j as [|j IH]; intros m Hf Hm Hwr Hlen Hp; cbn [take_rings].
  { rewrite drop_ge; [done|]. rewrite <-(list.Forall2_length _ _ _ Hf). lia. }
  destruct (lookup_lt_is_Some_2 rs m ltac:(lia)) as [r Hr]. rewrite Hr. cbn [mbind option_bind].
  destruct (Forall2_lookup_l _ _ _ _ _ Hf Hr) as (p & Hpm & Hh).
  rewrite (take_ring_ok r wr len p) by (done || by apply (Forall_lookup_1 _ _ _ _ Hp Hpm)).
  cbn [mbind option_bind]. rewrite IH by (done || lia). cbn [mbind option_bind].
  by rewrite (drop_S _ _ _ Hpm).
Qed.

Lemma next_wr_mod wr len : 0 <= wr < ring_bytes -> 0 <= len <= ring_bytes -> next_wr wr len = (wr + len) mod ring_bytes.
Proof.
  intros Hwr Hlen. unfold next_wr. destruct (Z.leb_spec len (ring_bytes - wr)).
  - by rewrite Z.rem_mod_nonneg by lia.
  - apply (Z.mod_unique_pos _ _ 1); lia.
Qed.

(** The queue [q] is what the variables of [main] hold. *)
Record sim (q : queue) (s : st) : Prop := {
  sim_rings : Forall2 (fun r p => holds n r (Z.to_nat (wr_offset s)) p) (rings s) (pending q);
  sim_chs : length (pending q) = Z.to_nat (num_ch c);
  sim_even : Forall (fun p => Z.of_nat (length p) = available s) (pending q);
  sim_avail : available s <= ring_bytes;
  sim_wr : 0 <= wr_offset s < ring_bytes;
  sim_rd : rd_offset s = (wr_offset s + available s) mod ring_bytes;
  sim_aligned : (in_buffer_size * 2 | rd_offset s);
  sim_flags : overdrive s = flags q;
  sim_asked : calls s = asked q;
  sim_active : active_out_buffer_size s = collected q;
  sim_header : length (iq_header s) = IQ_HEADER_LENGTH;
  sim_going : exit_flag s = 0 /\ eof s = false }.

Lemma sim_queued q s : sim q s -> queued q = available s /\ 0 <= available s.
Proof.
  intros H. pose proof (sim_chs _ _ H) as Hl. pose proof (sim_even _ _ H) as He. pose proof sizes_pos.
  unfold queued. destruct (pending q) as [|p ps]; [cbn in Hl; lia|]. inversion He. lia.
Qed.

(** The block goes to a free, unwrapped stretch of every ring. *)
Lemma sim_room q s :
  sim q s -> 0 <= rd_offset s /\ (Z.to_nat (rd_offset s) + k <= n)%nat.
Proof.
  intros H. destruct ring_pos as (Hr & [b Hb] & Hk). destruct (sim_aligned _ _ H) as [j Hj].
  pose proof (sim_rd _ _ H) as Hrd.
  assert (0 <= rd_offset s < ring_bytes) as Hbd by (rewrite Hrd; by apply Z.mod_pos_bound).
  clear Hrd. set (K := in_buffer_size * 2) in *. assert (j < b) by nia. assert ((j + 1) * K <= b * K) by nia. lia.
Qed.

Lemma sim_push q s bs :
  sim q s -> available s + in_buffer_size * 2 <= ring_bytes ->
  Forall (fun b => length b = k) bs -> length bs = Z.to_nat (num_ch c) ->
  Forall2 (fun r p => holds n r (Z.to_nat (wr_offset s)) p)
    (zip_with (fun r b => splice (Z.to_nat (rd_offset s)) b r) (rings s) bs) (zip_with app (pending q) bs).
Proof.
  intros H Hav Hb Hl. destruct (sim_room _ _ H) as [Hr0 Hr]. destruct (sim_queued _ _ H) as [_ Ha].
  assert (Z.to_nat (rd_offset s) = (Z.to_nat (wr_offset s) + Z.to_nat (available s)) mod n)%nat as Hrd.
  { rewrite (sim_rd _ _ H). pose proof (sim_wr _ _ H). destruct ring_pos as (? & _ & _).
    rewrite Z2Nat.inj_mod, Z2Nat.inj_add by lia. done. }
  pose proof (sim_even _ _ H) as He. pose proof (sim_rings _ _ H) as Hf. pose proof (sim_chs _ _ H) as Hc.
  rewrite <-Hc in Hl. clear Hc. revert bs Hb Hl.
  induction Hf as [|r p rs ps Hh Hf IH]; intros [|b bs] Hb Hl; try (by constructor || done).
  cbn [zip_with].
  apply list.Forall_cons in Hb as [Hb Hbs], He as [Hp He]. injection Hl as Hl. constructor; [|by apply IH].
  destruct ring_pos as (_ & _ & Hk). apply holds_push; [done| | |lia|lia].
  - pose proof (sim_wr _ _ H). lia.
  - rewrite Hrd. do 2 f_equal. lia.
Qed.

(** Reading the header of a well-formed frame. *)
Lemma read_header_ok q s f rest :
  sim q s -> wf_frame f -> stdin s = wire f ++ rest ->
  exists e, read_header s =
    (set_expected e (set_read_size 1 (set_header (hd f) (set_stdin (concat (blocks f) ++ rest) false s))), true).
Proof.
  intros H (Hl & Hs & _) Hin. destruct (sim_going _ _ H) as [_ He]. pose proof (sim_header _ _ H) as Hh.
  unfold read_header. rewrite He. unfold fread. unfold wire in Hin. rewrite <-app_assoc in Hin.
  rewrite Hin, take_app_length', drop_app_length' by done. st_cbn.
  rewrite (bool_decide_eq_false_2 (length _ < _)%nat) by (rewrite length_app; lia). rewrite He. cbn [orb].
  rewrite Hl, drop_ge, app_nil_r by lia. rewrite bool_decide_eq_true_2 by done. st_cbn.
  change (1 =? 1) with true. cbn [negb]. rewrite Hs. change (0 =? 0) with true. cbn [negb].
  eexists. reflexivity.
Qed.

Lemma read_payload_ok q s f rest :
  sim q s -> wf_frame f -> stdin s = concat (blocks f) ++ rest -> iq_header s = hd f ->
  read_payload s =
  Some (if 0 <? cpi_length (hd f) then
    set_read_size (in_buffer_size * 2)
      (set_rings (zip_with (fun r b => splice (Z.to_nat (rd_offset s)) b r) (rings s) (blocks f))
         (set_stdin rest (eof s) s))
    else set_stdin rest (eof s) s).
Proof.
  intros H (_ & _ & Hch & _ & Hb & Hl) Hin Hh. unfold read_payload. rewrite Hh. destruct (0 <? _).
  - rewrite Hch, <-Hl. destruct (sim_room _ _ H).
    assert (Forall (fun r => length r = n) (rings s)) as Hr.
    { eapply Forall2_Forall_l; [apply (sim_rings _ _ H)|]. apply Forall_true. by intros ? ? [? _]. }
    rewrite (read_channels_ok _ 0 s rest); try done.
    2: { by rewrite (list.Forall2_length _ _ _ (sim_rings _ _ H)), (sim_chs _ _ H), Hl. }
    rewrite take_0, drop_0. cbn [app]. destruct (blocks f) eqn:E; [|done].
    pose proof sizes_pos. cbn in Hl. lia.
  - apply nil_length_inv in Hl. rewrite Hl in Hin. cbn in Hin. rewrite <-Hin. by destruct s.
Qed.

(** The state after the header and the payload of [f] have been read. *)
Definition loaded (e : Z) (f : frame) (rest : bytes) (s : st) : st :=
  let s := set_expected e (set_header (hd f) (set_stdin rest false s)) in
  if 0 <? cpi_length (hd f) then
    set_read_size (in_buffer_size * 2)
      (set_rings (zip_with (fun r b => splice (Z.to_nat (rd_offset s)) b r) (rings s) (blocks f)) s)
  else set_read_size 1 s.

Lemma read_ok q s f rest :
  sim q s -> wf_frame f -> stdin s = wire f ++ rest ->
  exists e, round s =
    (let s := account (loaded e f rest s) in
     s ← (if frame_type (iq_header s) =? FRAME_TYPE_DUMMY then write_dummy s else Some (select_size s));
     if negb (active_out_buffer_size s =? 0) then write_frame s else Some s).
Proof.
  intros H Hwf Hin. destruct (read_header_ok q s f rest H Hwf Hin) as [e He]. exists e. unfold round. rewrite He.
  cbn [negb]. set (s1 := set_expected _ _).
  assert (sim q s1) as H1.
  { destruct H as [? ? ? ? ? ? ? ? ? ? ? [? ?]]. destruct Hwf as (? & _). constructor; try done; by split. }
  rewrite (read_payload_ok q s1 f rest) by done. cbn [mbind option_bind].
  unfold loaded. destruct (0 <? cpi_length (hd f)); reflexivity.
Qed.

Lemma object_large : HD_IQ_HEADER_BYTES + num_ch c * out_buffer_size * 2 <= object_bytes /\
  HD_IQ_HEADER_BYTES + num_ch c * cal_out_buffer_size * 2 <= object_bytes /\ HD_IQ_HEADER_BYTES <= object_bytes.
Proof.
  pose proof sizes_pos as (? & _ & ? & ? & _). unfold object_bytes, hd_decimator_in_object_bytes, hd_decimator_in_samples.
  fold out_buffer_size. unfold HD_CU8_SAMPLE_BYTES, hd_max_size. destruct (Z.leb_spec cal_out_buffer_size out_buffer_size); nia.
Qed.

Lemma submit_ok fr s : Z.of_nat (length fr) <= object_bytes -> submit fr s = Some (set_sent (sent s ++ [fr]) s).
Proof. intros H. unfold submit. by rewrite bool_decide_eq_true_2. Qed.

Lemma set_cpi_length_length v h : length h = IQ_HEADER_LENGTH -> length (set_cpi_length v h) = IQ_HEADER_LENGTH.
Proof. intros H. unfold set_cpi_length. rewrite write_at_length; rewrite H; unfold IQ_HEADER_LENGTH; lia. Qed.

Lemma io_cases x {A} (P Q R : A) :
  (if (x =? 0) || (x =? 1) then P else if x =? 3 then Q else R) =
  if bool_decide (x = 0 \/ x = 1) then P else if bool_decide (x = 3) then Q else R.
Proof.
  destruct (Z.eqb_spec x 0), (Z.eqb_spec x 1), (Z.eqb_spec x 3); repeat case_bool_decide; try done; lia.
Qed.

Lemma sim_reset q s e f rest :
  sim q s -> wf_frame f -> frame_type (hd f) = FRAME_TYPE_DUMMY ->
  sim (Queue (map (fun _ => []) (pending q)) (flags q) (asked q) (collected q)) (account (loaded e f rest s)).
Proof.
  intros H Hwf Hft. destruct ring_pos as (Hr & _ & _). pose proof Hwf as (Hl & _ & _ & _ & _ & Hbl).
  assert (length (rings (loaded e f rest s)) = length (pending q)) as Hlen.
  { pose proof (list.Forall2_length _ _ _ (sim_rings _ _ H)) as Hll. pose proof (sim_chs _ _ H) as Hc.
    unfold loaded. destruct (0 <? _); st_cbn; [|done].
    rewrite length_zip_with, Hbl, Hll, Hc. lia. }
  assert (iq_header (loaded e f rest s) = hd f) as Hh by (unfold loaded; by destruct (0 <? _)).
  unfold account. rewrite Hh, Hft. cbn [Z.eqb FRAME_TYPE_DUMMY Pos.eqb].
  destruct H as [? ? ? ? ? ? ? ? ? ? ? [? ?]]. constructor; st_cbn; cbn [pending flags asked collected]; try (done || lia).
  - apply Forall2_same_length_lookup_2; [by rewrite !length_map|]. intros i r p Hi Hp.
    rewrite list_lookup_fmap in Hi, Hp. destruct (rings _ !! i), (pending q !! i); try done.
    injection Hi as <-. injection Hp as <-. split; [by rewrite length_replicate|]. intros j Hj. cbn in Hj. lia.
  - by rewrite length_map.
  - apply Forall_map, Forall_true. done.
  - by exists 0.
  - unfold loaded. by destruct (0 <? _).
  - unfold loaded. by destruct (0 <? _).
  - unfold loaded. by destruct (0 <? _).
  - by rewrite Hh.
  - unfold loaded. by destruct (0 <? _).
Qed.

Lemma loaded_sent e f rest s : sent (loaded e f rest s) = sent s /\ stdin (loaded e f rest s) = rest.
Proof. unfold loaded. by destruct (0 <? _). Qed.

Lemma account_header s : iq_header (account s) = iq_header s /\ sent (account s) = sent s /\ stdin (account s) = stdin s.
Proof. unfold account. destruct (_ =? _); [done|]. by destruct (_ || _). Qed.

Lemma loaded_header e f rest s : iq_header (loaded e f rest s) = hd f.
Proof. unfold loaded. by destruct (0 <? _). Qed.

(** The outcome of one round on a frame, as the queue sees it. *)
Definition follows (s : st) (rest : bytes) (q' : queue) (evs : list event) : Prop :=
  exists s', round s = Some s' /\ sim q' s' /\ stdin s' = rest /\ sent s' = sent s ++ omap frame_bytes evs.

Lemma round_dummy q s f rest q' evs :
  sim q s -> wf_frame f -> stdin s = wire f ++ rest -> frame_type (hd f) = FRAME_TYPE_DUMMY ->
  spec_step q f = Some (q', evs) -> follows s rest q' evs.
Proof.
  intros H Hwf Hin Hft Hsp. destruct (read_ok q s f rest H Hwf Hin) as [e He].
  pose proof (sim_reset q s e f rest H Hwf Hft) as Hr. set (s1 := account _) in *.
  destruct (account_header (loaded e f rest s)) as (Hh & Hse & Hst). fold s1 in Hh, Hse, Hst.
  rewrite loaded_header in Hh. destruct (loaded_sent e f rest s) as [Hse' Hst']. rewrite Hse' in Hse. rewrite Hst' in Hst.
  unfold follows. rewrite He. cbv zeta. rewrite Hh, Hft. change (FRAME_TYPE_DUMMY =? FRAME_TYPE_DUMMY) with true.
  cbv iota. unfold write_dummy, get_write_buf. rewrite (sim_asked _ _ Hr). cbn [asked].
  unfold spec_step in Hsp. rewrite Hft in Hsp. change (FRAME_TYPE_DUMMY =? FRAME_TYPE_DUMMY) with true in Hsp.
  cbv iota zeta in Hsp. destruct Hwf as (Hl & _).
  destruct ((io (asked q) =? 0) || (io (asked q) =? 1)).
  - injection Hsp as <- <-. st_cbn. rewrite Hh, submit_ok.
    2: { rewrite set_cpi_length_length by done. pose proof object_large. done || (unfold IQ_HEADER_LENGTH, HD_IQ_HEADER_BYTES in *; lia). }
    cbn [mbind option_bind]. st_cbn. change (0 =? 0) with true. cbn [negb]. eexists. split; [reflexivity|].
    st_cbn. rewrite Hst, Hse. cbn [omap list_omap frame_bytes concat]. rewrite app_nil_r. split; [|done].
    destruct Hr as [? ? ? ? ? ? ? ? ? ? ? [? ?]]. constructor; st_cbn; try done.
    by apply set_cpi_length_length.
  - destruct (Z.eqb_spec (io (asked q)) 3) as [E|]; [|done]. cbn [andb] in Hsp.
    destruct (Z.eqb_spec (collected q) 0) as [Ec|]; [|done]. injection Hsp as <- <-.
    cbn [mbind option_bind]. st_cbn. rewrite (sim_active _ _ Hr). cbn [collected]. rewrite Ec.
    change (0 =? 0) with true. cbn [negb]. eexists. split; [reflexivity|]. st_cbn.
    rewrite Hst, Hse. cbn. rewrite app_nil_r. split; [|done].
    destruct Hr as [? ? ? ? ? ? ? ? ? ? ? [? ?]]. constructor; st_cbn; try done. cbn in *. congruence.
Qed.

(** A frame of data: its blocks join the queues. *)
Lemma sim_append q s e f rest :
  sim q s -> wf_frame f -> frame_type (hd f) <> FRAME_TYPE_DUMMY ->
  available s + in_buffer_size * 2 <= ring_bytes ->
  size_for (frame_type (hd f)) <> None ->
  sim (Queue (zip_with app (pending q) (blocks f)) (Z.lor (flags q) (adc_overdrive_flags (hd f))) (asked q) (collected q))
      (account (loaded e f rest s)).
Proof.
  intros H Hwf Hft Hroom Hsz. pose proof Hwf as (Hl & _ & _ & [Hd|Hcpi] & Hb & Hbl); [done|].
  rewrite (proj2 (Z.ltb_lt _ _) Hcpi) in Hbl. pose proof (sim_push q s _ H Hroom Hb Hbl) as Hrs.
  destruct ring_pos as (Hr & Hdiv & Hk). destruct (sim_room _ _ H) as [Hrd0 _]. destruct (sim_queued _ _ H) as [_ Hav].
  assert ((frame_type (hd f) =? FRAME_TYPE_DATA) || (frame_type (hd f) =? FRAME_TYPE_CAL) = true) as Ht.
  { unfold size_for in Hsz. destruct (_ =? FRAME_TYPE_CAL), (_ =? FRAME_TYPE_DATA); done. }
  unfold account. rewrite loaded_header, (proj2 (Z.eqb_neq _ _) Hft), Ht.
  unfold loaded. rewrite (proj2 (Z.ltb_lt _ _) Hcpi).
  destruct H as [? Hch Heven ? ? Hrd Hal ? ? ? ? [? ?]]. constructor; st_cbn; cbn [pending flags asked collected]; try done.
  - rewrite length_zip_with, Hbl, Hch. lia.
  - apply Forall_forall. intros p Hp. apply list_elem_of_In, list_elem_of_lookup in Hp as [i Hi].
    apply lookup_zip_with_Some in Hi as (p0 & b & -> & Hp0 & Hb0). rewrite length_app.
    pose proof (Forall_lookup_1 _ _ _ _ Heven Hp0) as E1. pose proof (Forall_lookup_1 _ _ _ _ Hb Hb0) as E2.
    cbn beta in E1, E2. lia.
  - rewrite Z.rem_mod_nonneg by lia. rewrite Hrd, Zplus_mod_idemp_l. f_equal. lia.
  - rewrite Z.rem_mod_nonneg by lia. destruct Hdiv as [b Hbb], Hal as [j Hj]. rewrite Hj, Hbb.
    replace (j * (in_buffer_size * 2) + in_buffer_size * 2) with ((j + 1) * (in_buffer_size * 2)) by lia.
    rewrite Zmult_mod_distr_r. by eexists.
  - congruence.
Qed.

(** A frame of a type the rebuffer does not know: the rings keep the queues. *)
Lemma sim_ignore q s e f rest :
  sim q s -> wf_frame f -> frame_type (hd f) <> FRAME_TYPE_DUMMY ->
  available s + in_buffer_size * 2 <= ring_bytes -> size_for (frame_type (hd f)) = None ->
  sim q (account (loaded e f rest s)).
Proof.
  intros H Hwf Hft Hroom Hsz. pose proof Hwf as (Hl & _ & _ & [Hd|Hcpi] & Hb & Hbl); [done|].
  rewrite (proj2 (Z.ltb_lt _ _) Hcpi) in Hbl. pose proof (sim_push q s _ H Hroom Hb Hbl) as Hrs.
  assert ((frame_type (hd f) =? FRAME_TYPE_DATA) || (frame_type (hd f) =? FRAME_TYPE_CAL) = false) as Ht.
  { unfold size_for in Hsz. destruct (_ =? FRAME_TYPE_CAL), (_ =? FRAME_TYPE_DATA); done. }
  unfold account. rewrite loaded_header, (proj2 (Z.eqb_neq _ _) Hft), Ht.
  unfold loaded. rewrite (proj2 (Z.ltb_lt _ _) Hcpi).
  destruct H as [? Hch ? ? ? ? ? ? ? ? ? [? ?]]. constructor; st_cbn; try done.
  apply Forall2_same_length_lookup in Hrs as [Hll Hrs]. apply Forall2_same_length_lookup.
  rewrite length_zip_with in Hll. split.
  { rewrite length_zip_with in Hll |- *. lia. }
  intros i r p Hi Hp.
  destruct (lookup_lt_is_Some_2 (blocks f) i) as [b Hbi]; [rewrite Hbl, <-Hch; by eapply lookup_lt_Some|].
  eapply holds_prefix, (Hrs i); [done|]. by rewrite lookup_zip_with, Hp, Hbi.
Qed.

(** Consuming [len] samples moves the start of the queue. *)
Lemma sim_consume q s len fl cl x :
  sim q s -> 0 <= len -> len * 2 <= available s ->
  sim (Queue (map (drop (Z.to_nat (len * 2))) (pending q)) fl cl x)
      (set_calls cl (set_active x (set_overdrive fl
        (set_available (available s - len * 2) (set_wr ((wr_offset s + len * 2) mod ring_bytes) s))))).
Proof.
  intros H Hlen Hav. destruct ring_pos as (Hr & _ & _).
  destruct H as [Hrs Hch Heven Hle Hwr Hrd Hal ? ? ? ? [? ?]].
  assert (Z.to_nat ((wr_offset s + len * 2) mod ring_bytes)
          = (Z.to_nat (wr_offset s) + Z.to_nat (len * 2)) mod n)%nat as Hn.
  { rewrite Z2Nat.inj_mod, Z2Nat.inj_add by lia. done. }
  constructor; st_cbn; cbn [pending flags asked collected]; try (done || lia).
  - rewrite Hn. apply Forall2_fmap_r. apply Forall2_same_length_lookup in Hrs as [Hll Hrs].
    apply Forall2_same_length_lookup. split; [done|]. intros i r p Hi Hp.
    pose proof (Forall_lookup_1 _ _ _ _ Heven Hp) as E. cbn beta in E.
    apply holds_drop; [by apply (Hrs i)|lia|lia].
  - by rewrite length_map.
  - apply Forall_map. eapply list.Forall_impl; [exact Heven|]. intros p E. cbn beta in E |- *. rewrite length_drop. lia.
  - by apply Z.mod_pos_bound.
  - rewrite Zplus_mod_idemp_l, Hrd. f_equal. lia.
Qed.

Lemma concat_take_length (ps : list bytes) m :
  Forall (fun p => m <= length p)%nat ps -> length (concat (map (take m) ps)) = (length ps * m)%nat.
Proof. induction 1 as [|p ps Hp _ IH]; cbn; [done|]. rewrite length_app, length_take, IH. lia. Qed.

Lemma stamp_keeps len fl rest h h' :
  length h = IQ_HEADER_LENGTH -> stamp len fl rest h = Some h' ->
  length h' = IQ_HEADER_LENGTH /\ active_ant_chs h' = active_ant_chs h.
Proof.
  intros Hl. unfold stamp. destruct (c_round _) as [adj|]; [|done]. intros [= <-].
  unfold set_time_stamp, set_adc_overdrive_flags, set_cpi_length, active_ant_chs, IQ_HEADER_LENGTH in *.
  assert (forall o m v x, (o + m <= 1024)%nat -> length x = 1024%nat -> length (write_at o m v x) = 1024%nat) as Hw.
  { intros o m v x Ho Hx. by rewrite write_at_length, Hx by lia. }
  split; [by repeat (apply Hw; [lia|])|].
  rewrite !read_write_ne; rewrite ?Hw; try done; try lia; rewrite ?Hw; lia.
Qed.

Lemma write_frame_ok q s q' evs :
  let len := collected q in
  sim q s -> active_ant_chs (iq_header s) = num_ch c -> len = out_buffer_size \/ len = cal_out_buffer_size ->
  len * 2 <= available s -> spec_emit (iq_header s) len q = Some (q', evs) ->
  exists s', write_frame s = Some s' /\ sim q' s' /\ stdin s' = stdin s /\ sent s' = sent s ++ omap frame_bytes evs.
Proof.
  intros len H Hch Hlen Hav Hsp. pose proof sizes_pos as (Hc1 & _ & Ho & Hcal & _).
  assert (0 < len) as Hpos by (destruct Hlen as [-> | ->]; lia). destruct (sim_queued _ _ H) as [Hq _].
  unfold write_frame, get_write_buf. st_cbn. rewrite (sim_asked _ _ H), !(sim_active _ _ H). fold len.
  unfold spec_emit in Hsp. fold len in Hsp. rewrite Hq in Hsp.
  destruct ((io (asked q) =? 0) || (io (asked q) =? 1)).
  - destruct (stamp _ _ _ _) as [h'|] eqn:Hst; [|done]. injection Hsp as <- <-.
    destruct (stamp_keeps _ _ _ _ _ (sim_header _ _ H) Hst) as [Hl' Hc'].
    unfold stamp in Hst. rewrite <-(sim_flags _ _ H) in Hst. destruct (c_round _) as [adj|]; [|done].
    cbn [mbind option_bind] in Hst |- *. injection Hst as ->. rewrite Hc', Hch.
    pose proof (sim_rings _ _ H) as Hrs. pose proof (sim_even _ _ H) as Heven. pose proof (sim_avail _ _ H).
    assert (Forall (fun p => Z.to_nat (len * 2) <= length p <= n)%nat (pending q)) as Hfit.
    { eapply list.Forall_impl; [exact Heven|]. intros p E. cbn beta in E |- *. lia. }
    rewrite (take_rings_ok _ _ _ _ _ 0 Hrs) by (try done; try apply (sim_wr _ _ H); try lia;
      rewrite (list.Forall2_length _ _ _ Hrs), (sim_chs _ _ H); lia).
    cbn [mbind option_bind]. rewrite drop_0, submit_ok.
    2: { rewrite length_app, Hl', concat_take_length, (sim_chs _ _ H) by (eapply list.Forall_impl; [exact Hfit|]; cbn; lia).
         pose proof object_large as (O1 & O2 & _). unfold IQ_HEADER_LENGTH, HD_IQ_HEADER_BYTES in *.
         destruct Hlen as [-> | ->]; nia. }
    eexists. split; [reflexivity|]. st_cbn. cbn [omap list_omap frame_bytes]. split; [|done].
    rewrite next_wr_mod by (try apply (sim_wr _ _ H); lia).
    destruct (sim_consume q s len 0 (S (asked q)) len H ltac:(lia) Hav) as [? ? ? ? ? ? ? ? ? ? ? [? ?]].
    constructor; st_cbn; try done. apply (sim_active _ _ H).
  - destruct (_ =? 3); [|done]. injection Hsp as <- <-. eexists. split; [reflexivity|]. st_cbn.
    cbn [omap list_omap frame_bytes]. rewrite app_nil_r. split; [|done].
    rewrite Z.rem_mod_nonneg by (pose proof (sim_wr _ _ H); lia).
    destruct (sim_consume q s len (flags q) (S (asked q)) len H ltac:(lia) Hav) as [? ? ? ? ? ? ? ? ? ? ? [? ?]].
    constructor; st_cbn; try done; [apply (sim_flags _ _ H) | apply (sim_active _ _ H)].
Qed.

(** The size chosen for a data or calibration frame is that of its type. *)
Lemma select_size_for s :
  frame_type (iq_header s) <> FRAME_TYPE_DUMMY ->
  select_size s =
  set_active (match size_for (frame_type (iq_header s)) with
              | Some len => if len * 2 <=? available s then len else 0
              | None => 0
              end) s.
Proof.
  intros _. unfold select_size, size_for.
  destruct (Z.eqb_spec (frame_type (iq_header s)) FRAME_TYPE_CAL) as [E|]; cbn [andb].
  - rewrite E. change (FRAME_TYPE_CAL =? FRAME_TYPE_DATA) with false. cbn [andb]. by destruct (_ <=? _).
  - destruct (_ =? FRAME_TYPE_DATA); cbn [andb]; [|done]. by destruct (_ <=? _).
Qed.

Lemma sim_set_active q s x : sim q s -> sim (Queue (pending q) (flags q) (asked q) x) (set_active x s).
Proof. intros [? ? ? ? ? ? ? ? ? ? ? [? ?]]. by constructor. Qed.

Lemma round_block q s f rest q' evs :
  sim q s -> wf_frame f -> stdin s = wire f ++ rest -> frame_type (hd f) <> FRAME_TYPE_DUMMY ->
  spec_step q f = Some (q', evs) -> follows s rest q' evs.
Proof.
  intros H Hwf Hin Hft Hsp. destruct (read_ok q s f rest H Hwf Hin) as [e He]. unfold follows. rewrite He. cbv zeta.
  destruct (account_header (loaded e f rest s)) as (Hh & Hse & Hst).
  destruct (loaded_sent e f rest s) as [Hse' Hst']. rewrite Hse' in Hse. rewrite Hst' in Hst.
  rewrite loaded_header in Hh. destruct (sim_queued _ _ H) as [Hq _].
  unfold spec_step in Hsp. rewrite (proj2 (Z.eqb_neq _ _) Hft), Hq in Hsp.
  destruct (Z.ltb_spec ring_bytes (available s + in_buffer_size * 2)) as [|Hroom]; [done|].
  rewrite Hh, (proj2 (Z.eqb_neq _ _) Hft). cbn [mbind option_bind].
  rewrite select_size_for by (by rewrite Hh). rewrite Hh.
  destruct (size_for (frame_type (hd f))) as [len|] eqn:Hsz.
  - pose proof (sim_append q s e f rest H Hwf Hft Hroom ltac:(by rewrite Hsz)) as H1.
    set (s1 := account _) in *. destruct (sim_queued _ _ H1) as [Hq1 _]. cbv zeta in Hsp.
    assert (queued (Queue (zip_with app (pending q) (blocks f)) (Z.lor (flags q) (adc_overdrive_flags (hd f))) (asked q) 0)
            = available s1) as Hq2 by exact Hq1. rewrite Hq2 in Hsp. clear Hq2.
    destruct (Z.leb_spec (len * 2) (available s1)) as [Hav|Hav].
    + pose proof sizes_pos as (_ & _ & Ho & Hcal & _).
      assert (len = out_buffer_size \/ len = cal_out_buffer_size) as Hlen.
      { revert Hsz. unfold size_for. repeat destruct (_ =? _); intros [= <-]; auto. }
      st_cbn. rewrite (proj2 (Z.eqb_neq len 0)) by (destruct Hlen; lia). cbn [negb].
      apply (sim_set_active _ _ len) in H1.
      destruct (write_frame_ok _ _ q' evs H1) as (s' & Hw & Hs' & Hi' & Ho'); [by st_cbn; rewrite Hh; apply Hwf|done|done| |].
      { st_cbn. rewrite Hh. exact Hsp. }
      exists s'. split; [done|]. st_cbn. by rewrite Hi', Ho', Hst, Hse.
    + injection Hsp as <- <-. st_cbn. eexists. split; [reflexivity|]. st_cbn.
      rewrite Hst, Hse. cbn. rewrite app_nil_r. split; [|done]. by apply (sim_set_active _ _ 0) in H1.
  - injection Hsp as <- <-. pose proof (sim_ignore q s e f rest H Hwf Hft Hroom Hsz) as H1.
    st_cbn. eexists. split; [reflexivity|]. st_cbn. rewrite Hst, Hse. cbn. rewrite app_nil_r.
    split; [|done]. by apply sim_set_active.
Qed.

Lemma round_ok q s f rest q' evs :
  sim q s -> wf_frame f -> stdin s = wire f ++ rest -> spec_step q f = Some (q', evs) -> follows s rest q' evs.
Proof.
  intros. destruct (Z.eq_dec (frame_type (hd f)) FRAME_TYPE_DUMMY); [by eapply round_dummy|by eapply round_block].
Qed.

Lemma sim_init input : sim spec_init (init input).
Proof.
  destruct ring_pos as (Hr & _ & _). constructor; cbn; try done; try lia.
  - apply Forall2_replicate. split; [by rewrite length_replicate|]. intros i Hi. cbn in Hi. lia.
  - by rewrite length_replicate.
  - by apply Forall_replicate.
  - by exists 0.
Qed.

(** At the end of the input the loop is left with a read error. *)
Lemma round_end q s : sim q s -> stdin s = [] -> exists s', round s = Some s' /\ exit_flag s' = ERR_IQFRAME_READ /\ sent s' = sent s.
Proof.
  intros H Hin. destruct (sim_going _ _ H) as [_ He]. unfold round, read_header. rewrite He. unfold fread.
  rewrite Hin, take_nil, drop_nil. cbn [length].
  rewrite (bool_decide_eq_false_2 (0%nat = IQ_HEADER_LENGTH)) by done. st_cbn. change (0 =? 1) with false. cbn [negb].
  by eexists.
Qed.

Lemma loop_ok fs : forall q s q' evs j,
  sim q s -> Forall wf_frame fs -> stdin s = concat (map wire fs) -> spec_run q fs = Some (q', evs) ->
  exists s', loop (S (length fs)) (fun _ => false) j s = Some (s', true) /\
             exit_flag s' = ERR_IQFRAME_READ /\ sent s' = sent s ++ omap frame_bytes evs.
Proof.
  induction fs as [|f fs IH]; intros q s q' evs j H Hwf Hin Hsp; cbn [spec_run] in Hsp; destruct (sim_going _ _ H) as [Hx _].
  - injection Hsp as <- <-. destruct (round_end q s H Hin) as (s' & Hr & Hx' & Hs').
    cbn [loop length]. rewrite Hx, Hr. change (0 =? 0) with true. cbn [negb orb mbind option_bind].
    rewrite Hx'. change (ERR_IQFRAME_READ =? 0) with false. cbn [negb orb]. exists s'. cbn. by rewrite app_nil_r.
  - apply list.Forall_cons in Hwf as [Hf Hfs]. destruct (spec_step q f) as [[q1 ev1]|] eqn:Hst; [|done].
    cbn [mbind option_bind fst snd] in Hsp. destruct (spec_run q1 fs) as [[q2 ev2]|] eqn:Hrun; [|done].
    cbn in Hsp. injection Hsp as <- <-.
    destruct (round_ok q s f _ _ _ H Hf Hin Hst) as (s1 & Hr & H1 & Hin1 & Hse1).
    destruct (IH q1 s1 q2 ev2 (S j) H1 Hfs Hin1 Hrun) as (s' & Hl & Hx' & Hs').
    exists s'. split; [|split; [done|]].
    + cbn [length]. change (loop (S (S (length fs))) (fun _ => false) j s)
        with (if negb (exit_flag s =? 0) || false then Some (s, true)
              else s ← round s; loop (S (length fs)) (fun _ => false) (S j) s).
      rewrite Hx, Hr. exact Hl.
    + rewrite Hs', Hse1, omap_app, app_assoc. done.
Qed.

(** ** The stream *)

(** The samples of channel [m] that an event takes out of the queue. *)
Definition part (m : nat) (e : event) : bytes :=
  match e with Sent _ l | Dropped l => default [] (l !! m) end.

Definition is_data (f : frame) : Prop :=
  frame_type (hd f) = FRAME_TYPE_DATA \/ frame_type (hd f) = FRAME_TYPE_CAL.

Lemma spec_emit_stream h len q q' evs m p :
  spec_emit h len q = Some (q', evs) -> pending q !! m = Some p ->
  exists p', pending q' !! m = Some p' /\ p = concat (map (part m) evs) ++ p'.
Proof.
  unfold spec_emit. intros Hsp Hp. set (j := Z.to_nat (len * 2)) in *. exists (drop j p).
  assert (part m (Dropped (map (take j) (pending q))) = take j p) as Hd.
  { cbn. by rewrite list_lookup_fmap, Hp. }
  destruct (_ || _).
  - destruct (stamp _ _ _ _) as [h'|]; [|done]. injection Hsp as <- <-. cbn [pending map concat].
    rewrite list_lookup_fmap, Hp. change (part m (Sent h' ?l)) with (part m (Dropped l)).
    by rewrite Hd, app_nil_r, take_drop.
  - destruct (_ =? 3); [|done]. injection Hsp as <- <-. cbn [pending map concat].
    rewrite list_lookup_fmap, Hp, Hd. by rewrite app_nil_r, take_drop.
Qed.

Lemma spec_step_stream q f q' evs m p b :
  is_data f -> spec_step q f = Some (q', evs) -> pending q !! m = Some p -> blocks f !! m = Some b ->
  exists p', pending q' !! m = Some p' /\ p ++ b = concat (map (part m) evs) ++ p'.
Proof.
  intros Hd Hsp Hp Hb. unfold spec_step in Hsp.
  rewrite (proj2 (Z.eqb_neq _ FRAME_TYPE_DUMMY)) in Hsp by (by destruct Hd as [-> | ->]).
  destruct (ring_bytes <? _); [done|].
  assert (exists len, size_for (frame_type (hd f)) = Some len) as [len Hlen].
  { unfold size_for. destruct Hd as [-> | ->]; eauto. }
  rewrite Hlen in Hsp. cbv zeta in Hsp.
  assert (zip_with app (pending q) (blocks f) !! m = Some (p ++ b)) as Hz by (by rewrite lookup_zip_with, Hp, Hb).
  destruct (len * 2 <=? _); [by eapply spec_emit_stream|].
  injection Hsp as <- <-. cbn [pending map concat app]. by exists (p ++ b).
Qed.

Lemma spec_run_stream fs : forall q q' evs m p,
  Forall wf_frame fs -> Forall is_data fs -> spec_run q fs = Some (q', evs) ->
  pending q !! m = Some p -> (m < Z.to_nat (num_ch c))%nat ->
  exists p', pending q' !! m = Some p' /\
    p ++ concat (map (fun f => default [] (blocks f !! m)) fs) = concat (map (part m) evs) ++ p'.
Proof.
  induction fs as [|f fs IH]; intros q q' evs m p Hwf Hd Hsp Hp Hm; cbn [spec_run] in Hsp.
  - injection Hsp as <- <-. exists p. cbn. by rewrite app_nil_r.
  - apply list.Forall_cons in Hwf as [Hf Hfs], Hd as [Hdf Hds].
    destruct (spec_step q f) as [[q1 ev1]|] eqn:Hst; [|done]. cbn [mbind option_bind fst snd] in Hsp.
    destruct (spec_run q1 fs) as [[q2 ev2]|] eqn:Hrun; [|done]. cbn in Hsp. injection Hsp as <- <-.
    destruct Hf as (_ & _ & _ & Hcpi & _ & Hbl).
    rewrite (proj2 (Z.ltb_lt _ _)) in Hbl by (destruct Hcpi as [E|]; [destruct Hdf as [E'|E']; rewrite E in E'; discriminate E'|done]).
    destruct (lookup_lt_is_Some_2 (blocks f) m ltac:(lia)) as [b Hb].
    destruct (spec_step_stream _ _ _ _ _ _ _ Hdf Hst Hp Hb) as (p1 & Hp1 & E1).
    destruct (IH _ _ _ _ _ Hfs Hds Hrun Hp1 Hm) as (p' & Hp' & E2).
    exists p'. split; [done|]. cbn [map concat]. rewrite Hb. change (default [] (Some b)) with b.
    rewrite map_app, concat_app, (app_assoc p b), E1, <-!app_assoc. f_equal. exact E2.
Qed.


(** ** Room in the ring *)

Lemma queued_zip q f : wf_frame f -> 0 < cpi_length (hd f) -> length (pending q) = Z.to_nat (num_ch c) ->
  queued (Queue (zip_with app (pending q) (blocks f)) (flags q) (asked q) 0) = queued q + in_buffer_size * 2.
Proof.
  intros (_ & _ & _ & _ & Hb & Hbl) Hcpi Hp. rewrite (proj2 (Z.ltb_lt _ _) Hcpi) in Hbl.
  pose proof sizes_pos. unfold queued. cbn. destruct (pending q) as [|p ps], (blocks f) as [|b bs]; cbn in *; try lia.
  apply list.Forall_cons in Hb as [Hb _]. rewrite length_app. lia.
Qed.

Definition roomy (q : queue) : Prop :=
  length (pending q) = Z.to_nat (num_ch c) /\ queued q < 2 * Z.max out_buffer_size cal_out_buffer_size.

Lemma queued_drop q len fl cl x :
  0 <= len * 2 <= queued q ->
  queued (Queue (map (drop (Z.to_nat (len * 2))) (pending q)) fl cl x) = queued q - len * 2.
Proof. unfold queued. cbn. destruct (pending q); cbn; [lia|]. rewrite length_drop. lia. Qed.

Lemma spec_step_roomy q f q' evs :
  in_buffer_size <= out_buffer_size -> in_buffer_size <= cal_out_buffer_size ->
  wf_frame f -> roomy q -> spec_step q f = Some (q', evs) -> roomy q'.
Proof.
  intros Hi1 Hi2 Hwf [Hl Hq] Hsp. pose proof sizes_pos as (_ & Hin & Ho & Hcal & _). unfold spec_step in Hsp.
  destruct (Z.eqb_spec (frame_type (hd f)) FRAME_TYPE_DUMMY) as [E|E].
  { assert (q' = Queue (map (fun _ => []) (pending q)) (flags q) (S (asked q)) 0) as ->.
    { destruct (_ || _); [by injection Hsp|]. destruct (_ && _); [by injection Hsp|done]. }
    split; cbn; [by rewrite length_map|]. unfold queued. cbn. destruct (pending q); cbn; lia. }
  destruct (ring_bytes <? _); [done|].
  destruct (size_for _) as [len|] eqn:Hsz; [|by injection Hsp as <- <-].
  assert (0 < len /\ in_buffer_size <= len /\ len <= Z.max out_buffer_size cal_out_buffer_size) as (Hp & Hil & Hm).
  { revert Hsz. unfold size_for. repeat destruct (_ =? _); intros [= <-]; lia. }
  assert (0 < cpi_length (hd f)) as Hcpi by (destruct Hwf as (_ & _ & _ & [?|?] & _); done).
  pose proof (queued_zip q f Hwf Hcpi Hl) as Hz. cbv zeta in Hsp. set (q1 := Queue (zip_with _ _ _) _ _ 0) in Hsp.
  assert (queued q1 = queued q + in_buffer_size * 2) as Hz1 by exact Hz.
  assert (length (pending q1) = Z.to_nat (num_ch c)) as Hl1.
  { cbn. rewrite length_zip_with, Hl. destruct Hwf as (_ & _ & _ & _ & _ & ->). rewrite (proj2 (Z.ltb_lt _ _) Hcpi). lia. }
  destruct (Z.leb_spec (len * 2) (queued q1)) as [Hle|Hgt].
  - unfold spec_emit in Hsp. destruct (_ || _).
    + destruct (stamp _ _ _ _); [|done]. injection Hsp as <- <-.
      split; cbn [pending]; [by rewrite length_map|]. rewrite (queued_drop q1) by lia. lia.
    + destruct (_ =? 3); [|done]. injection Hsp as <- <-.
      split; cbn [pending]; [by rewrite length_map|]. rewrite (queued_drop q1) by lia. lia.
  - injection Hsp as <- <-. split; [done|lia].
Qed.

Lemma ring_large : 2 * Z.max out_buffer_size cal_out_buffer_size + in_buffer_size * 2 <= ring_bytes.
Proof.
  pose proof sizes_pos as (_ & Hin & Ho & Hcal & _). unfold ring_bytes, buffer_num.
  pose proof (Z.quot_div_nonneg out_buffer_size in_buffer_size ltac:(lia) Hin) as E1.
  pose proof (Z.quot_div_nonneg cal_out_buffer_size in_buffer_size ltac:(lia) Hin) as E2. rewrite E1, E2.
  pose proof (Z.div_mod out_buffer_size in_buffer_size ltac:(lia)).
  pose proof (Z.mod_pos_bound out_buffer_size in_buffer_size Hin).
  pose proof (Z.div_mod cal_out_buffer_size in_buffer_size ltac:(lia)).
  pose proof (Z.mod_pos_bound cal_out_buffer_size in_buffer_size Hin).
  destruct (Z.leb_spec (cal_out_buffer_size / in_buffer_size + 2) (out_buffer_size / in_buffer_size + 2)); nia.
Qed.

(** The ring is large enough: when a CPI and a calibration block are both
    at least as long as an input block, a block read never overwrites samples
    that are still to be sent, however data, calibration and dummy frames
    alternate and whichever frames are dropped. *)
Theorem ring_never_overruns fs q' evs :
  in_buffer_size <= out_buffer_size -> in_buffer_size <= cal_out_buffer_size ->
  Forall wf_frame fs -> spec_run spec_init fs = Some (q', evs) ->
  queued q' + in_buffer_size * 2 <= ring_bytes.
Proof.
  intros Hi1 Hi2 Hwf Hsp.
  assert (roomy spec_init) as H0.
  { pose proof sizes_pos as (? & _ & ? & ? & _). split; cbn; [by rewrite length_replicate|].
    unfold queued. cbn. destruct (replicate _ _) eqn:E; [lia|]. destruct (Z.to_nat (num_ch c)); [done|].
    cbn in E. injection E as <- _. cbn. lia. }
  assert (roomy q') as [_ Hq].
  { revert Hwf Hsp H0. generalize spec_init. revert q' evs. induction fs as [|f fs IH]; intros q' evs q Hwf Hsp H0.
    { cbn in Hsp. by injection Hsp as <- _. }
    apply list.Forall_cons in Hwf as [Hf Hfs]. cbn [spec_run] in Hsp.
    destruct (spec_step q f) as [[q1 ev1]|] eqn:Hst; [|done]. cbn [mbind option_bind fst snd] in Hsp.
    destruct (spec_run q1 fs) as [[q2 ev2]|] eqn:Hrun; [|done]. cbn in Hsp. injection Hsp as <- _.
    apply (IH _ _ q1 Hfs Hrun). by eapply spec_step_roomy. }
  pose proof ring_large. lia.
Qed.

End Refinement.
(** ** Termination *)

Lemma read_header_consumes s s' :
  read_header s = (s', true) -> (length (stdin s') + IQ_HEADER_LENGTH <= length (stdin s))%nat.
Proof.
  unfold read_header. destruct (eof s); [done|]. unfold fread. st_cbn.
  case_bool_decide as E; [|done]. destruct (negb (1 =? 1)); [done|]. destruct (negb (_ =? 0)); [done|].
  intros [= <-]. st_cbn. rewrite length_drop. rewrite length_take in E. lia.
Qed.

Lemma read_header_stops s s' : read_header s = (s', false) -> exit_flag s' <> 0.
Proof.
  unfold read_header. destruct (eof s); [by intros [= <-]|]. unfold fread. st_cbn.
  destruct (negb _); [by intros [= <-]|]. destruct (negb _); [by intros [= <-]|done].
Qed.

Lemma read_channels_shrinks j : forall m s s',
  read_channels j m s = Some s' -> (length (stdin s') <= length (stdin s))%nat.
Proof.
  induction j as [|j IH]; intros m s s'; cbn [read_channels]; [by intros [= <-]|].
  destruct (rings s !! m) as [r|]; [|done]. cbn [mbind option_bind]. unfold fread. st_cbn.
  destruct (store _ _ _) as [r'|]; [|done]. cbn [mbind option_bind]. st_cbn. destruct (negb _).
  - intros [= <-]. st_cbn. rewrite length_drop. lia.
  - intros H%IH. st_cbn. rewrite length_drop in H. lia.
Qed.

Lemma write_stdin s s' :
  (write_dummy s = Some s' -> stdin s' = stdin s) /\ (write_frame s = Some s' -> stdin s' = stdin s).
Proof.
  split.
  - unfold write_dummy, get_write_buf, submit. destruct (_ || _); [|destruct (_ =? 3); by intros [= <-]].
    case_bool_decide; [by intros [= <-]|done].
  - unfold write_frame, get_write_buf, submit. destruct (_ || _); [|destruct (_ =? 3); by intros [= <-]].
    destruct (c_round _); [|done]. cbn [mbind option_bind]. destruct (take_rings _ _ _ _ _); [|done].
    cbn [mbind option_bind]. case_bool_decide; [by intros [= <-]|done].
Qed.

Lemma round_consumes s s' :
  round s = Some s' -> exit_flag s' = 0 -> (length (stdin s') + IQ_HEADER_LENGTH <= length (stdin s))%nat.
Proof.
  unfold round. destruct (read_header s) as [s1 []] eqn:Hh; cbn [negb].
  2: { intros [= <-] Hx. by apply read_header_stops in Hh. }
  apply read_header_consumes in Hh. destruct (read_payload s1) as [s2|] eqn:Hp; [|done]. cbn [mbind option_bind].
  assert (length (stdin s2) <= length (stdin s1))%nat as H2.
  { unfold read_payload in Hp. destruct (0 <? _); [by eapply read_channels_shrinks|by injection Hp as <-]. }
  set (s3 := account s2). assert (stdin s3 = stdin s2) as H3 by apply account_header.
  intros H Hx. assert (stdin s' = stdin s3) as ->; [|rewrite H3; lia].
  assert (forall t, (if negb (active_out_buffer_size t =? 0) then write_frame t else Some t) = Some s' ->
                    stdin s' = stdin t) as Hw.
  { intros t. destruct (negb _); [apply write_stdin|by intros [= <-]]. }
  destruct (frame_type (iq_header s3) =? FRAME_TYPE_DUMMY).
  - destruct (write_dummy s3) as [s4|] eqn:Hd; [|done]. cbn [mbind option_bind] in H. apply Hw in H.
    rewrite H. exact (proj1 (write_stdin s3 s4) Hd).
  - cbn [mbind option_bind] in H. apply Hw in H. rewrite H. unfold select_size.
    destruct (_ && _); [done|]. by destruct (_ && _).
Qed.

(** The loop ends: whatever bytes arrive, however the transport answers and
    whenever signals come, it is left after at most one round per 1024 bytes of
    input and one more. *)
Theorem rebuffer_terminates input sig fuel s b :
  (length input / 1024 + 1 <= fuel)%nat -> loop fuel sig 0 (init input) = Some (s, b) -> b = true.
Proof.
  enough (forall j t, (length (stdin t) / 1024 + 1 <= fuel)%nat -> loop fuel sig j t = Some (s, b) -> b = true) as H
    by apply (H 0%nat (init input)).
  induction fuel as [|fuel IH]; intros j t Hf; [lia|]. cbn [loop].
  destruct (_ || _) eqn:Hx; [by intros [= _ <-]|].
  destruct (round t) as [t'|] eqn:Hr; [|done]. cbn [mbind option_bind].
  destruct (Z.eqb_spec (exit_flag t') 0) as [E|E].
  - intros H. apply (IH (S j) t'); [|done]. apply round_consumes in Hr; [|done].
    unfold IQ_HEADER_LENGTH in Hr.
    pose proof (Nat.Div0.div_le_mono (length (stdin t') + 1 * 1024) (length (stdin t)) 1024 ltac:(lia)) as Hd.
    rewrite Nat.div_add in Hd by lia. lia.
  - destruct fuel; cbn [loop]; rewrite (proj2 (Z.eqb_neq _ _) E); by intros [= _ <-].
Qed.

End Main.
(** ** Concrete runs *)

(** Two channels, blocks of 2 samples, CPIs of 3, calibration blocks of 2. *)
Definition sample_cfg : configuration := Config 2 2 3 2 1 0 0 100 "shm".
Definition short_cal_cfg : configuration := Config 2 1 3 2 1 0 0 100 "shm".

Definition header_of (ft cpi idx : Z) : bytes :=
  write_at 0 4 Hdr.SYNC_WORD (write_at 4 4 ft (write_at 28 4 2 (write_at 56 8 1000000 (write_at 64 4 cpi
    (write_at 72 8 5000 (write_at 80 4 idx (replicate IQ_HEADER_LENGTH 0))))))).

Definition block_frame (ft idx : Z) : frame :=
  Frame (header_of ft 2 idx)
    [map (fun i => (10 * idx + i) mod 256) [1; 2; 3; 4]; map (fun i => (10 * idx + 100 + i) mod 256) [1; 2; 3; 4]].
Definition dummy_frame (idx : Z) : frame := Frame (header_of FRAME_TYPE_DUMMY 0 idx) [].

Definition sample_frames : list frame :=
  [block_frame 0 0; block_frame 0 1; dummy_frame 2; block_frame 3 3; block_frame 0 4; block_frame 0 5].

#[export] Instance wf_frame_dec c f : Decision (wf_frame c f).
Proof. unfold wf_frame. apply _. Defined.

Lemma rebuf_sample_wf : Forall (wf_frame sample_cfg) sample_frames.
Proof. apply (bool_decide_unpack _). vm_compute. exact I. Qed.

(** What a run sends: type, length and samples of every frame. *)
Definition observe (c : configuration) (io : nat -> Z) (input : bytes) : option (list (Z * Z * bytes) * Z * Z) :=
  r ← loop c io 100 (fun _ => false) 0 (init c input);
  Some (map (fun f => (frame_type f, cpi_length f, drop IQ_HEADER_LENGTH f)) (sent r.1), exit_flag r.1, available r.1).


Lemma ring_never_overruns_witness :
  let r := default (spec_init sample_cfg, []) (spec_run sample_cfg (fun _ => 0) (spec_init sample_cfg) sample_frames) in
  queued r.1 + 4 <= ring_bytes sample_cfg.
Proof.
  apply (ring_never_overruns sample_cfg (fun _ => 0) eq_refl sample_frames _
    (default (spec_init sample_cfg, []) (spec_run sample_cfg (fun _ => 0) (spec_init sample_cfg) sample_frames)).2).
  - vm_compute. discriminate.
  - vm_compute. discriminate.
  - exact rebuf_sample_wf.
  - vm_compute. reflexivity.
Defined.

Lemma rebuffer_terminates_witness :
  exists s b, loop sample_cfg (fun _ => 3) 3 (fun _ => false) 0 (init sample_cfg (wire (block_frame 0 0) ++ [1; 2; 3]))
              = Some (s, b) /\ b = true.
Proof.
  eexists _, _. split; [vm_compute; reflexivity|].
  apply (rebuffer_terminates sample_cfg (fun _ => 3) (wire (block_frame 0 0) ++ [1; 2; 3]) (fun _ => false) 3
           (match loop sample_cfg (fun _ => 3) 3 (fun _ => false) 0 (init sample_cfg (wire (block_frame 0 0) ++ [1; 2; 3])) with
            | Some (s, _) => s | None => init sample_cfg [] end)).
  - vm_compute. lia.
  - vm_compute. reflexivity.
Defined.

(** ** Departures *)

(** The size of the last frame survives a dropped dummy frame: a frame of zeros
    with the type of the dummy is sent, and the count of available bytes goes
    below zero, so that the next CPI is skipped. *)
Lemma dropped_dummy_sends_zeros :
  observe sample_cfg (fun k => if (k =? 1)%nat then 3 else 0)
    (concat (map wire [block_frame 0 0; block_frame 0 1; dummy_frame 2])) =
  Some ([(0, 3, [1; 2; 3; 4; 11; 12; 101; 102; 103; 104; 111; 112]);
         (1, 3, [0; 0; 0; 0; 0; 0; 0; 0; 0; 0; 0; 0])], ERR_IQFRAME_READ, -6).
Proof. vm_compute. reflexivity. Qed.

(** With a calibration block shorter than an input block the ring fills up
    during calibration and blocks not yet sent are overwritten: the sixth
    frame carries samples of a later block instead of the next ones. *)
Lemma short_calibration_overruns :
  match observe short_cal_cfg (fun _ => 0) (concat (map wire (map (block_frame 3) (map Z.of_nat (seq 0 8))))) with
  | Some (fs, _, _) =>
      concat (map (fun f => take 2 f.2) fs) = [1; 2; 3; 4; 11; 12; 13; 14; 21; 22; 53; 54; 61; 62; 63; 64]
  | None => False
  end.
Proof. vm_compute. reflexivity. Qed.

(** A read cut short in the payload ends the loop only after the frame was
    processed: here a frame is sent with the samples of the second
    channel missing. *)
Lemma torn_read_is_sent :
  observe sample_cfg (fun _ => 0)
    (wire (block_frame 0 0) ++ take (IQ_HEADER_LENGTH + 2) (wire (block_frame 0 1))) =
  Some ([(0, 3, [1; 2; 3; 4; 11; 12; 101; 102; 103; 104; 0; 0])], ERR_IQFRAME_READ, 0).
Proof. vm_compute. reflexivity. Qed.

End Rebuf.
