(* ===== verification/GwStream.v ===== *)
(** * The gateware data path ([_fpga_gateware/rtl])

    Synchronous Verilog modules with valid/ready handshakes: the registers are a
    record, one clock edge is a function, and the combinational outputs are
    functions of the registers and of the downstream [ready].  [hw] is the
    interface every stage offers; [implements m s f] says that what the stage
    delivers is always a prefix of [f] of what it accepted, whatever the
    pattern of valids and readys.  Chains of stages are proved through this
    interface.  This file has the interface and the modules [iq_deinterleave],
    [u8_to_f32], [output_reinterleave] and [fifo_sync]. *)
From S2P Require Import Prelude Ring PyStruct PyFloat.
From Stdlib Require Import SpecFloat Qabs.
Open Scope Z_scope.

Module Gw.

(** ** Bit vectors *)
Definition wrap (w z : Z) : Z := z mod 2 ^ w.
Definition bits (hi lo z : Z) : Z := (z / 2 ^ lo) mod 2 ^ (hi - lo + 1).
Definition bit (i z : Z) : bool := Z.testbit z i.

Lemma flat_map_single {A} (l : list A) : flat_map (fun x => [x]) l = l.
Proof. induction l; cbn; congruence. Qed.

(** ** Stages *)
Record hw (I O : Type) := Hw {
  st : Type;
  ready : st -> bool -> bool;              (* in_ready, given the downstream ready *)
  out : st -> option O;                    (* Some: out_valid with its data *)
  tick : st -> option I -> bool -> st }.   (* input data when valid, downstream ready *)
Arguments Hw {I O}.
Arguments st {I O}.
Arguments ready {I O}.
Arguments out {I O}.
Arguments tick {I O}.

Section Runs.
Context {I O : Type} (m : hw I O).

(** What crosses the two ports in one cycle. *)
Definition taken (s : st m) (c : option I * bool) : list I :=
  if ready m s c.2 then match c.1 with Some i => [i] | None => [] end else [].
Definition given (s : st m) (c : option I * bool) : list O :=
  if c.2 then match out m s with Some o => [o] | None => [] end else [].

Fixpoint run (s : st m) (cs : list (option I * bool)) : st m * list I * list O :=
  match cs with
  | [] => (s, [], [])
  | c :: cs => let '(s', ins, os) := run (tick m s c.1 c.2) cs in (s', taken s c ++ ins, given s c ++ os)
  end.

Definition implements (s : st m) (f : list I -> list O) : Prop :=
  forall cs, let '(_, ins, os) := run s cs in os `prefix_of` f ins.

(** A stage that holds what it has accepted and not yet delivered, translated
    element by element: [inj] on the way in, [outj] on the way out. *)
Section Held.
Context {X : Type} (inv : st m -> Prop) (held : st m -> list X) (inj : I -> list X) (outj : O -> list X).
Hypothesis inv_tick : forall s i r, inv s -> inv (tick m s i r).
Hypothesis held_tick : forall s i r, inv s ->
  flat_map outj (given s (i, r)) ++ held (tick m s i r) = held s ++ flat_map inj (taken s (i, r)).

Lemma held_run cs : forall s, inv s ->
  let '(s', ins, os) := run s cs in
  inv s' /\ flat_map outj os ++ held s' = held s ++ flat_map inj ins.
Proof.
  induction cs as [|[i r] cs IH]; intros s Hs; cbn [run].
  { cbn. by rewrite app_nil_r. }
  specialize (IH (tick m s i r) (inv_tick s i r Hs)). cbn [fst snd].
  destruct (run (tick m s i r) cs) as [[s' ins] os]. destruct IH as [Hi E]. split; [done|].
  rewrite !flat_map_app, <-app_assoc, E, app_assoc, held_tick by done. by rewrite app_assoc.
Qed.
End Held.
End Runs.

(** ** Chains *)
Definition compose {I M O} (a : hw I M) (b : hw M O) : hw I O := Hw (st a * st b)%type
  (fun s r => ready a s.1 (ready b s.2 r))
  (fun s => out b s.2)
  (fun s i r => (tick a s.1 i (ready b s.2 r), tick b s.2 (out a s.1) r)).

Lemma run_compose {I M O} (a : hw I M) (b : hw M O) cs : forall s,
  exists ca cb,
    let '(s', ins, os) := run (compose a b) s cs in
    let '(sa, ia, oa) := run a s.1 ca in
    let '(sb, ib, ob) := run b s.2 cb in
    s' = (sa, sb) /\ ins = ia /\ oa = ib /\ ob = os.
Proof.
  induction cs as [|[i r] cs IH]; intros s.
  { exists [], []. by destruct s. }
  destruct (IH (tick (compose a b) s i r)) as (ca & cb & H). cbn [run fst snd].
  exists ((i, ready b s.2 r) :: ca), ((out a s.1, r) :: cb).
  cbn [tick compose fst snd run] in *. destruct (run (compose a b) _ cs) as [[s' ins] os].
  destruct (run a _ ca) as [[sa ia] oa], (run b _ cb) as [[sb ib] ob].
  destruct H as (-> & -> & -> & ->). split_and!; try done.
Qed.

(** Stages that implement [f] and [g] chain to one that implements [g] after
    [f], when [g] never takes anything back. *)
Lemma compose_implements {I M O} (a : hw I M) (b : hw M O) sa sb f g :
  (forall l k, l `prefix_of` k -> g l `prefix_of` g k) ->
  implements a sa f -> implements b sb g -> implements (compose a b) (sa, sb) (fun l => g (f l)).
Proof.
  intros Hg Ha Hb cs. destruct (run_compose a b cs (sa, sb)) as (ca & cb & H). cbn [fst snd] in H.
  specialize (Ha ca). specialize (Hb cb).
  destruct (run (compose a b) _ cs) as [[s' ins] os], (run a _ ca) as [[? ia] oa], (run b _ cb) as [[? ib] ob].
  destruct H as (_ & -> & -> & <-). etrans; [exact Hb|by apply Hg].
Qed.

(** Wires in front of a stage. *)
Definition wired {I J O} (f : J -> I) (m : hw I O) : hw J O :=
  Hw (st m) (ready m) (out m) (fun s x r => tick m s (option_map f x) r).

Lemma run_wired {I J O} (f : J -> I) (m : hw I O) cs : forall s,
  exists cs', let '(s', ins, os) := run (wired f m) s cs in run m s cs' = (s', map f ins, os).
Proof.
  induction cs as [|[x r] cs IH]; intros s; [by exists []|]. destruct (IH (tick m s (option_map f x) r)) as [cs' H].
  exists ((option_map f x, r) :: cs'). cbn [run fst snd tick wired].
  destruct (run (wired f m) (tick m s (option_map f x) r) cs) as [[s' ins] os]. rewrite H. rewrite map_app. f_equal. f_equal. f_equal.
  unfold taken. cbn. by destruct (ready m s r), x.
Qed.

Lemma wired_implements {I J O} (f : J -> I) (m : hw I O) s g :
  implements m s g -> implements (wired f m) s (fun l => g (map f l)).
Proof.
  intros H cs. destruct (run_wired f m cs s) as [cs' E]. specialize (H cs').
  destruct (run (wired f m) s cs) as [[s' ins] os]. by rewrite E in H.
Qed.

(** Only the delivered elements of a stage with [held] matter for the prefix. *)
Lemma held_implements {I O X} (m : hw I O) (inv : st m -> Prop) (held : st m -> list X) inj (outj : O -> list X) s f :
  (forall s i r, inv s -> inv (tick m s i r)) ->
  (forall s i r, inv s ->
     flat_map outj (given m s (i, r)) ++ held (tick m s i r) = held s ++ flat_map inj (taken m s (i, r))) ->
  inv s -> held s = [] ->
  (forall ins os l, flat_map outj os ++ l = flat_map inj ins -> os `prefix_of` f ins) ->
  implements m s f.
Proof.
  intros H1 H2 Hs Hh Hf cs. pose proof (held_run m inv held inj outj H1 H2 cs s Hs) as H.
  destruct (run m s cs) as [[s' ins] os]. destruct H as [_ E]. rewrite Hh in E. by eapply Hf.
Qed.

(** ** Stages with a memory

    A stage that computes a Mealy machine on the samples it accepts: [rel] keeps
    the machine's state and what is still to be delivered. *)
Section Mealy.
Context {I O A : Type} (m : hw I O) (astep : A -> I -> A) (aout : A -> I -> list O).

Fixpoint mealy (a : A) (xs : list I) : list O :=
  match xs with [] => [] | x :: xs => aout a x ++ mealy (astep a x) xs end.

Lemma mealy_app a xs ys : mealy a (xs ++ ys) = mealy a xs ++ mealy (foldl astep a xs) ys.
Proof. revert a. induction xs as [|x xs IH]; intros a; cbn; [done|]. by rewrite IH, app_assoc. Qed.

Lemma mealy_mono a xs ys : xs `prefix_of` ys -> mealy a xs `prefix_of` mealy a ys.
Proof. intros [k ->]. rewrite mealy_app. apply prefix_app_r. done. Qed.

Context (rel : st m -> A -> list O -> Prop).
Hypothesis rel_tick : forall s a p i r, rel s a p -> exists p',
  rel (tick m s i r) (foldl astep a (taken m s (i, r))) p' /\
  given m s (i, r) ++ p' = p ++ mealy a (taken m s (i, r)).

Lemma mealy_run cs : forall s a p, rel s a p ->
  let '(s', ins, os) := run m s cs in
  exists p', rel s' (foldl astep a ins) p' /\ os ++ p' = p ++ mealy a ins.
Proof.
  induction cs as [|[i r] cs IH]; intros s a p Hs; cbn [run].
  { exists p. cbn. by rewrite app_nil_r. }
  destruct (rel_tick s a p i r Hs) as (p1 & H1 & E1). specialize (IH _ _ _ H1). cbn [fst snd].
  destruct (run m (tick m s i r) cs) as [[s' ins] os]. destruct IH as (p' & H' & E').
  exists p'. rewrite foldl_app. split; [done|]. by rewrite mealy_app, app_assoc, <-E1, <-!app_assoc, E'.
Qed.

Lemma mealy_implements s a : rel s a [] -> implements m s (mealy a).
Proof.
  intros Hs cs. pose proof (mealy_run cs s a [] Hs) as H. destruct (run m s cs) as [[s' ins] os].
  destruct H as (p' & _ & E). by exists p'.
Qed.
End Mealy.

(** ** [iq_deinterleave] *)
Module Deint.

Record regs := Regs {
  phase : bool; i_hold : Z; i_held : bool; i_out : Z; q_out : Z; out_valid : bool }.

Definition reset : regs := Regs false 0 false 0 0 false.

Definition din_ready (s : regs) (out_ready : bool) : bool := negb (i_held s) || (phase s && out_ready).

Definition edge (s : regs) (din : option Z) (out_ready : bool) : regs :=
  let freed := out_valid s && out_ready in
  let s1 := Regs (phase s) (i_hold s) (if freed then false else i_held s) (i_out s) (q_out s)
                 (if freed then false else out_valid s) in
  match din with
  | Some d =>
      if din_ready s out_ready then
        if phase s then Regs false (i_hold s1) (i_held s1) (i_hold s) d true
        else Regs true d true (i_out s1) (q_out s1) (out_valid s1)
      else s1
  | None => s1
  end.

Definition iq_deinterleave : hw Z (Z * Z) :=
  Hw regs din_ready (fun s => if out_valid s then Some (i_out s, q_out s) else None) edge.

(** A full pair waits with [phase] low, a lone I sample with [phase] high. *)
Definition inv (s : regs) : Prop :=
  (phase s = true -> i_held s = true /\ out_valid s = false) /\
  (phase s = false -> i_held s = out_valid s).

Definition held (s : regs) : list Z :=
  if out_valid s then [i_out s; q_out s] else if phase s then [i_hold s] else [].

Fixpoint pairs (l : list Z) : list (Z * Z) :=
  match l with a :: b :: l => (a, b) :: pairs l | _ => [] end.

Lemma deint_correct : implements iq_deinterleave reset pairs.
Proof.
  apply (held_implements iq_deinterleave inv held (fun i => [i]) (fun p => [p.1; p.2])).
  - intros s i r [H1 H2]. cbn. unfold edge, din_ready.
    destruct s as [ph ih hd io q ov]; cbn in *. split; destruct i, r, ph, hd, ov; cbn; try done; naive_solver.
  - intros s i r [H1 H2]. unfold given, taken. cbn [iq_deinterleave ready out tick fst snd]. unfold edge, din_ready, held.
    destruct s as [ph ih hd io q ov]; cbn in *. destruct i, r, ph, hd, ov; cbn; try done; naive_solver.
  - done.
  - done.
  - intros ins os l. rewrite flat_map_single. intros <-.
    induction os as [|[a b] os IH]; [apply prefix_nil|]. cbn. by apply prefix_cons.
Qed.

End Deint.
(** ** [u8_to_f32] *)
Module Conv.

(** Stage 1: [({1'b0, din, 1'b0}) - 10'sd255], ten bits. *)
Definition p1_value (din : Z) : Z := wrap 10 (2 * din - 255).

(** Stage 2: [casez (p2_mag)], the leading one of a 9-bit magnitude. *)
Definition p2_fields (mag : Z) : Z * Z :=
  if bit 8 mag then (135, wrap 8 mag * 2 ^ 15)
  else if bit 7 mag then (134, wrap 7 mag * 2 ^ 16)
  else if bit 6 mag then (133, wrap 6 mag * 2 ^ 17)
  else if bit 5 mag then (132, wrap 5 mag * 2 ^ 18)
  else if bit 4 mag then (131, wrap 4 mag * 2 ^ 19)
  else if bit 3 mag then (130, wrap 3 mag * 2 ^ 20)
  else if bit 2 mag then (129, wrap 2 mag * 2 ^ 21)
  else if bit 1 mag then (128, wrap 1 mag * 2 ^ 22)
  else if bit 0 mag then (127, 0)
  else (0, 0).

Definition p2_value (v : Z) : Z :=
  if v =? 0 then 0
  else
    let sign := bit 9 v in
    let mag := if sign then wrap 9 (- wrap 9 v) else wrap 9 v in
    let '(e, mn) := p2_fields mag in
    (if sign then 2 ^ 31 else 0) + e * 2 ^ 23 + mn.

(** Stage 3: eight off the exponent. *)
Definition p3_value (f : Z) : Z :=
  if f =? 0 then 0
  else bits 31 31 f * 2 ^ 31 + wrap 8 (bits 30 23 f - 8) * 2 ^ 23 + bits 22 0 f.

Definition convert (u : Z) : Z := p3_value (p2_value (p1_value u)).

Record regs := Regs {
  p1_signed_val : Z; p1_valid : bool; p2_float : Z; p2_valid : bool; dout : Z; dout_valid : bool }.

Definition reset : regs := Regs 0 false 0 false 0 false.

Definition p2_ready (s : regs) (dout_ready : bool) : bool := negb (dout_valid s) || dout_ready.
Definition p1_ready (s : regs) (dout_ready : bool) : bool := negb (p2_valid s) || p2_ready s dout_ready.
Definition din_ready (s : regs) (dout_ready : bool) : bool := negb (p1_valid s) || p1_ready s dout_ready.

Definition edge (s : regs) (din : option Z) (dout_ready : bool) : regs :=
  let p1_go := p1_valid s && p1_ready s dout_ready in
  let p2_go := p2_valid s && p2_ready s dout_ready in
  let '(v1, ok1) :=
    match din with
    | Some d => if din_ready s dout_ready then (p1_value d, true)
                else (p1_signed_val s, if p1_go then false else p1_valid s)
    | None => (p1_signed_val s, if p1_go then false else p1_valid s)
    end in
  let '(v2, ok2) := if p1_go then (p2_value (p1_signed_val s), true)
                    else (p2_float s, if p2_go then false else p2_valid s) in
  let '(v3, ok3) := if p2_go then (p3_value (p2_float s), true)
                    else (dout s, if dout_valid s && dout_ready then false else dout_valid s) in
  Regs v1 ok1 v2 ok2 v3 ok3.

Definition u8_to_f32 : hw Z Z :=
  Hw regs din_ready (fun s => if dout_valid s then Some (dout s) else None) edge.

Definition held (s : regs) : list Z :=
  (if dout_valid s then [dout s] else []) ++ (if p2_valid s then [p3_value (p2_float s)] else [])
  ++ (if p1_valid s then [p3_value (p2_value (p1_signed_val s))] else []).

Lemma conv_held s i r :
  flat_map (fun o => [o]) (given u8_to_f32 s (i, r)) ++ held (edge s i r)
  = held s ++ flat_map (fun u => [convert u]) (taken u8_to_f32 s (i, r)).
Proof.
  unfold given, taken. cbn [u8_to_f32 ready out fst snd]. unfold edge, held, din_ready, p1_ready, p2_ready, convert.
  destruct s as [v1 [] v2 [] v3 []]; destruct i, r; reflexivity.
Qed.

Lemma conv_correct : implements u8_to_f32 reset (map convert).
Proof.
  apply (held_implements u8_to_f32 (fun _ => True) held (fun u => [convert u]) (fun o => [o])); try done.
  - intros s i r _. apply conv_held.
  - intros ins os l E. exists l. rewrite flat_map_single in E. rewrite E. clear.
    induction ins; cbn; congruence.
Qed.

(** The rational value of a finite float. *)
Definition value (x : spec_float) : option Q :=
  match x with
  | S754_zero _ => Some 0
  | S754_finite s m e =>
      let z := if s then Zneg m else Zpos m in
      Some (if 0 <=? e then inject_Z (z * 2 ^ e) else z # Z.to_pos (2 ^ (- e)))
  | _ => None
  end%Q.

Definition value_is (u : Z) : bool :=
  match value (f32_of_bits (convert u)) with Some q => Qeq_bool q ((2 * u - 255) # 256) | None => false end.

(** The conversion of a sample: the word is the IEEE single whose value is
    exactly [(2u - 255) / 256], that is the documented [(u - 127.5) / 127.5] scaled
    by 255/256, within 0.4 percent of it. *)
Theorem convert_exact u :
  0 <= u <= 255 ->
  exists q, value (f32_of_bits (convert u)) = Some q /\ (q == (2 * u - 255) # 256)%Q /\
    let ideal := ((2 * u - 255) # 255)%Q in (Qabs (q - ideal) <= (4 # 1000) * Qabs ideal)%Q.
Proof.
  intros Hu. assert (Forall (fun n => value_is (Z.of_nat n) = true) (seq 0 256)) as H.
  { apply (bool_decide_unpack _). vm_compute. exact I. }
  rewrite Forall_forall in H. specialize (H (Z.to_nat u)). rewrite Z2Nat.id in H by lia.
  assert (value_is u = true) as Hv by (apply H, in_seq; lia). unfold value_is in Hv.
  destruct (value _) as [q|]; [|done]. apply Qeq_bool_iff in Hv. exists q. split_and!; [done|done|].
  cbv zeta. rewrite Hv. clear. set (d := 2 * u - 255).
  setoid_replace ((d # 256) - (d # 255))%Q with ((d # 255) * (- 1 # 256))%Q using relation Qeq by (unfold Qeq; cbn; lia).
  rewrite Qabs_Qmult. change (Qabs (-1 # 256)) with (1 # 256).
  pose proof (Qabs_nonneg (d # 255)). nra.
Qed.

Lemma convert_exact_witness : exists q, value (f32_of_bits (convert 200)) = Some q /\ (q == 145 # 256)%Q.
Proof. destruct (convert_exact 200 ltac:(lia)) as (q & Hq & E & _). exists q. split; [exact Hq|exact E]. Defined.

End Conv.

(** ** The two converters of [top]

    I and Q go through one converter each; only the I side answers the
    deinterleaver, and the filter takes a pair when both are valid. *)
Module Dual.

Definition dual : hw (Z * Z) (Z * Z) := Hw (Conv.regs * Conv.regs)
  (fun s r => Conv.din_ready s.1 r)
  (fun s => if Conv.dout_valid s.1 && Conv.dout_valid s.2 then Some (Conv.dout s.1, Conv.dout s.2) else None)
  (fun s i r => (Conv.edge s.1 (fst <$> i) r, Conv.edge s.2 (snd <$> i) r)).

Definition convert2 (p : Z * Z) : Z * Z := (Conv.convert p.1, Conv.convert p.2).

(** The two run in step. *)
Definition inv (s : Conv.regs * Conv.regs) : Prop :=
  Conv.p1_valid s.1 = Conv.p1_valid s.2 /\ Conv.p2_valid s.1 = Conv.p2_valid s.2 /\
  Conv.dout_valid s.1 = Conv.dout_valid s.2.

Definition held (s : Conv.regs * Conv.regs) : list (Z * Z) := zip (Conv.held s.1) (Conv.held s.2).

Lemma dual_correct : implements dual (Conv.reset, Conv.reset) (map convert2).
Proof.
  apply (held_implements dual inv held (fun p => [convert2 p]) (fun o => [o])).
  - intros [s1 s2] i r. unfold inv. cbn [fst snd tick dual]. unfold Conv.edge, Conv.din_ready, Conv.p1_ready, Conv.p2_ready.
    destruct s1 as [? a1 ? b1 ? c1], s2 as [? a2 ? b2 ? c2]. cbn. intros (<- & <- & <-).
    destruct i, r, a1, b1, c1; cbn; done.
  - intros [s1 s2] i r. unfold inv, given, taken, held. cbn [fst snd tick dual ready out].
    unfold Conv.edge, Conv.held, Conv.din_ready, Conv.p1_ready, Conv.p2_ready, convert2, Conv.convert.
    destruct s1 as [? a1 ? b1 ? c1], s2 as [? a2 ? b2 ? c2]. cbn. intros (<- & <- & <-).
    destruct i as [[]|], r, a1, b1, c1; cbn; done.
  - done.
  - done.
  - intros ins os l E. exists l. rewrite flat_map_single in E. rewrite E. clear. induction ins; cbn; congruence.
Qed.

End Dual.

(** ** [output_reinterleave] *)
Module Reint.

Record regs := Regs {
  i_hold : Z; q_hold : Z; byte_cnt : Z; active : bool; dout : Z; dout_valid : bool }.

Definition reset : regs := Regs 0 0 0 false 0 false.

Definition in_ready (s : regs) (dout_ready : bool) : bool :=
  negb (active s) && (negb (dout_valid s) || dout_ready).

(** The byte sent for each count, most significant first, I before Q. *)
Definition select (i q cnt : Z) : Z :=
  match cnt with
  | 0 => bits 31 24 i | 1 => bits 23 16 i | 2 => bits 15 8 i | 3 => bits 7 0 i
  | 4 => bits 31 24 q | 5 => bits 23 16 q | 6 => bits 15 8 q | _ => bits 7 0 q
  end.

Definition edge (s : regs) (x : option (Z * Z)) (dout_ready : bool) : regs :=
  let valid1 := if dout_valid s && dout_ready then false else dout_valid s in
  if active s then
    if negb (dout_valid s) || dout_ready then
      Regs (i_hold s) (q_hold s) (wrap 3 (byte_cnt s + 1)) (negb (byte_cnt s =? 7))
           (select (i_hold s) (q_hold s) (byte_cnt s)) true
    else Regs (i_hold s) (q_hold s) (byte_cnt s) true (dout s) valid1
  else match x with
       | Some (i, q) =>
           if in_ready s dout_ready then Regs i q 0 true (dout s) valid1
           else Regs (i_hold s) (q_hold s) (byte_cnt s) false (dout s) valid1
       | None => Regs (i_hold s) (q_hold s) (byte_cnt s) false (dout s) valid1
       end.

Definition output_reinterleave : hw (Z * Z) Z :=
  Hw regs in_ready (fun s => if dout_valid s then Some (dout s) else None) edge.

Definition word_bytes (p : Z * Z) : list Z := map (fun c => select p.1 p.2 (Z.of_nat c)) (seq 0 8).

Definition inv (s : regs) : Prop := 0 <= byte_cnt s < 8.

Definition held (s : regs) : list Z :=
  (if dout_valid s then [dout s] else [])
  ++ (if active s then drop (Z.to_nat (byte_cnt s)) (word_bytes (i_hold s, q_hold s)) else []).

Lemma word_bytes_drop p c : 0 <= c < 8 ->
  drop (Z.to_nat c) (word_bytes p) = select p.1 p.2 c :: (if c =? 7 then [] else drop (Z.to_nat (wrap 3 (c + 1))) (word_bytes p)).
Proof.
  intros H. assert (exists n, Z.to_nat c = n /\ c = Z.of_nat n /\ (n < 8)%nat) as (n & -> & -> & Hn) by (exists (Z.to_nat c); lia).
  do 8 (destruct n as [|n]; [reflexivity|]). lia.
Qed.

Lemma reint_correct : implements output_reinterleave reset (flat_map word_bytes).
Proof.
  apply (held_implements output_reinterleave inv held word_bytes (fun o => [o])).
  - intros s i r Hs. unfold inv in *. cbn [output_reinterleave tick]. unfold edge, in_ready.
    destruct s as [ih qh bc [] d []], r, i as [[]|]; cbn in *; try lia; unfold wrap; apply Z.mod_pos_bound; lia.
  - intros s i r Hs. unfold inv, given, taken, held in *. cbn [output_reinterleave ready out tick fst snd]. unfold edge, in_ready.
    destruct s as [ih qh bc act d ov]; cbn [active dout_valid dout byte_cnt i_hold q_hold] in *.
    destruct act, ov, r; cbn [negb orb andb app flat_map active dout_valid dout byte_cnt i_hold q_hold];
      rewrite ?(word_bytes_drop (ih, qh) bc Hs); cbn [fst snd];
      destruct i as [[]|]; cbn [flat_map app]; try (destruct (bc =? 7)); cbn [negb]; rewrite ?app_nil_r; reflexivity.
  - done.
  - done.
  - intros ins os l. rewrite flat_map_single. intros <-. by exists l.
Qed.

End Reint.

(** ** [fifo_sync] *)
Module Fifo.
Import Ring.
Section Fifo.
(** [ADDR_W]; [DEPTH] is its power of two. *)
Variable w : nat.

Definition DEPTH : Z := 2 ^ Z.of_nat w.

Record regs := Regs { mem : list Z; wr_ptr : Z; rd_ptr : Z; rd_valid_pre : bool }.

(** The memory is not reset. *)
Definition reset (m : list Z) : regs := Regs m 0 0 false.

Definition count (s : regs) : Z := wrap (Z.of_nat w + 1) (wr_ptr s - rd_ptr s).
Definition full (s : regs) : bool := count s =? wrap (Z.of_nat w + 1) DEPTH.
Definition empty (s : regs) : bool := count s =? 0.
Definition addr (ptr : Z) : nat := Z.to_nat (wrap (Z.of_nat w) ptr).
Definition rd_data (s : regs) : Z := nth (addr (rd_ptr s)) (mem s) 0.

(** The read side moves on when the consumer takes a word, and also on its own
    when the word registered for block RAM is not valid. *)
Definition advances (s : regs) (rd_ready : bool) : bool :=
  negb (empty s) && (rd_ready || negb (rd_valid_pre s)).

Definition edge (s : regs) (wr : option Z) (rd_ready : bool) : regs :=
  let adv := advances s rd_ready in
  let rd' := if adv then wrap (Z.of_nat w + 1) (rd_ptr s + 1) else rd_ptr s in
  match wr with
  | Some d =>
      if negb (full s)
      then Regs (<[addr (wr_ptr s) := d]> (mem s)) (wrap (Z.of_nat w + 1) (wr_ptr s + 1)) rd' adv
      else Regs (mem s) (wr_ptr s) rd' adv
  | None => Regs (mem s) (wr_ptr s) rd' adv
  end.

Definition fifo_sync : hw Z Z :=
  Hw regs (fun s _ => negb (full s)) (fun s => if empty s then None else Some (rd_data s)) edge.

Definition N : nat := Z.to_nat DEPTH.

(** The queue the registers stand for. *)
Record rel (s : regs) (q : list Z) : Prop := {
  rel_mem : holds N (mem s) (addr (rd_ptr s)) q;
  rel_count : count s = Z.of_nat (length q);
  rel_room : (length q <= N)%nat;
  rel_wr : 0 <= wr_ptr s < 2 * DEPTH;
  rel_rd : 0 <= rd_ptr s < 2 * DEPTH }.

Lemma depth_pos : 0 < DEPTH /\ 2 ^ (Z.of_nat w + 1) = 2 * DEPTH.
Proof. unfold DEPTH. split; [apply Z.pow_pos_nonneg; lia|]. rewrite Z.pow_add_r by lia. lia. Qed.

Lemma rel_full s q : rel s q -> full s = bool_decide (length q = N).
Proof.
  intros H. destruct depth_pos as [Hd Hp]. unfold full, wrap. rewrite (rel_count _ _ H), Hp.
  rewrite (Z.mod_small DEPTH) by lia. unfold N. apply eq_bool_prop_intro. rewrite !Is_true_true, Z.eqb_eq, bool_decide_eq_true. lia.
Qed.

Lemma rel_empty s q : rel s q -> empty s = bool_decide (q = []).
Proof.
  intros H. unfold empty. rewrite (rel_count _ _ H). destruct q; [done|]. cbn [length].
  rewrite bool_decide_eq_false_2 by done. apply Z.eqb_neq. lia.
Qed.

(** [count] is the difference of the pointers modulo twice the depth. *)
Lemma rel_ptrs s q : rel s q -> wr_ptr s = (rd_ptr s + Z.of_nat (length q)) mod (2 * DEPTH).
Proof.
  intros H. destruct depth_pos as [Hd Hp]. pose proof (rel_count _ _ H) as Hc. unfold count, wrap in Hc. rewrite Hp in Hc.
  rewrite <-Hc, Zplus_mod_idemp_r. replace (rd_ptr s + (wr_ptr s - rd_ptr s)) with (wr_ptr s) by lia.
  symmetry. apply Z.mod_small. apply (rel_wr _ _ H).
Qed.

Lemma addr_mod z : 0 <= z -> addr (z mod (2 * DEPTH)) = (Z.to_nat z mod N)%nat.
Proof.
  intros Hz. destruct depth_pos as [Hd _]. unfold addr, wrap, N. fold DEPTH. rewrite <-Z2Nat.inj_mod by lia. f_equal.
  symmetry. apply Znumtheory.Zmod_div_mod; [done|lia|]. by exists 2.
Qed.

Lemma rel_push s q d :
  rel s q -> (length q < N)%nat ->
  rel (Regs (<[addr (wr_ptr s) := d]> (mem s)) (wrap (Z.of_nat w + 1) (wr_ptr s + 1)) (rd_ptr s) (rd_valid_pre s)) (q ++ [d]).
Proof.
  intros H Hq. destruct depth_pos as [Hd Hp]. pose proof (rel_ptrs _ _ H) as Hw. pose proof (rel_rd _ _ H) as Hr.
  assert (addr (rd_ptr s) < N)%nat as Ha.
  { unfold addr, wrap, N. fold DEPTH. pose proof (Z.mod_pos_bound (rd_ptr s) DEPTH Hd). lia. }
  assert (addr (wr_ptr s) = (addr (rd_ptr s) + length q) mod N)%nat as Hwa.
  { rewrite Hw, addr_mod by lia. rewrite Z2Nat.inj_add, Nat2Z.id by lia.
    rewrite <-(Z.mod_small (rd_ptr s) (2 * DEPTH)) at 2 by lia. rewrite addr_mod by lia. by rewrite Nat.Div0.add_mod_idemp_l. }
  assert (addr (wr_ptr s) < N)%nat as Hwb by (rewrite Hwa; apply Nat.mod_upper_bound; lia).
  constructor; cbn [mem wr_ptr rd_ptr].
  - rewrite (insert_take_drop _ _ d) by (rewrite (proj1 (rel_mem _ _ H)); done).
    replace (S (addr (wr_ptr s))) with (addr (wr_ptr s) + length [d])%nat by (cbn; lia).
    apply (holds_push N (mem s) (addr (rd_ptr s)) q [d]); [apply (rel_mem _ _ H)|done|done| |]; cbn; lia.
  - rewrite length_app. cbn. unfold count, wrap. cbn. rewrite Hp, Zminus_mod_idemp_l.
    rewrite Hw. rewrite <-(Zminus_mod_idemp_l _ (rd_ptr s)), Zplus_mod_idemp_l, Zminus_mod_idemp_l.
    replace (rd_ptr s + Z.of_nat (length q) + 1 - rd_ptr s) with (Z.of_nat (length q + 1)) by lia.
    apply Z.mod_small. unfold N in Hq. lia.
  - rewrite length_app. cbn. lia.
  - unfold wrap. rewrite Hp. apply Z.mod_pos_bound. lia.
  - done.
Qed.

Lemma rel_pop s d q v :
  rel s (d :: q) -> rd_data s = d /\ rel (Regs (mem s) (wr_ptr s) (wrap (Z.of_nat w + 1) (rd_ptr s + 1)) v) q.
Proof.
  intros H. destruct depth_pos as [Hd Hp]. pose proof (rel_ptrs _ _ H) as Hw. pose proof (rel_rd _ _ H) as Hr.
  pose proof (rel_room _ _ H) as Hn. cbn [length] in *.
  assert (addr (rd_ptr s) < N)%nat as Ha.
  { unfold addr, wrap, N. fold DEPTH. pose proof (Z.mod_pos_bound (rd_ptr s) DEPTH Hd). lia. }
  split.
  { unfold rd_data. apply nth_lookup_Some. destruct (rel_mem _ _ H) as [_ Hh]. specialize (Hh 0%nat ltac:(cbn; lia)).
    rewrite Nat.add_0_r, Nat.mod_small in Hh by done. done. }
  assert (addr (wrap (Z.of_nat w + 1) (rd_ptr s + 1)) = (addr (rd_ptr s) + 1) mod N)%nat as E.
  { unfold wrap. rewrite Hp, addr_mod, Z2Nat.inj_add by lia.
    rewrite <-(Z.mod_small (rd_ptr s) (2 * DEPTH)) at 2 by lia. rewrite addr_mod by lia. by rewrite Nat.Div0.add_mod_idemp_l. }
  constructor; cbn [mem wr_ptr rd_ptr].
  - rewrite E. apply (holds_drop N (mem s) _ (d :: q) 1); [apply (rel_mem _ _ H)|done|cbn; lia].
  - unfold count, wrap. cbn [wr_ptr rd_ptr]. rewrite Hp, Hw, Zminus_mod_idemp_l, Zminus_mod_idemp_r.
    replace (rd_ptr s + Z.of_nat (S (length q)) - (rd_ptr s + 1)) with (Z.of_nat (length q)) by lia.
    apply Z.mod_small. unfold N in Hn. lia.
  - lia.
  - apply (rel_wr _ _ H).
  - unfold wrap. rewrite Hp. apply Z.mod_pos_bound. lia.
Qed.

Lemma rel_valid s q v : rel s q -> rel (Regs (mem s) (wr_ptr s) (rd_ptr s) v) q.
Proof. intros []. by constructor. Qed.

(** One edge: what is written joins the queue, what the read side moves past
    leaves it. *)
Lemma rel_edge s q wr r :
  rel s q ->
  rel (edge s wr r) (drop (if advances s r then 1 else 0) q ++ taken fifo_sync s (wr, r)).
Proof.
  intros H. unfold taken. cbn [fst snd ready fifo_sync].
  assert (forall rd' v q', rel (Regs (mem s) (wr_ptr s) rd' v) q' -> (length q' <= length q)%nat ->
    rel match wr with
        | Some d => if negb (full s)
            then Regs (<[addr (wr_ptr s) := d]> (mem s)) (wrap (Z.of_nat w + 1) (wr_ptr s + 1)) rd' v
            else Regs (mem s) (wr_ptr s) rd' v
        | None => Regs (mem s) (wr_ptr s) rd' v
        end (q' ++ if negb (full s) then match wr with Some d => [d] | None => [] end else [])) as Hgo.
  { intros rd' v q' H' Hl. rewrite (rel_full _ _ H). pose proof (rel_room _ _ H).
    case_bool_decide; cbn [negb]; destruct wr; rewrite ?app_nil_r; try done.
    apply (rel_push _ _ _ H'). lia. }
  unfold edge. destruct (advances s r) eqn:Ha.
  - unfold advances in Ha. rewrite (rel_empty _ _ H) in Ha. destruct q as [|d q]; [done|].
    apply Hgo; [by eapply rel_pop|rewrite length_drop; lia].
  - apply Hgo; [by apply rel_valid|done].
Qed.

Lemma rel_reset m : length m = N -> rel (reset m) [].
Proof.
  intros Hm. destruct depth_pos as [Hd Hp]. constructor; cbn.
  - split; [done|]. intros i Hi. cbn in Hi. lia.
  - unfold count, wrap. cbn. by apply Z.mod_0_l; rewrite Hp; lia.
  - lia.
  - lia.
  - lia.
Qed.

(** What is delivered is a part of what the read side moved past, and all of it
    when the consumer was always ready. *)
Lemma rel_given s q wr r :
  rel s q ->
  given fifo_sync s (wr, r) `sublist_of` take (if advances s r then 1 else 0) q /\
  (r = true -> given fifo_sync s (wr, r) = take (if advances s r then 1 else 0) q).
Proof.
  intros H. unfold given, advances. cbn [fst snd out fifo_sync]. rewrite (rel_empty _ _ H).
  destruct r; [|split; [apply sublist_nil_l|done]].
  destruct q as [|d q]; [done|]. rewrite bool_decide_eq_false_2 by done. cbn. rewrite (proj1 (rel_pop _ _ _ false H)).
  by rewrite take_0.
Qed.

Lemma fifo_run cs : forall s q, rel s q ->
  let '(s', ins, os) := run fifo_sync s cs in
  exists popped q', q ++ ins = popped ++ q' /\ rel s' q' /\ os `sublist_of` popped /\
    (Forall (fun c => c.2 = true) cs -> os = popped).
Proof.
  induction cs as [|[i r] cs IH]; intros s q Hs; cbn [run].
  { exists [], q. by rewrite app_nil_r. }
  specialize (IH _ _ (rel_edge s q i r Hs)). cbn [fst snd tick fifo_sync].
  change (tick fifo_sync s i r) with (edge s i r).
  destruct (run fifo_sync (edge s i r) cs) as [[s' ins] os]. destruct IH as (popped & q' & E & Hr & Hsub & Hall).
  destruct (rel_given s q i r Hs) as [Hg Hg'].
  exists (take (if advances s r then 1 else 0) q ++ popped), q'. split_and!.
  - rewrite <-!app_assoc, <-E. rewrite <-!app_assoc, !(app_assoc (take _ q)), take_drop. done.
  - done.
  - by apply sublist_app.
  - intros Hc. apply list.Forall_cons in Hc as [Hr' Hc]. rewrite Hall, Hg' by done. done.
Qed.

End Fifo.

(** A FIFO whose depth is a power of two keeps at most [DEPTH] words and
    its read pointer moves past the words in the order they were accepted: what
    was moved past followed by what is stored is exactly what was accepted.
    The consumer gets a part of it in order, and all of it when it is never
    busy. *)
Theorem fifo_order (w : nat) (m : list Z) (cs : list (option Z * bool)) :
  length m = N w ->
  let '(s, ins, os) := run (fifo_sync w) (reset m) cs in
  exists popped q, ins = popped ++ q /\ Z.of_nat (length q) = count w s /\ (length q <= N w)%nat /\
    os `sublist_of` popped /\ (Forall (fun c => c.2 = true) cs -> os = popped).
Proof.
  intros Hm. pose proof (fifo_run w cs _ _ (rel_reset w m Hm)) as H.
  destruct (run (fifo_sync w) (reset m) cs) as [[s ins] os]. destruct H as (popped & q & E & Hr & Hs & Ha).
  exists popped, q. split_and!; try done; [symmetry; apply Hr|apply Hr].
Qed.

Lemma fifo_order_witness :
  let '(s, ins, os) := run (fifo_sync 2) (reset [0; 0; 0; 0]) [(Some 1, true); (Some 2, true); (Some 3, true); (None, true)] in
  exists popped q, ins = popped ++ q /\ Z.of_nat (length q) = count 2 s /\ (length q <= N 2)%nat /\
    os `sublist_of` popped /\
    (Forall (fun c => c.2 = true) [(Some 1, true); (Some 2, true); (Some 3, true); (None, true)] -> os = popped).
Proof. apply (fifo_order 2 [0; 0; 0; 0] [(Some 1, true); (Some 2, true); (Some 3, true); (None, true)]). reflexivity. Defined.

(** A consumer that is busy while a word is offered loses it: three words go
    in, the consumer is busy for the first three cycles, and word 1 never comes
    out. *)
Lemma busy_consumer_loses_words :
  let '(s, ins, os) := run (fifo_sync 2) (reset [0; 0; 0; 0])
    [(Some 1, false); (Some 2, false); (Some 3, false); (None, true); (None, true); (None, true)] in
  ins = [1; 2; 3] /\ os = [2; 3] /\ count 2 s = 0.
Proof. vm_compute. done. Qed.

End Fifo.

End Gw.
