(* ===== verification/GwFir.v ===== *)
(** * The decimating filter of the gateware ([fir_mac.v], [fir_decimate.v])

    A stage of the data path with a state machine: a sample enters a circular
    delay line, every [cfg_decim_ratio]-th sample starts a sum over the taps
    that two pipelined multiply-accumulate units compute, and the top bits of
    the sums leave as one output.  The filter is proved equal to a function on
    lists, for every pattern of valids and readys; the accumulators are proved
    never to overflow. *)
From S2P Require Import Prelude Ring GwStream.
Open Scope Z_scope.

Module Fir.
Import Ring Gw.

(** Two's complement at a width. *)
Definition signed (w z : Z) : Z := (z + 2 ^ (w - 1)) mod 2 ^ w - 2 ^ (w - 1).
Definition in_signed (w z : Z) : Prop := - 2 ^ (w - 1) <= z < 2 ^ (w - 1).

Lemma signed_id w z : 0 < w -> in_signed w z -> signed w z = z.
Proof.
  intros Hw [H1 H2]. unfold signed. assert (2 ^ w = 2 * 2 ^ (w - 1)) as E.
  { rewrite <-Z.pow_succ_r by lia. f_equal. lia. }
  rewrite Z.mod_small; lia.
Qed.

(** ** [fir_mac] *)
Definition DATA_W : Z := 18.
Definition COEFF_W : Z := 18.
Definition ACC_W : Z := 48.

Record mac := Mac {
  data_r : Z; coeff_r : Z; en_r1 : bool; clear_r1 : bool;      (* stage 1 *)
  product : Z; en_r2 : bool; clear_r2 : bool;                  (* stage 2 *)
  accumulator : Z; valid_r3 : bool }.                          (* stage 3 *)

Definition mac_reset : mac := Mac 0 0 false false 0 false false 0 false.

Definition mac_edge (m : mac) (clear en : bool) (data_in coeff_in : Z) : mac :=
  Mac data_in coeff_in en clear
      (signed (DATA_W + COEFF_W) (data_r m * coeff_r m)) (en_r1 m) (clear_r1 m)
      (if clear_r2 m then product m
       else if en_r2 m then signed ACC_W (accumulator m + product m) else accumulator m)
      (en_r2 m).

(** ** [fir_decimate] *)
Inductive fsm := FSM_IDLE | FSM_COMPUTE | FSM_OUTPUT | FSM_SKIP.

Record regs := Regs {
  state_i : list Z; state_q : list Z; state_wr_ptr : Z;
  decim_cnt : Z;
  fsm_state : fsm; tap_idx : Z; state_rd_ptr : Z;
  mac_clear : bool; mac_en : bool;
  mac_i_data : Z; mac_i_coeff : Z; mac_q_data : Z; mac_q_coeff : Z;
  mac_i : mac; mac_q : mac;
  i_out : Z; q_out : Z; out_valid : bool;
  mac_pipeline_cnt : Z; compute_done : bool }.

(** The delay line is not reset. *)
Definition fir_reset (mi mq : list Z) : regs :=
  Regs mi mq 0 0 FSM_IDLE 0 0 false false 0 0 0 0 mac_reset mac_reset 0 0 false 0 false.

Section Filter.
(** The configuration inputs and the coefficient memory. *)
Variables (cfg_tap_count cfg_decim_ratio : Z) (coeff_mem : list Z).

Definition TAP_ADDR_W : Z := 7.
Definition at_ (m : list Z) (a : Z) : Z := nth (Z.to_nat a) m 0.

Definition in_ready (s : regs) (out_ready : bool) : bool :=
  match fsm_state s with FSM_IDLE => negb (out_valid s) || out_ready | _ => false end.

(** [cfg_tap_count - 1'b1] at the width of the tap addresses. *)
Definition last_tap : Z := wrap TAP_ADDR_W (cfg_tap_count - 1).
Definition next_wr_ptr (p : Z) : Z := if p =? last_tap then 0 else wrap TAP_ADDR_W (p + 1).
Definition next_decim (c : Z) : Z := if wrap 4 (cfg_decim_ratio - 1) <=? c then 0 else wrap 4 (c + 1).
Definition next_rd_ptr (p : Z) : Z := if p =? 0 then last_tap else wrap TAP_ADDR_W (p - 1).

(** The multiply-accumulate units advance on every edge, with the control
    registers of before the edge. *)
Definition edge (s : regs) (x : option (Z * Z)) (out_ready : bool) : regs :=
  let mi := mac_edge (mac_i s) (mac_clear s) (mac_en s) (mac_i_data s) (mac_i_coeff s) in
  let mq := mac_edge (mac_q s) (mac_clear s) (mac_en s) (mac_q_data s) (mac_q_coeff s) in
  let ov := if out_valid s && out_ready then false else out_valid s in
  match fsm_state s with
  | FSM_IDLE =>
      match x with
      | Some (i_in, q_in) =>
          if in_ready s out_ready then
            let si := <[Z.to_nat (state_wr_ptr s) := i_in]> (state_i s) in
            let sq := <[Z.to_nat (state_wr_ptr s) := q_in]> (state_q s) in
            if decim_cnt s =? 0
            then Regs si sq (next_wr_ptr (state_wr_ptr s)) (next_decim (decim_cnt s)) FSM_COMPUTE 0 (state_wr_ptr s)
                      true true i_in (at_ coeff_mem 0) q_in (at_ coeff_mem 0) mi mq (i_out s) (q_out s) ov 0 false
            else Regs si sq (next_wr_ptr (state_wr_ptr s)) (next_decim (decim_cnt s)) FSM_SKIP (tap_idx s) (state_rd_ptr s)
                      false false (mac_i_data s) (mac_i_coeff s) (mac_q_data s) (mac_q_coeff s) mi mq
                      (i_out s) (q_out s) ov (mac_pipeline_cnt s) (compute_done s)
          else Regs (state_i s) (state_q s) (state_wr_ptr s) (decim_cnt s) FSM_IDLE (tap_idx s) (state_rd_ptr s)
                    false false (mac_i_data s) (mac_i_coeff s) (mac_q_data s) (mac_q_coeff s) mi mq
                    (i_out s) (q_out s) ov (mac_pipeline_cnt s) (compute_done s)
      | None => Regs (state_i s) (state_q s) (state_wr_ptr s) (decim_cnt s) FSM_IDLE (tap_idx s) (state_rd_ptr s)
                     false false (mac_i_data s) (mac_i_coeff s) (mac_q_data s) (mac_q_coeff s) mi mq
                     (i_out s) (q_out s) ov (mac_pipeline_cnt s) (compute_done s)
      end
  | FSM_COMPUTE =>
      if negb (compute_done s) then
        let k := wrap TAP_ADDR_W (tap_idx s + 1) in
        if cfg_tap_count <=? k
        then Regs (state_i s) (state_q s) (state_wr_ptr s) (decim_cnt s) FSM_COMPUTE k (next_rd_ptr (state_rd_ptr s))
                  false false (mac_i_data s) (mac_i_coeff s) (mac_q_data s) (mac_q_coeff s) mi mq
                  (i_out s) (q_out s) ov 1 true
        else Regs (state_i s) (state_q s) (state_wr_ptr s) (decim_cnt s) FSM_COMPUTE k (next_rd_ptr (state_rd_ptr s))
                  false true (at_ (state_i s) (state_rd_ptr s)) (at_ coeff_mem k)
                  (at_ (state_q s) (state_rd_ptr s)) (at_ coeff_mem k) mi mq
                  (i_out s) (q_out s) ov (mac_pipeline_cnt s) false
      else Regs (state_i s) (state_q s) (state_wr_ptr s) (decim_cnt s)
                (if 4 <=? mac_pipeline_cnt s then FSM_OUTPUT else FSM_COMPUTE) (tap_idx s) (state_rd_ptr s)
                false false (mac_i_data s) (mac_i_coeff s) (mac_q_data s) (mac_q_coeff s) mi mq
                (i_out s) (q_out s) ov (wrap 3 (mac_pipeline_cnt s + 1)) (compute_done s)
  | FSM_OUTPUT =>
      Regs (state_i s) (state_q s) (state_wr_ptr s) (decim_cnt s) FSM_IDLE (tap_idx s) (state_rd_ptr s)
           false false (mac_i_data s) (mac_i_coeff s) (mac_q_data s) (mac_q_coeff s) mi mq
           (accumulator (mac_i s) / 2 ^ (ACC_W - DATA_W)) (accumulator (mac_q s) / 2 ^ (ACC_W - DATA_W)) true
           (mac_pipeline_cnt s) (compute_done s)
  | FSM_SKIP =>
      Regs (state_i s) (state_q s) (state_wr_ptr s) (decim_cnt s) FSM_IDLE (tap_idx s) (state_rd_ptr s)
           false false (mac_i_data s) (mac_i_coeff s) (mac_q_data s) (mac_q_coeff s) mi mq
           (i_out s) (q_out s) ov (mac_pipeline_cnt s) (compute_done s)
  end.

(** The data ports are [DATA_W] bits wide. *)
Definition port (x : Z * Z) : Z * Z := (signed DATA_W x.1, signed DATA_W x.2).

Definition fir_decimate : hw (Z * Z) (Z * Z) :=
  Hw regs in_ready (fun s => if out_valid s then Some (i_out s, q_out s) else None)
     (fun s x r => edge s (option_map port x) r).

(** ** The filter as a function on lists *)
Definition taps : nat := Z.to_nat cfg_tap_count.

(** The terms of the sum: the first coefficient with the newest sample [x], the
    following ones with the delay line, which starts with [x] as well. *)
Definition terms (line : list Z) : list Z :=
  zip_with Z.mul (take taps coeff_mem) (nth 0 line 0 :: line).
Definition sum (l : list Z) : Z := foldr Z.add 0 l.
Definition filter (line : list Z) : Z := sum (terms line) / 2 ^ (ACC_W - DATA_W).

(** The delay line, newest sample first, and the decimation counter. *)
Definition mstate : Type := list (Z * Z) * Z.
Definition astep (a : mstate) (x : Z * Z) : mstate := (take taps (port x :: a.1), next_decim a.2).
Definition aout (a : mstate) (x : Z * Z) : list (Z * Z) :=
  let h := take taps (port x :: a.1) in
  if a.2 =? 0 then [(filter h.*1, filter h.*2)] else [].

(** ** Sums *)
Lemma lookup_nth (l : list Z) k : (k < length l)%nat -> l !! k = Some (nth k l 0).
Proof. intros H. destruct (lookup_lt_is_Some_2 l k H) as [z Hz]. by rewrite (nth_lookup_Some _ _ _ _ Hz). Qed.

Lemma Forall_nth_lt (P : Z -> Prop) l k : Forall P l -> (k < length l)%nat -> P (nth k l 0).
Proof. intros H Hk. eapply Forall_lookup; [exact H|]. by apply lookup_nth. Qed.

Lemma fir_sum_app l k : sum (l ++ k) = sum l + sum k.
Proof. unfold sum. induction l as [|x l IH]; cbn; [done|]. rewrite IH. lia. Qed.

Lemma sum_bound B l : Forall (fun z => Z.abs z <= B) l -> Z.abs (sum l) <= Z.of_nat (length l) * B.
Proof. unfold sum. induction 1; cbn [foldr length]; lia. Qed.

(** ** The delay line in its circular buffer *)
Definition line (mem : list Z) (wr : nat) : list Z :=
  map (fun j => nth ((wr + taps - 1 - j) mod taps)%nat mem 0) (seq 0 taps).

Lemma nth_line mem wr j : (j < taps)%nat -> nth j (line mem wr) 0 = nth ((wr + taps - 1 - j) mod taps)%nat mem 0.
Proof.
  intros Hj. unfold line. apply nth_lookup_Some. rewrite list_lookup_fmap, lookup_seq_lt by done. done.
Qed.

Lemma length_line mem wr : length (line mem wr) = taps.
Proof. unfold line. by rewrite length_map, length_seq. Qed.

Lemma line_push mem wr x :
  (wr < taps)%nat -> (taps <= length mem)%nat ->
  line (<[wr := x]> mem) ((wr + 1) mod taps) = take taps (x :: line mem wr).
Proof.
  intros Hwr Hm.
  assert ((wr + 1) mod taps = if decide (wr + 1 = taps) then 0 else wr + 1)%nat as -> by (case_decide; ring_wrap).
  apply (nth_ext _ _ 0 0).
  { rewrite length_take, length_line. cbn [length]. rewrite length_line. lia. }
  rewrite length_line. intros j Hj. rewrite nth_line by done.
  assert (nth j (take taps (x :: line mem wr)) 0 = nth j (x :: line mem wr) 0) as ->.
  { rewrite !nth_lookup, lookup_take_lt by done. done. }
  destruct j as [|j]; cbn [nth].
  - apply nth_lookup_Some.
    assert (((if decide (wr + 1 = taps) then 0 else wr + 1) + taps - 1 - 0) mod taps = wr)%nat as ->
      by (case_decide; ring_wrap).
    apply list_lookup_insert_eq. lia.
  - rewrite nth_line by lia. rewrite !nth_lookup, list_lookup_insert_ne.
    + do 2 f_equal. case_decide; ring_wrap.
    + case_decide; ring_wrap.
Qed.

(** ** The pipeline

    [flush] is the accumulator once the stages that follow have drained; an
    edge absorbs one more operation into it. *)
Definition op : Type := bool * bool * Z.
Definition absorb (acc : Z) (o : op) : Z :=
  let '(clear, en, p) := o in if clear then p else if en then signed ACC_W (acc + p) else acc.
Definition mul (d c : Z) : Z := signed (DATA_W + COEFF_W) (d * c).
Definition flush (m : mac) (o : op) : Z :=
  absorb (absorb (absorb (accumulator m) (clear_r2 m, en_r2 m, product m))
                 (clear_r1 m, en_r1 m, mul (data_r m) (coeff_r m))) o.

Lemma flush_edge m cl en d c o : flush (mac_edge m cl en d c) o = absorb (flush m (cl, en, mul d c)) o.
Proof. reflexivity. Qed.

(** ** The simulation *)
Definition sums (s : regs) : Z * Z :=
  (flush (mac_i s) (mac_clear s, mac_en s, mul (mac_i_data s) (mac_i_coeff s)),
   flush (mac_q s) (mac_clear s, mac_en s, mul (mac_q_data s) (mac_q_coeff s))).

Definition total (n : nat) (h : list (Z * Z)) : Z * Z := (sum (take n (terms h.*1)), sum (take n (terms h.*2))).

Record base (s : regs) (h : list (Z * Z)) (c : Z) : Prop := {
  b_wr : 0 <= state_wr_ptr s < cfg_tap_count;
  b_i : (taps <= length (state_i s))%nat;
  b_q : (taps <= length (state_q s))%nat;
  b_li : line (state_i s) (Z.to_nat (state_wr_ptr s)) = h.*1;
  b_lq : line (state_q s) (Z.to_nat (state_wr_ptr s)) = h.*2;
  b_rng : Forall (fun x => in_signed DATA_W x.1 /\ in_signed DATA_W x.2) h;
  b_cnt : decim_cnt s = c }.

Definition quiet1 (m : mac) : Prop := en_r1 m = false /\ clear_r1 m = false.
Definition quiet2 (m : mac) : Prop := en_r2 m = false /\ clear_r2 m = false.

(** A sum that is being issued: its first [k + 1] terms are in the pipeline or
    in the accumulators. *)
Definition issuing (s : regs) (h : list (Z * Z)) : Prop :=
  exists k : nat, (k < taps)%nat /\ tap_idx s = Z.of_nat k /\
    state_rd_ptr s = Z.of_nat ((Z.to_nat (state_wr_ptr s) + taps - 1 - k) mod taps) /\
    sums s = total (S k) h.

(** A sum that is draining. *)
Definition draining (s : regs) (h : list (Z * Z)) : Prop :=
  sums s = total taps h /\ mac_clear s = false /\ mac_en s = false /\ 1 <= mac_pipeline_cnt s <= 4 /\
  (2 <= mac_pipeline_cnt s -> quiet1 (mac_i s) /\ quiet1 (mac_q s)) /\
  (3 <= mac_pipeline_cnt s -> quiet2 (mac_i s) /\ quiet2 (mac_q s)).

Definition phase_ok (s : regs) (h : list (Z * Z)) : Prop :=
  match fsm_state s with
  | FSM_IDLE | FSM_SKIP => True
  | FSM_COMPUTE => out_valid s = false /\ if compute_done s then draining s h else issuing s h
  | FSM_OUTPUT => out_valid s = false /\ (accumulator (mac_i s), accumulator (mac_q s)) = total taps h
  end.

Definition owed (s : regs) (h : list (Z * Z)) : list (Z * Z) :=
  match fsm_state s with
  | FSM_IDLE | FSM_SKIP => if out_valid s then [(i_out s, q_out s)] else []
  | _ => [(filter h.*1, filter h.*2)]
  end.

Definition rel (s : regs) (a : mstate) (p : list (Z * Z)) : Prop :=
  base s a.1 a.2 /\ phase_ok s a.1 /\ p = owed s a.1.

Hypothesis Htaps : 1 <= cfg_tap_count < 2 ^ TAP_ADDR_W.
Hypothesis Hlen : (taps <= length coeff_mem)%nat.
Hypothesis Hcoeff : Forall (in_signed COEFF_W) coeff_mem.

Lemma taps_pos : cfg_tap_count = Z.of_nat taps /\ (1 <= taps < 128)%nat /\ last_tap = Z.of_nat taps - 1.
Proof.
  unfold taps, last_tap, wrap, TAP_ADDR_W in *. change (2 ^ 7) with 128 in *. rewrite Z.mod_small by lia. lia.
Qed.

Lemma length_terms l : length l = taps -> length (terms l) = taps.
Proof. intros H. unfold terms. rewrite length_zip_with, length_take. cbn [length]. lia. Qed.

Lemma base_length s h c : base s h c -> length h.*1 = taps /\ length h.*2 = taps.
Proof. intros H. by rewrite <-(b_li _ _ _ H), <-(b_lq _ _ _ H), !length_line. Qed.

Lemma mul_bound d c : in_signed DATA_W d -> in_signed COEFF_W c -> mul d c = d * c /\ Z.abs (d * c) <= 2 ^ 34.
Proof.
  unfold mul, in_signed, DATA_W, COEFF_W. cbn -[Z.mul Z.abs]. intros Hd Hc.
  assert (Z.abs (d * c) <= 2 ^ 34) as B by (rewrite Z.abs_mul; nia). split; [|done].
  apply signed_id; unfold in_signed; cbn -[Z.mul]; lia.
Qed.

Lemma terms_bound l : Forall (in_signed DATA_W) l -> Forall (fun z => Z.abs z <= 2 ^ 34) (terms l).
Proof.
  intros Hl. apply Forall_lookup. intros i z. unfold terms. rewrite lookup_zip_with_Some.
  intros (c & d & -> & Hc & Hd). rewrite Z.mul_comm. apply mul_bound.
  - destruct i as [|i]; cbn in Hd; [|by eapply Forall_lookup in Hd]. injection Hd as <-.
    destruct l as [|x l]; [by split; vm_compute|]. by apply list.Forall_cons in Hl as [? _].
  - apply lookup_take_Some in Hc as [Hc _]. by eapply Forall_lookup in Hc.
Qed.

(** The accumulators have room: no sum of at most [2 ^ TAP_ADDR_W] terms
    overflows. *)
Lemma partial_bound n l : Forall (in_signed DATA_W) l -> length l = taps -> in_signed ACC_W (sum (take n (terms l))).
Proof.
  intros Hl Hn. pose proof taps_pos as (_ & Ht & _).
  assert (Z.abs (sum (take n (terms l))) <= Z.of_nat (length (take n (terms l))) * 2 ^ 34) as B.
  { apply sum_bound. apply Forall_take. by apply terms_bound. }
  rewrite length_take, length_terms in B by done. unfold in_signed, ACC_W. cbn -[Z.mul Z.abs sum terms take]. lia.
Qed.

Lemma take_terms_S k l :
  (S k < taps)%nat -> length l = taps ->
  sum (take (S (S k)) (terms l)) = sum (take (S k) (terms l)) + nth (S k) coeff_mem 0 * nth k l 0.
Proof.
  intros Hk Hl. pose proof (length_terms l Hl) as Ht.
  assert (terms l !! S k = Some (nth (S k) coeff_mem 0 * nth k l 0)) as E.
  { unfold terms. apply lookup_zip_with_Some. exists (nth (S k) coeff_mem 0), (nth k l 0). split_and!; [done| |].
    - rewrite lookup_take_lt by lia. apply lookup_nth. lia.
    - cbn. apply lookup_nth. lia. }
  rewrite (take_S_r _ _ _ E), fir_sum_app. cbn. lia.
Qed.

(** Issuing one more term. *)
Lemma issue_lane m o k l d :
  flush m o = sum (take (S k) (terms l)) -> (S k < taps)%nat -> length l = taps -> Forall (in_signed DATA_W) l ->
  d = nth k l 0 ->
  absorb (flush m o) (false, true, mul d (nth (S k) coeff_mem 0)) = sum (take (S (S k)) (terms l)).
Proof.
  intros E Hk Hl Hr ->. cbn [absorb]. rewrite E.
  assert (in_signed DATA_W (nth k l 0)) as Hd by (apply Forall_nth_lt; [done|lia]).
  assert (in_signed COEFF_W (nth (S k) coeff_mem 0)) as Hc by (apply Forall_nth_lt; [done|lia]).
  destruct (mul_bound _ _ Hd Hc) as [-> _]. rewrite (Z.mul_comm (nth k l 0)), <-take_terms_S by done.
  apply signed_id; [done|]. by apply partial_bound.
Qed.

Lemma next_wr_ptr_spec p : 0 <= p < cfg_tap_count -> next_wr_ptr p = Z.of_nat ((Z.to_nat p + 1) mod taps).
Proof.
  intros Hp. destruct taps_pos as (E & Ht & El). unfold next_wr_ptr. rewrite El. unfold wrap, TAP_ADDR_W. change (2 ^ 7) with 128.
  destruct (Z.eqb_spec p (Z.of_nat taps - 1)) as [->|Hn].
  - replace (Z.to_nat (Z.of_nat taps - 1) + 1)%nat with taps by lia. by rewrite Nat.Div0.mod_same.
  - rewrite Z.mod_small, Nat.mod_small by lia. lia.
Qed.

Lemma next_rd_ptr_spec wr k :
  (wr < taps)%nat -> (S k < taps)%nat ->
  next_rd_ptr (Z.of_nat ((wr + taps - 1 - k) mod taps)) = Z.of_nat ((wr + taps - 1 - S k) mod taps).
Proof.
  intros Hw Hk. destruct taps_pos as (E & Ht & El). unfold next_rd_ptr. rewrite El. unfold wrap, TAP_ADDR_W. change (2 ^ 7) with 128.
  destruct (Z.eqb_spec (Z.of_nat ((wr + taps - 1 - k) mod taps)) 0) as [Hz|Hz]; revert Hz;
    rewrite !mod_wrap by lia; repeat case_bool_decide; rewrite ?Z.mod_small by lia; lia.
Qed.

Lemma signed_range w z : 0 < w -> in_signed w (signed w z).
Proof.
  intros Hw. unfold in_signed, signed. assert (2 ^ w = 2 * 2 ^ (w - 1)) as E.
  { rewrite <-Z.pow_succ_r by lia. f_equal. lia. }
  pose proof (Z.mod_pos_bound (z + 2 ^ (w - 1)) (2 ^ w)). assert (0 < 2 ^ (w - 1)) by (apply Z.pow_pos_nonneg; lia). lia.
Qed.

(** A sample enters the delay line. *)
Lemma base_push s h c x s' :
  base s h c ->
  state_i s' = <[Z.to_nat (state_wr_ptr s) := (port x).1]> (state_i s) ->
  state_q s' = <[Z.to_nat (state_wr_ptr s) := (port x).2]> (state_q s) ->
  state_wr_ptr s' = next_wr_ptr (state_wr_ptr s) -> decim_cnt s' = next_decim (decim_cnt s) ->
  base s' (take taps (port x :: h)) (next_decim c).
Proof.
  intros H Ei Eq Ew Ed. destruct taps_pos as (E & Ht & El). pose proof (b_wr _ _ _ H) as Hw.
  assert (Z.to_nat (state_wr_ptr s') = ((Z.to_nat (state_wr_ptr s) + 1) mod taps)%nat) as Ew'.
  { rewrite Ew, next_wr_ptr_spec by done. lia. }
  constructor.
  - rewrite Ew, next_wr_ptr_spec by done. pose proof (Nat.mod_upper_bound (Z.to_nat (state_wr_ptr s) + 1) taps). lia.
  - rewrite Ei, length_insert. apply H.
  - rewrite Eq, length_insert. apply H.
  - rewrite Ei, Ew', line_push, fmap_take by (try lia; apply H). cbn. by rewrite (b_li _ _ _ H).
  - rewrite Eq, Ew', line_push, fmap_take by (try lia; apply H). cbn. by rewrite (b_lq _ _ _ H).
  - apply Forall_take, list.Forall_cons. split; [|apply H]. by split; apply signed_range.
  - by rewrite Ed, (b_cnt _ _ _ H).
Qed.

Lemma base_keep s h c s' :
  base s h c -> state_i s' = state_i s -> state_q s' = state_q s -> state_wr_ptr s' = state_wr_ptr s ->
  decim_cnt s' = decim_cnt s -> base s' h c.
Proof. intros [] E1 E2 E3 E4. constructor; rewrite ?E1, ?E2, ?E3, ?E4; done. Qed.

Lemma first_term l : (1 <= length l)%nat -> in_signed DATA_W (nth 0 l 0) ->
  mul (nth 0 l 0) (at_ coeff_mem 0) = sum (take 1 (terms l)).
Proof.
  intros Hl Hd. destruct taps_pos as (_ & Ht & _). assert (in_signed COEFF_W (nth 0 coeff_mem 0)) as Hc by (apply Forall_nth_lt; [done|lia]).
  unfold at_. change (Z.to_nat 0) with 0%nat. destruct (mul_bound _ _ Hd Hc) as [-> _]. unfold terms. destruct coeff_mem as [|c0 cm]; [cbn in *; lia|].
  destruct taps; [lia|]. cbn. rewrite take_0. cbn. lia.
Qed.

Lemma rel_accept s a x r :
  rel s a (owed s a.1) -> fsm_state s = FSM_IDLE -> in_ready s r = true ->
  rel (edge s (Some (port x)) r) (astep a x) (aout a x).
Proof.
  intros (Hb & _ & _) Hf Hr. destruct a as [h c]. cbn [fst snd] in *. unfold edge. rewrite Hf, Hr.
  assert ((if out_valid s && r then false else out_valid s) = false) as Eo.
  { unfold in_ready in Hr. rewrite Hf in Hr. by destruct (out_valid s), r. }
  destruct taps_pos as (E & Ht & El). set (h' := take taps (port x :: h)).
  assert (exists t, h' = port x :: t) as [t Et] by (unfold h'; destruct taps; [lia|by eexists]).
  unfold rel, astep, aout. cbn [fst snd]. fold h'. rewrite (surjective_pairing (port x)).
  assert (c = decim_cnt s) as -> by (symmetry; apply Hb). pose proof (b_wr _ _ _ Hb) as Hw.
  destruct (Z.eqb_spec (decim_cnt s) 0) as [Ec|Ec].
  - split_and!; [by eapply base_push| |done].
    unfold phase_ok. cbn [fsm_state out_valid compute_done]. split; [done|]. exists 0%nat. cbn [state_wr_ptr tap_idx state_rd_ptr].
    split_and!; [lia|done| |].
    + rewrite next_wr_ptr_spec, Nat2Z.id by done.
      assert (Z.to_nat (state_wr_ptr s) < taps)%nat by lia.
      rewrite (mod_wrap taps (Z.to_nat (state_wr_ptr s) + 1)) by lia. case_bool_decide; ring_wrap.
    + unfold sums, total. cbn [mac_i mac_q mac_clear mac_en mac_i_data mac_i_coeff mac_q_data mac_q_coeff].
      rewrite !flush_edge. cbn [absorb]. rewrite Et. cbn [fmap list_fmap]. f_equal.
      * apply (first_term ((port x).1 :: t.*1)); [cbn; lia|by apply signed_range].
      * apply (first_term ((port x).2 :: t.*2)); [cbn; lia|by apply signed_range].
  - split_and!; [by eapply base_push|done|]. unfold owed. cbn [fsm_state out_valid]. by rewrite Eo.
Qed.

Lemma issuing_step s h c :
  base s h c -> issuing s h -> fsm_state s = FSM_COMPUTE -> compute_done s = false -> forall x r,
  let s' := edge s x r in if compute_done s' then draining s' h else issuing s' h.
Proof.
  intros Hb (k & Hk & Ek & Er & Es) Hf Hd x r. unfold edge. rewrite Hf, Hd. cbn [negb].
  destruct taps_pos as (E & Ht & El). destruct (base_length _ _ _ Hb) as [Hl1 Hl2]. pose proof (b_wr _ _ _ Hb) as Hw.
  rewrite Ek. unfold wrap, TAP_ADDR_W. change (2 ^ 7) with 128. rewrite Z.mod_small by lia.
  unfold sums, total in Es. apply pair_equal_spec in Es as [Ei Eq].
  destruct (Z.leb_spec cfg_tap_count (Z.of_nat k + 1)) as [Hle|Hgt]; cbn [compute_done].
  - unfold draining, sums, total. cbn [mac_i mac_q mac_clear mac_en mac_i_data mac_i_coeff mac_q_data mac_q_coeff mac_pipeline_cnt].
    rewrite !flush_edge. cbn [absorb]. rewrite Ei, Eq. replace taps with (S k) by lia. split_and!; [done|done|done|lia|lia|lia|lia].
  - exists (S k). cbn [tap_idx state_rd_ptr state_wr_ptr]. rewrite Er, next_rd_ptr_spec by lia.
    split_and!; [lia|lia|done|]. unfold sums, total.
    cbn [mac_i mac_q mac_clear mac_en mac_i_data mac_i_coeff mac_q_data mac_q_coeff]. rewrite !flush_edge.
    assert (Forall (in_signed DATA_W) h.*1 /\ Forall (in_signed DATA_W) h.*2) as [R1 R2].
    { split; apply Forall_fmap; (eapply list.Forall_impl; [apply (b_rng _ _ _ Hb)|]); by intros ? []. }
    unfold at_. rewrite Nat2Z.id. replace (Z.to_nat (Z.of_nat k + 1)) with (S k) by lia.
    f_equal; apply issue_lane; try done; try lia.
    + by rewrite <-(b_li _ _ _ Hb), nth_line by lia.
    + by rewrite <-(b_lq _ _ _ Hb), nth_line by lia.
Qed.

Lemma quiet_flush m p : quiet1 m -> quiet2 m -> flush m (false, false, p) = accumulator m.
Proof. intros [E1 E2] [E3 E4]. unfold flush. by rewrite E1, E2, E3, E4. Qed.

Lemma draining_step s h :
  draining s h -> fsm_state s = FSM_COMPUTE -> compute_done s = true -> out_valid s = false -> forall x r,
  phase_ok (edge s x r) h.
Proof.
  intros (Es & Hc & He & Hp & H1 & H2) Hf Hd Ho x r. unfold edge. rewrite Hf, Hd, Ho. cbn [negb andb].
  unfold phase_ok. cbn [fsm_state out_valid compute_done].
  unfold sums, total in Es. apply pair_equal_spec in Es as [Ei Eq].
  destruct (Z.leb_spec 4 (mac_pipeline_cnt s)) as [H4|H4]; (split; [done|]).
  - destruct (H1 ltac:(lia)) as [Q1 Q2], (H2 ltac:(lia)) as [Q3 Q4]. cbn [mac_i mac_q].
    rewrite Hc, He in Ei, Eq. rewrite quiet_flush in Ei, Eq by done.
    cbn [mac_edge accumulator]. destruct Q3 as [-> ->], Q4 as [-> ->]. unfold total. by rewrite <-Ei, <-Eq.
  - unfold draining, sums. cbn [mac_i mac_q mac_clear mac_en mac_i_data mac_i_coeff mac_q_data mac_q_coeff mac_pipeline_cnt].
    rewrite !flush_edge, Ei, Eq. unfold wrap. change (2 ^ 3) with 8. rewrite Z.mod_small by lia.
    split_and!; [done|done|done|lia|lia| |].
    + intros _. by unfold quiet1.
    + intros H. destruct (H1 ltac:(lia)) as [[? ?] [? ?]]. by unfold quiet2.
Qed.

(** Every edge that takes no sample. *)
Lemma rel_other s a r x :
  rel s a (owed s a.1) -> taken fir_decimate s (x, r) = [] ->
  rel (edge s (option_map port x) r) a (owed (edge s (option_map port x) r) a.1) /\
  given fir_decimate s (x, r) ++ owed (edge s (option_map port x) r) a.1 = owed s a.1.
Proof.
  intros (Hb & Hp & _) Ht. destruct a as [h c]. unfold rel. cbn [fst snd] in *. unfold given. cbn [fst snd out fir_decimate].
  assert (fsm_state s <> FSM_IDLE \/ fsm_state s = FSM_IDLE /\ (x = None \/ in_ready s r = false)) as Hx.
  { unfold taken in Ht. cbn in Ht. destruct (fsm_state s); try by left. right. split; [done|].
    destruct (in_ready s r); [|by right]. destruct x; [done|by left]. }
  unfold phase_ok in Hp. destruct (fsm_state s) eqn:Hf.
  - destruct Hx as [?|[_ Hx]]; [done|].
    assert (edge s (option_map port x) r = edge s None r) as ->.
    { destruct Hx as [->|Hx]; [done|]. unfold edge. rewrite Hf, Hx. by destruct x as [x|]; [destruct (port x)|]. }
    unfold edge, owed, phase_ok. rewrite Hf. cbn [fsm_state out_valid i_out q_out].
    split; [split_and!; [by eapply base_keep|done|done]|]. by destruct (out_valid s), r.
  - destruct Hp as [Ho Hp]. assert (base (edge s (option_map port x) r) h c) as Hb'.
    { eapply base_keep; [done|..]; unfold edge; rewrite Hf; destruct (negb _); try done; by destruct (_ <=? _). }
    assert (phase_ok (edge s (option_map port x) r) h) as Hp'.
    { destruct (compute_done s) eqn:Hd; [by apply draining_step|].
      pose proof (issuing_step s h c Hb Hp Hf Hd (option_map port x) r) as H. cbn zeta in H. revert H. unfold phase_ok.
      assert (fsm_state (edge s (option_map port x) r) = FSM_COMPUTE /\ out_valid (edge s (option_map port x) r) = false) as [-> ->].
      { unfold edge. rewrite Hf, Hd, Ho. cbn [negb]. by destruct (_ <=? _). }
      done. }
    rewrite Ho. assert (owed (edge s (option_map port x) r) h = owed s h) as E.
    { unfold owed. rewrite Hf. unfold edge. rewrite Hf. destruct (negb _); [by destruct (_ <=? _)|]. cbn [fsm_state]. by destruct (_ <=? _). }
    rewrite E. split; [by split_and!|]. by destruct r.
  - destruct Hp as [Ho Ha]. rewrite Ho. unfold edge, owed, phase_ok. rewrite Hf. cbn [fsm_state out_valid i_out q_out].
    split; [split_and!; [by eapply base_keep|done|done]|]. apply pair_equal_spec in Ha as [-> ->].
    destruct (base_length _ _ _ Hb) as [Hl1 Hl2]. unfold filter. rewrite !take_ge by (rewrite length_terms; lia). by destruct r.
  - unfold edge, owed, phase_ok. rewrite Hf. cbn [fsm_state out_valid i_out q_out].
    split; [split_and!; [by eapply base_keep|done|done]|]. by destruct (out_valid s), r.
Qed.

Lemma rel_tick s a p i r : rel s a p -> exists p',
  rel (tick fir_decimate s i r) (foldl astep a (taken fir_decimate s (i, r))) p' /\
  given fir_decimate s (i, r) ++ p' = p ++ mealy astep aout a (taken fir_decimate s (i, r)).
Proof.
  intros (Hb & Hp & ->). assert (rel s a (owed s a.1)) as H by done.
  destruct (taken fir_decimate s (i, r)) as [|y ys] eqn:Ht.
  { exists (owed (tick fir_decimate s i r) a.1). cbn. rewrite app_nil_r. by apply rel_other. }
  unfold taken in Ht. cbn in Ht. destruct (in_ready s r) eqn:Hr; [|done]. destruct i as [x|]; [|done].
  injection Ht as -> <-. exists (aout a y). cbn [foldl mealy].
  assert (fsm_state s = FSM_IDLE) as Hf by (unfold in_ready in Hr; by destruct (fsm_state s)).
  split; [by apply rel_accept|]. rewrite app_nil_r. f_equal. unfold given, owed. cbn. rewrite Hf.
  unfold in_ready in Hr. rewrite Hf in Hr. by destruct (out_valid s), r.
Qed.

(** ** Draining

    The clock edges a sum still needs, when the consumer is ready. *)
Definition work (s : regs) : Z :=
  match fsm_state s with
  | FSM_IDLE => if out_valid s then 1 else 0
  | FSM_SKIP => 1
  | FSM_OUTPUT => 2
  | FSM_COMPUTE => if compute_done s then 7 - mac_pipeline_cnt s else 6 + cfg_tap_count - tap_idx s
  end.

Lemma work_bound s a p : rel s a p -> 0 <= work s <= cfg_tap_count + 6.
Proof.
  intros (_ & Hp & _). destruct taps_pos as (E & Ht & _). unfold phase_ok in Hp. unfold work. destruct (fsm_state s).
  - destruct (out_valid s); lia.
  - destruct Hp as [_ Hp]. destruct (compute_done s).
    + destruct Hp as (_ & _ & _ & Hp & _). lia.
    + destruct Hp as (k & Hk & -> & _). lia.
  - lia.
  - lia.
Qed.

Lemma work_step s a p : rel s a p -> work (edge s None true) <= Z.max 0 (work s - 1).
Proof.
  intros (_ & Hp & _). destruct taps_pos as (E & Ht & _). unfold phase_ok in Hp. unfold work, edge. destruct (fsm_state s).
  - cbn. destruct (out_valid s); cbn; lia.
  - destruct Hp as [_ Hp]. destruct (compute_done s); cbn [negb].
    + destruct Hp as (_ & _ & _ & Hp & _). cbn [fsm_state compute_done mac_pipeline_cnt]. unfold wrap. change (2 ^ 3) with 8.
      destruct (Z.leb_spec 4 (mac_pipeline_cnt s)); rewrite ?Z.mod_small by lia; lia.
    + destruct Hp as (k & Hk & -> & _). unfold wrap, TAP_ADDR_W. change (2 ^ 7) with 128. rewrite Z.mod_small by lia.
      destruct (Z.leb_spec cfg_tap_count (Z.of_nat k + 1)); cbn [fsm_state compute_done mac_pipeline_cnt tap_idx]; lia.
  - cbn. lia.
  - cbn. destruct (out_valid s); cbn; lia.
Qed.

Lemma fir_drains n : forall s a p, rel s a p -> work s <= Z.of_nat n ->
  let '(s', ins, os) := run fir_decimate s (replicate n (None, true)) in ins = [] /\ os = p /\ rel s' a [].
Proof.
  induction n as [|n IH]; intros s a p Hr Hn.
  { cbn. pose proof (work_bound _ _ _ Hr). destruct Hr as (Hb & Hp & ->).
    assert (owed s a.1 = []) as Eo; [|by unfold rel; rewrite Eo].
    unfold work in *. unfold owed, phase_ok in *. destruct (fsm_state s); [by destruct (out_valid s)| |lia|lia].
    destruct taps_pos as (E & Ht & _). destruct Hp as [_ Hp]. destruct (compute_done s).
    - destruct Hp as (_ & _ & _ & Hp & _). lia.
    - destruct Hp as (k & Hk & Ek & _). rewrite Ek in *. lia. }
  cbn [replicate run fst snd]. destruct (rel_tick s a p None true Hr) as (p' & H' & E).
  assert (taken fir_decimate s (None, true) = []) as Et by (unfold taken; cbn; by destruct (in_ready _ _)).
  rewrite Et in *. cbn [foldl mealy] in *. rewrite app_nil_r in E.
  pose proof (work_step _ _ _ Hr) as Hw. specialize (IH _ _ _ H'). cbn [tick fir_decimate option_map] in *.
  change (tick fir_decimate s None true) with (edge s None true) in *.
  destruct (run fir_decimate (edge s None true) (replicate n (None, true))) as [[s' ins] os].
  destruct IH as (-> & -> & H''); [lia|]. by split_and!.
Qed.

Lemma rel_init mi mq :
  (taps <= length mi)%nat -> (taps <= length mq)%nat -> Forall (in_signed DATA_W) mi -> Forall (in_signed DATA_W) mq ->
  rel (fir_reset mi mq) (zip (line mi 0) (line mq 0), 0) [].
Proof.
  intros Hi Hq Fi Fq. destruct taps_pos as (E & Ht & _).
  assert (length (line mi 0) = length (line mq 0)) as El by by rewrite !length_line.
  split_and!; [|done|done]. constructor; cbn [fst snd fir_reset state_i state_q state_wr_ptr decim_cnt]; try done; try lia.
  - rewrite fst_zip by lia. done.
  - rewrite snd_zip by lia. done.
  - apply Forall_lookup. intros i [x y] Hl. apply lookup_zip_Some in Hl as [Hx Hy]. cbn [fst snd].
    unfold line in *. apply list_lookup_fmap_Some in Hx as (j & -> & _). apply list_lookup_fmap_Some in Hy as (j' & -> & _).
    split; (apply Forall_nth_lt; [done|]); (eapply Nat.lt_le_trans; [apply Nat.mod_upper_bound; lia|done]).
Qed.

End Filter.

Lemma fir_implements (T R : Z) (cm mi mq : list Z) :
  1 <= T < 128 -> (taps T <= length cm)%nat -> (taps T <= length mi)%nat -> (taps T <= length mq)%nat ->
  Forall (in_signed COEFF_W) cm -> Forall (in_signed DATA_W) mi -> Forall (in_signed DATA_W) mq ->
  implements (fir_decimate T R cm) (fir_reset mi mq)
             (mealy (astep T R) (aout T cm) (zip (line T mi 0) (line T mq 0), 0)).
Proof.
  intros HT Hc Hi Hq Fc Fi Fq. eapply mealy_implements; [by apply rel_tick|]. by apply rel_init.
Qed.

(** Whatever the pattern of valids and readys, the decimating filter
    delivers, in order, one output for every [cfg_decim_ratio]-th sample, the
    exact sum over the taps with its 30 low bits dropped: no accumulation
    overflows for 18-bit samples and coefficients and up to 127 taps.  And it
    delivers all of them: [cfg_tap_count + 6] edges with a ready consumer
    finish the sum in progress. *)
Theorem fir_correct (T R : Z) (cm mi mq : list Z) (cs : list (option (Z * Z) * bool)) :
  1 <= T < 128 -> (taps T <= length cm)%nat -> (taps T <= length mi)%nat -> (taps T <= length mq)%nat ->
  Forall (in_signed COEFF_W) cm -> Forall (in_signed DATA_W) mi -> Forall (in_signed DATA_W) mq ->
  let spec := mealy (astep T R) (aout T cm) (zip (line T mi 0) (line T mq 0), 0) in
  let '(s, ins, os) := run (fir_decimate T R cm) (fir_reset mi mq) cs in
  os `prefix_of` spec ins /\
  let '(_, ins', os') := run (fir_decimate T R cm) s (replicate (taps T + 6) (None, true)) in
  ins' = [] /\ os ++ os' = spec ins.
Proof.
  intros HT Hc Hi Hq Fc Fi Fq spec.
  assert (rel T cm (fir_reset mi mq) (zip (line T mi 0) (line T mq 0), 0) []) as H0 by by apply rel_init.
  pose proof (mealy_run (fir_decimate T R cm) (astep T R) (aout T cm) (rel T cm) (rel_tick T R cm HT Hc Fc) cs _ _ _
    H0) as H.
  destruct (run (fir_decimate T R cm) (fir_reset mi mq) cs) as [[s ins] os]. destruct H as (p & Hr & E). cbn in E.
  split; [by exists p|]. assert (0 <= work T s <= T + 6) as Hw by (eapply work_bound; [exact HT|exact Hc|exact Hr]).
  pose proof (fir_drains T R cm HT Hc Fc (taps T + 6) s _ _ Hr) as Hd.
  destruct (run (fir_decimate T R cm) s _) as [[s' ins'] os']. destruct Hd as (-> & -> & _).
  { unfold taps in *. lia. }
  by split.
Qed.

Lemma fir_correct_witness :
  let cm := [65536; 32768; 16384] in
  let cs := [(Some (1000, -7), true); (None, false); (Some (2000, 3), true)] in
  let spec := mealy (astep 3 2) (aout 3 cm) (zip (line 3 [0; 0; 0; 0] 0) (line 3 [0; 0; 0; 0] 0), 0) in
  let '(s, ins, os) := run (fir_decimate 3 2 cm) (fir_reset [0; 0; 0; 0] [0; 0; 0; 0]) cs in
  os `prefix_of` spec ins /\
  let '(_, ins', os') := run (fir_decimate 3 2 cm) s (replicate (taps 3 + 6) (None, true)) in
  ins' = [] /\ os ++ os' = spec ins.
Proof.
  cbv zeta. apply (fir_correct 3 2 [65536; 32768; 16384] [0; 0; 0; 0] [0; 0; 0; 0]
    [(Some (1000, -7), true); (None, false); (Some (2000, 3), true)]).
  - lia.
  - vm_compute. lia.
  - vm_compute. lia.
  - vm_compute. lia.
  - repeat constructor; vm_compute; done.
  - repeat constructor; vm_compute; done.
  - repeat constructor; vm_compute; done.
Defined.

(** The delay line is read from the newest sample on for the second tap too:
    a filter whose only coefficient is that of the previous sample answers to a
    first sample at once. *)
Lemma second_tap_sees_newest_sample :
  let '(_, _, os) := run (fir_decimate 2 1 [0; 131071]) (fir_reset [0; 0] [0; 0])
    ((Some (131071, 0), true) :: replicate 8 (None, true)) in
  os = [(15, 0)].
Proof. vm_compute. done. Qed.

(** 128 taps do not fit [cfg_tap_count]: the filter has a single tap then. *)
Lemma all_taps_is_one_tap :
  wrap TAP_ADDR_W 128 = 0 /\
  let '(_, _, os) := run (fir_decimate (wrap TAP_ADDR_W 128) 1 (replicate 128 65536)) (fir_reset (replicate 128 65536) (replicate 128 65536))
    ((Some (131071, 0), true) :: replicate 8 (None, true)) in
  os = [(131071 * 65536 / 2 ^ 30, 0)].
Proof. vm_compute. done. Qed.

End Fir.
