(* ===== verification/SpiTransport.v ===== *)
(** * The SPI transport of the host ([transport_spi.c], [transport.h])

    Frames of a sync word, a sequence number, a length, the payload and a
    CRC-32, sent from and received into pairs of page-aligned buffers.  The CRC
    is the code's table-driven one, proved equal to the bit-serial definition;
    what is shown of it is what the receiver relies on: it accepts what the
    sender builds and refuses a frame with one wrong byte. *)
From S2P Require Import Prelude PyStruct IQHeader CHeader.
Open Scope Z_scope.

Module Spi.
Import CHdr.

(** ** CRC-32 *)
Definition poly : Z := 0xEDB88320.

(** One turn of the inner loop of [crc32_generate_table]. *)
Definition crc_bit (c : Z) : Z := if Z.odd c then Z.lxor (Z.shiftr c 1) poly else Z.shiftr c 1.
Definition crc32_entry (i : Z) : Z := Nat.iter 8 crc_bit i.
Definition crc32_table : list Z := Eval vm_compute in map (fun i => crc32_entry (Z.of_nat i)) (seq 0 256).

Definition crc_byte (crc p : Z) : Z :=
  Z.lxor (Z.shiftr crc 8) (nth (Z.to_nat (Z.land (Z.lxor crc p) 0xFF)) crc32_table 0).
Definition crc32_calc (data : bytes) : Z := Z.lxor (foldl crc_byte 0xFFFFFFFF data) 0xFFFFFFFF.

(** The reference: bit by bit, least significant first. *)
Definition crc_serial (data : bytes) : Z :=
  Z.lxor (foldl (fun c b => Nat.iter 8 crc_bit (Z.lxor c b)) 0xFFFFFFFF data) 0xFFFFFFFF.

Definition word32 (z : Z) : Prop := 0 <= z < 2 ^ 32.

Lemma word32_bits z : word32 z <-> 0 <= z /\ forall n, 32 <= n -> Z.testbit z n = false.
Proof.
  unfold word32. split.
  - intros [H1 H2]. split; [done|]. intros n Hn. destruct (Z.eq_dec z 0) as [->|Hz]; [apply Z.bits_0|].
    apply Z.bits_above_log2; [done|]. apply Z.log2_lt_pow2; [lia|]. eapply Z.lt_le_trans; [done|]. by apply Z.pow_le_mono_r.
  - intros [H1 H2]. split; [done|]. destruct (Z.eq_dec z 0) as [->|Hz]; [lia|]. apply Z.log2_lt_pow2; [lia|].
    destruct (Z.lt_ge_cases (Z.log2 z) 32) as [?|H]; [done|]. specialize (H2 _ H). rewrite Z.bit_log2 in H2 by lia. done.
Qed.

Lemma word32_lxor a b : word32 a -> word32 b -> word32 (Z.lxor a b).
Proof.
  rewrite !word32_bits. intros [Ha Hb] [Hc Hd]. split; [by apply Z.lxor_nonneg|].
  intros n Hn. rewrite Z.lxor_spec, Hb, Hd by done. done.
Qed.

Lemma word32_shiftr a n : 0 <= n -> word32 a -> word32 (Z.shiftr a n).
Proof.
  rewrite !word32_bits. intros Hn [Ha Hb]. split; [by apply Z.shiftr_nonneg|].
  intros k Hk. rewrite Z.shiftr_spec by lia. apply Hb. lia.
Qed.

Lemma crc_bit_word c : word32 c -> word32 (crc_bit c).
Proof.
  intros H. assert (word32 (Z.shiftr c 1)) by by apply word32_shiftr. unfold crc_bit. case_match; [|done].
  apply word32_lxor; [done|]. by split.
Qed.

(** The step is linear and loses nothing. *)
Lemma crc_bit_lxor a b : crc_bit (Z.lxor a b) = Z.lxor (crc_bit a) (crc_bit b).
Proof.
  assert (Z.odd (Z.lxor a b) = xorb (Z.odd a) (Z.odd b)) as E by by rewrite <-!Z.bit0_odd, Z.lxor_spec.
  unfold crc_bit. rewrite E, Z.shiftr_lxor. destruct (Z.odd a), (Z.odd b); cbn [xorb]; apply Z.bits_inj'; intros n Hn; rewrite !Z.lxor_spec.
  - destruct (Z.testbit poly n); by destruct (Z.testbit _ n), (Z.testbit _ n).
  - destruct (Z.testbit poly n); by destruct (Z.testbit _ n), (Z.testbit _ n).
  - destruct (Z.testbit poly n); by destruct (Z.testbit _ n), (Z.testbit _ n).
  - done.
Qed.

Lemma crc_bit_zero c : word32 c -> crc_bit c = 0 -> c = 0.
Proof.
  intros [H1 H2]. unfold crc_bit. destruct (Z.odd c) eqn:Ho.
  - intros E. apply Z.lxor_eq in E. rewrite Z.shiftr_div_pow2 in E by done. change (2 ^ 1) with 2 in E.
    assert (c / 2 < 2 ^ 31) by (apply Z.div_lt_upper_bound; [done|]; change (2 * 2 ^ 31) with (2 ^ 32); done).
    rewrite E in *. done.
  - intros E. rewrite Z.shiftr_div_pow2 in E by done. change (2 ^ 1) with 2 in E.
    rewrite (Z.div_mod c 2), E, <-Z.bit0_mod, Z.bit0_odd, Ho by done. done.
Qed.

Lemma iter_word n c : word32 c -> word32 (Nat.iter n crc_bit c).
Proof. intros H. induction n; cbn; [done|]. by apply crc_bit_word. Qed.

Lemma iter_lxor n a b : Nat.iter n crc_bit (Z.lxor a b) = Z.lxor (Nat.iter n crc_bit a) (Nat.iter n crc_bit b).
Proof. induction n as [|n IH]; [done|]. by rewrite !Nat.iter_succ, IH, crc_bit_lxor. Qed.

Lemma iter_zero n c : word32 c -> Nat.iter n crc_bit c = 0 -> c = 0.
Proof.
  intros H. induction n as [|n IH]; [done|]. rewrite Nat.iter_succ. intros E. apply IH. apply crc_bit_zero; [|done]. by apply iter_word.
Qed.

Lemma iter_inj n a b : word32 a -> word32 b -> Nat.iter n crc_bit a = Nat.iter n crc_bit b -> a = b.
Proof.
  intros Ha Hb E. apply Z.lxor_eq. apply (iter_zero n); [by apply word32_lxor|]. by rewrite iter_lxor, E, Z.lxor_nilpotent.
Qed.

Lemma shiftl8_iter y : Nat.iter 8 crc_bit (Z.shiftl y 8) = y.
Proof.
  assert (forall k n, n = k + 1 -> 0 <= k -> crc_bit (Z.shiftl y n) = Z.shiftl y k) as H.
  { intros k n -> Hk. unfold crc_bit. rewrite <-Z.bit0_odd, Z.shiftl_spec_low by lia.
    rewrite Z.shiftr_shiftl_l by lia. f_equal. lia. }
  transitivity (Z.shiftl y 0); [|apply Z.shiftl_0_r]. rewrite !Nat.iter_succ. cbn [Nat.iter nat_rect].
  by rewrite (H 7 8), (H 6 7), (H 5 6), (H 4 5), (H 3 4), (H 2 3), (H 1 2), (H 0 1).
Qed.

Lemma table_entry i : 0 <= i < 256 -> nth (Z.to_nat i) crc32_table 0 = Nat.iter 8 crc_bit i.
Proof.
  intros Hi. rewrite <-(Z2Nat.id i) at 2 by lia. assert (Z.to_nat i < 256)%nat as H by lia. generalize dependent (Z.to_nat i).
  clear Hi. intros n Hn. apply (nth_lookup_Some _ _ 0). change crc32_table with (map (fun i => crc32_entry (Z.of_nat i)) (seq 0 256)).
  rewrite list_lookup_fmap, lookup_seq_lt by done. done.
Qed.

(** One table lookup is eight steps of the serial circuit. *)
Lemma crc_byte_serial c b : word32 c -> byte_ok b -> crc_byte c b = Nat.iter 8 crc_bit (Z.lxor c b).
Proof.
  intros Hc Hb. unfold crc_byte. set (x := Z.lxor c b).
  assert (Z.land x 0xFF = x mod 2 ^ 8) as El by (change 0xFF with (Z.ones 8); by rewrite Z.land_ones).
  rewrite table_entry by (rewrite El; apply Z.mod_pos_bound; lia).
  assert (Z.shiftr c 8 = Z.shiftr x 8) as ->.
  { unfold x. rewrite Z.shiftr_lxor. rewrite (Z.shiftr_div_pow2 b), Z.div_small by (done || apply Hb). by rewrite Z.lxor_0_r. }
  assert (x = Z.lxor (Z.shiftl (Z.shiftr x 8) 8) (Z.land x 0xFF)) as E.
  { apply Z.bits_inj'. intros n Hn. rewrite Z.lxor_spec, Z.land_spec. change 0xFF with (Z.ones 8).
    destruct (Z.lt_ge_cases n 8) as [Hlt|Hge].
    - rewrite Z.shiftl_spec_low, Z.ones_spec_low by lia. by destruct (Z.testbit x n).
    - rewrite Z.shiftl_spec, Z.shiftr_spec, Z.ones_spec_high by lia. rewrite andb_false_r, xorb_false_r. f_equal. lia. }
  rewrite E at 3. by rewrite iter_lxor, shiftl8_iter.
Qed.

Lemma byte_word b : byte_ok b -> word32 b.
Proof. unfold byte_ok, word32. lia. Qed.

Lemma foldl_serial data : forall c, word32 c -> Forall byte_ok data ->
  foldl crc_byte c data = foldl (fun c b => Nat.iter 8 crc_bit (Z.lxor c b)) c data /\ word32 (foldl crc_byte c data).
Proof.
  induction data as [|b data IH]; intros c Hc Hd; [done|]. apply list.Forall_cons in Hd as [Hb Hd]. cbn [foldl].
  rewrite crc_byte_serial by done. apply IH; [|done]. apply iter_word, word32_lxor; [done|by apply byte_word].
Qed.

Lemma foldl_inj data : forall a b, word32 a -> word32 b -> Forall byte_ok data ->
  foldl crc_byte a data = foldl crc_byte b data -> a = b.
Proof.
  induction data as [|d data IH]; intros a b Ha Hb Hd E; [done|]. apply list.Forall_cons in Hd as [Hdd Hd]. cbn [foldl] in E.
  rewrite !crc_byte_serial in E by done.
  apply IH in E; [|by apply iter_word, word32_lxor; [|apply byte_word]..|done].
  apply iter_inj in E; [|by apply word32_lxor; [|apply byte_word]..].
  apply (f_equal (fun z => Z.lxor z d)) in E. by rewrite !Z.lxor_assoc, Z.lxor_nilpotent, !Z.lxor_0_r in E.
Qed.

(** A message with one byte changed has another CRC. *)
Lemma crc_one_byte pre x y post :
  Forall byte_ok pre -> Forall byte_ok post -> byte_ok x -> byte_ok y ->
  crc32_calc (pre ++ x :: post) = crc32_calc (pre ++ y :: post) -> x = y.
Proof.
  intros Hp Hq Hx Hy E. unfold crc32_calc in E. apply (f_equal (fun z => Z.lxor z 0xFFFFFFFF)) in E.
  rewrite !Z.lxor_assoc, Z.lxor_nilpotent, !Z.lxor_0_r, !foldl_app in E. cbn [foldl] in E.
  destruct (foldl_serial pre 0xFFFFFFFF) as [_ Hw]; [by split|done|].
  apply foldl_inj in E; [|rewrite crc_byte_serial by done; by apply iter_word, word32_lxor; [|apply byte_word]..|done].
  rewrite !crc_byte_serial in E by done. apply iter_inj in E; [|by apply word32_lxor; [|apply byte_word]..].
  apply (f_equal (Z.lxor (foldl crc_byte 0xFFFFFFFF pre))) in E.
  by rewrite <-!Z.lxor_assoc, Z.lxor_nilpotent, !Z.lxor_0_l in E.
Qed.

Lemma crc32_word data : Forall byte_ok data -> word32 (crc32_calc data).
Proof.
  intros H. unfold crc32_calc. apply word32_lxor; [|by split]. by apply foldl_serial; [split|].
Qed.

(** The table-driven CRC computes the bit-serial one: every byte looked up
    in the table that [crc32_generate_table] fills is eight steps of the shift
    register with the reversed polynomial. *)
Theorem crc32_is_serial (data : bytes) : Forall byte_ok data -> crc32_calc data = crc_serial data.
Proof.
  intros H. unfold crc32_calc, crc_serial. f_equal. by apply foldl_serial; [split|].
Qed.

Lemma crc32_is_serial_witness : crc32_calc [72; 65; 84; 0; 255] = crc_serial [72; 65; 84; 0; 255].
Proof. apply (crc32_is_serial [72; 65; 84; 0; 255]). repeat constructor; lia. Defined.

(** The published check value of CRC-32. *)
Lemma crc32_calc_check : crc32_calc [49; 50; 51; 52; 53; 54; 55; 56; 57] = 0xCBF43926.
Proof. vm_compute. done. Qed.

(** ** Buffers and frames *)
Definition SPI_SYNC_WORD : Z := 0x48415400.
Definition SPI_FRAME_OVERHEAD : Z := 14.

Record priv := Priv {
  tx_buf : list bytes; rx_buf : list bytes;
  active_tx : nat; active_rx : nat;
  terminated : bool; seq_num : Z }.

(** The fields of the handle the driver uses. *)
Record handle := Handle { buffer_size : Z; total_bytes : Z; total_frames : Z; dev : priv }.

Definition set_dev (d : priv) (th : handle) : handle := Handle (buffer_size th) (total_bytes th) (total_frames th) d.

(** [spi_init_common], where the devices open and the allocations succeed. *)
Definition alloc (size : Z) : bytes := replicate (Z.to_nat (size + SPI_FRAME_OVERHEAD)) 0.
Definition spi_init (size : Z) : handle :=
  Handle size 0 0 (Priv [alloc size; alloc size] [alloc size; alloc size] 0 0 false 0).

(** [None] is the error return. *)
Definition spi_get_write_buf (th : handle) : option nat :=
  if terminated (dev th) then None else Some (1 - active_tx (dev th))%nat.

(** The caller's writes through the pointer that [spi_get_write_buf] returns. *)
Definition fill (idx : nat) (payload : bytes) (th : handle) : handle :=
  let d := dev th in
  let f := nth idx (tx_buf d) [] in
  set_dev (Priv (<[idx := take 10 f ++ payload ++ drop (10 + length payload) f]> (tx_buf d)) (rx_buf d)
                (active_tx d) (active_rx d) (terminated d) (seq_num d)) th.

(** The frame [spi_submit_write] leaves in the buffer: header, then the CRC. *)
Definition build (size seq : Z) (f : bytes) : bytes :=
  let payload_len := size mod 2 ^ 32 in
  let total := (10 + payload_len) mod 2 ^ 32 in
  let f1 := write_at 6 4 payload_len (write_at 4 2 seq (write_at 0 4 SPI_SYNC_WORD f)) in
  write_at (Z.to_nat total) 4 (crc32_calc (take (Z.to_nat total) f1)) f1.

(** [spi_submit_write]: [xfer] is what the device returns for the bytes sent,
    [None] when the transfer fails.  The result is the handle, the return code
    and the bytes on the wire. *)
Definition spi_submit_write (xfer : bytes -> option bytes) (idx : nat) (th : handle) : handle * bool * bytes :=
  let d := dev th in
  if terminated d then (th, false, []) else
  let payload_len := buffer_size th mod 2 ^ 32 in
  let total := (10 + payload_len) mod 2 ^ 32 in
  let f := build (buffer_size th) (seq_num d) (nth idx (tx_buf d) []) in
  let wire := take (Z.to_nat total + 4) f in
  let seq := (seq_num d + 1) mod 2 ^ 16 in
  let d1 := Priv (<[idx := f]> (tx_buf d)) (rx_buf d) (active_tx d) (active_rx d) false seq in
  match xfer wire with
  | None => (set_dev d1 th, false, wire)
  | Some rx =>
      (Handle (buffer_size th) (total_bytes th + payload_len) (total_frames th + 1)
              (Priv (tx_buf d1) (<[idx := rx ++ drop (length rx) (nth idx (rx_buf d) [])]> (rx_buf d))
                    idx (active_rx d) false seq), true, wire)
  end.

(** [transport_submit_write] of [transport.h]. *)
Definition transport_submit_write (xfer : bytes -> option bytes) (idx : nat) (th : handle) : handle * bool * bytes :=
  spi_submit_write xfer idx (Handle (buffer_size th) (total_bytes th) (total_frames th + 1) (dev th)).

(** [spi_get_read_buf]: an error return, a payload in one of the buffers, or a
    read outside the buffer. *)
Inductive got := Error | Payload (idx : nat) | OutOfBounds.

Definition check_frame (frame : bytes) : got -> got := fun ok =>
  if negb (read_at 0 4 frame =? SPI_SYNC_WORD) then Error else
  let rx_len := read_at 6 4 frame in
  if (length frame <? Z.to_nat (10 + rx_len) + 4)%nat then OutOfBounds else
  let rx_crc := read_at (Z.to_nat (10 + rx_len)) 4 frame in
  if rx_crc =? crc32_calc (take (Z.to_nat ((10 + rx_len) mod 2 ^ 32)) frame) then ok else Error.

Definition spi_get_read_buf (drdy : bool) (xfer : bytes -> option bytes) (th : handle) : handle * got :=
  let d := dev th in
  if terminated d then (th, Error) else
  if negb drdy then (th, Error) else
  let idx := active_rx d in
  let n := Z.to_nat (buffer_size th + SPI_FRAME_OVERHEAD) in
  let d1 := Priv (<[idx := replicate n 0]> (tx_buf d)) (rx_buf d) (active_tx d) (active_rx d) false (seq_num d) in
  match xfer (replicate n 0) with
  | None => (set_dev d1 th, Error)
  | Some rx =>
      let frame := rx ++ drop (length rx) (nth idx (rx_buf d) []) in
      (set_dev (Priv (tx_buf d1) (<[idx := frame]> (rx_buf d)) (active_tx d) (active_rx d) false (seq_num d)) th,
       check_frame frame (Payload idx))
  end.

(** The payload behind the pointer the reader got. *)
Definition payload_of (th : handle) (idx : nat) : bytes :=
  take (Z.to_nat (buffer_size th)) (drop 10 (nth idx (rx_buf (dev th)) [])).

Definition spi_release_read (th : handle) : handle :=
  let d := dev th in
  set_dev (Priv (tx_buf d) (rx_buf d) (active_tx d) (1 - active_rx d)%nat (terminated d) (seq_num d)) th.

Definition spi_send_terminate (th : handle) : handle :=
  let d := dev th in
  set_dev (Priv (tx_buf d) (rx_buf d) (active_tx d) (active_rx d) true (seq_num d)) th.

(** ** The frame as a list of fields *)
Definition head (size seq : Z) (p : bytes) : bytes :=
  le_bytes 4 SPI_SYNC_WORD ++ le_bytes 2 seq ++ le_bytes 4 size ++ p.
Definition frame (size seq : Z) (p : bytes) : bytes :=
  head size seq p ++ le_bytes 4 (crc32_calc (head size seq p)).

Lemma length_head size seq p : length (head size seq p) = (10 + length p)%nat.
Proof. unfold head. rewrite !length_app, !le_bytes_length. lia. Qed.

Lemma head_ok size seq p : Forall byte_ok p -> Forall byte_ok (head size seq p).
Proof. intros H. unfold head. rewrite !list.Forall_app. split_and!; try apply le_bytes_ok. done. Qed.

Lemma write_at_app o n v a b : (o + n <= length a)%nat -> write_at o n v (a ++ b) = write_at o n v a ++ b.
Proof.
  intros H. unfold write_at. rewrite take_app_le, drop_app_le by lia. by rewrite <-!app_assoc.
Qed.

Lemma write_at_end n v a b : length b = n -> write_at (length a) n v (a ++ b) = a ++ le_bytes n v.
Proof.
  intros H. unfold write_at. rewrite take_app_length, drop_ge by (rewrite length_app; lia). by rewrite app_nil_r.
Qed.

Lemma build_frame size seq f :
  0 <= size < 2 ^ 32 - 14 -> length f = Z.to_nat (size + SPI_FRAME_OVERHEAD) ->
  build size seq f = frame size seq (take (Z.to_nat size) (drop 10 f)).
Proof.
  unfold SPI_FRAME_OVERHEAD. intros Hs Hl. unfold build. rewrite (Z.mod_small size), (Z.mod_small (10 + size)) by lia.
  set (p := take (Z.to_nat size) (drop 10 f)). set (t := drop (10 + Z.to_nat size) f).
  assert (f = take 10 f ++ p ++ t) as Ef.
  { rewrite app_assoc. unfold p, t. by rewrite take_take_drop, take_drop. }
  assert (length (take 10 f) = 10%nat) as H10 by (rewrite length_take; lia).
  assert (length p = Z.to_nat size) as Hp by (unfold p; rewrite length_take, length_drop; lia).
  assert (length t = 4%nat) as Ht by (unfold t; rewrite length_drop; lia).
  assert (write_at 6 4 size (write_at 4 2 seq (write_at 0 4 SPI_SYNC_WORD (take 10 f))) ++ p = head size seq p) as E.
  { destruct (take 10 f) as [|a [|b [|c [|d [|e [|g [|h [|i [|j [|k [|]]]]]]]]]]]; try done. }
  rewrite Ef at 1 2. rewrite !write_at_app by (rewrite ?write_at_length; rewrite ?write_at_length; lia).
  rewrite app_assoc, E.
  replace (Z.to_nat (10 + size)) with (length (head size seq p)) by (rewrite length_head; lia).
  rewrite take_app_length. by rewrite write_at_end.
Qed.

(** Sent and received fields. *)
Lemma head_fields size seq p t :
  0 <= size < 2 ^ 32 -> read_at 0 4 (head size seq p ++ t) = SPI_SYNC_WORD /\ read_at 6 4 (head size seq p ++ t) = size.
Proof.
  intros Hs. unfold read_at, head. split.
  - rewrite drop_0, <-app_assoc, take_app_length' by (by rewrite le_bytes_length). by apply le_val_small.
  - rewrite app_assoc, <-(app_assoc _ (le_bytes 4 size ++ p)), drop_app_length' by (by rewrite length_app, !le_bytes_length).
    rewrite <-app_assoc, take_app_length' by (by rewrite le_bytes_length). by apply le_val_small.
Qed.

Lemma frame_accepted size seq p ok :
  0 <= size < 2 ^ 32 - 14 -> length p = Z.to_nat size -> Forall byte_ok p -> check_frame (frame size seq p) ok = ok.
Proof.
  intros Hs Hp Hb. unfold check_frame, frame. destruct (head_fields size seq p (le_bytes 4 (crc32_calc (head size seq p)))) as [-> ->]; [lia|].
  rewrite Z.eqb_refl, length_app, length_head, le_bytes_length. cbn [negb].
  replace ((10 + length p + 4 <? Z.to_nat (10 + size) + 4)%nat) with false by (symmetry; apply Nat.ltb_ge; lia).
  rewrite Z.mod_small by lia. replace (Z.to_nat (10 + size)) with (length (head size seq p)) by (rewrite length_head; lia).
  rewrite take_app_length. unfold read_at. rewrite drop_app_length, take_ge by (by rewrite le_bytes_length).
  rewrite le_val_small; [by rewrite Z.eqb_refl|]. by apply crc32_word, head_ok.
Qed.

(** ** One wrong byte *)
Lemma slice_insert_ne (w : bytes) i b o n :
  (i < o \/ o + n <= i)%nat -> take n (drop o (<[i := b]> w)) = take n (drop o w).
Proof.
  intros H. apply list_eq. intros j. destruct (decide (j < n)%nat); [|by rewrite !lookup_take_ge by lia].
  rewrite !lookup_take_lt, !lookup_drop, list_lookup_insert_ne by lia. done.
Qed.

Lemma slice_insert (w : bytes) i b o n :
  (o <= i < o + n)%nat -> (i < length w)%nat ->
  take n (drop o (<[i := b]> w)) = <[(i - o)%nat := b]> (take n (drop o w)).
Proof.
  intros H Hi. apply list_eq. intros j. destruct (decide (j < n)%nat).
  2:{ rewrite lookup_take_ge by lia. symmetry. apply lookup_ge_None_2. rewrite length_insert, length_take. lia. }
  rewrite lookup_take_lt, lookup_drop by lia. destruct (decide (j = i - o)%nat) as [->|Hj].
  - rewrite list_lookup_insert_eq by (rewrite length_take, length_drop; lia).
    replace (o + (i - o))%nat with i by lia. by apply list_lookup_insert_eq.
  - rewrite !list_lookup_insert_ne by lia. by rewrite lookup_take_lt, lookup_drop by lia.
Qed.

Lemma le_val_insert (l : bytes) i b :
  Forall byte_ok l -> byte_ok b -> (i < length l)%nat -> nth i l 0 <> b -> le_val (<[i := b]> l) <> le_val l.
Proof.
  intros Hl Hb Hi Hn E. apply Hn.
  assert (<[i := b]> l = l) as El.
  { assert (Forall byte_ok (<[i := b]> l)) as Hl' by by apply Forall_insert.
    transitivity (le_bytes (length l) (le_val l)); [|by apply le_bytes_val]. rewrite <-E, <-(length_insert l i b).
    by rewrite le_bytes_val. }
  apply nth_lookup_Some. rewrite <-El. by apply list_lookup_insert_eq.
Qed.

(** A field of a frame with a wrong byte in it. *)
Lemma field_corrupt (w : bytes) i b o n :
  Forall byte_ok w -> byte_ok b -> nth i w 0 <> b -> (o <= i < o + n)%nat -> (o + n <= length w)%nat ->
  read_at o n (<[i := b]> w) <> read_at o n w.
Proof.
  intros Hw Hb Hn Hi Hl. unfold read_at. rewrite slice_insert by lia.
  apply le_val_insert; [by apply Forall_take, Forall_drop|done|rewrite length_take, length_drop; lia|].
  intros E. apply Hn. rewrite <-E. rewrite !nth_lookup, lookup_take_lt, lookup_drop by lia. do 2 f_equal. lia.
Qed.

Lemma crc_corrupt (h : bytes) i b :
  Forall byte_ok h -> byte_ok b -> (i < length h)%nat -> nth i h 0 <> b -> crc32_calc h <> crc32_calc (<[i := b]> h).
Proof.
  intros Hh Hb Hi Hn E. apply Hn. rewrite insert_take_drop in E by done.
  assert (h !! i = Some (nth i h 0)) as Hx.
  { destruct (lookup_lt_is_Some_2 h i Hi) as [z Hz]. by rewrite (nth_lookup_Some _ _ _ _ Hz). }
  rewrite <-(take_drop_middle h i (nth i h 0) Hx) in E at 1. apply crc_one_byte in E; [done|..|done].
  - by apply Forall_take.
  - by apply Forall_drop.
  - by eapply Forall_lookup in Hx.
Qed.

Lemma frame_corrupt size seq p i b ok :
  0 <= size < 2 ^ 32 - 14 -> length p = Z.to_nat size -> Forall byte_ok p -> byte_ok b ->
  (i < length (frame size seq p))%nat -> (i < 6 \/ 10 <= i)%nat -> nth i (frame size seq p) 0 <> b ->
  check_frame (<[i := b]> (frame size seq p)) ok = Error.
Proof.
  intros Hs Hp Hb Hbb Hi Hr Hn. set (w := frame size seq p) in *. set (h := head size seq p).
  assert (Forall byte_ok w) as Hw.
  { unfold w, frame. apply list.Forall_app. split; [by apply head_ok|apply le_bytes_ok]. }
  assert (length w = Z.to_nat size + 14)%nat as Hl.
  { unfold w, frame. rewrite length_app, length_head, le_bytes_length. lia. }
  assert (read_at 0 4 w = SPI_SYNC_WORD /\ read_at 6 4 w = size) as [Hsy Hle] by (apply head_fields; lia).
  assert (length h = Z.to_nat (10 + size)) as Hh by (unfold h; rewrite length_head; lia).
  assert (take (Z.to_nat (10 + size)) w = h) as Eh by (rewrite <-Hh; apply take_app_length).
  assert (read_at (Z.to_nat (10 + size)) 4 w = crc32_calc h) as Ec.
  { unfold read_at. rewrite <-Hh. unfold w, frame. rewrite drop_app_length, take_ge by (by rewrite le_bytes_length).
    apply le_val_small. by apply crc32_word, head_ok. }
  unfold check_frame. destruct (decide (i < 4)%nat) as [H4|H4].
  { pose proof (field_corrupt w i b 0 4 Hw Hbb Hn ltac:(lia) ltac:(lia)) as Hf. rewrite Hsy in Hf.
    by apply Z.eqb_neq in Hf as ->. }
  assert (read_at 0 4 (<[i := b]> w) = SPI_SYNC_WORD) as -> by (unfold read_at; rewrite slice_insert_ne by lia; done).
  assert (read_at 6 4 (<[i := b]> w) = size) as -> by (unfold read_at; rewrite slice_insert_ne by lia; done).
  rewrite Z.eqb_refl, length_insert. cbn [negb]. rewrite Z.mod_small by lia. case_match eqn:El; [apply Nat.ltb_lt in El; lia|].
  destruct (decide (i < Z.to_nat (10 + size))%nat) as [Hlt|Hge].
  - unfold read_at in *. rewrite slice_insert_ne by lia. rewrite Ec.
    rewrite <-(drop_0 (<[i:=b]> w)), slice_insert, drop_0, Eh, Nat.sub_0_r by lia.
    assert (crc32_calc h <> crc32_calc (<[i := b]> h)) as Hne.
    { apply crc_corrupt; [by apply head_ok|done|lia|]. rewrite <-Eh. rewrite nth_lookup, lookup_take_lt, <-nth_lookup by lia. done. }
    by apply Z.eqb_neq in Hne as ->.
  - assert (take (Z.to_nat (10 + size)) (<[i:=b]> w) = h) as ->.
    { rewrite <-(drop_0 (<[i:=b]> w)), slice_insert_ne, drop_0 by lia. done. }
    pose proof (field_corrupt w i b (Z.to_nat (10 + size)) 4 Hw Hbb Hn ltac:(lia) ltac:(lia)) as Hf. rewrite Ec in Hf.
    by apply Z.eqb_neq in Hf as ->.
Qed.

(** ** A producer and a consumer *)

(** One frame sent: the caller fills the free buffer and submits it; [reply] is
    what the device shifts back. *)
Definition send (reply p : bytes) (th : handle) : handle * option bytes :=
  match spi_get_write_buf th with
  | None => (th, None)
  | Some idx =>
      let '(th', ok, wire) := transport_submit_write (fun _ => Some reply) idx (fill idx p th) in
      (th', if ok then Some wire else None)
  end.

(** One frame received: the payload is copied out and the buffer released. *)
Definition recv (wire : bytes) (th : handle) : handle * option bytes :=
  match spi_get_read_buf true (fun _ => Some wire) th with
  | (th', Payload idx) => (spi_release_read th', Some (payload_of th' idx))
  | (th', _) => (th', None)
  end.

Fixpoint exchange (ps : list (bytes * bytes)) (tx rx : handle) : list (option bytes) :=
  match ps with
  | [] => []
  | (reply, p) :: ps =>
      let '(tx', w) := send reply p tx in
      match w with
      | None => None :: exchange ps tx' rx
      | Some wire => let '(rx', r) := recv wire rx in r :: exchange ps tx' rx'
      end
  end.

(** A handle as [spi_init_common] leaves it and the operations keep it. *)
Definition live (size : Z) (th : handle) : Prop :=
  let d := dev th in let n := Z.to_nat (size + SPI_FRAME_OVERHEAD) in
  buffer_size th = size /\ terminated d = false /\ (active_tx d <= 1)%nat /\ (active_rx d <= 1)%nat /\
  length (tx_buf d) = 2%nat /\ length (rx_buf d) = 2%nat /\
  Forall (fun f => length f = n) (tx_buf d) /\ Forall (fun f => length f = n) (rx_buf d).

Lemma buf_length n (bufs : list bytes) idx :
  Forall (fun f => length f = n) bufs -> (idx < length bufs)%nat -> length (nth idx bufs []) = n.
Proof.
  intros H Hi. destruct (lookup_lt_is_Some_2 bufs idx Hi) as [z Hz]. rewrite (nth_lookup_Some _ _ _ _ Hz).
  by apply (Forall_lookup_1 _ _ _ _ H) in Hz.
Qed.

Lemma live_init size : live size (spi_init size).
Proof.
  unfold live, spi_init, alloc. cbn. split_and!; try done; try lia; repeat constructor; by rewrite length_replicate.
Qed.

Section Frames.
Variable size : Z.
Hypothesis Hsize : 0 <= size < 2 ^ 32 - 14.

Definition payload_ok (p : bytes) : Prop := length p = Z.to_nat size /\ Forall byte_ok p.

Lemma send_live reply p th :
  live size th -> payload_ok p -> length reply = Z.to_nat (size + SPI_FRAME_OVERHEAD) ->
  live size (send reply p th).1 /\ (send reply p th).2 = Some (frame size (seq_num (dev th)) p) /\
  seq_num (dev (send reply p th).1) = (seq_num (dev th) + 1) mod 2 ^ 16.
Proof.
  intros (Eb & Et & Ha & Hr & Hl & Hl' & Ht & Hx) [Hp Hb] Hy. unfold send, spi_get_write_buf, transport_submit_write, spi_submit_write.
  rewrite Et. cbn [fill set_dev dev terminated buffer_size tx_buf rx_buf active_tx active_rx seq_num]. rewrite Et, Eb.
  set (idx := (1 - active_tx (dev th))%nat). set (n := Z.to_nat (size + SPI_FRAME_OVERHEAD)) in *.
  assert (idx < 2)%nat as Hidx by lia. set (f := nth idx (tx_buf (dev th)) []).
  assert (length f = n) as Hf by (apply buf_length; [done|lia]).
  unfold SPI_FRAME_OVERHEAD in *.
  assert (length (take 10 f) = 10%nat) as H10 by (rewrite length_take; lia).
  set (g := take 10 f ++ p ++ drop (10 + length p) f).
  assert (length g = n) as Hg by (unfold g; rewrite !length_app, length_drop; lia).
  assert (nth idx (<[idx := g]> (tx_buf (dev th))) [] = g) as -> by (apply nth_lookup_Some, list_lookup_insert_eq; lia).
  assert (take (Z.to_nat size) (drop 10 g) = p) as Eg.
  { unfold g. rewrite drop_app_length' by done. by rewrite take_app_length'. }
  rewrite build_frame, Eg by done. rewrite (Z.mod_small size), (Z.mod_small (10 + size)) by lia.
  assert (length (frame size (seq_num (dev th)) p) = n) as Hfr.
  { unfold frame. rewrite length_app, length_head, le_bytes_length. lia. }
  rewrite take_ge by lia. cbn [fst snd dev seq_num]. split_and!; [|done|done].
  unfold live. cbn. rewrite !length_insert. split_and!; try done; try lia.
  - apply Forall_insert; [|done]. by apply Forall_insert.
  - apply Forall_insert; [done|]. rewrite length_app, length_drop, (buf_length n) by (done || lia).
    unfold n, SPI_FRAME_OVERHEAD in *. lia.
Qed.

Lemma recv_live seq p th :
  live size th -> payload_ok p ->
  live size (recv (frame size seq p) th).1 /\ (recv (frame size seq p) th).2 = Some p.
Proof.
  intros (Eb & Et & Ha & Hr & Hl & Hl' & Ht & Hx) [Hp Hb]. unfold recv, spi_get_read_buf. rewrite Et. cbn [negb].
  set (idx := active_rx (dev th)) in *. set (n := Z.to_nat (size + SPI_FRAME_OVERHEAD)) in *.
  assert (length (frame size seq p) = n) as Hfr.
  { unfold frame, n, SPI_FRAME_OVERHEAD. rewrite length_app, length_head, le_bytes_length. lia. }
  assert (drop (length (frame size seq p)) (nth idx (rx_buf (dev th)) []) = []) as ->.
  { apply drop_ge. rewrite (buf_length n) by (done || lia). lia. }
  rewrite app_nil_r, frame_accepted by done. cbn [fst snd]. split.
  - unfold live, spi_release_read, set_dev. cbn. rewrite !length_insert, Eb. split_and!; try done; try lia.
    + apply Forall_insert; [done|]. by rewrite length_replicate.
    + by apply Forall_insert.
  - f_equal. unfold payload_of, set_dev. cbn [buffer_size rx_buf dev]. rewrite Eb.
    assert (nth idx (<[idx := frame size seq p]> (rx_buf (dev th))) [] = frame size seq p) as ->.
    { apply nth_lookup_Some, list_lookup_insert_eq. lia. }
    unfold frame, head. rewrite <-!app_assoc, !(app_assoc (le_bytes 4 SPI_SYNC_WORD)), !(app_assoc (le_bytes 4 _ ++ le_bytes 2 seq)).
    rewrite drop_app_length' by (by rewrite !length_app, !le_bytes_length). by rewrite take_app_length'.
Qed.

End Frames.

(** Whatever the payloads and whatever the device shifts back, a consumer
    that receives the producer's frames unchanged gets exactly the payloads, in
    order, for as long as the two run: the buffers alternate, the sequence
    number wraps at 16 bits, and no frame is refused. *)
Theorem spi_roundtrip (size : Z) (ps : list (bytes * bytes)) :
  0 <= size < 2 ^ 32 - 14 ->
  Forall (fun x => length x.1 = Z.to_nat (size + SPI_FRAME_OVERHEAD) /\ payload_ok size x.2) ps ->
  exchange ps (spi_init size) (spi_init size) = map (fun x => Some x.2) ps.
Proof.
  intros Hs. enough (forall tx rx, live size tx -> live size rx ->
    Forall (fun x => length x.1 = Z.to_nat (size + SPI_FRAME_OVERHEAD) /\ payload_ok size x.2) ps ->
    exchange ps tx rx = map (fun x => Some x.2) ps) as H by (apply H; apply live_init).
  induction ps as [|[reply p] ps IH]; intros tx rx Htx Hrx Hps; [done|].
  apply list.Forall_cons in Hps as [[Hy Hp] Hps]. cbn [fst snd] in *. cbn [exchange map].
  destruct (send_live size Hs reply p tx Htx Hp Hy) as (Htx' & Ew & _).
  destruct (recv_live size Hs (seq_num (dev tx)) p rx Hrx Hp) as [Hrx' Er].
  destruct (send reply p tx) as [tx' w]. cbn [fst snd] in *. subst w.
  destruct (recv _ rx) as [rx' r]. cbn [fst snd] in *. subst r. f_equal. by apply IH.
Qed.

Lemma spi_roundtrip_witness :
  exchange [(replicate 17 255, [1; 2; 3]); (replicate 17 0, [7; 8; 9]); (replicate 17 0, [0; 0; 0])] (spi_init 3) (spi_init 3)
  = [Some [1; 2; 3]; Some [7; 8; 9]; Some [0; 0; 0]].
Proof.
  apply (spi_roundtrip 3 [(replicate 17 255, [1; 2; 3]); (replicate 17 0, [7; 8; 9]); (replicate 17 0, [0; 0; 0])]).
  - lia.
  - repeat constructor; cbn; lia.
Defined.

(** A frame that arrives with one wrong byte, anywhere but in its length
    field, is refused: the receiver returns an error and hands out nothing. *)
Theorem spi_one_wrong_byte (size seq : Z) (p : bytes) (i : nat) (b : Z) (th : handle) :
  0 <= size < 2 ^ 32 - 14 -> payload_ok size p -> live size th ->
  byte_ok b -> (i < Z.to_nat size + 14)%nat -> (i < 6 \/ 10 <= i)%nat -> nth i (frame size seq p) 0 <> b ->
  (spi_get_read_buf true (fun _ => Some (<[i := b]> (frame size seq p))) th).2 = Error.
Proof.
  intros Hs [Hp Hb] (Eb & Et & Ha & Hr & Hl & Hl' & Ht & Hx) Hbb Hi Hr' Hn. unfold spi_get_read_buf. rewrite Et. cbn [negb snd].
  assert (length (frame size seq p) = Z.to_nat (size + SPI_FRAME_OVERHEAD)) as Hfr.
  { unfold frame, SPI_FRAME_OVERHEAD. rewrite length_app, length_head, le_bytes_length. lia. }
  rewrite length_insert, (drop_ge (nth _ _ _)), app_nil_r by (rewrite (buf_length _ _ _ Hx); lia).
  apply frame_corrupt; try done. rewrite Hfr. unfold SPI_FRAME_OVERHEAD. lia.
Qed.

Lemma spi_one_wrong_byte_witness :
  (spi_get_read_buf true (fun _ => Some (<[11%nat := 9]> (frame 3 0 [1; 2; 3]))) (spi_init 3)).2 = Error.
Proof.
  apply (spi_one_wrong_byte 3 0 [1; 2; 3] 11 9 (spi_init 3)).
  - lia.
  - split; [reflexivity|]. repeat constructor; lia.
  - apply live_init.
  - split; lia.
  - vm_compute. lia.
  - lia.
  - vm_compute. done.
Defined.

(** The length field is used before anything vouches for it: a frame whose
    length is larger than the buffer makes the receiver read behind it. *)
Lemma long_length_reads_outside :
  (spi_get_read_buf true (fun _ => Some (<[7%nat := 1]> (frame 3 0 [1; 2; 3]))) (spi_init 3)).2 = OutOfBounds.
Proof. vm_compute. done. Qed.

(** Every submitted frame is counted twice, in the wrapper and in the driver. *)
Lemma submit_counts_twice xfer idx th th' wire :
  transport_submit_write xfer idx th = (th', true, wire) -> total_frames th' = total_frames th + 2.
Proof.
  unfold transport_submit_write, spi_submit_write. cbn. repeat case_match; intros [= <- <-]; cbn. lia.
Qed.

End Spi.
