(* ===== verification/GwSpi.v ===== *)
(** * The SPI slave of the gateware ([spi_slave.v])

    The dual-clock FIFOs with Gray-coded pointers between the SPI clock and the
    system clock, as a small machine whose two sides take edges in any order;
    the shift register that makes bytes of bits; and the protocol state machine
    that parses frames.  A pointer read by the other clock domain is the value
    of some earlier edge (two synchronizer registers); metastability is not
    modelled. *)
From S2P Require Import Prelude Ring PyStruct GwStream SpiTransport.
Open Scope Z_scope.

(** ** Dual-clock FIFO *)
Module Cdc.
Import Ring Gw.

(** [(b + 1) ^ ((b + 1) >> 1)] is the Gray code of the next pointer. *)
Definition gray (b : Z) : Z := Z.lxor b (Z.shiftr b 1).
Definition next_bin (b : Z) : Z := wrap 5 (b + 1).

Record regs := Regs {
  mem : list Z;
  wptr_bin : Z; wptr_gray : Z; rptr_gray_sync1 : Z; rptr_gray_sync2 : Z;     (* write side *)
  rptr_bin : Z; rptr_gray : Z; wptr_gray_sync1 : Z; wptr_gray_sync2 : Z }.   (* read side *)

Definition reset (m : list Z) : regs := Regs m 0 0 0 0 0 0 0 0.

(** The two upper bits inverted. *)
Definition flip (g : Z) : Z := Z.lxor g 24.
Definition full (s : regs) : bool := wptr_gray s =? flip (rptr_gray_sync2 s).
Definition empty (s : regs) : bool := rptr_gray s =? wptr_gray_sync2 s.
Definition rdata (s : regs) : Z := nth (Z.to_nat (wrap 4 (rptr_bin s))) (mem s) 0.

(** An edge of the write clock, with the byte to write if there is one. *)
Definition wedge (s : regs) (d : option Z) : regs :=
  match d with
  | Some b =>
      if full s then Regs (mem s) (wptr_bin s) (wptr_gray s) (rptr_gray s) (rptr_gray_sync1 s)
                          (rptr_bin s) (rptr_gray s) (wptr_gray_sync1 s) (wptr_gray_sync2 s)
      else Regs (<[Z.to_nat (wrap 4 (wptr_bin s)) := b]> (mem s)) (next_bin (wptr_bin s)) (gray (next_bin (wptr_bin s)))
                (rptr_gray s) (rptr_gray_sync1 s)
                (rptr_bin s) (rptr_gray s) (wptr_gray_sync1 s) (wptr_gray_sync2 s)
  | None => Regs (mem s) (wptr_bin s) (wptr_gray s) (rptr_gray s) (rptr_gray_sync1 s)
                 (rptr_bin s) (rptr_gray s) (wptr_gray_sync1 s) (wptr_gray_sync2 s)
  end.

(** An edge of the read clock; [rd] is the reader's request. *)
Definition redge (s : regs) (rd : bool) : regs :=
  if negb (empty s) && rd
  then Regs (mem s) (wptr_bin s) (wptr_gray s) (rptr_gray_sync1 s) (rptr_gray_sync2 s)
            (next_bin (rptr_bin s)) (gray (next_bin (rptr_bin s))) (wptr_gray s) (wptr_gray_sync1 s)
  else Regs (mem s) (wptr_bin s) (wptr_gray s) (rptr_gray_sync1 s) (rptr_gray_sync2 s)
            (rptr_bin s) (rptr_gray s) (wptr_gray s) (wptr_gray_sync1 s).

Inductive ev := W (d : option Z) | R (rd : bool).

Definition step (s : regs) (e : ev) : regs := match e with W d => wedge s d | R rd => redge s rd end.
Definition put (s : regs) (e : ev) : list Z :=
  match e with W (Some b) => if full s then [] else [b] | _ => [] end.
Definition got (s : regs) (e : ev) : list Z :=
  match e with R true => if empty s then [] else [rdata s] | _ => [] end.

Fixpoint run (s : regs) (es : list ev) : regs * list Z * list Z :=
  match es with
  | [] => (s, [], [])
  | e :: es => let '(s', ps, gs) := run (step s e) es in (s', put s e ++ ps, got s e ++ gs)
  end.

(** *** Pointers as counters

    [w] and [r] count the writes and the reads; the synchronizers hold counts of
    the past. *)
Definition ptr (n : Z) : Z := n mod 32.

Record rel (s : regs) (w r w1 w2 r1 r2 : Z) (q : list Z) : Prop := {
  p_w : wptr_bin s = ptr w /\ wptr_gray s = gray (ptr w);
  p_r : rptr_bin s = ptr r /\ rptr_gray s = gray (ptr r);
  p_w1 : wptr_gray_sync1 s = gray (ptr w1);
  p_w2 : wptr_gray_sync2 s = gray (ptr w2);
  p_r1 : rptr_gray_sync1 s = gray (ptr r1);
  p_r2 : rptr_gray_sync2 s = gray (ptr r2);
  p_order : 0 <= r2 <= r1 /\ r1 <= r <= w2 /\ w2 <= w1 <= w /\ w <= r2 + 16;
  p_q : Z.of_nat (length q) = w - r;
  p_mem : holds 16 (mem s) (Z.to_nat r mod 16) q }.

(** Gray codes of five bits differ, and one is another with the two upper bits
    inverted exactly for pointers half a turn apart. *)
Definition gray_table : bool :=
  forallb (fun a => forallb (fun b =>
    let a := Z.of_nat a in let b := Z.of_nat b in
    Bool.eqb (gray a =? gray b) (a =? b) && Bool.eqb (gray a =? flip (gray b)) (a =? (b + 16) mod 32)) (seq 0 32)) (seq 0 32).

Lemma gray_table_ok : gray_table = true.
Proof. vm_compute. done. Qed.

Lemma gray_ptr a b :
  (gray (ptr a) =? gray (ptr b)) = (ptr a =? ptr b) /\
  (gray (ptr a) =? flip (gray (ptr b))) = (ptr a =? (ptr b + 16) mod 32).
Proof.
  pose proof gray_table_ok as H. unfold gray_table in H. rewrite forallb_forall in H.
  pose proof (Z.mod_pos_bound a 32) as Ha. pose proof (Z.mod_pos_bound b 32) as Hb. unfold ptr in *.
  specialize (H (Z.to_nat (a mod 32))). rewrite forallb_forall in H.
  specialize (H ltac:(apply in_seq; lia) (Z.to_nat (b mod 32)) ltac:(apply in_seq; lia)).
  rewrite !Z2Nat.id in H by lia. apply andb_true_iff in H as [H1 H2]. split; by apply eqb_prop.
Qed.

Lemma cdc_full s w r w1 w2 r1 r2 q : rel s w r w1 w2 r1 r2 q -> full s = (w =? r2 + 16).
Proof.
  intros H. unfold full. destruct (p_w _ _ _ _ _ _ _ _ H) as [_ ->]. rewrite (p_r2 _ _ _ _ _ _ _ _ H), (proj2 (gray_ptr w r2)).
  pose proof (p_order _ _ _ _ _ _ _ _ H). unfold ptr. rewrite Zplus_mod_idemp_l.
  destruct (Z.eqb_spec w (r2 + 16)) as [->|Hn]; [apply Z.eqb_refl|]. apply Z.eqb_neq. intros E. apply Hn.
  pose proof (Z.div_mod w 32). pose proof (Z.div_mod (r2 + 16) 32). pose proof (Z.mod_pos_bound w 32). lia.
Qed.

Lemma cdc_empty s w r w1 w2 r1 r2 q : rel s w r w1 w2 r1 r2 q -> empty s = (r =? w2).
Proof.
  intros H. unfold empty. destruct (p_r _ _ _ _ _ _ _ _ H) as [_ ->]. rewrite (p_w2 _ _ _ _ _ _ _ _ H), (proj1 (gray_ptr r w2)).
  pose proof (p_order _ _ _ _ _ _ _ _ H). unfold ptr.
  destruct (Z.eqb_spec r w2) as [->|Hn]; [apply Z.eqb_refl|]. apply Z.eqb_neq. intros E. apply Hn.
  pose proof (Z.div_mod w2 32). pose proof (Z.div_mod r 32). lia.
Qed.

Lemma next_ptr n : next_bin (ptr n) = ptr (n + 1).
Proof. unfold next_bin, ptr, wrap. change (2 ^ 5) with 32. by rewrite Zplus_mod_idemp_l. Qed.

Lemma addr_ptr n : 0 <= n -> Z.to_nat (wrap 4 (ptr n)) = (Z.to_nat n mod 16)%nat.
Proof.
  intros Hn. unfold wrap, ptr. change (2 ^ 4) with 16. rewrite <-(Znumtheory.Zmod_div_mod 16 32 n); [|done|done|by exists 2].
  by rewrite Z2Nat.inj_mod.
Qed.

Lemma rel_sync_w s w r w1 w2 r1 r2 q :
  rel s w r w1 w2 r1 r2 q -> rel (wedge s None) w r w1 w2 r r1 q.
Proof. intros []. constructor; cbn; naive_solver lia. Qed.

Lemma rel_wedge s w r w1 w2 r1 r2 q d :
  rel s w r w1 w2 r1 r2 q ->
  rel (wedge s d) (w + Z.of_nat (length (put s (W d)))) r w1 w2 r r1 (q ++ put s (W d)).
Proof.
  intros H. pose proof (cdc_full _ _ _ _ _ _ _ _ H) as Hf. destruct d as [b|]; cbn [put].
  2:{ rewrite app_nil_r, Z.add_0_r. by eapply rel_sync_w. }
  unfold wedge. destruct (full s) eqn:Ef.
  { rewrite app_nil_r, Z.add_0_r. by apply (rel_sync_w _ _ _ _ _ _ _ _ H). }
  symmetry in Hf. apply Z.eqb_neq in Hf. destruct H as [[Hwb Hwg] [Hrb Hrg] H1 H2 H3 H4 H5 H6 H7].
  constructor; cbn [mem wptr_bin wptr_gray rptr_bin rptr_gray rptr_gray_sync1 rptr_gray_sync2 wptr_gray_sync1 wptr_gray_sync2 length Z.of_nat Pos.of_succ_nat];
    try done; try lia.
  - by rewrite Hwb, next_ptr.
  - rewrite length_app. cbn. lia.
  - rewrite Hwb, addr_ptr by lia.
    assert (Z.to_nat w mod 16 = (Z.to_nat r mod 16 + length q) mod 16)%nat as Ew.
    { rewrite Nat.Div0.add_mod_idemp_l. f_equal. lia. }
    pose proof (Nat.mod_upper_bound (Z.to_nat w) 16). pose proof (Nat.mod_upper_bound (Z.to_nat r) 16).
    rewrite (insert_take_drop _ _ b) by (rewrite (proj1 H7); lia).
    replace (S (Z.to_nat w mod 16)) with (Z.to_nat w mod 16 + length [b])%nat by (cbn [length]; lia).
    apply (holds_push 16 (mem s) (Z.to_nat r mod 16) q [b]); cbn [length]; [done|lia|done|lia|lia].
Qed.

Lemma rel_redge s w r w1 w2 r1 r2 q rd :
  rel s w r w1 w2 r1 r2 q ->
  rel (redge s rd) w (r + Z.of_nat (length (got s (R rd)))) w w1 r1 r2 (drop (length (got s (R rd))) q) /\
  got s (R rd) = take (length (got s (R rd))) q.
Proof.
  intros H. pose proof (cdc_empty _ _ _ _ _ _ _ _ H) as He. unfold redge. cbn [got].
  destruct H as [[Hwb Hwg] [Hrb Hrg] H1 H2 H3 H4 H5 H6 H7].
  destruct rd; [destruct (empty s) eqn:Ee|]; cbn [negb andb length].
  - rewrite drop_0, take_0, Z.add_0_r. split; [|done]. by constructor; cbn; try done; try lia.
  - symmetry in He. apply Z.eqb_neq in He. destruct q as [|x q]; [cbn in H6; lia|]. cbn [length] in H6.
    pose proof (Nat.mod_upper_bound (Z.to_nat r) 16).
    split.
    + constructor; cbn [mem wptr_bin wptr_gray rptr_bin rptr_gray rptr_gray_sync1 rptr_gray_sync2 wptr_gray_sync1 wptr_gray_sync2];
        try done; try lia.
      * rewrite Hrb, next_ptr. by change (Z.of_nat 1) with 1.
      * rewrite length_drop. cbn [length]. lia.
      * replace (Z.to_nat (r + Z.of_nat 1) mod 16)%nat with ((Z.to_nat r mod 16 + 1) mod 16)%nat.
        { apply (holds_drop 16 (mem s) _ (x :: q) 1); [done|lia|cbn [length]; lia]. }
        rewrite Nat.Div0.add_mod_idemp_l. f_equal. lia.
    + cbn. rewrite take_0. f_equal. unfold rdata. rewrite Hrb, addr_ptr by lia. apply nth_lookup_Some.
      destruct H7 as [_ H7]. specialize (H7 0%nat ltac:(cbn; lia)). rewrite Nat.add_0_r, Nat.mod_small in H7 by lia. done.
  - replace (negb (empty s) && false) with false by (by destruct (empty s)).
    rewrite drop_0, take_0, Z.add_0_r. split; [|done]. by constructor; cbn; try done; try lia.
Qed.

Lemma cdc_run es : forall s w r w1 w2 r1 r2 q, rel s w r w1 w2 r1 r2 q ->
  let '(s', ps, gs) := run s es in
  exists w' r' w1' w2' r1' r2' q', rel s' w' r' w1' w2' r1' r2' q' /\ q ++ ps = gs ++ q'.
Proof.
  induction es as [|e es IH]; intros s w r w1 w2 r1 r2 q H; cbn [run].
  { do 7 eexists. split; [exact H|]. by rewrite app_nil_r. }
  destruct e as [d|rd].
  - specialize (IH _ _ _ _ _ _ _ _ (rel_wedge _ _ _ _ _ _ _ _ d H)). cbn [step].
    destruct (run (wedge s d) es) as [[s' ps] gs]. destruct IH as (w' & r' & w1' & w2' & r1' & r2' & q' & H' & E).
    do 7 eexists. split; [exact H'|]. rewrite app_assoc, E. done.
  - destruct (rel_redge _ _ _ _ _ _ _ _ rd H) as [H0 Eg]. specialize (IH _ _ _ _ _ _ _ _ H0). cbn [step].
    destruct (run (redge s rd) es) as [[s' ps] gs]. destruct IH as (w' & r' & w1' & w2' & r1' & r2' & q' & H' & E).
    do 7 eexists. split; [exact H'|]. rewrite <-app_assoc, <-E. cbn [put app]. rewrite app_assoc. rewrite Eg at 1. by rewrite take_drop.
Qed.

Lemma cdc_reset m : length m = 16%nat -> rel (reset m) 0 0 0 0 0 0 [].
Proof. intros H. constructor; cbn; try done; try lia. split; [done|]. cbn. lia. Qed.

(** Once the write pointer has passed the synchronizers every edge reads a
    byte. *)
Lemma drain_synced n : forall s w r r1 r2 q, rel s w r w w r1 r2 q -> (length q <= n)%nat ->
  let '(_, ps, gs) := run s (replicate n (R true)) in ps = [] /\ gs = q.
Proof.
  induction n as [|n IH]; intros s w r r1 r2 q H Hn.
  { cbn. by destruct q; [|cbn in Hn; lia]. }
  cbn [replicate run step put app]. destruct (rel_redge _ _ _ _ _ _ _ _ true H) as [H' Eg].
  specialize (IH _ _ _ _ _ _ H').
  assert (length (got s (R true)) = if (r =? w)%Z then 0 else 1)%nat as El.
  { cbn [got]. rewrite (cdc_empty _ _ _ _ _ _ _ _ H). by destruct (r =? w). }
  assert (length (drop (length (got s (R true))) q) <= n)%nat as Hd.
  { rewrite length_drop, El. pose proof (p_q _ _ _ _ _ _ _ _ H). destruct (Z.eqb_spec r w); lia. }
  specialize (IH Hd). destruct (run (redge s true) (replicate n (R true))) as [[s' ps] gs]. destruct IH as [-> ->].
  split; [done|]. rewrite Eg at 1. by rewrite take_drop.
Qed.

Lemma cdc_drains s w r w1 w2 r1 r2 q : rel s w r w1 w2 r1 r2 q ->
  let '(_, ps, gs) := run s (replicate 18 (R true)) in ps = [] /\ gs = q.
Proof.
  intros H. change (replicate 18 (R true)) with (R true :: R true :: replicate 16 (R true)).
  assert (length q <= 16)%nat as Hq by (pose proof (p_order _ _ _ _ _ _ _ _ H); pose proof (p_q _ _ _ _ _ _ _ _ H); lia).
  cbn [run step put app]. destruct (rel_redge _ _ _ _ _ _ _ _ true H) as [Ha Ea].
  destruct (rel_redge _ _ _ _ _ _ _ _ true Ha) as [Hb Eb].
  pose proof (drain_synced 16 _ _ _ _ _ _ Hb) as Hd. rewrite !length_drop in Hd. specialize (Hd ltac:(lia)).
  destruct (run (redge (redge s true) true) (replicate 16 (R true))) as [[s' ps] gs]. destruct Hd as [-> ->].
  split; [done|]. rewrite Eb at 1. rewrite take_drop. rewrite Ea at 1. by rewrite take_drop.
Qed.

(** The dual-clock FIFO keeps order: for every interleaving of edges of
    the two clocks, what the reader got followed by what is stored, at most 16
    bytes, is what the writer put in, although each side sees the other's
    pointer two edges late and in Gray code.  And nothing stays behind: 18
    edges of the read clock deliver everything stored. *)
Theorem cdc_order (m : list Z) (es : list ev) :
  length m = 16%nat ->
  let '(s, ps, gs) := run (reset m) es in
  exists q, ps = gs ++ q /\ (length q <= 16)%nat /\ (run s (replicate 18 (R true))).2 = q.
Proof.
  intros Hm. pose proof (cdc_run es _ _ _ _ _ _ _ _ (cdc_reset m Hm)) as H.
  destruct (run (reset m) es) as [[s' ps] gs]. destruct H as (w & r & w1 & w2 & r1 & r2 & q & H & E).
  exists q. pose proof (p_order _ _ _ _ _ _ _ _ H). pose proof (p_q _ _ _ _ _ _ _ _ H).
  pose proof (cdc_drains _ _ _ _ _ _ _ _ H) as Hd. destruct (run s' (replicate 18 (R true))) as [[? ?] ?].
  split; [done|]. split; [lia|]. apply Hd.
Qed.

Lemma cdc_order_witness :
  let '(s, ps, gs) := run (reset (replicate 16 0)) [W (Some 5); R true; W (Some 6); R true; R true; R true] in
  exists q, ps = gs ++ q /\ (length q <= 16)%nat /\ (run s (replicate 18 (R true))).2 = q.
Proof. apply (cdc_order (replicate 16 0) [W (Some 5); R true; W (Some 6); R true; R true; R true]). reflexivity. Defined.

End Cdc.

(** ** Bits to bytes *)
Module Bits.
Import Gw.

Record regs := Regs { spi_rx_shift : Z; spi_bit_cnt : Z; spi_byte_ready : bool; spi_rx_byte : Z }.

(** The registers while chip select is off; [spi_rx_byte] is not reset. *)
Definition deselect (s : regs) : regs := Regs 0 0 false (spi_rx_byte s).

(** A rising edge of the SPI clock. *)
Definition edge (s : regs) (mosi : bool) : regs :=
  let v := wrap 8 (2 * spi_rx_shift s + Z.b2z mosi) in
  let last := spi_bit_cnt s =? 7 in
  Regs v (wrap 3 (spi_bit_cnt s + 1)) last (if last then v else spi_rx_byte s).

(** What the edge writes into the FIFO: the byte registered before it. *)
Definition pushed (s : regs) : option Z := if spi_byte_ready s then Some (spi_rx_byte s) else None.

Fixpoint run (s : regs) (bs : list bool) : regs * list Z :=
  match bs with
  | [] => (s, [])
  | b :: bs => let '(s', ps) := run (edge s b) bs in (s', (match pushed s with Some x => [x] | None => [] end) ++ ps)
  end.

(** The bits of a byte, most significant first. *)
Definition byte_bits (x : Z) : list bool := map (fun i => Z.testbit x i) [7; 6; 5; 4; 3; 2; 1; 0].

Definition of_bits (a : Z) (bs : list bool) : Z := foldl (fun a b => 2 * a + Z.b2z b) a bs.

Lemma of_byte_bits x sh : 0 <= x < 256 -> of_bits sh (byte_bits x) = 256 * sh + x.
Proof.
  intros Hx. assert (of_bits 0 (byte_bits x) = x) as E.
  { enough (forallb (fun n => of_bits 0 (byte_bits (Z.of_nat n)) =? Z.of_nat n) (seq 0 256) = true) as H.
    - rewrite forallb_forall in H. specialize (H (Z.to_nat x) ltac:(apply in_seq; lia)). rewrite Z2Nat.id in H by lia. by apply Z.eqb_eq.
    - vm_compute. done. }
  rewrite <-E at 2. unfold of_bits, byte_bits. cbn [map foldl]. lia.
Qed.

Lemma wrap_shift a b : wrap 8 (2 * wrap 8 a + b) = wrap 8 (2 * a + b).
Proof. unfold wrap. by rewrite <-Zplus_mod_idemp_l, Zmult_mod_idemp_r, Zplus_mod_idemp_l. Qed.

Lemma edge_low c sh r y b : (c =? 7) = false -> edge (Regs sh c r y) b = Regs (wrap 8 (2 * sh + Z.b2z b)) (wrap 3 (c + 1)) false y.
Proof. intros H. unfold edge. cbn. by rewrite H. Qed.

(** A byte shifted in is registered with its eighth bit and written with the
    next edge. *)
Lemma byte_shift x sh r y : 0 <= x < 256 ->
  run (Regs sh 0 r y) (byte_bits x) = (Regs x 0 true x, if r then [y] else []).
Proof.
  intros Hx. assert (wrap 8 (of_bits sh (byte_bits x)) = x) as E.
  { rewrite of_byte_bits by done. unfold wrap. change (2 ^ 8) with 256. rewrite Z.add_comm, Z.mul_comm, Z_mod_plus_full. by apply Z.mod_small. }
  revert E. unfold of_bits, byte_bits. cbn [map foldl run].
  do 7 (rewrite edge_low by done; rewrite ?wrap_shift). unfold edge, pushed. cbn [spi_byte_ready spi_rx_shift spi_rx_byte spi_bit_cnt].
  rewrite !wrap_shift. intros ->. by destruct r.
Qed.

Lemma last_default {A} (xs : list A) : forall z d, List.last (z :: xs) d = List.last xs z.
Proof.
  induction xs as [|a xs IH]; intros z d; [done|]. change (List.last (a :: xs) d = List.last (a :: xs) z). by rewrite !IH.
Qed.

(** Shifting bytes in writes all but the last of them. *)
Lemma bytes_shift xs : forall x sh r y, Forall byte_ok (x :: xs) ->
  run (Regs sh 0 r y) (flat_map byte_bits (x :: xs)) =
    (let l := List.last xs x in Regs l 0 true l, (if r then [y] else []) ++ removelast (x :: xs)).
Proof.
  induction xs as [|z xs IH]; intros x sh r y H; apply list.Forall_cons in H as [Hx H].
  - cbn [flat_map List.last removelast]. rewrite !app_nil_r. by apply byte_shift.
  - assert (forall s l k, run s (l ++ k) = let '(s1, p1) := run s l in let '(s2, p2) := run s1 k in (s2, p1 ++ p2)) as Happ.
    { clear. intros s l k. revert s. induction l as [|b l IH]; intros s; cbn [run app]; [by destruct (run s k)|].
      rewrite IH. destruct (run (edge s b) l) as [s1 p1]. destruct (run s1 k). by rewrite app_assoc. }
    change (flat_map byte_bits (x :: z :: xs)) with (byte_bits x ++ flat_map byte_bits (z :: xs)).
    rewrite Happ, byte_shift, IH by done. cbn zeta. by rewrite last_default.
Qed.

End Bits.

(** ** The receive side: shift register and FIFO, with chip select *)
Module Rx.

Record regs := Regs { bits : Bits.regs; cdc : Cdc.regs }.
Inductive ev := Sclk (mosi : bool) | Clk (rx_fifo_ready : bool) | CsHigh.

Definition reset (m : list Z) : regs := Regs (Bits.Regs 0 0 false 0) (Cdc.reset m).

(** Chip select resets the registers of the SPI clock domain, the write pointer
    and the synchronizer of the read pointer among them. *)
Definition deselect (c : Cdc.regs) : Cdc.regs :=
  Cdc.Regs (Cdc.mem c) 0 0 0 0 (Cdc.rptr_bin c) (Cdc.rptr_gray c) (Cdc.wptr_gray_sync1 c) (Cdc.wptr_gray_sync2 c).

Definition step (s : regs) (e : ev) : regs :=
  match e with
  | Sclk mosi => Regs (Bits.edge (bits s) mosi) (Cdc.wedge (cdc s) (Bits.pushed (bits s)))
  | Clk r => Regs (bits s) (Cdc.redge (cdc s) r)
  | CsHigh => Regs (Bits.deselect (bits s)) (deselect (cdc s))
  end.

Definition got (s : regs) (e : ev) : list Z := match e with Clk r => Cdc.got (cdc s) (Cdc.R r) | _ => [] end.

Fixpoint run (s : regs) (es : list ev) : regs * list Z :=
  match es with
  | [] => (s, [])
  | e :: es => let '(s', gs) := run (step s e) es in (s', got s e ++ gs)
  end.

(** The last byte of a transaction is never written: its write would come with
    the next edge of the SPI clock, and chip select clears it. *)
Lemma last_byte_lost :
  (run (reset (replicate 16 0)) (map Sclk (flat_map Bits.byte_bits [17; 34; 51]) ++ replicate 6 (Clk true) ++ [CsHigh] ++ replicate 1 (Clk true))).2
  = [17; 34].
Proof. vm_compute. done. Qed.

(** Chip select clears the write pointer but not the read pointer: after a
    transaction whose two bytes were read, the reader takes the FIFO for full
    and reads fourteen bytes that nobody sent, then the two again. *)
Lemma reselect_reads_stale_bytes :
  (run (reset (replicate 16 99))
    (map Sclk (flat_map Bits.byte_bits [17; 34; 51]) ++ replicate 6 (Clk true) ++ [CsHigh] ++ replicate 20 (Clk true))).2
  = [17; 34] ++ replicate 14 99 ++ [17; 34; 99; 99].
Proof. vm_compute. done. Qed.

End Rx.

(** ** The protocol state machine *)
Module Framing.
Import Gw.

Definition SYNC_WORD : Z := 0x48415400.

(** The states it can be in; [S_SYNC], [S_REG_EXEC] and [S_ERROR] are never
    entered. *)
Inductive state := S_IDLE | S_SEQ | S_LEN | S_CMD | S_PAYLOAD | S_CRC.

Record regs := Regs {
  st : state; sync_shift : Z; seq_reg : Z; len_reg : Z; cmd_reg : Z; crc_shift : Z;
  byte_cnt : Z; hdr_byte_cnt : Z; crc_err : bool;
  ra_addr : Z; ra_wdata : Z; ra_wr_pulse : bool; ra_rd_pulse : bool; ra_byte_idx : Z }.

(** [crc_shift] is not reset; its old bits are shifted out before it is used. *)
Definition reset : regs := Regs S_IDLE 0 0 0 0 0 0 0 false 0 0 false false 0.

(** [{reg[w-9:0], rx_data}]. *)
Definition shift_in (w reg b : Z) : Z := wrap w (reg * 256 + b).

(** [reg[hi:lo] <= b], for a byte of the register. *)
Definition set_byte (lo reg b : Z) : Z := reg - bits (lo + 7) lo reg * 2 ^ lo + b * 2 ^ lo.

(** A byte of a register command in the payload. *)
Definition reg_byte (s : regs) (b : Z) : Z * Z * bool * Z :=
  if cmd_reg s =? 0x01 then
    let i := ra_byte_idx s in
    (if i =? 0 then b else ra_addr s,
     if i =? 1 then set_byte 24 (ra_wdata s) b else if i =? 2 then set_byte 16 (ra_wdata s) b
     else if i =? 3 then set_byte 8 (ra_wdata s) b else ra_wdata s,
     false, wrap 2 (i + 1))
  else if cmd_reg s =? 0x02 then
    (if ra_byte_idx s =? 0 then b else ra_addr s, ra_wdata s, ra_byte_idx s =? 0, wrap 2 (ra_byte_idx s + 1))
  else (ra_addr s, ra_wdata s, false, ra_byte_idx s).

(** One edge; [rx] is the byte when [rx_valid && rx_ready]. *)
Definition edge (s : regs) (rx : option Z) : regs :=
  match rx with
  | None =>
      Regs (st s) (sync_shift s) (seq_reg s) (len_reg s) (cmd_reg s) (crc_shift s) (byte_cnt s) (hdr_byte_cnt s)
           (match st s with S_IDLE => false | _ => crc_err s end)
           (ra_addr s) (ra_wdata s) false false (ra_byte_idx s)
  | Some b =>
      match st s with
      | S_IDLE =>
          let v := shift_in 32 (sync_shift s) b in
          let m := v =? SYNC_WORD in
          Regs (if m then S_SEQ else S_IDLE) v (seq_reg s) (len_reg s) (cmd_reg s) (crc_shift s) (byte_cnt s)
               (if m then 0 else hdr_byte_cnt s) false (ra_addr s) (ra_wdata s) false false (ra_byte_idx s)
      | S_SEQ =>
          let l := hdr_byte_cnt s =? 1 in
          Regs (if l then S_LEN else S_SEQ) (sync_shift s) (shift_in 16 (seq_reg s) b) (len_reg s) (cmd_reg s) (crc_shift s)
               (byte_cnt s) (if l then 0 else wrap 3 (hdr_byte_cnt s + 1)) (crc_err s)
               (ra_addr s) (ra_wdata s) false false (ra_byte_idx s)
      | S_LEN =>
          let l := hdr_byte_cnt s =? 3 in
          Regs (if l then S_CMD else S_LEN) (sync_shift s) (seq_reg s) (shift_in 32 (len_reg s) b) (cmd_reg s) (crc_shift s)
               (byte_cnt s) (if l then 0 else wrap 3 (hdr_byte_cnt s + 1)) (crc_err s)
               (ra_addr s) (ra_wdata s) false false (ra_byte_idx s)
      | S_CMD =>
          Regs S_PAYLOAD (sync_shift s) (seq_reg s) (len_reg s) b (crc_shift s) 1 (hdr_byte_cnt s) (crc_err s)
               (ra_addr s) (ra_wdata s) false false
               (if (b =? 0x01) || (b =? 0x02) then 0 else ra_byte_idx s)
      | S_PAYLOAD =>
          let '(addr, wdata, rd, i) := reg_byte s b in
          let l := len_reg s <=? byte_cnt s in
          let wr := l && (cmd_reg s =? 0x01) && (ra_byte_idx s =? 3) in
          Regs (if l then S_CRC else S_PAYLOAD) (sync_shift s) (seq_reg s) (len_reg s) (cmd_reg s) (crc_shift s)
               (wrap 32 (byte_cnt s + 1)) (if l then 0 else hdr_byte_cnt s) (crc_err s)
               addr (if wr then set_byte 0 wdata b else wdata) wr rd i
      | S_CRC =>
          let v := shift_in 32 (crc_shift s) b in
          let l := hdr_byte_cnt s =? 3 in
          Regs (if l then S_IDLE else S_CRC) (sync_shift s) (seq_reg s) (len_reg s) (cmd_reg s) v
               (byte_cnt s) (wrap 3 (hdr_byte_cnt s + 1)) (if l && (v =? 0xDEADBEEF) then true else crc_err s)
               (ra_addr s) (ra_wdata s) false false (ra_byte_idx s)
      end
  end.

(** The bytes that [top.v] lets into the data path: those of the payload of a
    [WRITE_DATA] command. *)
Definition to_pipe (s : regs) (rx : option Z) : list Z :=
  match st s, rx with S_PAYLOAD, Some b => if cmd_reg s =? 0x10 then [b] else [] | _, _ => [] end.

Fixpoint run (s : regs) (rxs : list (option Z)) : regs * list Z :=
  match rxs with
  | [] => (s, [])
  | rx :: rxs => let '(s', ps) := run (edge s rx) rxs in (s', to_pipe s rx ++ ps)
  end.

(** Big endian, as the state machine shifts it in. *)
Definition be_bytes (n : nat) (z : Z) : bytes := rev (le_bytes n z).

Definition frame (seq len cmd : Z) (payload crc : bytes) : bytes :=
  be_bytes 4 SYNC_WORD ++ be_bytes 2 seq ++ be_bytes 4 len ++ [cmd] ++ payload ++ crc.

Lemma bus_run_app s l k : run s (l ++ k) = let '(s1, p1) := run s l in let '(s2, p2) := run s1 k in (s2, p1 ++ p2).
Proof.
  revert s. induction l as [|x l IH]; intros s; cbn [run app]; [by destruct (run s k)|].
  rewrite IH. destruct (run (edge s x) l) as [s1 p1]. destruct (run s1 k). by rewrite app_assoc.
Qed.

(** *** Edges without a byte change nothing but pulses *)
Definition core (s : regs) : regs :=
  Regs (st s) (sync_shift s) (seq_reg s) (len_reg s) (cmd_reg s) (crc_shift s) (byte_cnt s) (hdr_byte_cnt s)
       false (ra_addr s) (ra_wdata s) false false (ra_byte_idx s).

Lemma core_edge s b : core (edge s (Some b)) = core (edge (core s) (Some b)).
Proof. destruct s as [[]]; try done; cbn; unfold reg_byte; cbn; repeat case_match; by simplify_eq. Qed.

Lemma core_idle s : core (edge s None) = core s.
Proof. by destruct s as [[]]. Qed.

Lemma to_pipe_core s rx : to_pipe s rx = to_pipe (core s) rx.
Proof. done. Qed.

Lemma run_bytes rxs : forall s s', core s = core s' ->
  core (run s rxs).1 = core (run s' (map Some (omap id rxs))).1 /\ (run s rxs).2 = (run s' (map Some (omap id rxs))).2.
Proof.
  induction rxs as [|[b|] rxs IH]; intros s s' E; [done|..].
  - change (omap id (Some b :: rxs)) with (b :: omap id rxs). cbn [map run].
    specialize (IH (edge s (Some b)) (edge s' (Some b))).
    destruct (run (edge s (Some b)) rxs), (run (edge s' (Some b)) _). cbn [fst snd] in *.
    destruct IH as [H1 H2]; [by rewrite core_edge, E, <-core_edge|]. split; [done|].
    by rewrite H2, to_pipe_core, E, <-to_pipe_core.
  - change (omap id (None :: rxs)) with (omap id rxs). cbn [run]. specialize (IH (edge s None) s'). destruct (run (edge s None) rxs). cbn [fst snd] in *.
    destruct IH as [H1 H2]; [by rewrite core_idle|]. split; [done|]. rewrite H2.
    unfold to_pipe. by destruct (st s).
Qed.

(** *** The phases of a frame *)
Lemma shift_in_be n w reg z : (0 < n)%nat -> Z.of_nat n * 8 = w -> 0 <= z < 2 ^ w -> foldl (shift_in w) reg (be_bytes n z) = z.
Proof.
  intros Hn Hw Hz. assert (forall bs reg, Forall byte_ok bs -> foldl (shift_in w) reg bs mod 2 ^ w =
    (reg * 256 ^ Z.of_nat (length bs) + le_val (rev bs)) mod 2 ^ w) as H.
  { clear. intros bs. induction bs as [|b bs IH] using rev_ind; intros reg Hb.
    - cbn. f_equal. lia.
    - apply list.Forall_app in Hb as [Hb Hb']. apply list.Forall_cons in Hb' as [Hb' _].
      rewrite foldl_app, rev_app_distr, length_app. cbn [foldl length rev app le_val]. unfold shift_in at 1, wrap.
      rewrite Zmod_mod, <-Zplus_mod_idemp_l, <-Zmult_mod_idemp_l, IH, Zmult_mod_idemp_l, Zplus_mod_idemp_l by done.
      f_equal. rewrite Nat2Z.inj_add, Z.pow_add_r by lia. change (256 ^ Z.of_nat 1) with 256. lia. }
  assert (foldl (shift_in w) reg (be_bytes n z) = foldl (shift_in w) reg (be_bytes n z) mod 2 ^ w) as ->.
  { destruct n as [|n]; [lia|].
    unfold be_bytes. cbn [le_bytes rev]. rewrite foldl_app. cbn [foldl]. unfold shift_in at 1 3, wrap. by rewrite Zmod_mod. }
  rewrite H by (apply Forall_rev, le_bytes_ok). unfold be_bytes. rewrite rev_involutive, length_rev, le_bytes_length.
  replace (256 ^ Z.of_nat n) with (2 ^ w) by (rewrite <-Hw, Z.mul_comm, Z.pow_mul_r by lia; done).
  rewrite Z.add_comm, Z_mod_plus_full, le_val_bytes.
  replace (256 ^ Z.of_nat n) with (2 ^ w) by (rewrite <-Hw, Z.mul_comm, Z.pow_mul_r by lia; done). rewrite Zmod_mod. by apply Z.mod_small.
Qed.

(** What one byte does to the fields of the frame header. *)
Definition header (s : regs) : Z * Z * Z := (seq_reg s, len_reg s, cmd_reg s).

Lemma run_cons s b bs : to_pipe s (Some b) = [] -> run s (map Some (b :: bs)) = run (edge s (Some b)) (map Some bs).
Proof. intros H. cbn [map run]. rewrite H. by destruct (run _ _). Qed.

Lemma idle_byte s b : st s = S_IDLE -> let s' := edge s (Some b) in
  to_pipe s (Some b) = [] /\ sync_shift s' = shift_in 32 (sync_shift s) b /\
  (st s', hdr_byte_cnt s') = if sync_shift s' =? SYNC_WORD then (S_SEQ, 0) else (S_IDLE, hdr_byte_cnt s).
Proof. intros Hs. unfold to_pipe, edge. rewrite Hs. cbn. by case_match. Qed.

Lemma seq_byte s b : st s = S_SEQ -> let s' := edge s (Some b) in
  to_pipe s (Some b) = [] /\ header s' = (shift_in 16 (seq_reg s) b, len_reg s, cmd_reg s) /\
  (st s', hdr_byte_cnt s') = if hdr_byte_cnt s =? 1 then (S_LEN, 0) else (S_SEQ, wrap 3 (hdr_byte_cnt s + 1)).
Proof. intros Hs. unfold to_pipe, edge. rewrite Hs. cbn. by case_match. Qed.

Lemma len_byte s b : st s = S_LEN -> let s' := edge s (Some b) in
  to_pipe s (Some b) = [] /\ header s' = (seq_reg s, shift_in 32 (len_reg s) b, cmd_reg s) /\
  (st s', hdr_byte_cnt s') = if hdr_byte_cnt s =? 3 then (S_CMD, 0) else (S_LEN, wrap 3 (hdr_byte_cnt s + 1)).
Proof. intros Hs. unfold to_pipe, edge. rewrite Hs. cbn. by case_match. Qed.

Lemma crc_byte s b : st s = S_CRC -> let s' := edge s (Some b) in
  to_pipe s (Some b) = [] /\ header s' = header s /\
  (st s', hdr_byte_cnt s') = (if hdr_byte_cnt s =? 3 then S_IDLE else S_CRC, wrap 3 (hdr_byte_cnt s + 1)).
Proof. intros Hs. unfold to_pipe, edge. rewrite Hs. done. Qed.

(** One more byte, through the lemma for the state the machine is in. *)
Ltac byte L Hs := let Hp := fresh "Hp" in let Hf := fresh "Hf" in let Hn := fresh "Hn" in let s' := fresh "s" in
  match goal with |- context [run ?s (map Some (?b :: _))] =>
    destruct (L s b Hs) as (Hp & Hf & Hn); rewrite run_cons by exact Hp;
    set (s' := edge s (Some b)) in *; clearbody s'
  end.

(** The sync word is found at its last byte, whatever came before it: no proper
    suffix of it is a prefix. *)
Lemma sync_phase s : st s = S_IDLE -> exists s', run s (map Some (be_bytes 4 SYNC_WORD)) = (s', []) /\
  st s' = S_SEQ /\ hdr_byte_cnt s' = 0.
Proof.
  intros Hs. assert (forall v b, byte_ok b -> b <> 0 -> (shift_in 32 v b =? SYNC_WORD) = false) as Hno.
  { intros v b Hb Hn. apply Z.eqb_neq. intros E. apply (f_equal (fun z => z mod 256)) in E. unfold shift_in, wrap in E.
    rewrite <-(Znumtheory.Zmod_div_mod 256 (2 ^ 32)) in E; [|done|done|by exists (2 ^ 24)].
    rewrite Z.add_comm, Z_mod_plus_full, Z.mod_small in E by apply Hb. done. }
  pose proof (shift_in_be 4 32 (sync_shift s) SYNC_WORD ltac:(lia) eq_refl ltac:(by split)) as Hsh.
  change (be_bytes 4 SYNC_WORD) with [72; 65; 84; 0] in *. cbn [foldl] in Hsh.
  byte idle_byte Hs. rewrite Hf, Hno in Hn by (done || by split). injection Hn as Hs0 _.
  byte idle_byte Hs0. rewrite Hf0, Hf, Hno in Hn by (done || by split). injection Hn as Hs1 _.
  byte idle_byte Hs1. rewrite Hf1, Hf0, Hf, Hno in Hn by (done || by split). injection Hn as Hs2 _.
  byte idle_byte Hs2. rewrite Hf2, Hf1, Hf0, Hf, Hsh, Z.eqb_refl in Hn. injection Hn as Hs3 Hh.
  by exists s3.
Qed.

Lemma seq_phase s seq : st s = S_SEQ -> hdr_byte_cnt s = 0 -> 0 <= seq < 2 ^ 16 ->
  exists s', run s (map Some (be_bytes 2 seq)) = (s', []) /\ st s' = S_LEN /\ hdr_byte_cnt s' = 0 /\ seq_reg s' = seq.
Proof.
  intros Hs Hh Hq. pose proof (shift_in_be 2 16 (seq_reg s) seq ltac:(lia) eq_refl Hq) as Hsh. revert Hsh.
  unfold be_bytes. cbn [le_bytes rev app foldl]. intros Hsh.
  byte seq_byte Hs. rewrite Hh in Hn. injection Hn as Hs0 Hh0. injection Hf as Hq0 _ _.
  byte seq_byte Hs0. rewrite Hh0 in Hn. injection Hn as Hs1 Hh1. injection Hf as Hq1 _ _.
  exists s1. by rewrite Hq1, Hq0.
Qed.

Lemma len_phase s len : st s = S_LEN -> hdr_byte_cnt s = 0 -> 0 <= len < 2 ^ 32 ->
  exists s', run s (map Some (be_bytes 4 len)) = (s', []) /\ st s' = S_CMD /\ len_reg s' = len /\ seq_reg s' = seq_reg s.
Proof.
  intros Hs Hh Hq. pose proof (shift_in_be 4 32 (len_reg s) len ltac:(lia) eq_refl Hq) as Hsh. revert Hsh.
  unfold be_bytes. cbn [le_bytes rev app foldl]. intros Hsh.
  byte len_byte Hs. rewrite Hh in Hn. injection Hn as Hs0 Hh0. injection Hf as Hq0 Hl0 _.
  byte len_byte Hs0. rewrite Hh0 in Hn. injection Hn as Hs1 Hh1. injection Hf as Hq1 Hl1 _.
  byte len_byte Hs1. rewrite Hh1 in Hn. injection Hn as Hs2 Hh2. injection Hf as Hq2 Hl2 _.
  byte len_byte Hs2. rewrite Hh2 in Hn. injection Hn as Hs3 Hh3. injection Hf as Hq3 Hl3 _.
  exists s3. split_and!; [done|done| |congruence]. by rewrite Hl3, Hl2, Hl1, Hl0.
Qed.

Lemma crc_phase s crc : st s = S_CRC -> hdr_byte_cnt s = 0 -> length crc = 4%nat ->
  exists s', run s (map Some crc) = (s', []) /\ st s' = S_IDLE /\ header s' = header s.
Proof.
  intros Hs Hh Hc. destruct crc as [|a [|b [|c [|d [|]]]]]; try done.
  byte crc_byte Hs. rewrite Hh in Hn. injection Hn as Hs0 Hh0.
  byte crc_byte Hs0. rewrite Hh0 in Hn. injection Hn as Hs1 Hh1.
  byte crc_byte Hs1. rewrite Hh1 in Hn. injection Hn as Hs2 Hh2.
  byte crc_byte Hs2. rewrite Hh2 in Hn. injection Hn as Hs3 Hh3.
  exists s3. split_and!; [done|done|congruence].
Qed.

Lemma payload_byte s b : st s = S_PAYLOAD -> let s' := edge s (Some b) in
  to_pipe s (Some b) = (if cmd_reg s =? 0x10 then [b] else []) /\ header s' = header s /\
  byte_cnt s' = wrap 32 (byte_cnt s + 1) /\
  (st s', hdr_byte_cnt s') = if len_reg s <=? byte_cnt s then (S_CRC, 0) else (S_PAYLOAD, hdr_byte_cnt s).
Proof. intros Hs. unfold to_pipe, edge. rewrite Hs. destruct (reg_byte s b) as [[[? ?] ?] ?]. cbn. by destruct (len_reg s <=? byte_cnt s). Qed.

(** The payload is as long as the length says, counted from the byte after the
    command. *)
Lemma payload_phase payload : forall s, st s = S_PAYLOAD -> 1 <= byte_cnt s -> len_reg s < 2 ^ 32 ->
  Z.of_nat (length payload) = len_reg s - byte_cnt s + 1 -> 0 < Z.of_nat (length payload) ->
  exists s', run s (map Some payload) = (s', if cmd_reg s =? 0x10 then payload else []) /\
    st s' = S_CRC /\ hdr_byte_cnt s' = 0 /\ header s' = header s.
Proof.
  induction payload as [|b payload IH]; intros s Hs H1 Hlt Hl Hpos; [cbn in Hpos; lia|].
  destruct (payload_byte s b Hs) as (Hp & Hf & Hc & Hn).
  change (run s (map Some (b :: payload))) with (let '(s0, ps) := run (edge s (Some b)) (map Some payload) in (s0, to_pipe s (Some b) ++ ps)).
  set (s' := edge s (Some b)) in *. clearbody s'.
  injection Hf as Hq Hlr Hcr. cbn [length] in Hl. destruct payload as [|b' payload].
  - cbn in Hl. replace (len_reg s <=? byte_cnt s) with true in Hn by (symmetry; apply Z.leb_le; lia). injection Hn as Hs' Hh'.
    exists s'. cbn. rewrite Hp, app_nil_r. unfold header. split_and!; [done|done|done|congruence].
  - replace (len_reg s <=? byte_cnt s) with false in Hn by (symmetry; apply Z.leb_gt; cbn [length] in Hl; lia). injection Hn as Hs' Hh'.
    cbn [length] in Hl, IH |- *.
    assert ((byte_cnt s + 1) mod 2 ^ 32 = byte_cnt s + 1) as Em by (apply Z.mod_small; lia).
    destruct (IH s' Hs') as (s2 & E & Hs2 & Hh2 & Hf2); rewrite ?Hc; unfold wrap; rewrite ?Em, ?Hlr; try lia.
    exists s2. rewrite E, Hp, Hcr. split_and!; [by destruct (cmd_reg s =? 16)|done|done|].
    unfold header in *. congruence.
Qed.

Definition frame_ok (seq len cmd : Z) (payload crc : bytes) : Prop :=
  0 <= seq < 2 ^ 16 /\ 1 <= len < 2 ^ 32 /\ Z.of_nat (length payload) = len /\ length crc = 4%nat.

Lemma frame_bytes s seq len cmd payload crc :
  st s = S_IDLE -> frame_ok seq len cmd payload crc ->
  exists s', run s (map Some (frame seq len cmd payload crc)) = (s', if cmd =? 0x10 then payload else []) /\
    st s' = S_IDLE /\ header s' = (seq, len, cmd).
Proof.
  intros Hs (Hq & Hl & Hp & Hc). unfold frame. rewrite !map_app.
  destruct (sync_phase s Hs) as (s1 & E1 & H1 & Hh1).
  destruct (seq_phase s1 seq H1 Hh1 Hq) as (s2 & E2 & H2 & Hh2 & Hq2).
  destruct (len_phase s2 len H2 Hh2 ltac:(lia)) as (s3 & E3 & H3 & Hl3 & Hq3).
  set (s4 := edge s3 (Some cmd)). assert (st s4 = S_PAYLOAD /\ byte_cnt s4 = 1 /\ header s4 = (seq, len, cmd)) as (H4 & Hb4 & Hf4).
  { unfold s4, edge, header. rewrite H3. cbn. split_and!; [done|done|congruence]. }
  injection Hf4 as Hq4 Hl4 Hc4.
  destruct (payload_phase payload s4 H4) as (s5 & E5 & H5 & Hh5 & Hf5); [lia..|].
  destruct (crc_phase s5 crc H5 Hh5 Hc) as (s6 & E6 & H6 & Hf6).
  exists s6. rewrite bus_run_app, E1, bus_run_app, E2, bus_run_app, E3, bus_run_app. cbn [map run]. fold s4. rewrite bus_run_app, E5, E6.
  unfold to_pipe. rewrite H3, Hc4. cbn [app]. rewrite app_nil_r.
  split_and!; [done|done|]. rewrite Hf6, Hf5. unfold header. congruence.
Qed.

(** A frame and what of it reaches the data path. *)
Record fr := Fr { f_seq : Z; f_len : Z; f_cmd : Z; f_payload : bytes; f_crc : bytes }.
Definition fr_ok (f : fr) : Prop := frame_ok (f_seq f) (f_len f) (f_cmd f) (f_payload f) (f_crc f).
Definition fr_bytes (f : fr) : bytes := frame (f_seq f) (f_len f) (f_cmd f) (f_payload f) (f_crc f).
Definition fr_data (f : fr) : bytes := if f_cmd f =? 0x10 then f_payload f else [].

Lemma frames_bytes fs : forall s, st s = S_IDLE -> Forall fr_ok fs ->
  exists s', run s (map Some (flat_map fr_bytes fs)) = (s', flat_map fr_data fs) /\ st s' = S_IDLE.
Proof.
  induction fs as [|f fs IH]; intros s Hs Hf; [by exists s|]. apply list.Forall_cons in Hf as [Hf Hfs].
  destruct (frame_bytes s (f_seq f) (f_len f) (f_cmd f) (f_payload f) (f_crc f) Hs Hf) as (s1 & E1 & H1 & _). destruct (IH s1 H1 Hfs) as (s2 & E2 & H2).
  exists s2. cbn [flat_map]. rewrite map_app, bus_run_app. unfold fr_bytes at 1. by rewrite E1, E2.
Qed.

(** The protocol state machine delimits frames: from any stream of
    well-formed frames, with edges without a byte anywhere in it, the data path
    gets the payloads of the [WRITE_DATA] frames, in order and nothing else,
    and the machine ends up waiting for the next sync word. *)
Theorem frames_delivered (fs : list fr) (rxs : list (option Z)) :
  Forall fr_ok fs -> omap id rxs = flat_map fr_bytes fs ->
  let '(s, data) := run reset rxs in data = flat_map fr_data fs /\ st s = S_IDLE.
Proof.
  intros Hf E. destruct (frames_bytes fs reset eq_refl Hf) as (s' & E' & Hs').
  destruct (run_bytes rxs reset reset eq_refl) as [H1 H2]. rewrite E, E' in H1, H2. cbn [fst snd] in *.
  destruct (run reset rxs) as [s data]. cbn [fst snd] in *. split; [done|]. apply (f_equal st) in H1. cbn in H1. congruence.
Qed.

Lemma frames_delivered_witness :
  let '(s, data) := run reset ([None] ++ map Some (fr_bytes (Fr 7 2 0x10 [128; 127] [1; 2; 3; 4])) ++ [None; None]) in
  data = [128; 127] /\ st s = S_IDLE.
Proof.
  apply (frames_delivered [Fr 7 2 0x10 [128; 127] [1; 2; 3; 4]]
    ([None] ++ map Some (fr_bytes (Fr 7 2 0x10 [128; 127] [1; 2; 3; 4])) ++ [None; None])).
  - repeat constructor; cbn; lia.
  - reflexivity.
Defined.

(** The comments and the test bench count the command byte in the length; the
    state machine starts to count after it.  Of a frame made their way, with
    length 3 for a command and two samples, the first byte of the checksum goes
    into the data path and the machine waits in [S_CRC]. *)
Lemma length_counts_command :
  let '(s, data) := run reset (map Some (frame 3 3 0x10 [128; 127] [200; 0; 0; 0])) in
  data = [128; 127; 200] /\ st s = S_CRC.
Proof. vm_compute. done. Qed.

(** A register write always writes one byte twice: the two low bytes of the
    data are the same. *)
Lemma register_write_low_bytes s rx :
  (forall b, rx = Some b -> byte_ok b) -> ra_wr_pulse (edge s rx) = true ->
  bits 7 0 (ra_wdata (edge s rx)) = bits 15 8 (ra_wdata (edge s rx)).
Proof.
  intros Hb. destruct rx as [b|]; [|done]. specialize (Hb b eq_refl). unfold edge. destruct (st s); try done.
  unfold reg_byte. destruct (cmd_reg s =? 1) eqn:Ec; [|by destruct (_ <=? _), (cmd_reg s =? 2)].
  destruct (ra_byte_idx s =? 3) eqn:Ei; [|by destruct (_ <=? _)]. destruct (_ <=? _); [|done].
  apply Z.eqb_eq in Ei. rewrite Ei. cbn [Z.eqb Pos.eqb andb ra_wdata]. intros _.
  unfold set_byte, bits, byte_ok in *. change (2 ^ (7 - 0 + 1)) with 256. change (2 ^ (15 - 8 + 1)) with 256.
  change (2 ^ (0 + 7 - 0 + 1)) with 256. change (2 ^ (8 + 7 - 8 + 1)) with 256. change (2 ^ 0) with 1. change (2 ^ 8) with 256.
  rewrite !Z.div_1_r. Z.to_euclidean_division_equations. lia.
Qed.

(** The host sends its words least significant byte first, the state machine
    takes them most significant first: a frame of the host is not recognized. *)
Lemma host_frame_not_recognized :
  let '(s, data) := run reset (map Some (Spi.frame 8 1 [16; 1; 2; 3; 4; 5; 6; 7])) in st s = S_IDLE /\ data = [].
Proof. vm_compute. done. Qed.

End Framing.
