(* ===== verification/GwFft.v ===== *)
(** * The transform and the correlator of the gateware ([fft_radix2.v],
    [xcorr_engine.v])

    The transform is a memory-based state machine with two buffers used in
    turns; it is proved to compute the radix-2 network with the code's
    fixed-point butterfly in a fixed number of clock edges.  The twiddle factors
    come from files that synthesis loads and are a parameter.  The correlator
    drives it through its states. *)
From S2P Require Import Prelude GwStream GwFir.
Open Scope Z_scope.

(** ** [fft_radix2] *)
Module Fft.
Import Gw Fir.

Definition DATA_W : Z := 16.
Definition TWIDDLE_W : Z := 16.
Definition PROD_W : Z := 32.

Definition cell : Type := Z * Z.

(** *** The butterfly

    The product is kept at [PROD_W] bits and shifted arithmetically.  The sums
    mix a signed register with a part select, which is unsigned: they are
    unsigned [DATA_W]-bit sums, and [>>> 1] shifts a zero in. *)
Definition twiddle (inverse : bool) (w : cell) : cell :=
  (w.1, if inverse then signed TWIDDLE_W (- w.2) else w.2).
Definition product (w b : cell) : cell :=
  (signed PROD_W (w.1 * b.1 - w.2 * b.2) / 2 ^ (TWIDDLE_W - 1),
   signed PROD_W (w.1 * b.2 + w.2 * b.1) / 2 ^ (TWIDDLE_W - 1)).
Definition halved (z : Z) : Z := wrap DATA_W z / 2.
Definition top_out (a wb : cell) : cell := (halved (a.1 + wb.1), halved (a.2 + wb.2)).
Definition bot_out (a wb : cell) : cell := (halved (a.1 - wb.1), halved (a.2 - wb.2)).

Inductive fsm := S_IDLE | S_STAGE | S_BFLY | S_BFLY_MUL | S_BFLY_WR | S_DONE.

(** [bfly_idx] is never assigned and [twiddle_idx] never read. *)
Record regs := Regs {
  buf0 : list cell; buf1 : list cell; ping : bool;
  state : fsm; stage : nat; group : nat; pair : nat;
  half_size : nat; full_size : nat; num_groups : nat;
  op_a : cell; op_b : cell; op_w : cell; op_wb : cell;
  addr_top : nat; addr_bot : nat; busy : bool; done : bool }.

Section Engine.
(** [LOG2_N] and the twiddle memory. *)
Variables (k : nat) (tw : list cell).

Definition FFT_N : nat := (2 ^ k)%nat.
Definition wrapn (x : nat) : nat := (x mod FFT_N)%nat.
Definition zc : cell := (0, 0).

Definition bit_reverse (a : nat) : nat :=
  foldl (fun r i => if Nat.testbit a (k - 1 - i) then r + 2 ^ i else r)%nat 0%nat (seq 0 k).

Definition fft_reset (b0 b1 : list cell) (rest : nat * nat * nat) (ops : cell * cell * cell * cell) (addrs : nat * nat) : regs :=
  Regs b0 b1 false S_IDLE 0 0 0 rest.1.1 rest.1.2 rest.2 ops.1.1.1 ops.1.1.2 ops.1.2 ops.2 addrs.1 addrs.2 false false.

(** The read port. *)
Definition out_buf (s : regs) : list cell := if ping s then buf1 s else buf0 s.

Definition edge (s : regs) (start inverse : bool) (wr : option (nat * cell)) : regs :=
  let b0 := match wr with
            | Some (a, c) => if busy s then buf0 s else <[bit_reverse a := c]> (buf0 s)
            | None => buf0 s
            end in
  match state s with
  | S_IDLE =>
      if start
      then Regs b0 (buf1 s) false S_STAGE 0 (group s) (pair s) (half_size s) (full_size s) (num_groups s)
                (op_a s) (op_b s) (op_w s) (op_wb s) (addr_top s) (addr_bot s) true false
      else Regs b0 (buf1 s) (ping s) S_IDLE (stage s) (group s) (pair s) (half_size s) (full_size s) (num_groups s)
                (op_a s) (op_b s) (op_w s) (op_wb s) (addr_top s) (addr_bot s) (busy s) false
  | S_STAGE =>
      Regs b0 (buf1 s) (ping s) S_BFLY (stage s) 0 0
           (wrapn (2 ^ stage s)) (wrapn (2 ^ (stage s + 1))) (wrapn (FFT_N / 2 ^ (stage s + 1)))
           (op_a s) (op_b s) (op_w s) (op_wb s) (addr_top s) (addr_bot s) (busy s) false
  | S_BFLY =>
      let t := wrapn (group s * full_size s + pair s) in
      let b := wrapn (group s * full_size s + pair s + half_size s) in
      let rd := if ping s then buf1 s else buf0 s in
      Regs b0 (buf1 s) (ping s) S_BFLY_MUL (stage s) (group s) (pair s) (half_size s) (full_size s) (num_groups s)
           (nth t rd zc) (nth b rd zc) (twiddle inverse (nth (wrapn (pair s * num_groups s)) tw zc)) (op_wb s)
           t b (busy s) false
  | S_BFLY_MUL =>
      Regs b0 (buf1 s) (ping s) S_BFLY_WR (stage s) (group s) (pair s) (half_size s) (full_size s) (num_groups s)
           (op_a s) (op_b s) (op_w s) (product (op_w s) (op_b s)) (addr_top s) (addr_bot s) (busy s) false
  | S_BFLY_WR =>
      let put buf := <[addr_bot s := bot_out (op_a s) (op_wb s)]> (<[addr_top s := top_out (op_a s) (op_wb s)]> buf) in
      let b0' := if ping s then put b0 else b0 in
      let b1' := if ping s then buf1 s else put (buf1 s) in
      let next p st sg g pr :=
        Regs b0' b1' p st sg g pr (half_size s) (full_size s) (num_groups s)
             (op_a s) (op_b s) (op_w s) (op_wb s) (addr_top s) (addr_bot s) (busy s) false in
      if (pair s + 1 <? half_size s)%nat then next (ping s) S_BFLY (stage s) (group s) (pair s + 1)%nat
      else if (group s + 1 <? num_groups s)%nat then next (ping s) S_BFLY (stage s) (group s + 1)%nat 0%nat
      else if (stage s + 1 <? k)%nat then next (negb (ping s)) S_STAGE (stage s + 1)%nat (group s) (pair s)
      else next (negb (ping s)) S_DONE (stage s) (group s) (pair s)
  | S_DONE =>
      Regs b0 (buf1 s) (ping s) S_IDLE (stage s) (group s) (pair s) (half_size s) (full_size s) (num_groups s)
           (op_a s) (op_b s) (op_w s) (op_wb s) (addr_top s) (addr_bot s) false true
  end.

(** Edges with arbitrary inputs but a constant direction. *)
Definition run (inverse : bool) (s : regs) (ins : list (bool * option (nat * cell))) : regs :=
  foldl (fun s i => edge s i.1 inverse i.2) s ins.

(** *** The network *)

(** Element [j] after stage [st] on the buffer [x]. *)
Definition stage_at (inverse : bool) (st : nat) (x : list cell) (j : nat) : cell :=
  let half := (2 ^ st)%nat in let full := (2 ^ (st + 1))%nat in
  let p := (j mod half)%nat in
  let t := (j / full * full + p)%nat in
  let w := twiddle inverse (nth (p * (FFT_N / full))%nat tw zc) in
  let a := nth t x zc in let wb := product w (nth (t + half)%nat x zc) in
  if (j mod full <? half)%nat then top_out a wb else bot_out a wb.

Definition stage_fn (inverse : bool) (x : list cell) (st : nat) : list cell := map (stage_at inverse st x) (seq 0 FFT_N).
Definition fft_net (inverse : bool) (x : list cell) : list cell := foldl (stage_fn inverse) x (seq 0 k).

(** The clock edges of a stage and of a transform. *)
Definition stage_edges : nat := (1 + 3 * (FFT_N / 2))%nat.
Definition fft_edges : nat := (1 + k * stage_edges + 1)%nat.

(** *** The state machine follows the network *)
Definition wbuf (s : regs) : list cell := if ping s then buf0 s else buf1 s.

(** Inputs are ignored while the engine is busy. *)
Lemma edge_busy s start inverse wr : busy s = true -> state s <> S_IDLE -> edge s start inverse wr = edge s false inverse None.
Proof. intros Hb Hs. unfold edge. rewrite Hb. destruct (state s); try done; by destruct wr as [[]|]. Qed.

(** The registers a butterfly leaves alone until it writes. *)
Definition ctl (s : regs) : bool * nat * nat * nat * (nat * nat * nat) * (list cell * list cell) * bool :=
  (ping s, stage s, group s, pair s, (half_size s, full_size s, num_groups s), (buf0 s, buf1 s), busy s).

Lemma bfly_edge s start inverse wr : state s = S_BFLY -> busy s = true -> let s' := edge s start inverse wr in
  let t := wrapn (group s * full_size s + pair s) in let b := wrapn (group s * full_size s + pair s + half_size s) in
  state s' = S_BFLY_MUL /\ ctl s' = ctl s /\ op_a s' = nth t (out_buf s) zc /\ op_b s' = nth b (out_buf s) zc /\
  op_w s' = twiddle inverse (nth (wrapn (pair s * num_groups s)) tw zc) /\ addr_top s' = t /\ addr_bot s' = b.
Proof. intros Hs Hb. rewrite edge_busy by (rewrite ?Hs; done). unfold edge. rewrite Hs. done. Qed.

Lemma mul_edge s start inverse wr : state s = S_BFLY_MUL -> busy s = true -> let s' := edge s start inverse wr in
  state s' = S_BFLY_WR /\ ctl s' = ctl s /\ op_a s' = op_a s /\ op_wb s' = product (op_w s) (op_b s) /\
  addr_top s' = addr_top s /\ addr_bot s' = addr_bot s.
Proof. intros Hs Hb. rewrite edge_busy by (rewrite ?Hs; done). unfold edge. rewrite Hs. done. Qed.

Lemma wr_edge s start inverse wr : state s = S_BFLY_WR -> busy s = true -> let s' := edge s start inverse wr in
  let w := <[addr_bot s := bot_out (op_a s) (op_wb s)]> (<[addr_top s := top_out (op_a s) (op_wb s)]> (wbuf s)) in
  busy s' = true /\ (half_size s', full_size s', num_groups s') = (half_size s, full_size s, num_groups s) /\
  (buf0 s', buf1 s') = (if ping s then (w, buf1 s) else (buf0 s, w)) /\
  (ping s', state s', stage s', group s', pair s') =
    if (pair s + 1 <? half_size s)%nat then (ping s, S_BFLY, stage s, group s, pair s + 1)%nat
    else if (group s + 1 <? num_groups s)%nat then (ping s, S_BFLY, stage s, group s + 1, 0)%nat
    else if (stage s + 1 <? k)%nat then (negb (ping s), S_STAGE, stage s + 1, group s, pair s)%nat
    else (negb (ping s), S_DONE, stage s, group s, pair s).
Proof.
  intros Hs Hb. rewrite edge_busy by (rewrite ?Hs; done). unfold edge, wbuf. rewrite Hs, Hb. cbn zeta.
  destruct (pair s + 1 <? half_size s)%nat; [by destruct (ping s)|].
  destruct (group s + 1 <? num_groups s)%nat; [by destruct (ping s)|].
  destruct (stage s + 1 <? k)%nat; by destruct (ping s).
Qed.

Section Stage.
Variables (inverse : bool) (st : nat) (x : list cell).
Hypothesis Hst : (st < k)%nat.
Let half : nat := (2 ^ st)%nat.
Let full : nat := (2 * half)%nat.
Let ng : nat := (2 ^ (k - st - 1))%nat.

Lemma sizes : (0 < half)%nat /\ (0 < ng)%nat /\ FFT_N = (full * ng)%nat /\ (2 ^ (st + 1) = full)%nat /\ (FFT_N / full = ng)%nat /\
  (FFT_N / 2 = half * ng)%nat.
Proof.
  assert (0 < half)%nat by (unfold half; apply Nat.neq_0_lt_0, Nat.pow_nonzero; lia).
  assert (0 < ng)%nat by (unfold ng; apply Nat.neq_0_lt_0, Nat.pow_nonzero; lia).
  assert (FFT_N = (full * ng)%nat) as E.
  { unfold FFT_N, full, half, ng. rewrite <-Nat.pow_succ_r', <-Nat.pow_add_r. f_equal. lia. }
  split_and!; try lia.
  - rewrite Nat.add_1_r, Nat.pow_succ_r'. done.
  - rewrite E, Nat.mul_comm. apply Nat.div_mul. unfold full. lia.
  - rewrite E. unfold full. rewrite <-Nat.mul_assoc, Nat.mul_comm. apply Nat.div_mul. lia.
Qed.

(** The butterfly an element belongs to. *)
Definition bidx (j : nat) : nat := (j / full * half + j mod half)%nat.

Lemma element g p r : (p < half)%nat -> (r = p \/ r = p + half)%nat ->
  ((g * full + r) / full = g /\ (g * full + r) mod full = r /\ (g * full + r) mod half = p)%nat.
Proof.
  intros Hp Hr. destruct sizes as (Hh & _). assert (r < full)%nat by (unfold full; lia). split_and!.
  - rewrite Nat.div_add_l, Nat.div_small by lia. lia.
  - rewrite Nat.add_comm, Nat.Div0.mod_add. by apply Nat.mod_small.
  - unfold full. replace (g * (2 * half) + r)%nat with (r + g * 2 * half)%nat by lia. rewrite Nat.Div0.mod_add.
    destruct Hr as [->| ->]; [by apply Nat.mod_small|]. replace (p + half)%nat with (p + 1 * half)%nat by lia.
    rewrite Nat.Div0.mod_add. by apply Nat.mod_small.
Qed.

Lemma element_of j : exists g p r, j = (g * full + r)%nat /\ (p < half)%nat /\ (r = p \/ r = p + half)%nat.
Proof.
  destruct sizes as (Hh & _). assert (0 < full)%nat by (unfold full; lia).
  exists (j / full)%nat, (j mod full mod half)%nat, (j mod full)%nat.
  pose proof (Nat.div_mod_eq j full). pose proof (Nat.mod_upper_bound j full). split; [lia|].
  pose proof (Nat.mod_upper_bound (j mod full) half). split; [lia|].
  destruct (decide (j mod full < half)%nat).
  - left. by rewrite (Nat.mod_small (j mod full) half).
  - right. assert (j mod full = j mod full - half + 1 * half)%nat as E by lia. rewrite E at 2. rewrite Nat.Div0.mod_add.
    rewrite (Nat.mod_small (j mod full - half) half); unfold full in *; lia.
Qed.

Lemma bidx_element g p r : (p < half)%nat -> (r = p \/ r = p + half)%nat -> bidx (g * full + r) = (g * half + p)%nat.
Proof. intros Hp Hr. unfold bidx. by destruct (element g p r Hp Hr) as (-> & _ & ->). Qed.

(** Stage [st] with [b] butterflies done. *)
Record at_bfly (b : nat) (s : regs) : Prop := {
  a_state : state s = S_BFLY;
  a_busy : busy s = true;
  a_stage : stage s = st;
  a_group : group s = (b / half)%nat;
  a_pair : pair s = (b mod half)%nat;
  a_half : half_size s = half;
  a_full : full_size s = wrapn full;
  a_ng : num_groups s = ng;
  a_rd : out_buf s = x;
  a_len : length (wbuf s) = FFT_N;
  a_done : forall j, (j < FFT_N)%nat -> (bidx j < b)%nat -> wbuf s !! j = Some (stage_at inverse st x j) }.

(** The operands are where the network has them. *)
Lemma operands b s : at_bfly b s -> (b < half * ng)%nat ->
  let t := (b / half * full + b mod half)%nat in
  (wrapn (group s * full_size s + pair s) = t /\ wrapn (group s * full_size s + pair s + half_size s) = t + half /\
   wrapn (pair s * num_groups s) = b mod half * ng /\ t + half < FFT_N /\ b / half < ng /\ b mod half < half)%nat.
Proof.
  intros H Hb t. destruct sizes as (Hh & Hn & HN & _). rewrite (a_group _ _ H), (a_pair _ _ H), (a_half _ _ H), (a_full _ _ H), (a_ng _ _ H).
  assert (b / half < ng)%nat as Hg by (apply Nat.Div0.div_lt_upper_bound; lia).
  pose proof (Nat.mod_upper_bound b half) as Hp. assert (t + half < FFT_N)%nat as Ht by (unfold t, full in *; nia).
  assert (b / half * wrapn full = b / half * full)%nat as ->.
  { unfold wrapn. destruct (decide (ng = 1)%nat) as [E|E]; [replace (b / half)%nat with 0%nat by lia; lia|].
    rewrite (Nat.mod_small full); [done|]. rewrite HN. nia. }
  fold t. assert (b mod half * ng < FFT_N)%nat by (unfold full in *; nia).
  unfold wrapn. split_and!; [apply Nat.mod_small; lia|apply Nat.mod_small; lia|by apply Nat.mod_small|done|done|lia].
Qed.

Lemma stage_at_top b : (b < half * ng)%nat -> let t := (b / half * full + b mod half)%nat in
  let w := twiddle inverse (nth (b mod half * ng)%nat tw zc) in
  stage_at inverse st x t = top_out (nth t x zc) (product w (nth (t + half) x zc)) /\
  stage_at inverse st x (t + half) = bot_out (nth t x zc) (product w (nth (t + half) x zc)).
Proof.
  intros Hb t w. destruct sizes as (Hh & Hn & HN & HF & Hng & _). pose proof (Nat.mod_upper_bound b half) as Hp.
  unfold stage_at. rewrite HF, Hng. fold half.
  destruct (element (b / half) (b mod half) (b mod half)) as (E1 & E2 & E3); [lia|by left|].
  destruct (element (b / half) (b mod half) (b mod half + half)) as (E4 & E5 & E6); [lia|by right|].
  rewrite Nat.add_assoc in E4, E5, E6. fold t in E1, E2, E3, E4, E5, E6. rewrite E1, E2, E3, E4, E5, E6. fold t w.
  replace (b mod half <? half)%nat with true by (symmetry; apply Nat.ltb_lt; lia).
  replace (b mod half + half <? half)%nat with false by (symmetry; apply Nat.ltb_ge; lia). done.
Qed.

(** Three edges do one butterfly. *)
Definition written (b : nat) (s : regs) : list cell :=
  let t := (b / half * full + b mod half)%nat in
  <[(t + half)%nat := stage_at inverse st x (t + half)]> (<[t := stage_at inverse st x t]> (wbuf s)).

Lemma written_spec b s : at_bfly b s -> (b < half * ng)%nat ->
  length (written b s) = FFT_N /\
  forall j, (j < FFT_N)%nat -> (bidx j < S b)%nat -> written b s !! j = Some (stage_at inverse st x j).
Proof.
  intros H Hb. destruct sizes as (Hh & Hn & HN & _). destruct (operands b s H Hb) as (_ & _ & _ & Ht & _ & Hp).
  unfold written. set (t := (b / half * full + b mod half)%nat) in *. split; [by rewrite !length_insert, (a_len _ _ H)|].
  intros j Hj Hb'. destruct (decide (j = t + half)%nat) as [->|H1].
  { rewrite list_lookup_insert_eq; [done|]. rewrite length_insert, (a_len _ _ H). lia. }
  rewrite list_lookup_insert_ne by done. destruct (decide (j = t)) as [->|H2].
  { rewrite list_lookup_insert_eq; [done|]. rewrite (a_len _ _ H). lia. }
  rewrite list_lookup_insert_ne by done. apply (a_done _ _ H); [done|].
  destruct (element_of j) as (g & p & r & Ej & Hp' & Hr). pose proof (bidx_element g p r Hp' Hr) as Eb'. rewrite <-Ej in Eb'.
  assert (b = b / half * half + b mod half)%nat as Eb by (pose proof (Nat.div_mod_eq b half); lia).
  destruct (decide (g * half + p = b)%nat) as [E|]; [exfalso|lia].
  assert (g = b / half)%nat as Eg by nia. assert (p = b mod half)%nat as Ep by (subst g; lia). subst g p. unfold t in *. lia.
Qed.

(** The registers after the three edges of a butterfly. *)
Lemma three_edges b s i1 i2 i3 : at_bfly b s -> (b < half * ng)%nat ->
  let s3 := run inverse s [i1; i2; i3] in
  busy s3 = true /\ half_size s3 = half_size s /\ full_size s3 = full_size s /\ num_groups s3 = num_groups s /\
  (if ping s then (buf1 s3 = buf1 s /\ buf0 s3 = written b s) else (buf0 s3 = buf0 s /\ buf1 s3 = written b s)) /\
  (ping s3, state s3, stage s3, group s3, pair s3) =
    if (pair s + 1 <? half_size s)%nat then (ping s, S_BFLY, stage s, group s, pair s + 1)%nat
    else if (group s + 1 <? num_groups s)%nat then (ping s, S_BFLY, stage s, group s + 1, 0)%nat
    else if (stage s + 1 <? k)%nat then (negb (ping s), S_STAGE, stage s + 1, group s, pair s)%nat
    else (negb (ping s), S_DONE, stage s, group s, pair s).
Proof.
  intros H Hb. destruct (operands b s H Hb) as (Et & Eb & Ew & _). destruct (stage_at_top b Hb) as [E1 E2].
  unfold run. cbn [foldl]. destruct (bfly_edge s i1.1 inverse i1.2 (a_state _ _ H) (a_busy _ _ H)) as (S1 & C1 & A1 & B1 & W1 & T1 & O1).
  rewrite (a_rd _ _ H), ?Et, ?Eb, ?Ew in *. set (s1 := edge s _ _ _) in *. clearbody s1.
  assert (busy s1 = true) as Hb1 by (rewrite <-(a_busy _ _ H); by injection C1).
  destruct (mul_edge s1 i2.1 inverse i2.2 S1 Hb1) as (S2 & C2 & A2 & W2 & T2 & O2). set (s2 := edge s1 _ _ _) in *. clearbody s2.
  assert (busy s2 = true) as Hb2 by (rewrite <-Hb1; by injection C2).
  destruct (wr_edge s2 i3.1 inverse i3.2 S2 Hb2) as (Hb3 & C3 & B3 & N3). set (s3 := edge s2 _ _ _) in *. clearbody s3.
  rewrite C1 in C2. injection C2 as Ep Est Eg Epr Ehs Efs Eng Eb0 Eb1 _.
  rewrite Ep, Est, Eg, Epr, Ehs, Eng in *. injection C3 as -> -> ->.
  assert (wbuf s2 = wbuf s) as Ewb by (unfold wbuf; by rewrite Ep, Eb0, Eb1).
  rewrite Ewb, A2, W2, T2, O2, A1, W1, B1, T1, O1, <-E1, <-E2 in B3. fold (written b s) in B3.
  split_and!; try done. by destruct (ping s); injection B3 as -> ->.
Qed.

Lemma next_bfly b s i1 i2 i3 : at_bfly b s -> (S b < half * ng)%nat -> at_bfly (S b) (run inverse s [i1; i2; i3]).
Proof.
  intros H Hb. destruct sizes as (Hh & Hn & HN & _). destruct (three_edges b s i1 i2 i3 H ltac:(lia)) as (Hbusy & Hhs & Hfs & Hng & Hbuf & Hn3).
  destruct (written_spec b s H ltac:(lia)) as [Hl Hw]. pose proof (Nat.div_mod_eq b half) as Hdm. pose proof (Nat.mod_upper_bound b half) as Hm.
  rewrite (a_pair _ _ H), (a_half _ _ H), (a_group _ _ H), (a_ng _ _ H), (a_stage _ _ H) in Hn3.
  set (s3 := run inverse s [i1; i2; i3]) in *. clearbody s3.
  assert (ping s3 = ping s /\ state s3 = S_BFLY /\ stage s3 = st /\ group s3 = (S b / half)%nat /\ pair s3 = (S b mod half)%nat) as (Ep & Es & Eg & Egr & Epr).
  { destruct (Nat.ltb_spec (b mod half + 1) half) as [Hlt|Hge].
    - injection Hn3 as -> -> -> -> ->. split_and!; try done.
      + apply (Nat.div_unique (S b) half (b / half) (b mod half + 1)); lia.
      + apply (Nat.mod_unique (S b) half (b / half) (b mod half + 1)); lia.
    - destruct (Nat.ltb_spec (b / half + 1) ng) as [Hlt'|Hge']; [|nia].
      injection Hn3 as -> -> -> -> ->. split_and!; try done.
      + apply (Nat.div_unique (S b) half (b / half + 1) 0); lia.
      + apply (Nat.mod_unique (S b) half (b / half + 1) 0); lia. }
  assert (out_buf s3 = x /\ wbuf s3 = written b s) as [Eo Ew].
  { pose proof (a_rd _ _ H) as Hx. unfold out_buf, wbuf in *. rewrite Ep. destruct (ping s), Hbuf as [-> ->]; done. }
  constructor; rewrite ?Ew; try done; congruence || (by rewrite ?Hhs, ?Hfs, ?Hng; apply H).
Qed.

(** The last butterfly of the stage: the buffers change roles. *)
Lemma last_bfly b s i1 i2 i3 : at_bfly b s -> S b = (half * ng)%nat -> length x = FFT_N ->
  let s3 := run inverse s [i1; i2; i3] in
  busy s3 = true /\ out_buf s3 = stage_fn inverse x st /\ length (wbuf s3) = FFT_N /\
  (state s3, stage s3) = if (st + 1 <? k)%nat then (S_STAGE, st + 1)%nat else (S_DONE, st).
Proof.
  intros H Hb Hx. destruct sizes as (Hh & Hn & HN & _). destruct (three_edges b s i1 i2 i3 H ltac:(lia)) as (Hbusy & Hhs & Hfs & Hng & Hbuf & Hn3).
  destruct (written_spec b s H ltac:(lia)) as [Hl Hw]. pose proof (Nat.div_mod_eq b half) as Hdm. pose proof (Nat.mod_upper_bound b half) as Hm.
  rewrite (a_pair _ _ H), (a_half _ _ H), (a_group _ _ H), (a_ng _ _ H), (a_stage _ _ H) in Hn3.
  set (s3 := run inverse s [i1; i2; i3]) in *. clearbody s3. cbn zeta.
  assert (b = half * (ng - 1) + (half - 1))%nat as Eb by (destruct ng; nia).
  assert (b / half = ng - 1)%nat as Eq by (symmetry; apply (Nat.div_unique b half (ng - 1) (half - 1)); lia).
  assert (b mod half = half - 1)%nat as Er by (symmetry; apply (Nat.mod_unique b half (ng - 1) (half - 1)); lia).
  destruct (Nat.ltb_spec (b mod half + 1) half) as [Hlt|Hge]; [lia|].
  destruct (Nat.ltb_spec (b / half + 1) ng) as [Hlt'|Hge']; [lia|].
  assert (written b s = stage_fn inverse x st) as Ew.
  { apply list_eq_same_length with FFT_N; [unfold stage_fn; by rewrite length_map, length_seq|done|].
    intros j y z Hj Hy Hz. rewrite Hw in Hy; [|done|].
    - unfold stage_fn in Hz. rewrite list_lookup_fmap, lookup_seq_lt in Hz by done. cbn in Hz. congruence.
    - destruct (element_of j) as (g & p & r & Ej & Hp & Hr). rewrite Ej, (bidx_element g p r) by done. rewrite Hb.
      assert (g < ng)%nat by (apply (Nat.mul_lt_mono_pos_l full); unfold full in *; lia). clear - H0 Hp. nia. }
  assert (ping s3 = negb (ping s) /\ (state s3, stage s3) = if (st + 1 <? k)%nat then (S_STAGE, st + 1)%nat else (S_DONE, st)) as [Ep Es].
  { destruct (st + 1 <? k)%nat; injection Hn3; intros; split; congruence. }
  split; [done|]. rewrite Es. unfold out_buf, wbuf in *. rewrite Ep. pose proof (a_rd _ _ H) as Hrd. unfold out_buf in Hrd.
  destruct (ping s), Hbuf as [-> ->]; cbn [negb]; rewrite Ew, ?Hrd; by rewrite ?Hx.
Qed.

(** What a finished stage leaves. *)
Definition stage_done (s : regs) : Prop :=
  busy s = true /\ out_buf s = stage_fn inverse x st /\ length (wbuf s) = FFT_N /\
  (state s, stage s) = if (st + 1 <? k)%nat then (S_STAGE, st + 1)%nat else (S_DONE, st).

Lemma bflies n : forall b s ins, at_bfly b s -> (b + S n)%nat = (half * ng)%nat -> length x = FFT_N ->
  length ins = (3 * S n)%nat -> stage_done (run inverse s ins).
Proof.
  induction n as [|n IH]; intros b s ins H Hb Hx Hl; do 3 (destruct ins as [|? ins]; [cbn in Hl; lia|]).
  - destruct ins; [|cbn in Hl; lia]. by apply (last_bfly b); [|lia|].
  - change (run inverse s (p :: p0 :: p1 :: ins)) with (run inverse (run inverse s [p; p0; p1]) ins).
    apply (IH (S b)); [apply next_bfly; [done|lia]|lia|done|cbn [length] in Hl; lia].
Qed.

Lemma one_stage s ins :
  state s = S_STAGE -> busy s = true -> stage s = st -> out_buf s = x -> length x = FFT_N -> length (wbuf s) = FFT_N ->
  length ins = stage_edges -> stage_done (run inverse s ins).
Proof.
  intros Hs Hb Hg Hx Hl Hw Hi. destruct sizes as (Hh & Hn & HN & HF & Hng & Hbf). unfold stage_edges in Hi. rewrite Hbf in Hi.
  destruct ins as [|i ins]; [done|]. cbn [length] in Hi. change (run inverse s (i :: ins)) with (run inverse (edge s i.1 inverse i.2) ins).
  destruct (half * ng)%nat as [|n] eqn:En; [nia|]. apply (bflies n 0); [|lia|done|lia].
  rewrite edge_busy by (rewrite ?Hs; done). unfold edge. rewrite Hs, Hg, HF, Hng.
  assert (wrapn (2 ^ st) = half) as Eh by (apply Nat.mod_small; rewrite HN; unfold full; fold half; nia).
  assert (wrapn ng = ng) as Eg by (apply Nat.mod_small; rewrite HN; unfold full; nia).
  rewrite Eh, Eg. constructor; try done.
  - cbn. by rewrite Nat.Div0.div_0_l.
  - cbn. by rewrite Nat.Div0.mod_0_l.
  - intros j _ Hj. lia.
Qed.

End Stage.

Lemma all_stages inverse m : forall st x s ins, (st + S m)%nat = k ->
  state s = S_STAGE -> busy s = true -> stage s = st -> out_buf s = x -> length x = FFT_N -> length (wbuf s) = FFT_N ->
  length ins = (S m * stage_edges)%nat ->
  let s' := run inverse s ins in
  state s' = S_DONE /\ busy s' = true /\ out_buf s' = foldl (stage_fn inverse) x (seq st (S m)).
Proof.
  induction m as [|m IH]; intros st x s ins Hk Hs Hb Hg Hx Hl Hw Hi.
  - destruct (one_stage inverse st x ltac:(lia) s ins) as (Hb' & Ho & Hw' & E); try done; [lia|].
    replace (st + 1 <? k)%nat with false in E by (symmetry; apply Nat.ltb_ge; lia). injection E as E _. by cbn.
  - rewrite <-(take_drop stage_edges ins). unfold run. rewrite foldl_app. fold (run inverse s (take stage_edges ins)).
    destruct (one_stage inverse st x ltac:(lia) s (take stage_edges ins)) as (Hb' & Ho & Hw' & E); try done.
    { rewrite length_take. lia. }
    replace (st + 1 <? k)%nat with true in E by (symmetry; apply Nat.ltb_lt; lia). injection E as E E'.
    specialize (IH (st + 1)%nat (stage_fn inverse x st) (run inverse s (take stage_edges ins)) (drop stage_edges ins)).
    destruct IH as (H1 & H2 & H3); try done; [lia| |rewrite length_drop; lia|].
    { unfold stage_fn. by rewrite length_map, length_seq. }
    split_and!; [done|done|]. fold (run inverse (run inverse s (take stage_edges ins)) (drop stage_edges ins)). rewrite H3.
    cbn [seq foldl]. by rewrite Nat.add_1_r.
Qed.

End Engine.

(** A start of the transform engine, from any idle state and whatever is
    on its inputs while it is busy, ends after exactly [fft_edges] edges with
    [done] set, and the read port then holds the radix-2 network of the loaded
    data, stage by stage with the fixed-point butterfly. *)
Theorem fft_correct (k : nat) (tw : list cell) (inverse : bool) (s : regs) (wr : option (nat * cell))
    (ins : list (bool * option (nat * cell))) :
  (0 < k)%nat -> state s = S_IDLE -> busy s = false ->
  length (buf0 s) = FFT_N k -> length (buf1 s) = FFT_N k -> (S (length ins))%nat = fft_edges k ->
  let s0 := edge k tw s true inverse wr in
  let s' := run k tw inverse s0 ins in
  done s' = true /\ busy s' = false /\ state s' = S_IDLE /\ out_buf s' = fft_net k tw inverse (buf0 s0).
Proof.
  intros Hk Hs Hb H0 H1 Hi s0 s'. destruct k as [|k']; [lia|]. set (k := S k') in *.
  assert (length (buf0 s0) = FFT_N k /\ buf1 s0 = buf1 s /\ ping s0 = false /\ state s0 = S_STAGE /\ busy s0 = true /\ stage s0 = 0%nat)
    as (L0 & B1 & P0 & S0 & Hb0 & G0).
  { unfold s0, edge. rewrite Hs, Hb. cbn. split_and!; try done. destruct wr as [[]|]; by rewrite ?length_insert. }
  assert (length ins = (k * stage_edges k + 1)%nat) as Hi' by (unfold fft_edges in Hi; lia). clear Hi.
  unfold s', run. rewrite <-(take_drop (k * stage_edges k) ins). rewrite foldl_app.
  destruct (drop (k * stage_edges k) ins) as [|i [|]] eqn:Ed; apply (f_equal length) in Ed; rewrite length_drop in Ed; cbn [length] in Ed; [lia| |lia].
  destruct (all_stages k tw inverse k' 0 (buf0 s0) s0 (take (k * stage_edges k) ins)) as (S1 & Hb1 & O1); try done.
  { unfold out_buf. by rewrite P0. }
  { unfold wbuf. by rewrite P0, B1. }
  { rewrite length_take. fold k. lia. }
  fold (run k tw inverse s0 (take (k * stage_edges k) ins)). set (s1 := run k tw inverse s0 _) in *. clearbody s1. cbn [foldl].
  rewrite edge_busy by (rewrite ?S1; done). unfold edge. rewrite S1. done.
Qed.

Lemma fft_correct_witness :
  let tw := [(32767, 0); (0, -32768)] in
  let s := fft_reset [(100, 0); (100, 0); (100, 0); (100, 0)] (replicate 4 (0, 0)) (0, 0, 0)%nat ((0, 0), (0, 0), (0, 0), (0, 0)) (0, 0)%nat in
  let s0 := edge 2 tw s true false None in
  let s' := run 2 tw false s0 (replicate 15 (false, None)) in
  done s' = true /\ busy s' = false /\ state s' = S_IDLE /\ out_buf s' = fft_net 2 tw false (buf0 s0).
Proof.
  cbv zeta. apply (fft_correct 2 [(32767, 0); (0, -32768)] false
    (fft_reset [(100, 0); (100, 0); (100, 0); (100, 0)] (replicate 4 (0, 0)) (0, 0, 0)%nat ((0, 0), (0, 0), (0, 0), (0, 0)) (0, 0)%nat)
    None (replicate 15 (false, None))); try reflexivity. lia.
Defined.

(** The sums of the butterfly are unsigned: a negative sum comes out positive.
    The transform of the constant -2 has its first bin at 32766, not below
    zero. *)
Lemma negative_sums_turn_positive :
  top_out (-2, 0) (product (32767, 0) (0, 0)) = (32767, 0) /\
  nth 0 (fft_net 1 [(32767, 0)] false [(-2, 0); (-2, 0)]) zc = (32766, 0).
Proof. vm_compute. done. Qed.

End Fft.

(** ** [xcorr_engine] *)
Module Xcorr.
Import Gw Fir Fft.

Inductive xstate :=
  X_IDLE | X_LOAD_REF | X_FFT_REF | X_LOAD_TEST | X_FFT_TEST | X_CONJ_MUL | X_IFFT | X_MAG_SQ | X_OUTPUT | X_DONE.

Record xregs := Xregs {
  x_state : xstate; load_cnt : nat; proc_cnt : nat;
  fft : Fft.regs; fft_start : bool; fft_inverse : bool;
  fft_wr_addr : nat; fft_wr : cell; fft_wr_en : bool; fft_rd_addr : nat;
  ref_fft : list cell; conj : list cell; mag2_mem : list Z;
  xcorr_mag2 : Z; xcorr_valid : bool; xcorr_idx : nat }.

Section Engine.
Variables (k : nat) (tw : list cell).

Definition x_reset (f : Fft.regs) (rf cj : list cell) (m2 : list Z) : xregs :=
  Xregs X_IDLE 0 0 f false false 0 zc false 0 rf cj m2 0 false 0.

Definition x_busy (s : xregs) : bool := match x_state s with X_IDLE => false | _ => true end.
Definition x_done (s : xregs) : bool := match x_state s with X_DONE => true | _ => false end.

Definition fft_rd (s : xregs) : cell := nth (fft_rd_addr s) (out_buf (fft s)) zc.

(** The product of the conjugate of [r] and [t]; the target is [DATA_W] bits
    wide, and so is the sum before the shift. *)
Definition conj_mul (r t : cell) : cell :=
  (signed Fft.DATA_W (r.1 * t.1 + r.2 * t.2) / 2 ^ (Fft.DATA_W - 1), signed Fft.DATA_W (r.1 * t.2 - r.2 * t.1) / 2 ^ (Fft.DATA_W - 1)).
Definition mag2 (c : cell) : Z := wrap 32 (c.1 * c.1 + c.2 * c.2).

(** What the state machine assigns in an edge, besides the defaults. *)
Record upd := Upd {
  u_state : xstate; u_load : nat; u_proc : nat; u_start : bool; u_inverse : bool;
  u_wr : option (nat * cell); u_rd : nat;
  u_ref : list cell; u_conj : list cell; u_mag2 : list Z; u_out : option Z; u_idx : nat }.

Definition keep (s : xregs) (st : xstate) : upd :=
  Upd st (load_cnt s) (proc_cnt s) false (fft_inverse s) None (fft_rd_addr s) (ref_fft s) (conj s) (mag2_mem s) None (xcorr_idx s).

Definition next (s : xregs) (start mode : bool) (ref test : option cell) (ready : bool) : upd :=
  let N := FFT_N k in
  let inc := fun n => wrapn k (n + 1) in
  match x_state s with
  | X_IDLE =>
      if start && mode
      then Upd X_LOAD_REF 0 (proc_cnt s) false (fft_inverse s) None (fft_rd_addr s) (ref_fft s) (conj s) (mag2_mem s) None (xcorr_idx s)
      else keep s X_IDLE
  | X_LOAD_REF =>
      match ref with
      | Some c =>
          if negb (busy (fft s))
          then Upd (if Nat.eqb (load_cnt s) (N - 1) then X_FFT_REF else X_LOAD_REF) (inc (load_cnt s)) (proc_cnt s) false (fft_inverse s)
                   (Some (load_cnt s, c)) (fft_rd_addr s) (ref_fft s) (conj s) (mag2_mem s) None (xcorr_idx s)
          else keep s X_LOAD_REF
      | None => keep s X_LOAD_REF
      end
  | X_FFT_REF =>
      let go := negb (busy (fft s)) && negb (Fft.done (fft s)) in
      Upd (if Fft.done (fft s) then X_LOAD_TEST else X_FFT_REF)
          (if Fft.done (fft s) then 0%nat else load_cnt s) (if Fft.done (fft s) then 0%nat else proc_cnt s)
          go (if go then false else fft_inverse s) None (fft_rd_addr s) (ref_fft s) (conj s) (mag2_mem s) None (xcorr_idx s)
  | X_LOAD_TEST =>
      let '(p, rd, rf) :=
        if (proc_cnt s <? N)%nat
        then (inc (proc_cnt s), proc_cnt s,
              if (0 <? proc_cnt s)%nat then <[(proc_cnt s - 1)%nat := fft_rd s]> (ref_fft s) else ref_fft s)
        else if Nat.eqb (proc_cnt s) N
             then (inc (proc_cnt s), fft_rd_addr s, <[(N - 1)%nat := fft_rd s]> (ref_fft s))
             else (proc_cnt s, fft_rd_addr s, ref_fft s) in
      match test with
      | Some c =>
          if negb (busy (fft s))
          then Upd (if Nat.eqb (load_cnt s) (N - 1) then X_FFT_TEST else X_LOAD_TEST) (inc (load_cnt s)) p false (fft_inverse s)
                   (Some (load_cnt s, c)) rd rf (conj s) (mag2_mem s) None (xcorr_idx s)
          else Upd X_LOAD_TEST (load_cnt s) p false (fft_inverse s) None rd rf (conj s) (mag2_mem s) None (xcorr_idx s)
      | None => Upd X_LOAD_TEST (load_cnt s) p false (fft_inverse s) None rd rf (conj s) (mag2_mem s) None (xcorr_idx s)
      end
  | X_FFT_TEST =>
      let go := negb (busy (fft s)) && negb (Fft.done (fft s)) in
      Upd (if Fft.done (fft s) then X_CONJ_MUL else X_FFT_TEST) (load_cnt s) (if Fft.done (fft s) then 0%nat else proc_cnt s)
          go (if go then false else fft_inverse s) None (fft_rd_addr s) (ref_fft s) (conj s) (mag2_mem s) None (xcorr_idx s)
  | X_CONJ_MUL =>
      let c1 := if (0 <? proc_cnt s)%nat
                then <[(proc_cnt s - 1)%nat := conj_mul (nth (proc_cnt s - 1) (ref_fft s) zc) (fft_rd s)]> (conj s) else conj s in
      if Nat.eqb (proc_cnt s) N
      then Upd X_IFFT 0 (inc (proc_cnt s)) false (fft_inverse s) None (proc_cnt s) (ref_fft s)
               (<[(N - 1)%nat := conj_mul (nth (N - 1) (ref_fft s) zc) (fft_rd s)]> c1) (mag2_mem s) None (xcorr_idx s)
      else Upd X_CONJ_MUL (load_cnt s) (inc (proc_cnt s)) false (fft_inverse s) None (proc_cnt s) (ref_fft s)
               c1 (mag2_mem s) None (xcorr_idx s)
  | X_IFFT =>
      let st := if Fft.done (fft s) then X_MAG_SQ else X_IFFT in
      let p := if Fft.done (fft s) then 0%nat else proc_cnt s in
      if (load_cnt s <? N)%nat
      then Upd st (inc (load_cnt s)) p false (fft_inverse s) (Some (load_cnt s, nth (load_cnt s) (conj s) zc)) (fft_rd_addr s)
               (ref_fft s) (conj s) (mag2_mem s) None (xcorr_idx s)
      else if negb (busy (fft s)) && negb (Fft.done (fft s)) && Nat.eqb (load_cnt s) N
      then Upd st (inc (load_cnt s)) p true true None (fft_rd_addr s) (ref_fft s) (conj s) (mag2_mem s) None (xcorr_idx s)
      else Upd st (load_cnt s) p false (fft_inverse s) None (fft_rd_addr s) (ref_fft s) (conj s) (mag2_mem s) None (xcorr_idx s)
  | X_MAG_SQ =>
      let m1 := if (0 <? proc_cnt s)%nat then <[(proc_cnt s - 1)%nat := mag2 (fft_rd s)]> (mag2_mem s) else mag2_mem s in
      if Nat.eqb (proc_cnt s) N
      then Upd X_OUTPUT (load_cnt s) (inc (proc_cnt s)) false (fft_inverse s) None (proc_cnt s) (ref_fft s) (conj s)
               (<[(N - 1)%nat := mag2 (fft_rd s)]> m1) None 0
      else Upd X_MAG_SQ (load_cnt s) (inc (proc_cnt s)) false (fft_inverse s) None (proc_cnt s) (ref_fft s) (conj s) m1 None (xcorr_idx s)
  | X_OUTPUT =>
      if negb (xcorr_valid s) || ready
      then Upd (if Nat.eqb (xcorr_idx s) (N - 1) then X_DONE else X_OUTPUT) (load_cnt s) (proc_cnt s) false (fft_inverse s) None
               (fft_rd_addr s) (ref_fft s) (conj s) (mag2_mem s) (Some (nth (xcorr_idx s) (mag2_mem s) 0)) (inc (xcorr_idx s))
      else keep s X_OUTPUT
  | X_DONE => keep s X_IDLE
  end.

(** One edge of the engine and of the transform inside it. *)
Definition x_edge (s : xregs) (start mode : bool) (ref test : option cell) (ready : bool) : xregs :=
  let u := next s start mode ref test ready in
  let f := Fft.edge k tw (fft s) (fft_start s) (fft_inverse s) (if fft_wr_en s then Some (fft_wr_addr s, fft_wr s) else None) in
  Xregs (u_state u) (u_load u) (u_proc u) f (u_start u) (u_inverse u)
        (match u_wr u with Some (a, _) => a | None => fft_wr_addr s end) (match u_wr u with Some (_, c) => c | None => fft_wr s end)
        (match u_wr u with Some _ => true | None => false end) (u_rd u)
        (u_ref u) (u_conj u) (u_mag2 u)
        (match u_out u with Some z => z | None => xcorr_mag2 s end)
        (match u_out u with Some _ => true | None => if xcorr_valid s && ready then false else xcorr_valid s end) (u_idx u).

(** The states the engine can reach. *)
Definition stuck_before_ifft (s : xregs) : Prop :=
  xcorr_valid s = false /\ (proc_cnt s < FFT_N k)%nat /\
  match x_state s with X_IDLE | X_LOAD_REF | X_FFT_REF | X_LOAD_TEST | X_FFT_TEST | X_CONJ_MUL => True | _ => False end.

Lemma wrapn_lt n : (wrapn k n < FFT_N k)%nat.
Proof. apply Nat.mod_upper_bound, Nat.pow_nonzero. lia. Qed.

Lemma stuck_edge s start mode ref test ready :
  stuck_before_ifft s -> stuck_before_ifft (x_edge s start mode ref test ready).
Proof.
  intros (Hv & Hp & Hs). assert (0 < FFT_N k)%nat as HN by lia. pose proof (wrapn_lt (proc_cnt s + 1)) as Hi.
  unfold stuck_before_ifft, x_edge, next, keep. rewrite Hv. destruct (x_state s); try done; cbn [andb].
  - by destruct (start && mode).
  - destruct ref; [|done]. destruct (negb (busy (fft s))); [|done]. by destruct (Nat.eqb _ _).
  - by destruct (Fft.done (fft s)).
  - replace (proc_cnt s <? FFT_N k)%nat with true by (symmetry; by apply Nat.ltb_lt).
    destruct test; [|done]. destruct (negb (busy (fft s))); [|done]. by destruct (Nat.eqb _ _).
  - by destruct (Fft.done (fft s)).
  - replace (Nat.eqb (proc_cnt s) (FFT_N k)) with false by (symmetry; apply Nat.eqb_neq; lia). done.
Qed.

End Engine.

(** The correlator never delivers a result: its counter is as wide as an
    address, so that it never equals the number of points, and the state that
    multiplies the spectra is never left. *)
Lemma correlator_never_delivers k tw f rf cj m2 ins :
  let s := foldl (fun s '(start, mode, ref, test, ready) => x_edge k tw s start mode ref test ready) (x_reset f rf cj m2) ins in
  xcorr_valid s = false /\ x_done s = false.
Proof.
  cbv zeta. assert (stuck_before_ifft k (x_reset f rf cj m2)) as H.
  { split_and!; try done. cbn. apply Nat.neq_0_lt_0, Nat.pow_nonzero. lia. }
  revert H. generalize (x_reset f rf cj m2). induction ins as [|[[[[? ?] ?] ?] ?] ins IH]; intros s H.
  - destruct H as (Hv & _ & Hs). split; [done|]. unfold x_done. cbn. by destruct (x_state s).
  - cbn [foldl]. apply IH. by apply stuck_edge.
Qed.

End Xcorr.
