(* ===== verification/HwControl.v ===== *)
(** * The hardware controller ([hw_controller.py])

    The receiver-side state of class [HWC]: gain indices, the noise source, AGC
    and the state machine that runs once per IQ frame, with the handlers of the
    control requests that change this state.  A transaction with the receiver is
    a message in a trace and an answer of the environment.  The link budget
    (advisory), the antenna orientation, the database and the event bus do not
    feed back into this state and are left out; what the scheduler and the
    control connections ask for is an input. *)
From S2P Require Import Prelude.
Open Scope Z_scope.

Module Hwc.

(** ** Tables *)
Definition valid_gains : list Z :=
  [0; 9; 14; 27; 37; 77; 87; 125; 144; 157; 166; 197; 207; 229; 254; 280; 297; 328; 338; 364; 372; 386; 402; 421; 434; 439; 445; 480; 496].

(** Frequencies in Hz and the gain indices for calibration. *)
Definition cal_gain_table : list (Z * nat) :=
  [(100000000, 6%nat); (200000000, 10%nat); (300000000, 13%nat); (400000000, 14%nat);
   (500000000, 18%nat); (600000000, 22%nat); (700000000, 28%nat); (1700000000, 28%nat)].

(** The entry [argmin] picks: the first of the nearest. *)
Definition cal_gain (f : Z) : nat :=
  (foldl (fun best e => if Z.abs (e.1 - f) <? Z.abs (best.1 - f) then e else best) (100000000, 6%nat) cal_gain_table).2.

(** [self.valid_gains.index(x)], [None] for the [ValueError]. *)
Fixpoint index_of (x : Z) (l : list Z) : option nat :=
  match l with [] => None | y :: l => if y =? x then Some O else S <$> index_of x l end.

(** ** State *)
Inductive fsm := STATE_INIT | STATE_GAIN_CTR_WAIT | STATE_GAIN_TUNE | STATE_IQ_CAL | STATE_NOISE_CTR_WAIT.

Inductive msg := MGain (g : list Z) | MNoise (b : bool) | MAgc | MFreq (f : Z) | MBias (b : list Z).

Record hw := Hw {
  gains : list nat; last_gains : list nat;
  gain_tune_states : list bool; gain_lock_cntr : Z; cal_frame_cntr : Z;
  noise_source_state : bool; agc : bool; last_agc : bool;
  current_state : fsm; rf_center_frequency : Z; recal_generation : Z;
  bias_tee_state : list Z;
  sent : list msg }.

Definition set_gains g s := Hw g (last_gains s) (gain_tune_states s) (gain_lock_cntr s) (cal_frame_cntr s)
  (noise_source_state s) (agc s) (last_agc s) (current_state s) (rf_center_frequency s) (recal_generation s) (bias_tee_state s) (sent s).
Definition set_last_gains g s := Hw (gains s) g (gain_tune_states s) (gain_lock_cntr s) (cal_frame_cntr s)
  (noise_source_state s) (agc s) (last_agc s) (current_state s) (rf_center_frequency s) (recal_generation s) (bias_tee_state s) (sent s).
Definition set_tune t s := Hw (gains s) (last_gains s) t (gain_lock_cntr s) (cal_frame_cntr s)
  (noise_source_state s) (agc s) (last_agc s) (current_state s) (rf_center_frequency s) (recal_generation s) (bias_tee_state s) (sent s).
Definition set_lock n s := Hw (gains s) (last_gains s) (gain_tune_states s) n (cal_frame_cntr s)
  (noise_source_state s) (agc s) (last_agc s) (current_state s) (rf_center_frequency s) (recal_generation s) (bias_tee_state s) (sent s).
Definition set_cal n s := Hw (gains s) (last_gains s) (gain_tune_states s) (gain_lock_cntr s) n
  (noise_source_state s) (agc s) (last_agc s) (current_state s) (rf_center_frequency s) (recal_generation s) (bias_tee_state s) (sent s).
Definition set_noise b s := Hw (gains s) (last_gains s) (gain_tune_states s) (gain_lock_cntr s) (cal_frame_cntr s)
  b (agc s) (last_agc s) (current_state s) (rf_center_frequency s) (recal_generation s) (bias_tee_state s) (sent s).
Definition set_agc b s := Hw (gains s) (last_gains s) (gain_tune_states s) (gain_lock_cntr s) (cal_frame_cntr s)
  (noise_source_state s) b (last_agc s) (current_state s) (rf_center_frequency s) (recal_generation s) (bias_tee_state s) (sent s).
Definition set_last_agc b s := Hw (gains s) (last_gains s) (gain_tune_states s) (gain_lock_cntr s) (cal_frame_cntr s)
  (noise_source_state s) (agc s) b (current_state s) (rf_center_frequency s) (recal_generation s) (bias_tee_state s) (sent s).
Definition set_state c s := Hw (gains s) (last_gains s) (gain_tune_states s) (gain_lock_cntr s) (cal_frame_cntr s)
  (noise_source_state s) (agc s) (last_agc s) c (rf_center_frequency s) (recal_generation s) (bias_tee_state s) (sent s).
Definition set_freq f s := Hw (gains s) (last_gains s) (gain_tune_states s) (gain_lock_cntr s) (cal_frame_cntr s)
  (noise_source_state s) (agc s) (last_agc s) (current_state s) f (recal_generation s) (bias_tee_state s) (sent s).
Definition set_recal n s := Hw (gains s) (last_gains s) (gain_tune_states s) (gain_lock_cntr s) (cal_frame_cntr s)
  (noise_source_state s) (agc s) (last_agc s) (current_state s) (rf_center_frequency s) n (bias_tee_state s) (sent s).
Definition set_bias b s := Hw (gains s) (last_gains s) (gain_tune_states s) (gain_lock_cntr s) (cal_frame_cntr s)
  (noise_source_state s) (agc s) (last_agc s) (current_state s) (rf_center_frequency s) (recal_generation s) b (sent s).
Definition set_sent l s := Hw (gains s) (last_gains s) (gain_tune_states s) (gain_lock_cntr s) (cal_frame_cntr s)
  (noise_source_state s) (agc s) (last_agc s) (current_state s) (rf_center_frequency s) (recal_generation s) (bias_tee_state s) l.

(** The fields of the frame header the controller reads. *)
Record header := Header {
  h_dummy : bool; h_sync_state : Z; h_noise : Z; h_if_gains : list Z; h_overdrive : Z; h_freq : Z }.

Section Controller.
(** The configuration, and whether the receiver confirms the [n]-th message. *)
Variables (M : nat) (unified : bool) (cal_track_mode cal_frame_interval cal_frame_burst_size gain_lock_interval : Z)
  (require_track_lock defer_during_burst recal_on_gain_change en_wire_recal en_bias_tee_runtime : bool)
  (confirm : nat -> bool).

(** [_rtl_daq_transaction] *)
Definition transact (m : msg) (s : hw) : hw * bool := (set_sent (sent s ++ [m]) s, confirm (length (sent s))).

Definition list_min (l : list nat) : nat := match l with [] => 0%nat | x :: l => foldl Nat.min x l end.
Definition tenths (g : list nat) : list Z := map (fun i => nth i valid_gains 0) g.

Definition _change_gains (s : hw) : hw * bool :=
  let s1 := if unified then set_gains (replicate M (list_min (gains s))) s else s in
  transact (MGain (tenths (take M (gains s1)))) s1.

Definition _enable_agc (s : hw) : hw * bool := if agc s then transact MAgc s else (s, true).

(** [_control_noise_source] *)
Definition _control_noise_source (on : bool) (h : header) (s : hw) : hw * bool :=
  if on then
    let s1 := set_agc false (set_last_agc (agc s) s) in
    let s2 := set_gains (replicate M (cal_gain (h_freq h))) (set_last_gains (gains s1) s1) in
    let s3 := (_change_gains s2).1 in
    let '(s4, ok) := transact (MNoise true) s3 in
    (set_state STATE_NOISE_CTR_WAIT (set_noise true s4), ok)
  else
    let '(s1, ok) := transact (MNoise false) s in
    let s2 := set_noise false s1 in
    let s3 := (_change_gains (set_gains (last_gains s2) s2)).1 in
    let s4 := (_enable_agc (set_agc (last_agc s3) s3)).1 in
    (set_state STATE_NOISE_CTR_WAIT s4, ok).

(** The gains the header reports are the commanded ones. *)
Definition gains_settled (h : header) (s : hw) : bool :=
  forallb (fun m => nth (nth m (gains s) 0%nat) valid_gains 0 =? nth m (h_if_gains h) 0) (seq 0 M).

Definition overdriven (h : header) (m : nat) : bool := Z.testbit (h_overdrive h) (Z.of_nat m).

(** One channel of the loop of [_tune_gains]. *)
Definition tune_channel (h : header) (s : hw) (m : nat) : hw :=
  let s1 :=
    if overdriven h m then
      let s0 := if Nat.eqb (nth m (gains s) 0%nat) 0 then s else set_gains (<[m := (nth m (gains s) 0 - 1)%nat]> (gains s)) s in
      set_tune (if unified then replicate M false else <[m := false]> (gain_tune_states s0)) s0
    else s in
  if nth m (gain_tune_states s1) false then
    if (nth m (gains s1) 0 <? length valid_gains - 1)%nat
    then set_gains (<[m := (nth m (gains s1) 0 + 1)%nat]> (gains s1)) s1
    else set_tune (if unified then replicate M false else <[m := false]> (gain_tune_states s1)) s1
  else s1.

Definition _tune_gains (h : header) (s : hw) : hw :=
  if gains_settled h s then (_change_gains (foldl (tune_channel h) s (seq 0 M))).1 else s.

(** ** Control requests *)
(** [(applied, reason)]; an [IndexError] that no handler catches. *)
Inductive outcome := Ack (applied : option bool) (reason : string) | Escapes.

(** [OTHER] stands for the verbs of the scheduler, the link budget and the
    antenna: they leave this state alone, and their outcome is an input. *)
Inductive cmd := FREQ (f : Z) | GAIN (g : list Z) | AGC | INIT | RECL | BIAS (b : list Z) | OTHER (o : outcome).

(** [for m in range(M): target[m] = valid_gains.index(params[m])]: what was
    assigned before an exception stays. *)
Fixpoint assign_gains (ms : list nat) (params : list Z) (target : list nat) : list nat * option outcome :=
  match ms with
  | [] => (target, None)
  | m :: ms =>
      match params !! m with
      | None => (target, Some Escapes)
      | Some p =>
          match index_of p valid_gains with
          | None => (target, Some (Ack (Some false) "range"))
          | Some i => assign_gains ms params (<[m := i]> target)
          end
      end
  end.

(** [_perform_recal]; the request file is written or not. *)
Definition _perform_recal (written : bool) (s : hw) : hw * outcome :=
  (set_state STATE_INIT (set_recal (recal_generation s + 1) s), if written then Ack (Some true) "ok" else Ack None "error").

Definition _handle_control_reqest (c : cmd) (from_wire written : bool) (s : hw) : hw * outcome :=
  match c with
  | FREQ f =>
      if (0 <? f) && (f <? 2 ^ 32) then
        let '(s1, ok) := transact (MFreq f) s in
        if ok then (set_freq f s1, Ack (Some true) "ok") else (s1, Ack (Some false) "not_confirmed")
      else (s, Ack (Some false) "range")
  | GAIN g =>
      if noise_source_state s then
        let '(lg, err) := assign_gains (seq 0 M) g (last_gains s) in
        let s1 := set_last_gains lg s in
        match err with
        | Some e => (s1, e)
        | None => (set_agc false s1, Ack None "held_for_burst")
        end
      else
        let '(gs, err) := assign_gains (seq 0 M) g (gains s) in
        let s1 := set_gains gs s in
        match err with
        | Some e => (s1, e)
        | None =>
            let '(s2, ok) := _change_gains s1 in
            let s3 := set_agc false s2 in
            if ok then
              (if recal_on_gain_change && from_wire then (_perform_recal written s3).1 else s3, Ack (Some true) "ok")
            else (s3, Ack (Some false) "not_confirmed")
        end
  | AGC =>
      if noise_source_state s then (set_last_agc true s, Ack None "held_for_burst")
      else
        let '(s1, ok) := _enable_agc (set_agc true s) in
        (s1, if ok then Ack (Some true) "ok" else Ack (Some false) "not_confirmed")
  | INIT => (set_state STATE_INIT s, Ack (Some true) "ok")
  | RECL => if en_wire_recal then _perform_recal written s else (s, Ack (Some false) "disabled")
  | BIAS b =>
      if en_bias_tee_runtime then
        if (length b <? M)%nat then (s, Ack (Some false) "range") else
        let states := map (fun x => if x =? 0 then 0 else 1) (take M b) in
        let '(s1, ok) := transact (MBias states) (set_bias states s) in
        (s1, if ok then Ack (Some true) "ok" else Ack (Some false) "not_confirmed")
      else (s, Ack (Some false) "disabled")
  | OTHER o => (s, o)
  end.

(** [_defer_during_burst] *)
Definition _defer_during_burst (c : cmd) (s : hw) : bool :=
  match c with
  | INIT | RECL => noise_source_state s
  | FREQ _ | GAIN _ | BIAS _ => defer_during_burst && noise_source_state s
  | _ => false
  end.

(** ** One frame *)

(** [STATE_IQ_CAL] up to the scheduler. *)
Definition iq_cal (h : header) (approved : bool) (s : hw) : hw :=
  let s1 :=
    if (cal_track_mode =? 0) || (cal_track_mode =? 1) || ((cal_track_mode =? 2) && (cal_frame_cntr s <? cal_frame_interval)) then
      if h_sync_state h <? 5 then
        if h_noise h =? 0 then (_control_noise_source true h s).1 else s
      else
        if (h_noise h =? 1) && (negb require_track_lock || approved) then (_control_noise_source false h s).1 else s
    else s in
  if cal_track_mode =? 2 then
    if h_sync_state h =? 6 then
      let s2 := set_cal (cal_frame_cntr s1 + 1) s1 in
      if cal_frame_cntr s2 =? cal_frame_interval then (_control_noise_source true h s2).1
      else if cal_frame_cntr s2 =? cal_frame_interval + cal_frame_burst_size
      then set_cal 0 (_control_noise_source false h s2).1
      else s2
    else set_cal 0 s1
  else s1.

(** The scheduler's commands of this frame: a retune, with gains or without.
    The result is [None] when an exception leaves the main loop. *)
Definition schedule_cmds (sched : option (Z * option (list Z))) (s : hw) : option hw :=
  match sched with
  | None => Some s
  | Some (f, g) =>
      let s1 := set_cal 0 (_handle_control_reqest (FREQ f) false false s).1 in
      match g with
      | Some g =>
          match _handle_control_reqest (GAIN g) false false s1 with
          | (_, Escapes) => None
          | (s2, _) => Some s2
          end
      | None => Some s1
      end
  end.

Definition fsm_step (h : header) (approved : bool) (sched : option (Z * option (list Z))) (s : hw) : option hw :=
  match current_state s with
  | STATE_INIT =>
      let s1 := (transact (MNoise false) (_change_gains s).1).1 in
      Some (set_state (if existsb id (gain_tune_states s1) then STATE_GAIN_CTR_WAIT else STATE_IQ_CAL) s1)
  | STATE_GAIN_CTR_WAIT => Some (if gains_settled h s then set_state STATE_GAIN_TUNE s else s)
  | STATE_GAIN_TUNE => Some (
      if negb (h_overdrive h =? 0) || existsb id (gain_tune_states s)
      then set_lock 0 (set_state STATE_GAIN_CTR_WAIT (_tune_gains h s))
      else if gain_lock_cntr s =? gain_lock_interval then set_lock 0 (set_state STATE_IQ_CAL s)
      else set_lock (gain_lock_cntr s + 1) s)
  | STATE_IQ_CAL => schedule_cmds sched (iq_cal h approved s)
  | STATE_NOISE_CTR_WAIT => Some (
      if (Z.b2z (noise_source_state s) =? h_noise h) && gains_settled h s then set_state STATE_IQ_CAL s else s)
  end.

(** The requests of a frame that [_drain_control_requests] executes, one after
    the other; the state machine's state is looked at before the first. *)
Definition execute (s : hw) (r : cmd * bool) : hw :=
  if _defer_during_burst r.1 s then s else (_handle_control_reqest r.1 true r.2 s).1.

Record input := Input {
  i_header : header; i_approved : bool; i_sched : option (Z * option (list Z)); i_requests : list (cmd * bool) }.

Definition frame (s : hw) (i : input) : option hw :=
  s1 ← (if h_dummy (i_header i) then Some s else fsm_step (i_header i) (i_approved i) (i_sched i) s);
  Some (match current_state s1 with
        | STATE_IQ_CAL => if h_dummy (i_header i) then s1 else foldl execute s1 (i_requests i)
        | _ => s1
        end).

Fixpoint frames (s : hw) (is_ : list input) : option hw :=
  match is_ with [] => Some s | i :: is_ => s1 ← frame s i; frames s1 is_ end.

(** ** Gain indices stay in the table *)
Definition idx_ok (i : nat) : Prop := (i < length valid_gains)%nat.
Definition msg_ok (m : msg) : Prop :=
  match m with MGain g => length g = M /\ Forall (fun x => x ∈ valid_gains) g | _ => True end.

Record wf (s : hw) : Prop := {
  wf_gains : length (gains s) = M /\ Forall idx_ok (gains s);
  wf_last : length (last_gains s) = M /\ Forall idx_ok (last_gains s);
  wf_tune : length (gain_tune_states s) = M;
  wf_sent : Forall msg_ok (sent s) }.

Lemma cal_gain_ok f : idx_ok (cal_gain f).
Proof.
  unfold cal_gain. assert (forall l best, idx_ok best.2 -> Forall (fun e => idx_ok e.2) l ->
    idx_ok (foldl (fun best e => if Z.abs (e.1 - f) <? Z.abs (best.1 - f) then e else best) best l).2) as H.
  { induction l as [|e l IH]; intros best Hb Hl; [done|]. apply list.Forall_cons in Hl as [He Hl]. cbn [foldl].
    apply IH; [|done]. by case_match. }
  apply H; [unfold idx_ok; cbn; lia|]. repeat constructor; unfold idx_ok; cbn; lia.
Qed.

Lemma index_of_ok x l i : index_of x l = Some i -> l !! i = Some x.
Proof.
  revert i. induction l as [|y l IH]; intros i; [done|]. cbn. destruct (Z.eqb_spec y x) as [->|]; [by intros [= <-]|].
  destruct (index_of x l); [|done]. intros [= <-]. by apply IH.
Qed.

Lemma list_min_ok l : Forall idx_ok l -> idx_ok (list_min l).
Proof.
  destruct l as [|x l]; [intros _; unfold idx_ok; cbn; lia|]. intros H. apply list.Forall_cons in H as [Hx Hl]. cbn.
  revert x Hx. induction Hl as [|y l Hy Hl IH]; intros x Hx; [done|]. cbn. apply IH. unfold idx_ok in *. lia.
Qed.

Lemma tenths_ok g : Forall idx_ok g -> Forall (fun x => x ∈ valid_gains) (tenths g).
Proof.
  intros H. unfold tenths. apply Forall_fmap. eapply list.Forall_impl; [exact H|]. intros i Hi.
  destruct (lookup_lt_is_Some_2 valid_gains i Hi) as [z Hz]. unfold compose. rewrite (nth_lookup_Some _ _ _ _ Hz).
  by eapply list_elem_of_lookup_2.
Qed.

Lemma wf_transact m s : wf s -> msg_ok m -> wf (transact m s).1.
Proof. intros [] Hm. constructor; try done. cbn. apply list.Forall_app. split; [done|]. by constructor. Qed.

Lemma wf_set_gains g s : wf s -> length g = M -> Forall idx_ok g -> wf (set_gains g s).
Proof. intros [] ? ?. by constructor. Qed.

Lemma wf_set_last_gains g s : wf s -> length g = M -> Forall idx_ok g -> wf (set_last_gains g s).
Proof. intros [] ? ?. by constructor. Qed.

Lemma wf_set_tune t s : wf s -> length t = M -> wf (set_tune t s).
Proof. intros [] ?. by constructor. Qed.

(** The other setters touch nothing the invariant reads. *)
Lemma wf_view s s' :
  wf s -> gains s' = gains s -> last_gains s' = last_gains s -> gain_tune_states s' = gain_tune_states s -> sent s' = sent s -> wf s'.
Proof. intros [] E1 E2 E3 E4. constructor; by rewrite ?E1, ?E2, ?E3, ?E4. Qed.

Lemma wf_change_gains s : wf s -> wf (_change_gains s).1.
Proof.
  intros H. unfold _change_gains.
  assert (wf (if unified then set_gains (replicate M (list_min (gains s))) s else s)) as H1.
  { destruct unified; [|done]. apply wf_set_gains; [done|by rewrite length_replicate|]. apply Forall_replicate.
    apply list_min_ok. apply H. }
  apply wf_transact; [done|]. destruct (wf_gains _ H1) as [Hl Hf]. split.
  - unfold tenths. rewrite length_map, length_take. lia.
  - apply tenths_ok. by apply Forall_take.
Qed.

Lemma wf_enable_agc s : wf s -> wf (_enable_agc s).1.
Proof. intros H. unfold _enable_agc. destruct (agc s); [|done]. by apply wf_transact. Qed.

Lemma wf_control_noise on h s : wf s -> wf (_control_noise_source on h s).1.
Proof.
  intros H. unfold _control_noise_source. destruct on.
  - cbn [transact fst]. eapply (wf_view (transact (MNoise true) (_change_gains _).1).1); [|done..].
    apply wf_transact; [|done]. apply wf_change_gains. apply wf_set_gains; [|by rewrite length_replicate|].
    + apply wf_set_last_gains; [|apply H..]. by eapply wf_view.
    + apply Forall_replicate, cal_gain_ok.
  - cbn [transact fst]. eapply (wf_view (_enable_agc _).1); [|done..]. apply wf_enable_agc.
    eapply (wf_view (_change_gains _).1); [|done..]. apply wf_change_gains. apply wf_set_gains; [|apply H..].
    eapply (wf_view (transact (MNoise false) s).1); [|done..]. by apply wf_transact.
Qed.

Lemma wf_set_nth_gains m i s : wf s -> idx_ok i -> wf (set_gains (<[m := i]> (gains s)) s).
Proof.
  intros H Hi. apply wf_set_gains; [done|by rewrite length_insert; apply H|]. apply Forall_insert; [apply H|done].
Qed.

Lemma nth_idx_ok m l : Forall idx_ok l -> idx_ok (nth m l 0%nat).
Proof.
  intros H. destruct (l !! m) as [i|] eqn:E.
  - rewrite (nth_lookup_Some _ _ _ _ E). by eapply Forall_lookup_1.
  - rewrite nth_overflow by (by apply lookup_ge_None_1). unfold idx_ok. cbn. lia.
Qed.

Lemma wf_clear_tune m s :
  wf s -> wf (set_tune (if unified then replicate M false else <[m := false]> (gain_tune_states s)) s).
Proof.
  intros H. apply wf_set_tune; [done|]. destruct unified; [by rewrite length_replicate|]. rewrite length_insert. apply H.
Qed.

Lemma wf_tune_channel h s m : wf s -> wf (tune_channel h s m).
Proof.
  intros H. unfold tune_channel. set (s1 := if overdriven h m then _ else s).
  assert (wf s1) as H1.
  { subst s1. destruct (overdriven h m); [|done]. cbv zeta. apply wf_clear_tune. destruct (Nat.eqb _ 0); [done|].
    apply wf_set_nth_gains; [done|]. pose proof (nth_idx_ok m (gains s) (proj2 (wf_gains _ H))). unfold idx_ok in *. lia. }
  clearbody s1. destruct (nth m (gain_tune_states s1) false); [|done].
  destruct (Nat.ltb_spec (nth m (gains s1) 0%nat) (length valid_gains - 1)) as [Hlt|]; [|by apply wf_clear_tune].
  apply wf_set_nth_gains; [done|]. unfold idx_ok. lia.
Qed.

Lemma wf_foldl {A} (f : hw -> A -> hw) l s : (forall s x, wf s -> wf (f s x)) -> wf s -> wf (foldl f s l).
Proof. intros Hf. revert s. induction l as [|x l IH]; intros s H; [done|]. cbn. by apply IH, Hf. Qed.

Lemma wf_tune_gains h s : wf s -> wf (_tune_gains h s).
Proof.
  intros H. unfold _tune_gains. destruct (gains_settled h s); [|done]. apply wf_change_gains. apply wf_foldl; [|done].
  intros. by apply wf_tune_channel.
Qed.

Lemma assign_gains_ok ms params target :
  length target = M -> Forall idx_ok target ->
  length (assign_gains ms params target).1 = M /\ Forall idx_ok (assign_gains ms params target).1.
Proof.
  revert target. induction ms as [|m ms IH]; intros target Hl Hf; [done|]. cbn [assign_gains].
  destruct (params !! m) as [p|]; [|done]. destruct (index_of p valid_gains) as [i|] eqn:E; [|done].
  apply IH; [by rewrite length_insert|]. apply Forall_insert; [done|]. apply index_of_ok in E.
  by eapply lookup_lt_Some.
Qed.

Lemma wf_perform_recal w s : wf s -> wf (_perform_recal w s).1.
Proof. intros H. by eapply wf_view. Qed.

Lemma wf_gain g fw w s : wf s -> wf (_handle_control_reqest (GAIN g) fw w s).1.
Proof.
  intros H. cbn [_handle_control_reqest]. destruct (noise_source_state s).
  - pose proof (assign_gains_ok (seq 0 M) g (last_gains s) (proj1 (wf_last _ H)) (proj2 (wf_last _ H))) as [Hl Hf].
    destruct (assign_gains (seq 0 M) g (last_gains s)) as [lg err]. cbn in Hl, Hf.
    pose proof (wf_set_last_gains lg s H Hl Hf). destruct err; [done|]. by eapply wf_view.
  - pose proof (assign_gains_ok (seq 0 M) g (gains s) (proj1 (wf_gains _ H)) (proj2 (wf_gains _ H))) as [Hl Hf].
    destruct (assign_gains (seq 0 M) g (gains s)) as [gs err]. cbn in Hl, Hf.
    pose proof (wf_set_gains gs s H Hl Hf) as H1. destruct err; [done|].
    pose proof (wf_change_gains _ H1) as H2. destruct (_change_gains (set_gains gs s)) as [s2 ok]. cbn [fst] in H2.
    assert (wf (set_agc false s2)) by (by eapply wf_view). destruct ok; [|done]. cbn [fst].
    destruct (recal_on_gain_change && fw); [|done]. by apply wf_perform_recal.
Qed.

Lemma wf_request c fw w s : wf s -> wf (_handle_control_reqest c fw w s).1.
Proof.
  intros H. destruct c as [f|g| | | |b|]; [|by apply wf_gain|..]; cbn [_handle_control_reqest].
  - destruct ((0 <? f) && (f <? 2 ^ 32)); [|done]. pose proof (wf_transact (MFreq f) s H I) as Ht.
    destruct (transact (MFreq f) s) as [s1 ok]. destruct ok; [|done]. by eapply wf_view.
  - destruct (noise_source_state s); [by eapply wf_view|].
    assert (wf (set_agc true s)) as H1 by (by eapply wf_view). pose proof (wf_enable_agc _ H1) as H2.
    by destruct (_enable_agc (set_agc true s)).
  - by eapply wf_view.
  - destruct en_wire_recal; [|done]. by apply wf_perform_recal.
  - destruct en_bias_tee_runtime; [|done]. destruct (length b <? M)%nat; [done|]. apply wf_transact; [|done]. by eapply wf_view.
  - done.
Qed.

Lemma wf_set_cal n s : wf s -> wf (set_cal n s).
Proof. intros H. by apply (wf_view s). Qed.

Lemma wf_iq_cal h a s : wf s -> wf (iq_cal h a s).
Proof.
  intros H. unfold iq_cal. set (s1 := if _ || _ || _ then _ else s).
  assert (wf s1) as H1 by (subst s1; repeat case_match; try done; by apply wf_control_noise). clearbody s1.
  assert (forall n, wf (set_cal n s1)) as Hc by (intros; by apply wf_set_cal).
  destruct (cal_track_mode =? 2); [|done]. destruct (h_sync_state h =? 6); [|done]. cbv zeta.
  case_match; [by apply wf_control_noise|]. case_match; [|done]. by apply wf_set_cal, wf_control_noise.
Qed.

Lemma wf_fsm_step h a sched s s' : wf s -> fsm_step h a sched s = Some s' -> wf s'.
Proof.
  intros H. unfold fsm_step. destruct (current_state s).
  - intros [= <-]. eapply (wf_view (transact (MNoise false) (_change_gains s).1).1); [|done..].
    apply wf_transact; [by apply wf_change_gains|done].
  - intros [= <-]. case_match; [by eapply wf_view|done].
  - intros [= <-]. case_match; [|case_match; by eapply wf_view].
    eapply (wf_view (_tune_gains h s)); [by apply wf_tune_gains|done..].
  - pose proof (wf_iq_cal h a s H) as H1. unfold schedule_cmds. destruct sched as [[f g]|]; [|by intros [= <-]].
    set (s1 := set_cal 0 _). assert (wf s1) as H2 by (by apply wf_set_cal, wf_request). clearbody s1.
    destruct g as [g|]; [|by intros [= <-]]. pose proof (wf_gain g false false s1 H2) as H3.
    destruct (_handle_control_reqest (GAIN g) false false s1) as [s2 [|]]; [|done]. by intros [= <-].
  - intros [= <-]. case_match; [by eapply wf_view|done].
Qed.

Lemma wf_frame s i s' : wf s -> frame s i = Some s' -> wf s'.
Proof.
  intros H. unfold frame. destruct (h_dummy (i_header i)); cbn [mbind option_bind].
  - intros [= <-]. by case_match.
  - destruct (fsm_step _ _ _ s) as [s1|] eqn:E; [|done]. intros [= <-]. pose proof (wf_fsm_step _ _ _ _ _ H E) as H1.
    case_match; try done. apply wf_foldl; [|done]. intros s2 [c w] H2. unfold execute. case_match; [done|]. by apply wf_request.
Qed.

Lemma wf_frames s is_ s' : wf s -> frames s is_ = Some s' -> wf s'.
Proof.
  revert s. induction is_ as [|i is_ IH]; intros s H; cbn [frames]; [by intros [= <-]|].
  destruct (frame s i) as [s1|] eqn:E; cbn; [|done]. apply IH. by eapply wf_frame.
Qed.

(** ** What the user set survives the calibration bursts *)
Definition unify (g : list nat) : list nat := if unified then replicate M (list_min g) else g.

Lemma change_gains_eq s :
  (_change_gains s).1 = set_sent (sent s ++ [MGain (tenths (take M (unify (gains s))))]) (set_gains (unify (gains s)) s).
Proof. unfold _change_gains, unify. destruct s. by destruct unified. Qed.

Lemma list_min_replicate n x : list_min (replicate (S n) x) = x.
Proof. cbn. induction n as [|n IH]; [done|]. cbn. by rewrite Nat.min_id. Qed.

(** With unified gain control the channels share one gain. *)
Definition uniform (g : list nat) : Prop := unified = true -> exists x, g = replicate M x.

Lemma unify_id g : uniform g -> unify g = g.
Proof.
  unfold unify, uniform. destruct unified; [|done]. intros [x ->]; [done|]. destruct M as [|n]; [done|]. by rewrite list_min_replicate.
Qed.

Definition user_gains (s : hw) : list nat := if noise_source_state s then last_gains s else gains s.
Definition user_agc (s : hw) : bool := if noise_source_state s then last_agc s else agc s.

(** What the theorem is about, and what it needs of the rest of the state. *)
Record calm (g : list nat) (a : bool) (s : hw) : Prop := {
  calm_gains : user_gains s = g;
  calm_agc : user_agc s = a;
  calm_tune : existsb id (gain_tune_states s) = false;
  calm_state : match current_state s with
               | STATE_INIT => noise_source_state s = false
               | STATE_GAIN_CTR_WAIT | STATE_GAIN_TUNE => False
               | _ => True
               end;
  calm_cntr : cal_track_mode = 2 -> noise_source_state s = false -> cal_frame_cntr s < cal_frame_interval }.

(** No request and no schedule entry changes gains or AGC, and the header
    reports the noise source the controller commanded once it has settled. *)
Definition leaves_gains (c : cmd) : bool := match c with GAIN _ | AGC => false | _ => true end.
Definition quiet (i : input) : bool :=
  match i_sched i with Some (_, Some _) => false | _ => true end && forallb (fun r => leaves_gains r.1) (i_requests i).
Definition faithful (s : hw) (i : input) : bool :=
  match current_state s with STATE_IQ_CAL => h_dummy (i_header i) || (h_noise (i_header i) =? Z.b2z (noise_source_state s)) | _ => true end.

Fixpoint undisturbed (s : hw) (is_ : list input) : bool :=
  match is_ with
  | [] => true
  | i :: is_ => quiet i && faithful s i && match frame s i with Some s1 => undisturbed s1 is_ | None => true end
  end.

Section Bursts.
Context (Hint : 0 < cal_frame_interval) (Hburst : 0 < cal_frame_burst_size)
  (Hlock : cal_track_mode = 2 -> require_track_lock = false).

Lemma noise_on_calm h s g a :
  calm g a s -> noise_source_state s = false ->
  let s' := (_control_noise_source true h s).1 in calm g a s' /\ noise_source_state s' = true /\ cal_frame_cntr s' = cal_frame_cntr s.
Proof.
  intros [Hg Ha Ht _ _] Hn. unfold user_gains, user_agc in *. rewrite Hn in Hg, Ha. cbv zeta. unfold _control_noise_source.
  rewrite change_gains_eq. split; [|done]. constructor; try done. 
Qed.

Lemma noise_off_calm h n s g a :
  uniform g -> calm g a s -> noise_source_state s = true -> (cal_track_mode = 2 -> n < cal_frame_interval) ->
  calm g a (set_cal n (_control_noise_source false h s).1) /\ noise_source_state (_control_noise_source false h s).1 = false /\
  cal_frame_cntr (_control_noise_source false h s).1 = cal_frame_cntr s.
Proof.
  intros Hu [Hg Ha Ht _ _] Hn Hc. unfold user_gains, user_agc in *. rewrite Hn in Hg, Ha. unfold _control_noise_source.
  cbn [transact fst snd]. rewrite change_gains_eq. cbn [set_gains set_noise set_sent set_agc gains last_gains last_agc sent].
  rewrite Hg, Ha, (unify_id g Hu). unfold _enable_agc. cbn [agc].
  destruct a; (split; [|done]); constructor; try done; cbn; intros; by apply Hc.
Qed.

Lemma calm_set_cal n s g a : calm g a s -> (cal_track_mode = 2 -> noise_source_state s = false -> n < cal_frame_interval) -> calm g a (set_cal n s).
Proof. intros []; constructor; done. Qed.

Lemma set_cal_id s : set_cal (cal_frame_cntr s) s = s.
Proof. by destruct s. Qed.

Lemma noise_set_cal b h n s : (_control_noise_source b h (set_cal n s)).1 = set_cal n (_control_noise_source b h s).1.
Proof.
  unfold _control_noise_source. destruct b; cbn [transact fst snd]; rewrite !change_gains_eq; [done|].
  unfold _enable_agc. cbn [agc set_agc last_agc set_sent set_gains set_noise set_cal]. by destruct (last_agc s).
Qed.

(** The level-driven switching of [STATE_IQ_CAL] under a faithful header. *)
Definition iq_level (h : header) (approved : bool) (s : hw) : hw :=
  if h_sync_state h <? 5 then if h_noise h =? 0 then (_control_noise_source true h s).1 else s
  else if (h_noise h =? 1) && (negb require_track_lock || approved) then (_control_noise_source false h s).1 else s.

Lemma iq_level_calm h ap s g a :
  uniform g -> calm g a s -> h_noise h = Z.b2z (noise_source_state s) -> (cal_track_mode = 2 -> cal_frame_cntr s < cal_frame_interval) ->
  calm g a (iq_level h ap s) /\ cal_frame_cntr (iq_level h ap s) = cal_frame_cntr s /\
  (require_track_lock = false -> 5 <= h_sync_state h -> noise_source_state (iq_level h ap s) = false).
Proof.
  intros Hu H Hh Hc. unfold iq_level. rewrite Hh.
  destruct (Z.ltb_spec (h_sync_state h) 5) as [Hs|Hs]; destruct (noise_source_state s) eqn:Hn; cbn [Z.b2z Z.eqb andb].
  - split; [done|]. split; [done|]. lia.
  - destruct (noise_on_calm h s g a H Hn) as (H1 & _ & H3). split; [done|]. split; [done|]. lia.
  - destruct (noise_off_calm h (cal_frame_cntr s) s g a Hu H Hn Hc) as (H1 & H2 & H3). rewrite <- H3, set_cal_id in H1.
    destruct require_track_lock; cbn; [|done]. by destruct ap.
  - done.
Qed.

Lemma iq_cal_calm h ap s g a :
  uniform g -> calm g a s -> h_noise h = Z.b2z (noise_source_state s) -> calm g a (iq_cal h ap s).
Proof.
  intros Hu H Hh. unfold iq_cal. fold (iq_level h ap s).
  destruct (Z.eqb_spec cal_track_mode 2) as [E|E].
  2: { case_match; [|done]. by apply iq_level_calm. }
  rewrite E. change (2 =? 2) with true. change (2 =? 1) with false. change (2 =? 0) with false. cbn [orb andb]. set (s1 := if cal_frame_cntr s <? cal_frame_interval then iq_level h ap s else s).
  assert (calm g a s1 /\ cal_frame_cntr s1 = cal_frame_cntr s /\
    (h_sync_state h = 6 -> noise_source_state s1 = negb (cal_frame_cntr s <? cal_frame_interval))) as (H1 & Hc & Hoff).
  { subst s1. destruct (Z.ltb_spec (cal_frame_cntr s) cal_frame_interval) as [Hlt|Hge].
    - destruct (iq_level_calm h ap s g a) as (? & ? & Hn); [done..|]. split_and!; [done..|]. intros. apply Hn; [auto|lia].
    - split_and!; [done..|]. intros _. destruct (noise_source_state s) eqn:Hn; [done|]. pose proof (calm_cntr _ _ _ H E Hn). lia. }
  clearbody s1. destruct (Z.eqb_spec (h_sync_state h) 6) as [E6|]; [|apply calm_set_cal; [done|intros; exact Hint]]. specialize (Hoff E6).
  cbn zeta. cbn [cal_frame_cntr set_cal]. rewrite Hc. destruct (Z.eqb_spec (cal_frame_cntr s + 1) cal_frame_interval) as [Ei|Ei].
  - rewrite (proj2 (Z.ltb_lt _ _)) in Hoff by lia. destruct (noise_on_calm h s1 g a H1 Hoff) as (H2 & Hn & _).
    rewrite noise_set_cal. apply calm_set_cal; [done|]. by rewrite Hn.
  - destruct (Z.eqb_spec (cal_frame_cntr s + 1) (cal_frame_interval + cal_frame_burst_size)) as [Eb|Eb].
    + rewrite (proj2 (Z.ltb_ge _ _)) in Hoff by lia. rewrite noise_set_cal. apply (noise_off_calm h 0 s1 g a); [done..|intros; exact Hint].
    + apply calm_set_cal; [done|]. intros _. rewrite Hoff. destruct (Z.ltb_spec (cal_frame_cntr s) cal_frame_interval); [lia|done].
Qed.

Lemma calm_view s s' g a :
  calm g a s -> gains s' = gains s -> last_gains s' = last_gains s -> gain_tune_states s' = gain_tune_states s ->
  noise_source_state s' = noise_source_state s -> agc s' = agc s -> last_agc s' = last_agc s -> cal_frame_cntr s' = cal_frame_cntr s ->
  match current_state s' with
  | STATE_INIT => noise_source_state s = false
  | STATE_GAIN_CTR_WAIT | STATE_GAIN_TUNE => False
  | _ => True
  end -> calm g a s'.
Proof.
  intros [] E1 E2 E3 E4 E5 E6 E7 Hs. unfold user_gains, user_agc in *.
  constructor; unfold user_gains, user_agc; rewrite ?E1, ?E2, ?E3, ?E4, ?E5, ?E6, ?E7; done.
Qed.

Lemma freq_calm f fw w s g a : calm g a s -> calm g a (_handle_control_reqest (FREQ f) fw w s).1.
Proof.
  intros H. cbn [_handle_control_reqest]. case_match; [|done]. cbn [transact].
  destruct (confirm (length (sent s))); apply (calm_view s); try done; apply H.
Qed.

Lemma fsm_step_calm h ap sched s g a :
  uniform g -> calm g a s -> (current_state s = STATE_IQ_CAL -> h_noise h = Z.b2z (noise_source_state s)) ->
  match sched with Some (_, Some _) => false | _ => true end = true ->
  exists s', fsm_step h ap sched s = Some s' /\ calm g a s'.
Proof.
  intros Hu H Hh Hs. unfold fsm_step. pose proof (calm_state _ _ _ H) as Hst. destruct (current_state s) eqn:E; try done.
  - eexists. split; [done|]. destruct H as [Hg Ha Ht _ Hc]. unfold user_gains, user_agc in *. rewrite Hst in *.
    rewrite change_gains_eq. cbn [transact fst gain_tune_states set_sent set_gains]. rewrite Ht.
    rewrite Hg, unify_id by done. constructor; unfold user_gains, user_agc; cbn; rewrite ?Hst; auto.
  - pose proof (iq_cal_calm h ap s g a Hu H (Hh eq_refl)) as H1. unfold schedule_cmds. destruct sched as [[f [g'|]]|]; [done| |eauto].
    eexists. split; [done|]. apply calm_set_cal; [by apply freq_calm|intros; exact Hint].
  - eexists. split; [done|]. destruct ((_ =? _) && _); [|done]. by apply (calm_view s).
Qed.

Lemma execute_calm r s g a : calm g a s -> leaves_gains r.1 = true -> calm g a (execute s r).
Proof.
  intros H Hr. unfold execute. destruct (_defer_during_burst r.1 s) eqn:E; [done|]. destruct r as [c w]. cbn in *.
  destruct c; try done; [by apply freq_calm|..]; cbn [_handle_control_reqest].
  - by apply (calm_view s).
  - case_match; [|done]. by apply (calm_view s).
  - destruct en_bias_tee_runtime; [|done]. destruct (length b <? M)%nat; [done|]. cbn [transact fst].
    apply (calm_view s); try done. apply H.
Qed.

Lemma hwc_frame_calm s i g a :
  uniform g -> calm g a s -> quiet i = true -> faithful s i = true -> exists s', frame s i = Some s' /\ calm g a s'.
Proof.
  intros Hu H Hq Hf. unfold quiet in Hq. apply andb_prop in Hq as [Hs Hr]. unfold frame.
  destruct (h_dummy (i_header i)) eqn:Hd; [cbn; eexists; split; [done|]; by destruct (current_state s)|].
  destruct (fsm_step_calm (i_header i) (i_approved i) (i_sched i) s g a) as (s1 & E & H1); [done..| |done|].
  { intros Ec. unfold faithful in Hf. rewrite Ec, Hd in Hf. by apply Z.eqb_eq. }
  rewrite E. cbn [mbind option_bind]. eexists. split; [done|]. destruct (current_state s1); try done.
  clear -H1 Hr. revert s1 H1. induction (i_requests i) as [|r rs IH]; intros s1 H1; [done|].
  cbn in Hr |- *. apply andb_prop in Hr as [Hr1 Hr2]. apply IH; [done|]. by apply execute_calm.
Qed.


End Bursts.

(** ** Start-up *)

(** The gains of the constructor and of [_read_config_file]: all or none of
    the configured values are taken. *)
Definition init_gains (cfg : list Z) : list nat :=
  if Nat.eqb (length cfg) M then default (replicate M 0%nat) (mapM (fun x => index_of x valid_gains) cfg) else replicate M 0%nat.

Definition configured (cfg : list Z) (en_gain_tune_init : bool) (center_freq : Z) : hw :=
  Hw (init_gains cfg) (init_gains cfg) (replicate M en_gain_tune_init) 0 0 false false false STATE_INIT center_freq 0 (replicate M 0) [].

Lemma init_gains_ok cfg : length (init_gains cfg) = M /\ Forall idx_ok (init_gains cfg).
Proof.
  assert (length (replicate M 0%nat) = M /\ Forall idx_ok (replicate M 0%nat)) as H0
    by (split; [apply length_replicate|apply Forall_replicate; unfold idx_ok; cbn; lia]).
  unfold init_gains. destruct (Nat.eqb_spec (length cfg) M) as [E|]; [|done].
  destruct (mapM _ cfg) as [l|] eqn:El; [|done]. cbn. split; [by rewrite <- (length_mapM _ _ _ El)|].
  apply mapM_Some in El. clear E H0. induction El as [|x i xs l Hx Hl IH]; constructor; [|done].
  apply index_of_ok in Hx. by eapply lookup_lt_Some.
Qed.

Lemma configured_wf cfg t f : wf (configured cfg t f).
Proof. constructor; [apply init_gains_ok..| |constructor]. apply length_replicate. Qed.

(** [C39] The gain state stays well-typed.  From any configuration, through any
    frames, requests (malformed gain lists included) and schedule entries, each
    channel has a gain index inside the tuner's table, also the saved one, and
    every gain message sent to the receiver has one of the tuner's gain values
    per channel, so that the look-ups [valid_gains[gains[m]]] cannot fail. *)
Theorem gains_stay_valid cfg t f is_ s :
  frames (configured cfg t f) is_ = Some s ->
  (forall m, (m < M)%nat -> exists i j, gains s !! m = Some i /\ is_Some (valid_gains !! i) /\
                                      last_gains s !! m = Some j /\ is_Some (valid_gains !! j)) /\
  (forall g, MGain g ∈ sent s -> length g = M /\ Forall (fun x => x ∈ valid_gains) g).
Proof.
  intros H. destruct (wf_frames _ _ _ (configured_wf cfg t f) H) as [[Hg1 Hg2] [Hl1 Hl2] _ Hs]. split.
  - intros m Hm. destruct (lookup_lt_is_Some_2 (gains s) m) as [i Hi]; [lia|].
    destruct (lookup_lt_is_Some_2 (last_gains s) m) as [j Hj]; [lia|]. exists i, j.
    split_and!; [done| |done|]; apply lookup_lt_is_Some_2; [exact (Forall_lookup_1 _ _ _ _ Hg2 Hi)|exact (Forall_lookup_1 _ _ _ _ Hl2 Hj)].
  - intros g Hg. rewrite list.Forall_forall in Hs. exact (Hs _ Hg).
Qed.

(** ** Gain tuning comes to an end *)

(** Steps left in the channels that are still tuned. *)
Fixpoint steps_left (g : list nat) (t : list bool) : nat :=
  match g, t with
  | x :: g, b :: t => ((if b then length valid_gains - x else 0) + steps_left g t)%nat
  | _, _ => 0%nat
  end.
Definition mu (s : hw) : nat := steps_left (gains s) (gain_tune_states s).

Lemma steps_left_none g n : steps_left g (replicate n false) = 0%nat.
Proof. revert n. induction g as [|x g IH]; intros [|n]; cbn; auto. Qed.

Lemma steps_left_insert (g : list nat) (t : list bool) (m x : nat) (b : bool) :
  (m < length g)%nat -> (m < length t)%nat ->
  (steps_left (<[m := x]> g) (<[m := b]> t) + (if nth m t false then length valid_gains - nth m g 0 else 0)
   = steps_left g t + (if b then length valid_gains - x else 0))%nat.
Proof.
  revert g t. induction m as [|m IH]; intros [|y g] [|c t]; cbn [length]; try lia; intros Hg Ht.
  - cbn [nth insert list_insert steps_left]. lia.
  - change (<[S m := x]> (y :: g)) with (y :: <[m := x]> g). change (<[S m := b]> (c :: t)) with (c :: <[m := b]> t).
    cbn [nth steps_left]. specialize (IH g t). lia.
Qed.

Lemma steps_left_pos g t m : Forall idx_ok g -> (m < length g)%nat -> nth m t false = true -> (0 < steps_left g t)%nat.
Proof.
  revert g t. induction m as [|m IH]; intros [|y g] [|c t] Hg; cbn [length nth]; try lia; try done; intros Hm Hc;
    apply list.Forall_cons in Hg as [Hy Hg]; cbn [steps_left].
  - subst c. unfold idx_ok in Hy. lia.
  - pose proof (IH g t Hg ltac:(lia) Hc). lia.
Qed.

Lemma insert_nth_id {A} (l : list A) m d : (m < length l)%nat -> <[m := nth m l d]> l = l.
Proof. intros H. apply list_insert_id. destruct (lookup_lt_is_Some_2 l m H) as [x Hx]. by rewrite (nth_lookup_Some _ _ _ _ Hx). Qed.

Definition clear_tune (m : nat) (t : list bool) : list bool := if unified then replicate M false else <[m := false]> t.

Lemma clear_tune_mu m x s :
  wf s -> (m < M)%nat ->
  (steps_left (<[m := x]> (gains s)) (clear_tune m (gain_tune_states s)) + (if nth m (gain_tune_states s) false then 1 else 0) <= mu s)%nat.
Proof.
  intros H Hm. pose proof (wf_tune _ H) as Ht. pose proof (wf_gains _ H) as [Hg Hf]. unfold mu, clear_tune. destruct unified.
  - rewrite steps_left_none. destruct (nth m _ false) eqn:E; [|lia]. pose proof (steps_left_pos _ _ m Hf ltac:(lia) E). lia.
  - pose proof (steps_left_insert (gains s) (gain_tune_states s) m x false ltac:(lia) ltac:(lia)) as Hi.
    pose proof (nth_idx_ok m _ Hf) as Hn. unfold idx_ok in Hn. destruct (nth m (gain_tune_states s) false); lia.
Qed.

Lemma clear_tune_nth m t : length t = M -> (m < M)%nat -> nth m (clear_tune m t) false = false.
Proof.
  intros Ht Hm. unfold clear_tune. apply nth_lookup_Some. destruct unified.
  - by apply lookup_replicate_2.
  - apply list_lookup_insert_eq. lia.
Qed.

(** [tune_channel] by cases. *)
Lemma tune_channel_over h s m :
  wf s -> (m < M)%nat -> overdriven h m = true ->
  exists x, tune_channel h s m = set_tune (clear_tune m (gain_tune_states s)) (set_gains (<[m := x]> (gains s)) s).
Proof.
  intros H Hm E. pose proof (wf_tune _ H) as Ht. pose proof (wf_gains _ H) as [Hg _]. unfold tune_channel. rewrite E. cbv zeta.
  destruct (Nat.eqb_spec (nth m (gains s) 0%nat) 0) as [E0|_].
  - exists (nth m (gains s) 0%nat). cbn [gain_tune_states set_tune]. fold (clear_tune m (gain_tune_states s)).
    rewrite clear_tune_nth by done. rewrite insert_nth_id by lia. by destruct s.
  - eexists. cbn [gain_tune_states set_tune set_gains]. fold (clear_tune m (gain_tune_states s)). by rewrite clear_tune_nth.
Qed.

Lemma tune_channel_up h s m :
  overdriven h m = false -> nth m (gain_tune_states s) false = true ->
  tune_channel h s m = if (nth m (gains s) 0 <? length valid_gains - 1)%nat
    then set_gains (<[m := (nth m (gains s) 0 + 1)%nat]> (gains s)) s else set_tune (clear_tune m (gain_tune_states s)) s.
Proof. intros E Ht. unfold tune_channel. by rewrite E, Ht. Qed.

Lemma tune_channel_idle h s m :
  overdriven h m = false -> nth m (gain_tune_states s) false = false -> tune_channel h s m = s.
Proof. intros E Ht. unfold tune_channel. by rewrite E, Ht. Qed.

(** A channel never gets further from its end, and one that is tuned gets closer. *)
Lemma tune_channel_mu h s m :
  wf s -> (m < M)%nat -> (mu (tune_channel h s m) + (if nth m (gain_tune_states s) false then 1 else 0) <= mu s)%nat.
Proof.
  intros H Hm. destruct (overdriven h m) eqn:Eo.
  { destruct (tune_channel_over h s m H Hm Eo) as [x ->]. by apply clear_tune_mu. }
  destruct (nth m (gain_tune_states s) false) eqn:Et; [|rewrite tune_channel_idle by done; lia].
  rewrite tune_channel_up by done. pose proof (wf_tune _ H) as Ht. pose proof (wf_gains _ H) as [Hg Hf].
  destruct (Nat.ltb_spec (nth m (gains s) 0%nat) (length valid_gains - 1)) as [Hlt|_].
  - pose proof (steps_left_insert (gains s) (gain_tune_states s) m (nth m (gains s) 0 + 1)%nat true ltac:(lia) ltac:(lia)) as Hi.
    rewrite <- Et in Hi at 1. rewrite insert_nth_id, Et in Hi by lia. unfold mu. cbn [gains gain_tune_states set_gains]. lia.
  - pose proof (clear_tune_mu m (nth m (gains s) 0%nat) s H Hm) as Hc. rewrite insert_nth_id, Et in Hc by lia. exact Hc.
Qed.

(** Whether another channel is tuned changes only on the way down. *)
Lemma tune_channel_others h s m j :
  wf s -> (m < M)%nat -> (j < M)%nat -> nth m (gain_tune_states s) false = false -> nth j (gain_tune_states s) false = true ->
  (mu (tune_channel h s m) < mu s)%nat \/ nth j (gain_tune_states (tune_channel h s m)) false = true.
Proof.
  intros H Hm Hj Em Ej. pose proof (wf_tune _ H) as Ht. pose proof (wf_gains _ H) as [Hg Hf]. destruct (overdriven h m) eqn:Eo.
  - destruct (tune_channel_over h s m H Hm Eo) as [x ->]. unfold mu, clear_tune. cbn [gains gain_tune_states set_tune set_gains].
    destruct unified.
    + left. rewrite steps_left_none. apply (steps_left_pos _ _ j); [done|lia|done].
    + right. pose proof (insert_nth_id (gain_tune_states s) m false ltac:(lia)) as Ei. rewrite Em in Ei. by rewrite Ei.
  - right. by rewrite tune_channel_idle.
Qed.

Lemma tune_fold_mu h ms s :
  wf s -> Forall (fun m => (m < M)%nat) ms ->
  (mu (foldl (tune_channel h) s ms) <= mu s)%nat /\
  ((exists j, j ∈ ms /\ nth j (gain_tune_states s) false = true) -> (mu (foldl (tune_channel h) s ms) < mu s)%nat).
Proof.
  intros H Hms. revert s H. induction Hms as [|m ms Hm Hms IH]; intros s H; cbn [foldl].
  { split; [lia|]. intros (j & Hj & _). by apply elem_of_nil in Hj. }
  destruct (IH _ (wf_tune_channel h s m H)) as [IH1 IH2]. pose proof (tune_channel_mu h s m H Hm) as Hmu. split; [lia|].
  intros (j & Hj & Ej). destruct (nth m (gain_tune_states s) false) eqn:Em; [lia|].
  apply elem_of_cons in Hj as [->|Hj]; [congruence|]. rewrite list.Forall_forall in Hms.
  destruct (tune_channel_others h s m j H Hm (Hms _ Hj) Em Ej) as [|E]; [lia|].
  assert (mu (foldl (tune_channel h) (tune_channel h s m) ms) < mu (tune_channel h s m))%nat by (apply IH2; eauto). lia.
Qed.

(** Under unified gain control the channels are tuned together. *)
Definition aligned (s : hw) : Prop :=
  unified = true -> exists x b, gains s = replicate M x /\ gain_tune_states s = replicate M b.

Lemma nth_repl {A} n m (x d : A) : (m < n)%nat -> nth m (replicate n x) d = x.
Proof. intros H. apply nth_lookup_Some. by apply lookup_replicate_2. Qed.

Lemma off_fold h ms s :
  unified = true -> wf s -> Forall (fun m => (m < M)%nat) ms -> gain_tune_states s = replicate M false ->
  gain_tune_states (foldl (tune_channel h) s ms) = replicate M false.
Proof.
  intros Hu H Hms. revert s H. induction Hms as [|m ms Hm Hms IH]; intros s H E; [done|]. cbn [foldl].
  apply IH; [by apply wf_tune_channel|]. destruct (overdriven h m) eqn:Eo.
  - destruct (tune_channel_over h s m H Hm Eo) as [x ->]. cbn. unfold clear_tune. by rewrite Hu.
  - rewrite tune_channel_idle; [done..|]. rewrite E. by apply nth_repl.
Qed.

Lemma seq_below k n : (k + n <= M)%nat -> Forall (fun m => (m < M)%nat) (seq k n).
Proof. intros H. apply list.Forall_forall. intros m Hm. apply elem_of_seq in Hm. lia. Qed.

Lemma on_fold h n k x s :
  unified = true -> wf s -> (k + n = M)%nat ->
  gains s = replicate k (S x) ++ replicate n x -> gain_tune_states s = replicate M true ->
  let s' := foldl (tune_channel h) s (seq k n) in
  gain_tune_states s' = replicate M false \/ (gains s' = replicate M (S x) /\ gain_tune_states s' = replicate M true).
Proof.
  intros Hu. revert k s. induction n as [|n IH]; intros k s H Hk Eg Et; cbn [seq foldl].
  { right. rewrite Eg, app_nil_r. split; [f_equal; lia|done]. }
  pose proof (wf_tune_channel h s k H) as H1. pose proof (seq_below (S k) n ltac:(lia)) as Hms.
  destruct (overdriven h k) eqn:Eo.
  { left. apply off_fold; [done..|]. destruct (tune_channel_over h s k H ltac:(lia) Eo) as [y ->]. cbn. unfold clear_tune. by rewrite Hu. }
  assert (nth k (gain_tune_states s) false = true) as Ek by (rewrite Et; apply nth_repl; lia).
  assert (nth k (gains s) 0%nat = x) as Ex.
  { rewrite Eg. apply nth_lookup_Some. rewrite lookup_app_r by (rewrite length_replicate; lia). by rewrite length_replicate, Nat.sub_diag. }
  rewrite (tune_channel_up _ _ _ Eo Ek) in H1 |- *. rewrite Ex in H1 |- *.
  destruct (Nat.ltb_spec x (length valid_gains - 1)) as [Hlt|_].
  - apply IH; [done|lia| |done]. cbn [gains set_gains]. rewrite Eg, insert_app_r_alt by (rewrite length_replicate; lia).
    rewrite length_replicate, Nat.sub_diag, Nat.add_1_r. change (replicate (S k) (S x)) with (S x :: replicate k (S x)).
    rewrite replicate_cons_app, <- app_assoc. done.
  - left. apply off_fold; [done..|]. cbn. unfold clear_tune. by rewrite Hu.
Qed.

Lemma change_gains_off s : gain_tune_states s = replicate M false -> mu (_change_gains s).1 = 0%nat.
Proof. intros E. rewrite change_gains_eq. unfold mu. cbn. rewrite E. apply steps_left_none. Qed.

Lemma change_gains_same s : uniform (gains s) -> mu (_change_gains s).1 = mu s.
Proof. intros E. rewrite change_gains_eq. unfold mu. cbn. by rewrite unify_id. Qed.

Lemma change_gains_aligned s : (unified = true -> exists b, gain_tune_states s = replicate M b) -> aligned (_change_gains s).1.
Proof. intros Hb Hu. destruct (Hb Hu) as [b E]. rewrite change_gains_eq. cbn. unfold unify. rewrite Hu. eauto. Qed.

Lemma existsb_nth (t : list bool) : existsb id t = true -> exists j, (j < length t)%nat /\ nth j t false = true.
Proof.
  intros H. apply existsb_exists in H as (b & Hb & E). apply list_elem_of_In, list_elem_of_lookup in Hb as [j Hj].
  exists j. split; [by eapply lookup_lt_Some|]. rewrite (nth_lookup_Some _ _ _ _ Hj). exact E.
Qed.

Lemma tune_fold_aligned h s :
  wf s -> aligned s -> let s' := foldl (tune_channel h) s (seq 0 M) in
  (unified = true -> exists b, gain_tune_states s' = replicate M b) /\ (mu (_change_gains s').1 <= mu s')%nat.
Proof.
  intros H Ha. cbv zeta. pose proof (seq_below 0 M ltac:(lia)) as Hms. destruct unified eqn:Hu.
  2: { split; [done|]. rewrite change_gains_same; [done|]. intros Hu'. by rewrite Hu in Hu'. }
  destruct (Ha Hu) as (x & b & Eg & Et).
  assert (gain_tune_states (foldl (tune_channel h) s (seq 0 M)) = replicate M false \/
    (gains (foldl (tune_channel h) s (seq 0 M)) = replicate M (S x) /\ gain_tune_states (foldl (tune_channel h) s (seq 0 M)) = replicate M true)) as [E|[E1 E2]].
  { destruct b; [|left; by apply off_fold]. by apply (on_fold h M 0 x). }
  - split; [eauto|]. rewrite change_gains_off by done. lia.
  - split; [eauto|]. rewrite change_gains_same; [done|]. intros _. eauto.
Qed.

Lemma tune_gains_mu h s :
  wf s -> aligned s -> aligned (_tune_gains h s) /\ (mu (_tune_gains h s) <= mu s)%nat /\
  (gains_settled h s = true -> existsb id (gain_tune_states s) = true -> (mu (_tune_gains h s) < mu s)%nat).
Proof.
  intros H Ha. unfold _tune_gains. destruct (gains_settled h s); [|done].
  destruct (tune_fold_aligned h s H Ha) as [H1 H2]. destruct (tune_fold_mu h (seq 0 M) s H (seq_below 0 M ltac:(lia))) as [H3 H4].
  split; [by apply change_gains_aligned|]. split; [lia|]. intros _ Hex. apply existsb_nth in Hex as (j & Hj & E).
  rewrite (wf_tune _ H) in Hj. assert (j ∈ seq 0 M) by (apply elem_of_seq; lia).
  assert (mu (foldl (tune_channel h) s (seq 0 M)) < mu s)%nat by eauto. lia.
Qed.

Record tuning (s : hw) : Prop := {
  tuning_wf : wf s;
  tuning_state : match current_state s with
                 | STATE_INIT => unified = true -> exists b, gain_tune_states s = replicate M b
                 | STATE_GAIN_CTR_WAIT | STATE_GAIN_TUNE => aligned s
                 | _ => False
                 end;
  tuning_lock : 0 <= gain_lock_cntr s <= gain_lock_interval;
  tuning_lock0 : existsb id (gain_tune_states s) = true -> gain_lock_cntr s = 0 }.

(** Frames that are left if the receiver follows and nothing overdrives. *)
Definition frames_left (s : hw) : Z :=
  match current_state s with
  | STATE_INIT => 58 * Z.of_nat M + gain_lock_interval + 3
  | STATE_GAIN_CTR_WAIT => 2 * Z.of_nat (mu s) + gain_lock_interval + 2
  | STATE_GAIN_TUNE => 2 * Z.of_nat (mu s) + gain_lock_interval + 1 - gain_lock_cntr s
  | _ => 0
  end.

(** A dummy frame, an overdriven one, or one that does not show the gains yet. *)
Definition disturbed (s : hw) (i : input) : bool :=
  h_dummy (i_header i) || negb (h_overdrive (i_header i) =? 0) || negb (gains_settled (i_header i) s).

Lemma mu_bound s : wf s -> Z.of_nat (mu s) <= 29 * Z.of_nat M.
Proof.
  intros H. rewrite <- (proj1 (wf_gains _ H)). unfold mu. generalize (gain_tune_states s) as t.
  induction (gains s) as [|x g IH]; intros [|b t]; cbn [steps_left length]; try lia. specialize (IH t).
  change (length valid_gains) with 29%nat. destruct b; lia.
Qed.

Lemma tune_gains_fields h s :
  current_state (_tune_gains h s) = current_state s /\ gain_lock_cntr (_tune_gains h s) = gain_lock_cntr s.
Proof.
  assert (forall ms s, current_state (foldl (tune_channel h) s ms) = current_state s /\ gain_lock_cntr (foldl (tune_channel h) s ms) = gain_lock_cntr s) as Hf.
  { induction ms as [|m ms IH]; intros s0; [done|]. cbn [foldl]. destruct (IH (tune_channel h s0 m)) as [-> ->].
    unfold tune_channel. by repeat case_match. }
  unfold _tune_gains. destruct (gains_settled h s); [|done]. rewrite change_gains_eq. cbn. apply Hf.
Qed.

(** What one frame of the state machine may end in, [d] frames later than planned. *)
Definition advances (s : hw) (d : Z) (s' : hw) : Prop :=
  current_state s' = STATE_IQ_CAL \/ (tuning s' /\ frames_left s' <= frames_left s - 1 + d).

Lemma init_advances s :
  tuning s -> current_state s = STATE_INIT ->
  let s1 := (transact (MNoise false) (_change_gains s).1).1 in
  advances s 0 (set_state (if existsb id (gain_tune_states s1) then STATE_GAIN_CTR_WAIT else STATE_IQ_CAL) s1).
Proof.
  intros [Hw Hs Hl Hl0] Ec. cbv zeta. rewrite Ec in Hs. set (s1 := (transact _ _).1).
  assert (gain_tune_states s1 = gain_tune_states s /\ gain_lock_cntr s1 = gain_lock_cntr s) as [Et El]
    by (subst s1; by rewrite change_gains_eq).
  assert (wf s1) as H1 by (apply wf_transact; [by apply wf_change_gains|done]).
  assert (aligned s1) as Ha by (exact (change_gains_aligned s Hs)). clearbody s1.
  destruct (existsb id (gain_tune_states s1)) eqn:E; [right|by left]. split.
  - constructor; cbn [set_state current_state gain_tune_states gain_lock_cntr]; [|exact Ha|by rewrite El|rewrite Et, El; exact Hl0].
    by apply (wf_view s1).
  - pose proof (mu_bound s1 H1). unfold frames_left. rewrite Ec. cbn [set_state current_state]. change (mu (set_state _ s1)) with (mu s1). lia.
Qed.

Lemma wait_advances h s :
  tuning s -> current_state s = STATE_GAIN_CTR_WAIT ->
  advances s (if gains_settled h s then 0 else 1) (if gains_settled h s then set_state STATE_GAIN_TUNE s else s).
Proof.
  intros [Hw Hs Hl Hl0] Ec. right. destruct (gains_settled h s); [|split; [by constructor|lia]].
  rewrite Ec in Hs. split; [constructor; try done; by apply (wf_view s)|].
  unfold frames_left. rewrite Ec. cbn [set_state current_state gain_lock_cntr]. change (mu (set_state _ s)) with (mu s). lia.
Qed.

Lemma retune_advances h s :
  tuning s -> current_state s = STATE_GAIN_TUNE ->
  negb (h_overdrive h =? 0) || existsb id (gain_tune_states s) = true ->
  advances s (if negb (h_overdrive h =? 0) || negb (gains_settled h s) then gain_lock_interval + 2 else 0)
    (set_lock 0 (set_state STATE_GAIN_CTR_WAIT (_tune_gains h s))).
Proof.
  intros [Hw Hs Hl Hl0] Ec Hgo. rewrite Ec in Hs. right. destruct (tune_gains_mu h s Hw Hs) as (Ha & Hmu & Hlt). split.
  - constructor; cbn [set_state set_lock current_state gain_lock_cntr]; [|exact Ha|lia|done].
    apply (wf_view (_tune_gains h s)); [by apply wf_tune_gains|done..].
  - unfold frames_left. rewrite Ec. cbn [set_state set_lock current_state gain_lock_cntr].
    change (mu (set_lock _ (set_state _ (_tune_gains h s)))) with (mu (_tune_gains h s)).
    destruct (negb (h_overdrive h =? 0)); [cbn; lia|]. cbn [orb] in *. destruct (gains_settled h s); cbn [negb]; [|lia].
    specialize (Hlt eq_refl Hgo). rewrite (Hl0 Hgo) in *. lia.
Qed.

Lemma lock_advances s :
  tuning s -> current_state s = STATE_GAIN_TUNE -> existsb id (gain_tune_states s) = false ->
  advances s 0 (if gain_lock_cntr s =? gain_lock_interval then set_lock 0 (set_state STATE_IQ_CAL s) else set_lock (gain_lock_cntr s + 1) s).
Proof.
  intros [Hw Hs Hl Hl0] Ec Ht. rewrite Ec in Hs. destruct (Z.eqb_spec (gain_lock_cntr s) gain_lock_interval); [by left|right]. split.
  - constructor; cbn [set_lock current_state gain_lock_cntr gain_tune_states]; [by apply (wf_view s)|by rewrite Ec|lia|by rewrite Ht].
  - unfold frames_left. cbn [set_lock current_state gain_lock_cntr]. rewrite Ec. change (mu (set_lock _ s)) with (mu s). lia.
Qed.

Lemma advances_later s d d' s' : d <= d' -> advances s d s' -> advances s d' s'.
Proof. intros Hd [?|[? ?]]; [by left|right]. split; [done|lia]. Qed.

Lemma tuning_step s i :
  tuning s -> i_requests i = [] ->
  exists s', frame s i = Some s' /\ advances s (if disturbed s i then gain_lock_interval + 2 else 0) s'.
Proof.
  intros H Hr. pose proof (tuning_lock _ H) as Hl. unfold frame, disturbed. rewrite Hr. cbn [foldl].
  destruct (h_dummy (i_header i)); cbn [orb].
  { exists s. split; [cbn; by destruct (current_state s)|]. right. split; [done|]. lia. }
  set (h := i_header i). cut (exists s', fsm_step h (i_approved i) (i_sched i) s = Some s' /\
    advances s (if negb (h_overdrive h =? 0) || negb (gains_settled h s) then gain_lock_interval + 2 else 0) s').
  { intros (s' & -> & Ha). exists s'. split; [cbn; by destruct (current_state s')|done]. }
  unfold fsm_step. pose proof (tuning_state _ H) as Hs. destruct (current_state s) eqn:Ec; [| | |done..]; (eexists; split; [reflexivity|]).
  - eapply advances_later; [|by apply init_advances]. case_match; lia.
  - eapply advances_later; [|by apply wait_advances]. destruct (negb (h_overdrive h =? 0)), (gains_settled h s); cbn; lia.
  - destruct (negb (h_overdrive h =? 0) || existsb id (gain_tune_states s)) eqn:Hgo; [by apply retune_advances|].
    apply orb_false_elim in Hgo as [_ Ht]. eapply advances_later; [|by apply lock_advances]. case_match; lia.
Qed.

Fixpoint disturbances (s : hw) (is_ : list input) : Z :=
  match current_state s, is_ with
  | STATE_IQ_CAL, _ | _, [] => 0
  | _, i :: is_ => (if disturbed s i then 1 else 0) + match frame s i with Some s1 => disturbances s1 is_ | None => 0 end
  end.

Lemma disturbances_cons s i is_ s1 :
  tuning s -> frame s i = Some s1 -> disturbances s (i :: is_) = (if disturbed s i then 1 else 0) + disturbances s1 is_.
Proof. intros H E. pose proof (tuning_state _ H) as Hs. cbn [disturbances]. rewrite E. by destruct (current_state s). Qed.

Lemma tuning_ends s is_ :
  tuning s -> Forall (fun i => i_requests i = []) is_ ->
  frames_left s + (gain_lock_interval + 2) * disturbances s is_ <= Z.of_nat (length is_) ->
  exists k s', (k <= length is_)%nat /\ frames s (take k is_) = Some s' /\ current_state s' = STATE_IQ_CAL.
Proof.
  intros H Hr. revert s H. induction Hr as [|i is_ Hi Hr IH]; intros s H Hn.
  - destruct H as [_ Hs Hl _]. cbn in Hn. unfold frames_left in Hn. destruct (current_state s); try done; lia.
  - destruct (tuning_step s i H Hi) as (s1 & E & [Hc|[H1 Hle]]).
    + exists 1%nat, s1. cbn [length take frames]. split; [lia|]. rewrite take_0, E. cbn. done.
    + destruct (IH s1 H1) as (k & s' & Hk & E' & Hc).
      { rewrite (disturbances_cons s i is_ s1 H E) in Hn. cbn [length] in Hn. destruct (disturbed s i); lia. }
      exists (S k), s'. cbn [length take frames]. split; [lia|]. rewrite E. done.
Qed.

(** [C36] Initial gain tuning ends.  From the configured start, whatever the
    headers say and however the receiver's confirmations go, the controller
    reaches [STATE_IQ_CAL] after at most [58 * M + gain_lock_interval + 3]
    frames plus [gain_lock_interval + 2] for each earlier frame that is a dummy,
    reports an overdrive or does not show the commanded gains yet. *)
Theorem gain_tuning_ends cfg t f is_ :
  0 <= gain_lock_interval -> Forall (fun i => i_requests i = []) is_ ->
  58 * Z.of_nat M + gain_lock_interval + 3 + (gain_lock_interval + 2) * disturbances (configured cfg t f) is_ <= Z.of_nat (length is_) ->
  exists k s', (k <= length is_)%nat /\ frames (configured cfg t f) (take k is_) = Some s' /\ current_state s' = STATE_IQ_CAL.
Proof.
  intros Hl Hr Hn. apply tuning_ends; [|done|exact Hn]. constructor; [apply configured_wf| |cbn; lia|done].
  cbn. intros _. by exists t.
Qed.

(** ** Where the code does something else *)

(** A gain request during a burst clears [agc], but not the AGC state that is
    restored when the burst ends. *)
Lemma gain_during_burst_keeps_agc g h fw w s :
  noise_source_state s = true -> agc (_control_noise_source false h (_handle_control_reqest (GAIN g) fw w s).1).1 = last_agc s.
Proof.
  intros Hn. cbn [_handle_control_reqest]. rewrite Hn. destruct (assign_gains (seq 0 M) g (last_gains s)) as [lg err].
  set (s1 := (match err with Some e => _ | None => _ end).1). assert (last_agc s1 = last_agc s) as E by (by destruct err).
  clearbody s1. unfold _control_noise_source. cbn [transact]. rewrite change_gains_eq. unfold _enable_agc. cbn.
  by destruct (last_agc s1).
Qed.

End Controller.

(** A rejected gain list has changed the channels before the bad value. *)
Lemma rejected_gain_changes_channels :
  let '(s, r) := _handle_control_reqest 2 false false false false (fun _ => true) (GAIN [9; 10]) true true (configured 2 [0; 0] false 100) in
  r = Ack (Some false) "range" /\ gains s = [1; 0]%nat /\ sent s = [].
Proof. vm_compute. auto. Qed.

(** A schedule entry with fewer gains than channels ends the main loop. *)
Lemma short_schedule_stops_controller :
  frame 2 false 0 3 2 0 false false false false false (fun _ => true)
    (set_state STATE_IQ_CAL (configured 2 [9; 9] false 100))
    (Input (Header false 6 0 [9; 9] 0 100) true (Some (433000000, Some [9])) []) = None.
Proof. done. Qed.

Definition ex_frames (lock : bool) : hw -> list input -> option hw :=
  frames 2 true 2 3 2 0 lock false false true false (fun _ => true).
Definition ex_input (sync noise : Z) (gain : Z) : input := Input (Header false sync noise [gain; gain] 0 100) false None [].
Definition ex_start : hw := configured 2 [9; 9] false 100.

(** With approval of the track lock required and not given, the periodic burst
    finds the noise source on and saves the calibration gains over the user's. *)
Definition ex_locked : list input :=
  [ex_input 0 0 9; ex_input 0 0 9; ex_input 0 1 87; ex_input 6 1 87; ex_input 6 1 87; ex_input 6 1 87].

Lemma burst_overwrites_saved_gains :
  option_map user_gains (ex_frames true ex_start (take 5 ex_locked)) = Some [1; 1]%nat /\
  option_map user_gains (ex_frames true ex_start ex_locked) = Some [6; 6]%nat.
Proof. by vm_compute. Qed.

(** ** Witnesses *)
Definition ex_burst : list input :=
  [ex_input 0 0 9; ex_input 0 0 9; ex_input 0 1 87; ex_input 6 1 87; ex_input 6 0 9; ex_input 6 0 9; ex_input 6 0 9; ex_input 6 1 87].


Lemma gains_stay_valid_witness :
  exists s, (forall m, (m < 2)%nat -> exists i j, gains s !! m = Some i /\ is_Some (valid_gains !! i) /\
                                      last_gains s !! m = Some j /\ is_Some (valid_gains !! j)) /\
  (forall g, MGain g ∈ sent s -> length g = 2%nat /\ Forall (fun x => x ∈ valid_gains) g).
Proof.
  eexists. apply (gains_stay_valid 2 true 2 3 2 0 false false false true false (fun _ => true) [9; 9] false 100 ex_burst).
  vm_compute. reflexivity.
Defined.

(** Tuning from the top gain, the receiver two frames late. *)
Definition ex_tune : list input := replicate 4 (ex_input 0 0 0) ++ replicate 130 (ex_input 0 0 496).

Lemma gain_tuning_ends_witness :
  exists k s', (k <= length ex_tune)%nat /\
    frames 2 true 2 3 2 0 false false false true false (fun _ => true) (configured 2 [496; 496] true 100) (take k ex_tune) = Some s' /\
    current_state s' = STATE_IQ_CAL.
Proof.
  apply (gain_tuning_ends 2 true 2 3 2 0 false false false true false (fun _ => true)); [lia| |vm_compute; discriminate].
  repeat constructor.
Defined.

End Hwc.
