(* ===== verification/HwRequests.v ===== *)
(** * Control requests between threads ([hw_controller.py])

    The life of a [CtrRequest]: a connection thread queues it and waits
    ([_submit_request]), the main loop drains the queue once per frame
    ([_drain_control_requests]); with the fence of [ControlPlane] ([handle_xack],
    [load_fence], [_persist_fence], [is_stale]) that keeps out a coordinator
    whose term is over.  Each event is one atomic action of one thread: what a
    lock protects, or one access to shared state; a run is any interleaving of
    such events, process restarts included. *)
From S2P Require Import Prelude.
Open Scope Z_scope.

Module Ctl.

(** ** The fence *)
Definition U32_MAX : Z := 4294967295.

(** The fence file: absent, unreadable or not a number, or a number. *)
Inductive ffile := Absent | Garbage | Num (term : Z).

Record plane := Plane { max_term_seen : Z; fence_path : ffile }.

Definition load_fence (f : ffile) : Z :=
  match f with Num t => if (0 <=? t) && (t <=? U32_MAX) then t else 0 | _ => 0 end.

(** The file is replaced as a whole or, after an [OSError], not at all. *)
Definition _persist_fence (t : Z) (ok : bool) (f : ffile) : ffile := if ok then Num t else f.

Definition is_stale (p : plane) (t : Z) : bool := (0 <? t) && (t <? max_term_seen p).

Record conn := ConnState { xack : bool; cterm : Z; cluster_bad : bool }.

Inductive xreply := Accepted (term : Z) | ClusterMismatch (term : Z) | TermJump (term : Z).

Definition handle_xack (own : string) (jump t : Z) (cluster : string) (persisted : bool) (p : plane) (c : conn) : plane * conn * xreply :=
  if negb (String.eqb cluster "") && negb (String.eqb cluster own)
  then (p, ConnState false (cterm c) true, ClusterMismatch (max_term_seen p))
  else if negb (String.eqb cluster "") && (max_term_seen p + jump <? t)
  then (p, ConnState false (cterm c) true, TermJump (max_term_seen p))
  else
    let p1 := if negb (String.eqb cluster "") && (max_term_seen p <? t)
              then Plane t (_persist_fence t persisted (fence_path p)) else p in
    (p1, ConnState true t false, Accepted (max_term_seen p1)).

(** ** Requests *)
Inductive rstate := PENDING | RUNNING | DONE | CANCELLED.

Definition result : Type := option bool * string.

(** The reply frame: ['FNSD'] and zeros, the busy document, an extended ack, the
    payload of a query. *)
Inductive reply := Plain | Busy | Ack (r : result) | Payload.

Inductive thread := Waiting | WaitingMore | Replied (r : reply) | Gone.

Record request := CtrRequest {
  query : bool; term : Z; extended : bool;
  state : rstate; res : option result; done : bool; waiter : thread }.

Definition set_state x r := CtrRequest (query r) (term r) (extended r) x (res r) (done r) (waiter r).
Definition set_waiter w r := CtrRequest (query r) (term r) (extended r) (state r) (res r) (done r) w.

Definition try_start (r : request) : option request :=
  match state r with PENDING => Some (set_state RUNNING r) | _ => None end.
Definition try_cancel (r : request) : option request :=
  match state r with PENDING => Some (set_state CANCELLED r) | _ => None end.

(** [finish] sets the result under the lock and the event after it. *)
Definition finish (x : result) (r : request) : request :=
  CtrRequest (query r) (term r) (extended r) DONE (Some x) (done r) (waiter r).
Definition done_set (r : request) : request :=
  CtrRequest (query r) (term r) (extended r) (state r) (res r) true (waiter r).

(** Where [_drain_control_requests] is: before it, emptying the queue, at the
    head of the loop, after [request.cancelled], after [try_start] of a query
    or of a mutating request, after the fence check, before [done.set()]. *)
Inductive pc :=
  | Idle | Collect (work : list nat) | Next (work : list nat) | Look (i : nat) (work : list nat)
  | Query (i : nat) (work : list nat) | Started (i : nat) (work : list nat)
  | Cleared (i : nat) (work : list nat) | Signal (i : nat) (work : list nat).

Definition work_of (p : pc) : list nat :=
  match p with
  | Idle => [] | Collect w | Next w => w | Look i w => i :: w
  | Query i w | Started i w | Cleared i w | Signal i w => w
  end.

(** [cleared]: the mutating requests handed to [_handle_control_reqest] so far,
    with the fence term they were checked against. *)
Record sys := Sys {
  reqs : list request; queue : list nat; pending : list nat; at_ : pc;
  ctl : plane; conns : list conn; cleared : list (nat * Z) }.

Inductive event :=
  | Connect
  | Xack (c : nat) (t : Z) (cluster : string) (persisted : bool)
  | Submit (c : nat) (q always_json : bool)
  | Wake (i : nat) | Timeout (i : nat) | HandlerTimeout (i : nat)
  | Main (may : bool) (outcome : result)
  | Restart (lost : bool).

Definition set_reqs l s := Sys l (queue s) (pending s) (at_ s) (ctl s) (conns s) (cleared s).
Definition set_at p s := Sys (reqs s) (queue s) (pending s) p (ctl s) (conns s) (cleared s).
Definition update (i : nat) (r : request) (s : sys) : sys := set_reqs (<[i := r]> (reqs s)) s.

Section Server.
Context (own : string) (jump : Z) (maxsize : nat).

(** [_submit_request] up to the wait.  A full queue and a connection whose
    handshake was refused are answered at once. *)
Definition submit (c : nat) (q always_json : bool) (s : sys) : option sys :=
  cn ← conns s !! c;
  if cluster_bad cn && negb q then Some s else
  let ext := xack cn || always_json in
  let r w := CtrRequest q (cterm cn) ext PENDING None false w in
  if (length (queue s) <? maxsize)%nat
  then Some (Sys (reqs s ++ [r Waiting]) (queue s ++ [length (reqs s)]) (pending s) (at_ s) (ctl s) (conns s) (cleared s))
  else let answer := if q then Busy else if ext then Ack (Some false, "queue_full") else Plain in
       Some (set_reqs (reqs s ++ [r (Replied answer)]) s).

(** What the thread answers once [done] is set. *)
Definition answer (r : request) : reply :=
  if query r then Payload else if extended r then match res r with Some x => Ack x | None => Plain end else Plain.

Definition wake (i : nat) (s : sys) : option sys :=
  r ← reqs s !! i;
  match waiter r, done r with
  | (Waiting | WaitingMore), true => Some (update i (set_waiter (Replied (answer r)) r) s)
  | _, _ => None
  end.

(** The first wait ran out. *)
Definition timeout (i : nat) (s : sys) : option sys :=
  r ← reqs s !! i;
  match waiter r, done r with
  | Waiting, false =>
      let '(r1, cancelled) := match try_cancel r with Some r1 => (r1, true) | None => (r, false) end in
      let w := if query r then Replied Busy else if negb (extended r) then Replied Plain
               else if cancelled then Replied (Ack (Some false, "deferred_timeout")) else WaitingMore in
      Some (update i (set_waiter w r1) s)
  | _, _ => None
  end.

Definition handler_timeout (i : nat) (s : sys) : option sys :=
  r ← reqs s !! i;
  match waiter r, done r with
  | WaitingMore, false => Some (update i (set_waiter (Replied (Ack (None, "handler_timeout"))) r) s)
  | _, _ => None
  end.

(** One action of [_drain_control_requests]; [may] says whether mutations are
    allowed and this one is not deferred, [outcome] what its handler returns. *)
Definition main (may : bool) (outcome : result) (s : sys) : option sys :=
  match at_ s with
  | Idle => Some (Sys (reqs s) (queue s) [] (Collect (pending s)) (ctl s) (conns s) (cleared s))
  | Collect w =>
      match queue s with
      | [] => Some (set_at (Next w) s)
      | i :: q => Some (Sys (reqs s) q (pending s) (Collect (w ++ [i])) (ctl s) (conns s) (cleared s))
      end
  | Next [] => Some (set_at Idle s)
  | Next (i :: w) =>
      r ← reqs s !! i;
      Some (match state r with CANCELLED => set_at (Next w) s | _ => set_at (Look i w) s end)
  | Look i w =>
      r ← reqs s !! i;
      if query r || may then
        match try_start r with
        | Some r1 => Some (set_at (if query r then Query i w else Started i w) (update i r1 s))
        | None => Some (set_at (Next w) s)
        end
      else Some (Sys (reqs s) (queue s) (pending s ++ [i]) (Next w) (ctl s) (conns s) (cleared s))
  | Query i w => r ← reqs s !! i; Some (set_at (Signal i w) (update i (finish (Some true, "ok") r) s))
  | Started i w =>
      r ← reqs s !! i;
      if is_stale (ctl s) (term r)
      then Some (set_at (Signal i w) (update i (finish (Some false, "stale_term") r) s))
      else Some (Sys (reqs s) (queue s) (pending s) (Cleared i w) (ctl s) (conns s) (cleared s ++ [(i, max_term_seen (ctl s))]))
  | Cleared i w => r ← reqs s !! i; Some (set_at (Signal i w) (update i (finish outcome r) s))
  | Signal i w => r ← reqs s !! i; Some (set_at (Next w) (update i (done_set r) s))
  end.

Definition step (e : event) (s : sys) : option sys :=
  match e with
  | Connect => Some (Sys (reqs s) (queue s) (pending s) (at_ s) (ctl s) (conns s ++ [ConnState false 0 false]) (cleared s))
  | Xack c t cluster persisted =>
      cn ← conns s !! c;
      let '(p, cn', _) := handle_xack own jump t cluster persisted (ctl s) cn in
      Some (Sys (reqs s) (queue s) (pending s) (at_ s) p (<[c := cn']> (conns s)) (cleared s))
  | Submit c q aj => submit c q aj s
  | Wake i => wake i s
  | Timeout i => timeout i s
  | HandlerTimeout i => handler_timeout i s
  | Main may o => main may o s
  | Restart lost =>
      let file := if lost then Garbage else fence_path (ctl s) in
      Some (Sys (map (fun r => match waiter r with Replied _ => r | _ => set_waiter Gone r end) (reqs s))
              [] [] Idle (Plane (load_fence file) file) [] (cleared s))
  end.

Fixpoint run (es : list event) (s : sys) : option sys :=
  match es with [] => Some s | e :: es => s1 ← step e s; run es s1 end.

Definition boot (file : ffile) : sys := Sys [] [] [] Idle (Plane (load_fence file) file) [] [].

(** ** What holds of every request *)

(** The reasons only the server and the drain give. *)
Definition server_reason (x : result) : bool :=
  existsb (String.eqb x.2) ["deferred_timeout"; "queue_full"; "stale_term"; "handler_timeout"].

Definition stale : result := (Some false, "stale_term").
Definition deferred : result := (Some false, "deferred_timeout").
Definition full : result := (Some false, "queue_full").
Definition unknown : result := (None, "handler_timeout").

Definition begun (r : request) : Prop := state r = RUNNING \/ state r = DONE.

(** What an extended ack says of a request; [ran]: it was handed to its
    handler, [live]: the main loop may still come to it. *)
Definition truthful (ran live : Prop) (r : request) (x : result) : Prop :=
  (state r = DONE /\ res r = Some x /\ query r = false) \/ (x = deferred /\ state r = CANCELLED) \/
  (x = full /\ state r = PENDING /\ ~ live) \/ (x = unknown /\ begun r).

Record good (ran live : Prop) (r : request) : Prop := {
  good_ran : ran -> begun r /\ query r = false;
  good_done : state r = DONE -> exists x, res r = Some x /\
    (query r = false -> (ran /\ server_reason x = false) \/ (x = stale /\ ~ ran));
  good_event : done r = true -> state r = DONE;
  good_waiter : match waiter r with
                | Waiting => state r <> CANCELLED
                | WaitingMore => begun r
                | Replied (Ack x) => truthful ran live r x
                | _ => True
                end }.

Definition ran (s : sys) (i : nat) : Prop := i ∈ (cleared s).*1.
Definition live (s : sys) (i : nat) : Prop := i ∈ queue s ++ pending s ++ work_of (at_ s).

Definition at_ok (s : sys) : Prop :=
  match at_ s with
  | Query i _ => exists r, reqs s !! i = Some r /\ state r = RUNNING /\ query r = true
  | Started i _ => exists r, reqs s !! i = Some r /\ state r = RUNNING /\ query r = false /\ ~ ran s i
  | Cleared i _ => exists r, reqs s !! i = Some r /\ state r = RUNNING /\ query r = false /\ ran s i
  | Signal i _ => exists r, reqs s !! i = Some r /\ state r = DONE
  | _ => True
  end.

Record inv (s : sys) : Prop := {
  inv_good : forall i r, reqs s !! i = Some r -> good (ran s i) (live s i) r;
  inv_live : forall i, live s i -> (i < length (reqs s))%nat;
  inv_ran : forall i, ran s i -> (i < length (reqs s))%nat;
  inv_once : NoDup (cleared s).*1;
  inv_at : at_ok s }.

Lemma truthful_mono (R L L' : Prop) r x : (L' -> L) -> truthful R L r x -> truthful R L' r x.
Proof. unfold truthful. intuition. Qed.

Lemma good_mono (R R' L L' : Prop) r : (R <-> R') -> (L' -> L) -> good R L r -> good R' L' r.
Proof.
  intros HR HL [H1 H2 H3 H4]. constructor.
  - intuition.
  - intros Hd. destruct (H2 Hd) as (x & Hx & Hq). exists x. split; [done|]. intros E. destruct (Hq E); [left|right]; intuition.
  - done.
  - destruct (waiter r) as [| |[]|]; try done. by apply (truthful_mono R L).
Qed.

Lemma good_set_waiter (R L : Prop) r w :
  good R L r -> match w with Waiting => state r <> CANCELLED | WaitingMore => begun r | Replied (Ack x) => truthful R L r x | _ => True end -> good R L (set_waiter w r).
Proof. intros [H1 H2 H3 _] Hw. by constructor. Qed.

Lemma good_start (R L : Prop) r r1 : good R L r -> L -> try_start r = Some r1 -> good R L r1 /\ ~ R /\ state r1 = RUNNING /\ query r1 = query r.
Proof.
  intros [H1 H2 H3 H4] HL. unfold try_start. destruct (state r) eqn:E; try done. intros [= <-].
  assert (~ R) as HR by (intros HR; destruct (H1 HR) as [[?|?] _]; congruence).
  split; [|by split]. constructor; cbn; try done.
  - intros Hd. specialize (H3 Hd). congruence.
  - destruct (waiter r) as [| |[]|]; try done; [by left|]. unfold truthful, begun in *. cbn.
    destruct H4 as [(? & _)|[(? & ?)|[(? & _ & ?)|(? & [?|?])]]]; try congruence; done.
Qed.

Lemma good_cancel (R L : Prop) r r1 w :
  good R L r -> try_cancel r = Some r1 -> match w with Replied (Ack x) => x = deferred | Replied _ => True | _ => False end ->
  good R L (set_waiter w r1).
Proof.
  intros [H1 H2 H3 H4]. unfold try_cancel. destruct (state r) eqn:E; try done. intros [= <-] Hw. constructor; cbn; try done.
  - intros HR. destruct (H1 HR) as [[?|?] _]; congruence.
  - intros Hd. specialize (H3 Hd). congruence.
  - destruct w as [| |[]|]; try done. right. by left.
Qed.

Lemma good_finish (R L : Prop) r x :
  good R L r -> state r = RUNNING -> (query r = false -> (R /\ server_reason x = false) \/ (x = stale /\ ~ R)) ->
  good R L (finish x r).
Proof.
  intros [H1 H2 H3 H4] Hs Hx. constructor; cbn.
  - intros HR. split; [by right|]. by apply H1.
  - intros _. by exists x.
  - done.
  - destruct (waiter r) as [| |[]|]; try done; [by right|]. unfold truthful, begun in *. cbn.
    destruct H4 as [(? & _)|[(? & ?)|[(? & ? & _)|(? & _)]]]; try congruence. by right; right; right; split; [|right].
Qed.

(** ** Every event keeps the invariant *)

(** An event that touches one request, or none. *)
Lemma inv_change s s' i r r' :
  inv s -> reqs s !! i = Some r -> reqs s' = <[i := r']> (reqs s) -> cleared s' = cleared s ->
  (forall j, live s' j -> live s j) -> good (ran s i) (live s i) r' -> at_ok s' -> inv s'.
Proof.
  intros H Hr Er Ec Hl Hg Ha. assert (forall j, ran s' j <-> ran s j) as HR by (unfold ran; by rewrite Ec). constructor.
  - intros j rj. rewrite Er. intros Hj. apply list_lookup_insert_Some in Hj as [(<- & <- & _)|(_ & Hj)].
    + apply (good_mono (ran s i) _ (live s i)); [done|auto|done].
    + apply (good_mono (ran s j) _ (live s j)); [done|auto|]. by apply H.
  - intros j Hj. rewrite Er, length_insert. apply (inv_live _ H). auto.
  - intros j Hj. rewrite Er, length_insert. apply (inv_ran _ H). by apply HR.
  - rewrite Ec. apply H.
  - done.
Qed.

Lemma inv_keep s s' :
  inv s -> reqs s' = reqs s -> cleared s' = cleared s -> (forall j, live s' j -> live s j) -> at_ok s' -> inv s'.
Proof.
  intros H Er Ec Hl Ha. assert (forall j, ran s' j <-> ran s j) as HR by (unfold ran; by rewrite Ec). constructor.
  - intros j r. rewrite Er. intros Hj. apply (good_mono (ran s j) _ (live s j)); [done|auto|]. by apply H.
  - intros j Hj. rewrite Er. apply (inv_live _ H). auto.
  - intros j Hj. rewrite Er. apply (inv_ran _ H). by apply HR.
  - rewrite Ec. apply H.
  - done.
Qed.

(** A waiting thread moves only its own request, and not once it has begun. *)
Lemma at_ok_update s i r r' :
  at_ok s -> reqs s !! i = Some r -> query r' = query r -> (state r' = state r \/ state r = PENDING) -> at_ok (update i r' s).
Proof.
  intros Ha Hi Hq Hs. assert (forall j rj, reqs s !! j = Some rj -> state rj <> PENDING ->
    exists rj', (<[i := r']> (reqs s)) !! j = Some rj' /\ state rj' = state rj /\ query rj' = query rj) as Hup.
  { intros j rj Hj Hn. destruct (decide (i = j)) as [<-|Hne]; [|exists rj; by rewrite list_lookup_insert_ne].
    exists r'. rewrite list_lookup_insert_eq by (by eapply lookup_lt_Some). destruct Hs; [|congruence]. split; [done|]. split; congruence. }
  unfold at_ok in *. cbn [at_ update set_reqs reqs]. unfold ran in *. cbn [cleared].
  destruct (at_ s); try done; first [destruct Ha as (rj & Hj & Hst & Hrest)|destruct Ha as (rj & Hj & Hst)];
    (destruct (Hup _ _ Hj) as (rj' & Hj' & E1 & E2); [rewrite Hst; done|]); exists rj'; rewrite E1, ?E2; intuition.
Qed.

Lemma wake_inv i s s' : inv s -> wake i s = Some s' -> inv s'.
Proof.
  intros H. unfold wake. destruct (reqs s !! i) as [r|] eqn:Hi; [|done]. cbn. intros Hw.
  assert (done r = true /\ s' = update i (set_waiter (Replied (answer r)) r) s) as [Hd ->] by (destruct (waiter r), (done r); by simplify_eq).
  clear Hw. pose proof (inv_good _ H _ _ Hi) as Hg. apply (inv_change s _ i r (set_waiter (Replied (answer r)) r)); try done.
  - apply good_set_waiter; [done|]. pose proof (good_event _ _ _ Hg Hd) as Hs. destruct (good_done _ _ _ Hg Hs) as (x & Hx & _).
    unfold answer. destruct (query r) eqn:Hq; [done|]. destruct (extended r); [|done]. rewrite Hx. by left.
  - apply (at_ok_update s i r); [apply H|done..|by left].
Qed.

Lemma timeout_inv i s s' : inv s -> timeout i s = Some s' -> inv s'.
Proof.
  intros H. unfold timeout. destruct (reqs s !! i) as [r|] eqn:Hi; [|done]. cbn.
  destruct (waiter r) eqn:Ew; [|done..]. destruct (done r); [done|]. pose proof (inv_good _ H _ _ Hi) as Hg.
  destruct (try_cancel r) as [r1|] eqn:Ec; intros [= <-].
  - assert (state r = PENDING /\ query r1 = query r) as (Hs & Hq) by (unfold try_cancel in Ec; destruct (state r); by simplify_eq).
    match goal with |- inv (update i (set_waiter ?w _) s) => apply (inv_change s _ i r (set_waiter w r1)); try done end.
    + apply (good_cancel _ _ r); [done..|]. destruct (query r); [done|]. by destruct (negb (extended r)).
    + apply (at_ok_update s i r); [apply H|done..|by right].
  - match goal with |- inv (update i (set_waiter ?w _) s) => apply (inv_change s _ i r (set_waiter w r)); try done end.
    + apply good_set_waiter; [done|]. destruct (query r); [done|]. destruct (negb (extended r)); [done|].
      pose proof (good_waiter _ _ _ Hg) as Hw. rewrite Ew in Hw. unfold begun. unfold try_cancel in Ec. destruct (state r); auto; done.
    + apply (at_ok_update s i r); [apply H|done..|by left].
Qed.

Lemma handler_timeout_inv i s s' : inv s -> handler_timeout i s = Some s' -> inv s'.
Proof.
  intros H. unfold handler_timeout. destruct (reqs s !! i) as [r|] eqn:Hi; [|done]. cbn.
  destruct (waiter r) eqn:Ew; [done| |done..]. destruct (done r); [done|]. intros [= <-]. pose proof (inv_good _ H _ _ Hi) as Hg.
  apply (inv_change s _ i r (set_waiter (Replied (Ack unknown)) r)); try done.
  - apply good_set_waiter; [done|]. pose proof (good_waiter _ _ _ Hg) as Hw. rewrite Ew in Hw. by right; right; right.
  - apply (at_ok_update s i r); [apply H|done..|by left].
Qed.

(** A new request, queued or answered at once. *)
Lemma inv_new s s' r :
  inv s -> reqs s' = reqs s ++ [r] -> cleared s' = cleared s -> at_ s' = at_ s ->
  (forall j, live s' j -> live s j \/ j = length (reqs s)) -> (live s' (length (reqs s)) -> waiter r = Waiting) ->
  state r = PENDING -> done r = false -> match waiter r with Waiting | Replied Busy | Replied Plain => True | Replied (Ack x) => x = full | _ => False end ->
  inv s'.
Proof.
  intros H Er Ec Ea Hl Hw Hs Hd Hr. assert (forall j, ran s' j <-> ran s j) as HR by (unfold ran; by rewrite Ec).
  constructor.
  - intros j rj. rewrite Er. intros Hj. apply lookup_app_Some in Hj as [Hj|[Hge Hj]].
    + apply (good_mono (ran s j) _ (live s j)); [done| |by apply H]. intros Hlj. destruct (Hl j Hlj) as [|Heq]; [done|].
      apply lookup_lt_Some in Hj. lia.
    + apply list_lookup_singleton_Some in Hj as [Hj0 <-]. assert (j = length (reqs s)) as -> by lia. constructor.
      * intros Hran. apply HR, (inv_ran _ H) in Hran. lia.
      * congruence.
      * congruence.
      * destruct (waiter r) as [| |[]|] eqn:Ew; try done; [by rewrite Hs|]. right; right; left. split_and!; [done..|].
        intros Hc. by specialize (Hw Hc).
  - intros j Hj. rewrite Er, length_app. cbn. destruct (Hl j Hj) as [Hlj| ->]; [apply (inv_live _ H) in Hlj|]; lia.
  - intros j Hj. rewrite Er, length_app. apply HR, (inv_ran _ H) in Hj. lia.
  - rewrite Ec. apply H.
  - pose proof (inv_at _ H) as Ha. unfold at_ok in *. rewrite Ea. unfold ran in *. rewrite Er, Ec.
    assert (forall i r0, reqs s !! i = Some r0 -> (reqs s ++ [r]) !! i = Some r0) as Hlk by (intros; by apply lookup_app_l_Some).
    destruct (at_ s); try done; destruct Ha as (r0 & Hi & Hrest); exists r0; auto.
Qed.

Lemma submit_inv c q aj s s' : inv s -> submit c q aj s = Some s' -> inv s'.
Proof.
  intros H. unfold submit. destruct (conns s !! c) as [cn|]; [|done]. cbn [mbind option_bind].
  destruct (cluster_bad cn && negb q); [by intros [= <-]|]. destruct (length (queue s) <? maxsize)%nat; intros [= <-].
  - eapply (inv_new s); [done|reflexivity|done|done| |done..]. unfold live. cbn. set_solver.
  - eapply (inv_new s); [done|reflexivity|done|done|by left| |done|done|].
    + unfold live. cbn. intros Hl. apply (inv_live _ H) in Hl. lia.
    + cbn. destruct q; [done|]. by destruct (xack cn || aj).
Qed.

Lemma live_at s p j : j ∈ queue s ++ pending s ++ work_of p -> at_ s = p -> live s j.
Proof. unfold live. by intros H ->. Qed.

(** The main loop takes a request that is queued. *)
Lemma look_inv may o s s' i w :
  inv s -> at_ s = Look i w -> main may o s = Some s' -> inv s'.
Proof.
  intros H Ea. unfold main. rewrite Ea. destruct (reqs s !! i) as [r|] eqn:Hi; [|done]. cbn [mbind option_bind].
  pose proof (inv_good _ H _ _ Hi) as Hg. assert (live s i) as Hli by (unfold live; rewrite Ea; cbn; set_solver).
  assert (forall j, j ∈ queue s ++ pending s ++ w -> live s j) as Hsub by (intros j; unfold live; rewrite Ea; cbn; set_solver).
  destruct (query r || may).
  - destruct (try_start r) as [r1|] eqn:Es; intros [= <-].
    + destruct (good_start _ _ _ _ Hg Hli Es) as (Hg1 & Hn & Hs1 & Hq1).
      assert ((<[i := r1]> (reqs s)) !! i = Some r1) as Hi1 by (apply list_lookup_insert_eq; by eapply lookup_lt_Some).
      apply (inv_change s _ i r r1); try done.
      * intros j. unfold live at 1. cbn. destruct (query r); apply Hsub.
      * unfold at_ok, ran. cbn. destruct (query r) eqn:Hq; exists r1; split_and!; congruence || done.
    + by apply (inv_keep s).
  - intros [= <-]. apply (inv_keep s); try done. intros j. unfold live. rewrite Ea. cbn. set_solver.
Qed.

(** It finishes the request it runs. *)
Lemma finish_inv s i w r x :
  inv s -> reqs s !! i = Some r -> work_of (at_ s) = w -> state r = RUNNING ->
  (query r = false -> (ran s i /\ server_reason x = false) \/ (x = stale /\ ~ ran s i)) ->
  inv (set_at (Signal i w) (update i (finish x r) s)).
Proof.
  intros H Hi Hw Hs Hx. apply (inv_change s _ i r (finish x r)); try done.
  - intros j. unfold live. by rewrite Hw.
  - apply good_finish; [by apply H|done..].
  - exists (finish x r). split; [|done]. cbn. apply list_lookup_insert_eq. by eapply lookup_lt_Some.
Qed.

Lemma clear_inv s i w r :
  inv s -> at_ s = Started i w -> reqs s !! i = Some r -> state r = RUNNING -> query r = false -> ~ ran s i ->
  inv (Sys (reqs s) (queue s) (pending s) (Cleared i w) (ctl s) (conns s) (cleared s ++ [(i, max_term_seen (ctl s))])).
Proof.
  intros H Ea Hi Hs Hq Hn. constructor; unfold ran; cbn [reqs cleared queue pending at_]; rewrite ?fmap_app.
  - intros j rj Hj. destruct (decide (j = i)) as [->|Hne].
    + rewrite Hi in Hj. injection Hj as <-. destruct (inv_good _ H _ _ Hi) as [H1 H2 H3 H4]. constructor.
      * intros _. split; [by left|done].
      * congruence.
      * done.
      * destruct (waiter r) as [| |[]|]; try done. unfold truthful in *. destruct H4 as [(? & _)|[(? & ?)|[(? & ? & _)|?]]]; try congruence. auto.
    + apply (good_mono (ran s j) _ (live s j)); [| |by apply H].
      * unfold ran. rewrite elem_of_app. cbn. rewrite list_elem_of_singleton. intuition.
      * unfold live. by rewrite Ea.
  - intros j. unfold live. cbn. intros Hj. apply (inv_live _ H). unfold live. by rewrite Ea.
  - intros j Hj. apply elem_of_app in Hj as [Hj|Hj]; [by apply (inv_ran _ H)|]. apply list_elem_of_singleton in Hj as ->. by eapply lookup_lt_Some.
  - apply list.NoDup_app. split; [apply H|]. split; [|apply NoDup_singleton]. intros j Hj Hj'. apply list_elem_of_singleton in Hj' as ->. done.
  - exists r. split_and!; try done. unfold ran. cbn. rewrite fmap_app. set_solver.
Qed.

Ltac in_lists := cbn; repeat (rewrite elem_of_app || rewrite elem_of_cons || rewrite elem_of_nil); tauto.

Lemma main_inv may o s s' : inv s -> server_reason o = false -> main may o s = Some s' -> inv s'.
Proof.
  intros H Ho. destruct (at_ s) as [|w|w|i w|i w|i w|i w|i w] eqn:Ea; [| | |by apply (look_inv may o s s' i w)|..];
    pose proof (inv_at _ H) as Ha; unfold at_ok in Ha; rewrite Ea in Ha; unfold main; rewrite Ea.
  - intros [= <-]. apply (inv_keep s); try done. intros j. unfold live. rewrite Ea. in_lists.
  - destruct (queue s) as [|i q] eqn:Eq; intros [= <-]; (apply (inv_keep s); try done); intros j; unfold live; cbn; rewrite Ea, ?Eq; in_lists.
  - destruct w as [|i w]; [intros [= <-]; by apply (inv_keep s); try done; intros j; unfold live; rewrite Ea; in_lists|].
    destruct (reqs s !! i) as [r|]; [|done]. intros [= <-].
    destruct (state r); apply (inv_keep s); try done; intros j; unfold live; rewrite Ea; in_lists.
  - destruct Ha as (r & Hi & Hs & Hq). rewrite Hi. intros [= <-]. apply finish_inv; rewrite ?Ea; try done. congruence.
  - destruct Ha as (r & Hi & Hs & Hq & Hn). rewrite Hi. cbn [mbind option_bind]. destruct (is_stale _ _); intros [= <-].
    + apply finish_inv; rewrite ?Ea; try done. by right.
    + by apply clear_inv with r.
  - destruct Ha as (r & Hi & Hs & Hq & Hn). rewrite Hi. intros [= <-]. apply finish_inv; rewrite ?Ea; try done. by left.
  - destruct Ha as (r & Hi & Hs). rewrite Hi. intros [= <-]. destruct (inv_good _ H _ _ Hi) as [H1 H2 H3 H4].
    apply (inv_change s _ i r (done_set r)); try done. intros j. unfold live. by rewrite Ea.
Qed.

Lemma restart_inv f s s' : inv s -> step (Restart f) s = Some s' -> inv s'.
Proof.
  intros H [= <-]. constructor; unfold ran, live; cbn [reqs cleared queue pending at_].
  - intros i r. rewrite list_lookup_fmap. destruct (reqs s !! i) as [r0|] eqn:Hi; [|done]. intros [= <-].
    assert (good (ran s i) False r0) as Hg by (apply (good_mono (ran s i) _ (live s i)); [done..|by apply H]).
    apply (good_mono (ran s i) _ False); [done|cbn; set_solver|]. destruct (waiter r0) eqn:Ew; try done; by apply good_set_waiter.
  - cbn. set_solver.
  - intros i Hi. rewrite length_map. by apply (inv_ran _ H).
  - apply H.
  - done.
Qed.

(** The handler of a mutating request answers with a reason of its own. *)
Definition genuine (e : event) : bool := match e with Main _ o => negb (server_reason o) | _ => true end.

Lemma req_step_inv e s s' : inv s -> genuine e = true -> step e s = Some s' -> inv s'.
Proof.
  intros H Hg. destruct e as [|c t cl ps|c q aj|i|i|i|may o|f]; cbn [step].
  - intros [= <-]. by apply (inv_keep s); try done; apply H.
  - destruct (conns s !! c) as [cn|]; [|done]. cbn [mbind option_bind].
    destruct (handle_xack own jump t cl ps (ctl s) cn) as [[p cn'] x]. intros [= <-]. apply (inv_keep s); try done. apply H.
  - by apply submit_inv.
  - by apply wake_inv.
  - by apply timeout_inv.
  - by apply handler_timeout_inv.
  - apply main_inv; [done|]. by apply negb_true_iff.
  - by apply (restart_inv f).
Qed.

Lemma req_run_inv es s s' : inv s -> forallb genuine es = true -> run es s = Some s' -> inv s'.
Proof.
  revert s. induction es as [|e es IH]; intros s H Hg; cbn; [by intros [= <-]|]. apply andb_prop in Hg as [He Hes].
  destruct (step e s) as [s1|] eqn:E; [|done]. apply IH; [|done]. by eapply req_step_inv.
Qed.

Lemma boot_inv f : inv (boot f).
Proof. constructor; cbn; [done| | |constructor|done]; unfold live, ran; cbn; set_solver. Qed.

(** ** What stays the same about a request *)
Definition later (r r' : request) : Prop :=
  term r' = term r /\ query r' = query r /\ forall a, waiter r = Replied a -> waiter r' = Replied a.

Lemma later_refl r : later r r.
Proof. done. Qed.

Lemma later_trans r1 r2 r3 : later r1 r2 -> later r2 r3 -> later r1 r3.
Proof. intros (? & ? & H1) (? & ? & H2). split_and!; [congruence..|]. auto. Qed.

Lemma later_update s i r r' j rj :
  reqs s !! i = Some r -> later r r' -> reqs s !! j = Some rj -> exists rj', (<[i := r']> (reqs s)) !! j = Some rj' /\ later rj rj'.
Proof.
  intros Hi Hl Hj. destruct (decide (i = j)) as [<-|Hne].
  - exists r'. rewrite list_lookup_insert_eq by (by eapply lookup_lt_Some). replace rj with r by congruence. done.
  - exists rj. by rewrite list_lookup_insert_ne.
Qed.

Lemma main_later may o s s' j rj :
  main may o s = Some s' -> reqs s !! j = Some rj -> exists rj', reqs s' !! j = Some rj' /\ later rj rj'.
Proof.
  intros H Hj. assert (reqs s' = reqs s -> exists rj', reqs s' !! j = Some rj' /\ later rj rj') as Hsame by (intros ->; eauto using later_refl).
  unfold main in H. destruct (at_ s) as [|w|[|i w]|i w|i w|i w|i w|i w].
  - simplify_eq. by apply Hsame.
  - destruct (queue s); simplify_eq; by apply Hsame.
  - simplify_eq. by apply Hsame.
  - destruct (reqs s !! i) as [r|]; [|done]. cbn in H. simplify_eq. destruct (state r); by apply Hsame.
  - destruct (reqs s !! i) as [r|] eqn:Hi; [|done]. cbn in H. destruct (query r || may); [|simplify_eq; by apply Hsame].
    unfold try_start in H. destruct (state r); simplify_eq; [|by apply Hsame..]. by eapply later_update.
  - destruct (reqs s !! i) as [r|] eqn:Hi; [|done]. cbn in H. simplify_eq. by eapply later_update.
  - destruct (reqs s !! i) as [r|] eqn:Hi; [|done]. cbn in H. destruct (is_stale _ _); simplify_eq; [by eapply later_update|by apply Hsame].
  - destruct (reqs s !! i) as [r|] eqn:Hi; [|done]. cbn in H. simplify_eq. by eapply later_update.
  - destruct (reqs s !! i) as [r|] eqn:Hi; [|done]. cbn in H. simplify_eq. by eapply later_update.
Qed.

Lemma waiter_later w r : (forall a, waiter r <> Replied a) -> later r (set_waiter w r).
Proof. intros H. split_and!; [done..|]. intros a Ha. by destruct (H a). Qed.

Lemma thread_later e s s' j rj :
  match e with Wake _ | Timeout _ | HandlerTimeout _ => True | _ => False end ->
  step e s = Some s' -> reqs s !! j = Some rj -> exists rj', reqs s' !! j = Some rj' /\ later rj rj'.
Proof.
  intros He H Hj. destruct e as [|c t cl ps|c q aj|i|i|i|may o|f]; try done; cbn in H;
    unfold wake, timeout, handler_timeout in H; destruct (reqs s !! i) as [r|] eqn:Hi; try done; cbn in H.
  - destruct (waiter r) eqn:Ew, (done r); simplify_eq; eapply later_update; try done; apply waiter_later; by rewrite Ew.
  - destruct (waiter r) eqn:Ew, (done r); simplify_eq. unfold try_cancel in H. destruct (state r); simplify_eq; eapply later_update; try done;
      (split_and!; [done..|]); by rewrite Ew.
  - destruct (waiter r) eqn:Ew, (done r); simplify_eq; eapply later_update; try done; apply waiter_later; by rewrite Ew.
Qed.

Lemma step_later e s s' j rj :
  step e s = Some s' -> reqs s !! j = Some rj -> exists rj', reqs s' !! j = Some rj' /\ later rj rj'.
Proof.
  intros H Hj. destruct e as [|c t cl ps|c q aj|i|i|i|may o|f]; try (by eapply thread_later; eauto).
  - cbn in H. simplify_eq. eauto using later_refl.
  - cbn in H. destruct (conns s !! c) as [cn|]; [|done]. cbn in H. destruct (handle_xack _ _ _ _ _ _ _) as [[p cn'] x].
    simplify_eq. eauto using later_refl.
  - cbn in H. unfold submit in H. destruct (conns s !! c) as [cn|]; [|done]. cbn [mbind option_bind] in H. destruct (cluster_bad cn && negb q).
    { simplify_eq. eauto using later_refl. }
    destruct (length (queue s) <? maxsize)%nat; simplify_eq; exists rj; (split; [by apply lookup_app_l_Some|done]).
  - by eapply main_later.
  - cbn in H. simplify_eq. cbn. rewrite list_lookup_fmap, Hj. eexists. split; [done|]. destruct (waiter rj) eqn:Ew; try done;
      apply waiter_later; by rewrite Ew.
Qed.

Lemma run_later es s s' j rj :
  run es s = Some s' -> reqs s !! j = Some rj -> exists rj', reqs s' !! j = Some rj' /\ later rj rj'.
Proof.
  revert s rj. induction es as [|e es IH]; intros s rj; cbn; [intros [= <-]; eauto using later_refl|].
  destruct (step e s) as [s1|] eqn:E; [|done]. cbn. intros Hr Hj. destruct (step_later _ _ _ _ _ E Hj) as (r1 & H1 & L1).
  destruct (IH s1 r1 Hr H1) as (r2 & H2 & L2). eauto using later_trans.
Qed.

Lemma req_run_app es1 es2 s : run (es1 ++ es2) s = run es1 s ≫= run es2.
Proof. revert s. induction es1 as [|e es1 IH]; intros s; cbn; [done|]. destruct (step e s); cbn; [apply IH|done]. Qed.

Lemma refused_not_ran s i r x :
  inv s -> reqs s !! i = Some r -> waiter r = Replied (Ack x) -> x ∈ [deferred; full; stale] -> ~ ran s i.
Proof.
  intros H Hi Hw Hx Hr. destruct (inv_good _ H _ _ Hi) as [H1 H2 _ H4]. rewrite Hw in H4. destruct (H1 Hr) as [Hb Hq].
  assert (server_reason x = true) as Hsr by (rewrite !elem_of_cons in Hx; destruct Hx as [->|[->|[->|Hx]]]; [done..|by apply elem_of_nil in Hx]).
  destruct H4 as [(Hs & Hres & _)|[(_ & Hs)|[(_ & Hs & _)|(-> & _)]]].
  - destruct (H2 Hs) as (y & Hy & Hcase). replace y with x in * by congruence. destruct (Hcase Hq) as [[_ ?]|[_ ?]]; [congruence|done].
  - destruct Hb; congruence.
  - destruct Hb; congruence.
  - rewrite !elem_of_cons in Hx. destruct Hx as [?|[?|[?|Hx]]]; [done..|by apply elem_of_nil in Hx].
Qed.

(** [C18] A request reported as not executed is never executed.  Once a client
    was told [deferred_timeout], [queue_full] or [stale_term], the request has
    not been handed to its handler, and no continuation of the run, whatever the
    interleaving of threads, frames and restarts, hands it over later; and no
    request is handed over twice. *)
Theorem refused_never_executes f es1 es2 s1 s2 i r x :
  run es1 (boot f) = Some s1 -> run es2 s1 = Some s2 -> forallb genuine (es1 ++ es2) = true ->
  reqs s1 !! i = Some r -> waiter r = Replied (Ack x) -> x ∈ [deferred; full; stale] ->
  i ∉ (cleared s2).*1 /\ NoDup (cleared s2).*1.
Proof.
  intros H1 H2 Hg Hi Hw Hx. rewrite forallb_app in Hg. apply andb_prop in Hg as [Hg1 Hg2].
  pose proof (req_run_inv _ _ _ (boot_inv f) Hg1 H1) as I1. pose proof (req_run_inv _ _ _ I1 Hg2 H2) as I2.
  destruct (run_later _ _ _ _ _ H2 Hi) as (r2 & Hi2 & (_ & _ & Hl)). split; [|apply I2].
  eapply refused_not_ran; eauto.
Qed.

(** Where a result comes from. *)
Lemma main_result may o s s' i r' x :
  main may o s = Some s' -> reqs s' !! i = Some r' -> res r' = Some x -> server_reason x = false -> query r' = false -> inv s ->
  (exists r, reqs s !! i = Some r /\ res r = Some x) \/ (o = x /\ exists w, at_ s = Cleared i w).
Proof.
  intros H Hi Hx Hs Hq HI. pose proof (inv_at _ HI) as Ha. unfold at_ok in Ha. unfold main in H.
  assert (forall j r1 r2, reqs s !! j = Some r1 -> <[j := r2]> (reqs s) !! i = Some r' -> i <> j \/ res r2 = res r1 ->
    exists r, reqs s !! i = Some r /\ res r = Some x) as Hup.
  { intros j r1 r2 Hj Hlk Hor. apply list_lookup_insert_Some in Hlk as [(<- & <- & _)|(_ & Hlk)]; [|eauto]. destruct Hor; [done|]. exists r1. split; congruence. }
  destruct (at_ s) as [|w|[|j w]|j w|j w|j w|j w|j w].
  - simplify_eq. eauto.
  - destruct (queue s); simplify_eq; eauto.
  - simplify_eq. eauto.
  - destruct (reqs s !! j) as [r|]; [|done]. cbn in H. simplify_eq. destruct (state r); eauto.
  - destruct (reqs s !! j) as [r|] eqn:Hj; [|done]. cbn in H. destruct (query r || may); [|simplify_eq; eauto].
    unfold try_start in H. destruct (state r); simplify_eq; eauto. left. eapply (Hup j r); [done|exact Hi|by right].
  - destruct Ha as (r & Hj & _ & Hqj). rewrite Hj in H. cbn in H. simplify_eq. left. eapply (Hup j r); [done|exact Hi|]. left. intros ->.
    cbn in Hi. rewrite list_lookup_insert_eq in Hi by (by eapply lookup_lt_Some). injection Hi as <-. cbn in Hq. congruence.
  - destruct (reqs s !! j) as [r|] eqn:Hj; [|done]. cbn in H. destruct (is_stale _ _); simplify_eq; [|eauto]. left. eapply (Hup j r); [done|exact Hi|].
    left. intros ->. cbn in Hi. rewrite list_lookup_insert_eq in Hi by (by eapply lookup_lt_Some). injection Hi as <-.
    cbn in Hx. injection Hx as <-. done.
  - destruct (reqs s !! j) as [r|] eqn:Hj; [|done]. cbn in H. simplify_eq. cbn in Hi. destruct (decide (i = j)) as [->|Hne]; [|left; eauto].
    right. rewrite list_lookup_insert_eq in Hi by (by eapply lookup_lt_Some). simplify_eq. cbn in Hx. simplify_eq. eauto.
  - destruct (reqs s !! j) as [r|] eqn:Hj; [|done]. cbn in H. simplify_eq. left. eapply (Hup j r); [done|exact Hi|by right].
Qed.

(** The other events only move results along. *)
Lemma other_result e s s' i r' x :
  step e s = Some s' -> match e with Main _ _ => False | _ => True end -> reqs s' !! i = Some r' -> res r' = Some x ->
  exists r, reqs s !! i = Some r /\ res r = Some x.
Proof.
  intros H He Hi Hx. destruct e as [|c t cl ps|c q aj|j|j|j|may o|lost]; try done; cbn in H.
  - simplify_eq. eauto.
  - destruct (conns s !! c) as [cn|]; [|done]. cbn in H. destruct (handle_xack _ _ _ _ _ _ _) as [[p cn'] y]. simplify_eq. eauto.
  - unfold submit in H. destruct (conns s !! c) as [cn|]; [|done]. cbn [mbind option_bind] in H.
    destruct (cluster_bad cn && negb q); [simplify_eq; eauto|].
    destruct (length (queue s) <? maxsize)%nat; simplify_eq; cbn in Hi; (apply lookup_app_Some in Hi as [Hi|[_ Hi]]; [eauto|]);
      apply list_lookup_singleton_Some in Hi as [_ <-]; done.
  - unfold wake in H. destruct (reqs s !! j) as [r|] eqn:Hj; [|done]. cbn in H. destruct (waiter r), (done r); simplify_eq;
      cbn in Hi; (apply list_lookup_insert_Some in Hi as [(<- & <- & _)|(_ & Hi)]; eauto).
  - unfold timeout in H. destruct (reqs s !! j) as [r|] eqn:Hj; [|done]. cbn in H. destruct (waiter r), (done r); simplify_eq.
    unfold try_cancel in H. destruct (state r); simplify_eq;
      cbn in Hi; (apply list_lookup_insert_Some in Hi as [(<- & <- & _)|(_ & Hi)]; eauto).
  - unfold handler_timeout in H. destruct (reqs s !! j) as [r|] eqn:Hj; [|done]. cbn in H. destruct (waiter r), (done r); simplify_eq;
      cbn in Hi; (apply list_lookup_insert_Some in Hi as [(<- & <- & _)|(_ & Hi)]; eauto).
  - simplify_eq. cbn in Hi. rewrite list_lookup_fmap in Hi. destruct (reqs s !! i) as [r|]; [|done]. cbn in Hi. simplify_eq.
    exists r. split; [done|]. by destruct (waiter r).
Qed.

(** Executing request [i] at one point of a run, with result [x]. *)
Definition executed (f : ffile) (es : list event) (i : nat) (x : result) : Prop :=
  exists es1 es2 may w s1, es = es1 ++ Main may x :: es2 /\ run es1 (boot f) = Some s1 /\ at_ s1 = Cleared i w.

Lemma result_executed f es s i r x :
  run es (boot f) = Some s -> forallb genuine es = true -> reqs s !! i = Some r -> res r = Some x ->
  server_reason x = false -> query r = false -> executed f es i x.
Proof.
  revert s r. induction es as [|e es IH] using rev_ind; intros s r H Hg Hi Hx Hs Hq; [injection H as <-; by cbn in Hi|].
  rewrite req_run_app in H. destruct (run es (boot f)) as [s1|] eqn:E1; [|done]. cbn in H.
  rewrite forallb_app in Hg. apply andb_prop in Hg as [Hg He]. destruct (step e s1) as [s2|] eqn:E2; [|done]. cbn in H. injection H as <-.
  assert ((exists r1, reqs s1 !! i = Some r1 /\ res r1 = Some x) \/ (exists may w, e = Main may x /\ at_ s1 = Cleared i w)) as [(r1 & Hi1 & Hx1)|(may & w & -> & Hw)].
  { destruct e as [|c t cl ps|c q aj|j|j|j|may o|lost]; try (left; by eapply other_result).
    destruct (main_result _ _ _ _ _ _ _ E2 Hi Hx Hs Hq) as [?|(-> & w & Hw)]; [|by left|right; eauto].
    apply (req_run_inv es (boot f)); [apply boot_inv|done..]. }
  - destruct (step_later _ _ _ _ _ E2 Hi1) as (r2 & Hi2 & (_ & Hq2 & _)). replace r2 with r in * by congruence.
    destruct (IH s1 r1) as (ea & eb & may & w & sa & -> & Ha & Hw); [done..|congruence|].
    exists ea, (eb ++ [e]), may, w, sa. by rewrite <- app_assoc.
  - exists es, [], may, w, s1. done.
Qed.

(** [C21] An acknowledgement is the outcome.  A reply with a reason of the
    handlers ([ok], [range], [not_confirmed], [held_for_burst], ...) reports the
    result that executing this very request gave, at one point of the run; so
    [applied] is never claimed for a request that did not run, nor with the
    outcome of another request. *)
Theorem acks_report_the_outcome f es s i r x :
  run es (boot f) = Some s -> forallb genuine es = true -> reqs s !! i = Some r ->
  waiter r = Replied (Ack x) -> server_reason x = false -> executed f es i x /\ i ∈ (cleared s).*1.
Proof.
  intros H Hg Hi Hw Hs. pose proof (req_run_inv _ _ _ (boot_inv f) Hg H) as HI. destruct (inv_good _ HI _ _ Hi) as [H1 H2 _ H4].
  rewrite Hw in H4. destruct H4 as [(Hst & Hx & Hq)|[(-> & _)|[(-> & _)|(-> & _)]]]; [|done..].
  split; [by eapply result_executed|]. destruct (H2 Hst) as (y & Hy & Hcase). replace y with x in * by congruence.
  destruct (Hcase Hq) as [[? _]|[-> _]]; done.
Qed.

(** ** The fence *)

(** Terms arrive as 32-bit unsigned numbers. *)
Definition on_wire (e : event) : bool :=
  match e with Xack _ t _ _ => (0 <=? t) && (t <=? U32_MAX) | Restart lost => negb lost | _ => true end.

Record fenced (t : Z) (p : plane) : Prop := {
  fenced_term : t <= max_term_seen p;
  fenced_file : exists u, fence_path p = Num u /\ t <= u /\ 0 <= u <= U32_MAX }.

Lemma xack_fenced t p cn t' cl ps :
  fenced t p -> 0 <= t' <= U32_MAX -> fenced t (handle_xack own jump t' cl ps p cn).1.1.
Proof.
  intros [H1 (u & Hu & Htu & Hr)] Ht'. unfold handle_xack. destruct (negb (String.eqb cl "") && negb (String.eqb cl own)); [by constructor; eauto|].
  destruct (negb (String.eqb cl "") && (max_term_seen p + jump <? t')); [by constructor; eauto|]. cbn [fst].
  destruct (negb (String.eqb cl "") && (max_term_seen p <? t')) eqn:E; [|by constructor; eauto].
  apply andb_prop in E as [_ E]. apply Z.ltb_lt in E. constructor; cbn; [lia|]. unfold _persist_fence. destruct ps; [exists t'|exists u]; split_and!; auto; lia.
Qed.

(** An accepted handshake raises the fence, in memory and on disk. *)
Lemma xack_raises p cn t :
  own <> "" -> 0 <= t <= U32_MAX -> t <= max_term_seen p + jump ->
  (exists u, fence_path p = Num u /\ u = max_term_seen p /\ 0 <= u <= U32_MAX) \/ max_term_seen p < t ->
  fenced t (handle_xack own jump t own true p cn).1.1.
Proof.
  intros Ho Ht Hj Hf. unfold handle_xack. rewrite String.eqb_refl, andb_false_r.
  replace (String.eqb own "") with false by (symmetry; by apply String.eqb_neq). cbn [negb andb].
  rewrite (proj2 (Z.ltb_ge _ _)) by lia. cbn [fst]. destruct (Z.ltb_spec (max_term_seen p) t); constructor; cbn; try lia.
  - exists t. split_and!; [done|lia..].
  - destruct Hf as [(u & Hu & -> & Hr)|]; [|lia]. eexists. split_and!; [done|lia..].
Qed.

(** The requests cleared since have a term the fence lets through. *)
Definition let_through (t : Z) (s : sys) (i : nat) : Prop := exists r, reqs s !! i = Some r /\ ~ (0 < term r < t).

Lemma let_through_step t e s s' i : step e s = Some s' -> let_through t s i -> let_through t s' i.
Proof. intros H (r & Hi & Ht). destruct (step_later _ _ _ _ _ H Hi) as (r' & Hi' & (E & _)). exists r'. by rewrite E. Qed.

(** Only a handshake or a restart moves the fence, only the main loop clears. *)
Lemma other_step e s s' :
  step e s = Some s' -> match e with Xack _ _ _ _ | Main _ _ | Restart _ => False | _ => True end ->
  ctl s' = ctl s /\ cleared s' = cleared s.
Proof.
  intros H He. destruct e; try done; cbn in H; [by simplify_eq| | | |];
    unfold submit, wake, timeout, handler_timeout, mbind, option_bind in H; repeat (case_match; try done); by simplify_eq.
Qed.

Lemma main_step may o s s' :
  main may o s = Some s' -> ctl s' = ctl s /\ (cleared s' = cleared s \/
  exists i r, cleared s' = cleared s ++ [(i, max_term_seen (ctl s))] /\ reqs s !! i = Some r /\ is_stale (ctl s) (term r) = false).
Proof.
  unfold main. destruct (at_ s) as [|w|[|i w]|i w|i w|i w|i w|i w]; try (destruct (reqs s !! i) as [r|] eqn:Hi; [cbn|done]);
    try (intros [= <-]; by auto).
  - destruct (queue s); intros [= <-]; auto.
  - intros [= <-]. destruct (state r); auto.
  - destruct (query r || may); [destruct (try_start r)|]; intros [= <-]; auto.
  - destruct (is_stale (ctl s) (term r)) eqn:E; intros [= <-]; [by auto|]. split; [done|]. right. eauto.
Qed.

Lemma step_fenced t e s s' : fenced t (ctl s) -> on_wire e = true -> step e s = Some s' -> fenced t (ctl s').
Proof.
  intros Hf He H. destruct e as [|c t' cl ps|c q aj|j|j|j|may o|lost]; try (by destruct (other_step _ _ _ H I) as [-> _]).
  - cbn in H, He. destruct (conns s !! c) as [cn|]; [|done]. cbn in H. apply andb_prop in He as [He1 He2].
    pose proof (xack_fenced t (ctl s) cn t' cl ps Hf ltac:(lia)) as Hx. destruct (handle_xack _ _ _ _ _ _ _) as [[p cn'] y]. by simplify_eq.
  - by destruct (main_step _ _ _ _ H) as [-> _].
  - cbn in H. destruct lost; [done|]. simplify_eq. destruct Hf as [H1 (u & Hu & Htu & Hr)]. constructor; cbn; rewrite Hu; [|eauto].
    cbn. rewrite (proj2 (Z.leb_le 0 u)), (proj2 (Z.leb_le u U32_MAX)) by lia. done.
Qed.

Lemma step_let_through t e s s' old new :
  fenced t (ctl s) -> step e s = Some s' -> cleared s = old ++ new -> Forall (let_through t s) new.*1 ->
  exists new', cleared s' = old ++ new' /\ Forall (let_through t s') new'.*1.
Proof.
  intros Hf H Hc Hn. assert (Forall (let_through t s') new.*1) as Hn' by (eapply list.Forall_impl; [exact Hn|]; intros; by eapply let_through_step).
  assert (cleared s' = cleared s -> exists new', cleared s' = old ++ new' /\ Forall (let_through t s') new'.*1) as Hsame by (intros ->; eauto).
  destruct e as [|c t' cl ps|c q aj|j|j|j|may o|lost]; try (apply Hsame; exact (proj2 (other_step _ _ _ H I))).
  - apply Hsame. cbn in H. destruct (conns s !! c) as [cn|]; [|done]. cbn in H. destruct (handle_xack _ _ _ _ _ _ _) as [[p cn'] y]. by simplify_eq.
  - destruct (main_step _ _ _ _ H) as [_ [E|(i & r & E & Hi & Hst)]]; [by apply Hsame|]. exists (new ++ [(i, max_term_seen (ctl s))]).
    split; [by rewrite E, Hc, app_assoc|]. rewrite fmap_app. apply list.Forall_app. split; [done|]. constructor; [|constructor].
    eapply let_through_step; [exact H|]. exists r. split; [done|]. unfold is_stale in Hst. pose proof (fenced_term _ _ Hf). cbn. lia.
  - apply Hsame. cbn in H. by simplify_eq.
Qed.

Lemma run_let_through t es s s' old new :
  fenced t (ctl s) -> forallb on_wire es = true -> run es s = Some s' -> cleared s = old ++ new -> Forall (let_through t s) new.*1 ->
  exists new', cleared s' = old ++ new' /\ Forall (let_through t s') new'.*1.
Proof.
  revert s new. induction es as [|e es IH]; intros s new Hf He H Hc Hn; cbn in H; [simplify_eq; eauto|].
  cbn in He. apply andb_prop in He as [He Hes]. destruct (step e s) as [s1|] eqn:E; [|done]. cbn in H.
  destruct (step_let_through _ _ _ _ _ _ Hf E Hc Hn) as (new' & Hc' & Hn'). eapply IH; [by eapply step_fenced|done..].
Qed.

(** [C35] A superseded coordinator stays out.  After a handshake of this
    cluster raised the fence to [t] and was written to the fence file, no
    request of a connection that declared a term between 1 and [t - 1] passes
    the fence check, whether it was queued before or after, deferred across any
    number of frames, and also after restarts of the process that find the
    file. *)
Theorem superseded_terms_never_clear es2 s1 s2 s3 c cn t :
  own <> "" -> conns s1 !! c = Some cn ->
  0 <= t <= U32_MAX -> max_term_seen (ctl s1) < t <= max_term_seen (ctl s1) + jump ->
  step (Xack c t own true) s1 = Some s2 -> forallb on_wire es2 = true -> run es2 s2 = Some s3 ->
  exists new, cleared s3 = cleared s1 ++ new /\ Forall (let_through t s3) new.*1.
Proof.
  intros Ho Hcn Ht Hj H2 Hw H3. cbn in H2. rewrite Hcn in H2. cbn in H2.
  pose proof (xack_raises (ctl s1) cn t Ho Ht ltac:(lia) ltac:(by right; lia)) as Hf.
  destruct (handle_xack own jump t own true (ctl s1) cn) as [[p cn'] y]. cbn in Hf. injection H2 as <-.
  refine (run_let_through t es2 _ s3 (cleared s1) [] _ Hw H3 _ _); [exact Hf|cbn; by rewrite app_nil_r|constructor].
Qed.

End Server.

(** ** Witnesses *)

(** Two extended connections of terms 3 and 5; the first one's request waits in
    the queue while the second raises the fence. *)
Definition ex_before : list event :=
  [Connect; Connect; Xack 0 3 "array" true; Submit 0 false false; Submit 0 false false; Timeout 0; Xack 1 5 "array" true].
Definition ok : result := (Some true, "ok").
Definition ex_after : list event :=
  [Submit 1 false false] ++ replicate 19 (Main true ok) ++ [Wake 1; Wake 2].

Definition ex_run := run "array" 1000 8.
Definition ex_mid : sys := default (boot Absent) (ex_run ex_before (boot Absent)).
Definition ex_end : sys := default (boot Absent) (ex_run ex_after ex_mid).

(** The first is withdrawn, the second stale, the third executed. *)
Lemma ex_replies : map waiter (reqs ex_end) = [Replied (Ack deferred); Replied (Ack stale); Replied (Ack ok)] /\ (cleared ex_end).*1 = [2%nat].
Proof. by vm_compute. Qed.

Lemma refused_never_executes_witness : 0%nat ∉ (cleared ex_end).*1 /\ NoDup (cleared ex_end).*1.
Proof.
  eapply (refused_never_executes "array" 1000 8 Absent ex_before ex_after ex_mid ex_end 0 _ deferred); try (by vm_compute). set_solver.
Defined.

Lemma acks_report_the_outcome_witness : executed "array" 1000 8 Absent (ex_before ++ ex_after) 2 ok /\ 2%nat ∈ (cleared ex_end).*1.
Proof. eapply (acks_report_the_outcome "array" 1000 8 Absent (ex_before ++ ex_after) ex_end 2); by vm_compute. Defined.

Definition ex_fence : sys := default (boot Absent) (ex_run (take 6 ex_before) (boot Absent)).

Lemma superseded_terms_never_clear_witness :
  exists new, cleared ex_end = cleared ex_fence ++ new /\ Forall (let_through 5 ex_end) new.*1.
Proof.
  eapply (superseded_terms_never_clear "array" 1000 8 ex_after ex_fence ex_mid ex_end 1); by vm_compute.
Defined.

End Ctl.
