(* ===== verification/HwWire.v ===== *)
(** * The control port: frames and the chunked schedule transfer

    Both ends of the connection to port 5001: the 128-byte frames the client of
    [heimdall_ctl] builds ([util/heimdall_ctl/client/ctl.py]) and
    [CtrIfaceServer.process_ctr_frame] of [hw_controller.py] decodes, the
    windowed upload of a schedule in chunks ([upload_schedule_chunked] against
    [_handle_schb], [_handle_schc], [_handle_sche]), and the acknowledgement
    text ([_ack_payload]). *)
From S2P Require Import Prelude PyStruct PyText PyJson PyJsonText.
Open Scope Z_scope.

Module Wire.

(** ** Frames *)
Definition FRAME_SIZE : nat := 128.
Definition PAYLOAD_SIZE : nat := 124.

(** A verb of at most four characters, padded with blanks. *)
Definition wire_verb (v : string) : bytes :=
  let b := take 4 (map char_code (to_chars v)) in b ++ replicate (4 - length b) 32.

(** [build_frame]; [None] is the [ValueError]. *)
Definition build_frame (verb : string) (payload : bytes) : option bytes :=
  if (PAYLOAD_SIZE <? length payload)%nat then None
  else Some (wire_verb verb ++ payload ++ replicate (PAYLOAD_SIZE - length payload) 0).

(** [unpack('<I', msg[off:off+4])] and its like. *)
Definition uint (n off : nat) (msg : bytes) : Z := le_val (take n (drop off msg)).

(** [unpack('I'*n, bs)]; [None] is the [struct.error] of a short slice. *)
Fixpoint u32_list (n : nat) (bs : bytes) : option (list Z) :=
  match n with
  | O => match bs with [] => Some [] | _ => None end
  | S n => if (length bs <? 4)%nat then None else rest ← u32_list n (drop 4 bs); Some (le_val (take 4 bs) :: rest)
  end.

(** ** The client's commands *)
Inductive command :=
  | freq (hz : Z) | gain (g : list Z) | agc | init | wire_recal
  | schedule_load (json : bytes) | schedule_stop | schedule_query | schedule_next | schedule_gen_query
  | hwc_state_query | track_lock_query | track_lock_set (approve : bool)
  | ext_gain (g : list Z) | bias_tee (b : list bool) | rf_query
  | bearing (az el : Z) (* the bit patterns of the two single-precision numbers *)
  | park | scan_start | orientation_stop | orientation_query.

Definition pack_u32_list (l : list Z) : bytes := concat (map (le_bytes 4) l).

Definition in_u32 (z : Z) : bool := (0 <=? z) && (z <? 2 ^ 32).

(** [struct.pack] raises on a number that does not fit. *)
Definition guarded (ok : bool) (verb : string) (payload : bytes) : option bytes :=
  if ok then build_frame verb payload else None.

Definition _send (c : command) : option bytes :=
  match c with
  | freq hz => guarded ((0 <=? hz) && (hz <? 2 ^ 64)) "FREQ" (le_bytes 8 hz)
  | gain g => guarded (forallb in_u32 g) "GAIN" (pack_u32_list g)
  | agc => build_frame "AGC" []
  | init => build_frame "INIT" []
  | wire_recal => build_frame "RECL" []
  | schedule_load j => build_frame "SCHD" j
  | schedule_stop => build_frame "SCHS" []
  | schedule_query => build_frame "SCHQ" []
  | schedule_next => build_frame "SCHN" []
  | schedule_gen_query => build_frame "SCHG" []
  | hwc_state_query => build_frame "HWSQ" []
  | track_lock_query => build_frame "TLCK" []
  | track_lock_set a => build_frame "TLKA" (le_bytes 4 (if a then 1 else 0))
  | ext_gain g => guarded (forallb in_u32 g) "EGAN" (pack_u32_list g)
  | bias_tee b => build_frame "BIAS" (pack_u32_list (map (fun x : bool => if x then 1 else 0) b))
  | rf_query => build_frame "RFQ" []
  | bearing az el => guarded (in_u32 az && in_u32 el) "ORNT" (le_bytes 4 az ++ le_bytes 4 el)
  | park => build_frame "PARK" []
  | scan_start => build_frame "SCAN" []
  | orientation_stop => build_frame "OSTP" []
  | orientation_query => build_frame "OQRY" []
  end.

(** ** The server's sessions *)
Record sched_session := SchedSession {
  sess : Z; total_len : Z; crc : Z; nchunks : Z; buf : bytes; next_seq : Z; last_activity : Z }.

Record conn := Conn { c_xack : bool; c_bad : bool; c_session : option sched_session }.

Definition set_session (x : option sched_session) (c : conn) : conn := Conn (c_xack c) (c_bad c) x.

(** The reply of the server thread, or what it hands to the main loop. *)
Inductive reply :=
  | Plain | Unsupported
  | Queued (verb : string) (params : list Z)      (* [_submit_request] *)
  | QueuedText (text : bytes)                      (* [SCHD], before decoding and trimming *)
  | Loaded (text : bytes) (entries : Z)            (* [SCHD] of a finished session *)
  | Snapshot (verb : string)
  | Handshake (term : Z) (cluster : bytes)
  | TrackLock (value : Z)
  | SessOk (sess : Z) | ChunkOk (seq : Z) | Refused (reason : string).

Section Server.
(** The number of channels; whether a text is a JSON object, and how many
    entries it has. *)
Context (M : nat) (entries_of : bytes -> option Z).

Definition SCHB_MAX_BYTES : Z := 262144.
Definition SCHC_MAX_CHUNK : Z := 116.
Definition SCHED_SESSION_IDLE : Z := 30000. (* ms *)

(** [next_session_id] *)
Definition next_session_id (n : Z) : Z := n mod 65535 + 1.

Definition _handle_schb (msg : bytes) (now n : Z) (c : conn) : Z * conn * reply :=
  let total := uint 4 4 msg in
  let chunks := uint 2 12 msg in
  if SCHB_MAX_BYTES <? total then (n, set_session None c, Refused "too_large")
  else if (total =? 0) || (chunks =? 0) || (total <? chunks) || (chunks * SCHC_MAX_CHUNK <? total)
  then (n, set_session None c, Refused "bad_request")
  else let id := next_session_id n in
       (id, set_session (Some (SchedSession id total (uint 4 8 msg) chunks [] 0 now)) c, SessOk id).

Definition _live_session (now id : Z) (c : conn) : option sched_session * conn :=
  match c_session c with
  | None => (None, c)
  | Some s =>
      if negb (sess s =? id) then (None, c)
      else if SCHED_SESSION_IDLE <? now - last_activity s then (None, set_session None c)
      else (Some s, c)
  end.

Definition _handle_schc (msg : bytes) (now : Z) (c : conn) : conn * reply :=
  let seq := uint 2 6 msg in
  let length_ := uint 2 8 msg in
  match _live_session now (uint 2 4 msg) c with
  | (None, c) => (c, Refused "bad_session")
  | (Some s, c) =>
      if negb (seq =? next_seq s) then (set_session None c, Refused "out_of_order")
      else if negb ((1 <=? length_) && (length_ <=? SCHC_MAX_CHUNK)) || (total_len s <? Z.of_nat (length (buf s)) + length_) || (nchunks s <=? seq)
      then (set_session None c, Refused "overflow")
      else (set_session (Some (SchedSession (sess s) (total_len s) (crc s) (nchunks s)
              (buf s ++ take (Z.to_nat length_) (drop 10 msg)) (next_seq s + 1) now)) c, ChunkOk seq)
  end.

Definition _handle_sche (msg : bytes) (now : Z) (c : conn) : conn * reply :=
  match _live_session now (uint 2 4 msg) c with
  | (None, c) => (set_session None c, Refused "bad_session")
  | (Some s, c) =>
      (set_session None c,
       if negb (Z.of_nat (length (buf s)) =? total_len s) || negb (next_seq s =? nchunks s) then Refused "incomplete"
       else if negb (crc32 (buf s) =? crc s) then Refused "crc_mismatch"
       else match entries_of (buf s) with
            | None => Refused "parse_error"
            | Some n => Loaded (buf s) (Z.min 99999 n)
            end)
  end.

Definition verb_is (v : string) (msg : bytes) : bool := bool_decide (take 4 msg = wire_verb v).

Definition MUTATING_COMMANDS : list string :=
  ["FREQ"; "GAIN"; "AGC "; "INIT"; "SCHD"; "SCHS"; "SCHN"; "EGAN"; "BIAS"; "ORNT"; "PARK"; "SCAN"; "OSTP"; "STHU";
   "RECL"; "TLKA"; "SCHB"; "SCHC"; "SCHE"].

(** [.rstrip('\x00')] of the payload of [SCHD]. *)
Fixpoint drop_nul (bs : bytes) : bytes := match bs with 0 :: bs => drop_nul bs | _ => bs end.
Definition rstrip_nul (bs : bytes) : bytes := reverse (drop_nul (reverse bs)).

Definition queue_u32s (verb : string) (msg : bytes) : reply :=
  match u32_list M (take (4 * M) (drop 4 msg)) with Some l => Queued verb l | None => Plain end.

(** [process_ctr_frame]: [None] closes the connection.  [n] is the session
    counter of the control plane. *)
Definition process_ctr_frame (msg : bytes) (now n : Z) (c : conn) : option (Z * conn * reply) :=
  let ret r := Some (n, c, r) in
  if verb_is "EXIT" msg then None
  else if c_bad c && existsb (fun v => verb_is v msg) MUTATING_COMMANDS then ret Plain
  else if verb_is "STHU" msg then ret (if c_xack c then Unsupported else Plain)
  else if verb_is "FREQ" msg then ret (Queued "FREQ" [uint 8 4 msg])
  else if verb_is "GAIN" msg then ret (queue_u32s "GAIN" msg)
  else if verb_is "AGC " msg then ret (Queued "AGC " [])
  else if verb_is "INIT" msg then ret (Queued "INIT" [])
  else if verb_is "SCHD" msg then ret (QueuedText (rstrip_nul (drop 4 msg)))
  else if verb_is "SCHS" msg then ret (Queued "SCHS" [])
  else if verb_is "SCHQ" msg then ret (Queued "SCHQ" [])
  else if verb_is "SCHN" msg then ret (Queued "SCHN" [])
  else if verb_is "EGAN" msg then ret (queue_u32s "EGAN" msg)
  else if verb_is "RFQ " msg then ret (Queued "RFQ " [])
  else if verb_is "BIAS" msg then ret (queue_u32s "BIAS" msg)
  else if verb_is "ORNT" msg then ret (Queued "ORNT" [uint 4 4 msg; uint 4 8 msg])
  else if verb_is "PARK" msg then ret (Queued "PARK" [])
  else if verb_is "SCAN" msg then ret (Queued "SCAN" [])
  else if verb_is "OSTP" msg then ret (Queued "OSTP" [])
  else if verb_is "OQRY" msg then ret (Queued "OQRY" [])
  else if verb_is "XACK" msg then ret (Handshake (uint 4 4 msg) (take 32 (drop 8 msg)))
  else if verb_is "HWSQ" msg then ret (Snapshot "HWSQ")
  else if verb_is "SCHG" msg then ret (Snapshot "SCHG")
  else if verb_is "TLCK" msg then ret (Snapshot "TLCK")
  else if verb_is "TLKA" msg then ret (TrackLock (uint 4 4 msg))
  else if verb_is "RECL" msg then ret (Queued "RECL" [])
  else if verb_is "SCHB" msg then Some (_handle_schb msg now n c)
  else if verb_is "SCHC" msg then let '(c, r) := _handle_schc msg now c in Some (n, c, r)
  else if verb_is "SCHE" msg then let '(c, r) := _handle_sche msg now c in Some (n, c, r)
  else ret Plain.

(** ** A command arrives as it was sent *)

(** What the server makes of a command. *)
Definition meaning (c : command) : reply :=
  match c with
  | freq hz => Queued "FREQ" [hz]
  | gain g => Queued "GAIN" g
  | agc => Queued "AGC " []
  | init => Queued "INIT" []
  | wire_recal => Queued "RECL" []
  | schedule_load j => QueuedText j
  | schedule_stop => Queued "SCHS" []
  | schedule_query => Queued "SCHQ" []
  | schedule_next => Queued "SCHN" []
  | schedule_gen_query => Snapshot "SCHG"
  | hwc_state_query => Snapshot "HWSQ"
  | track_lock_query => Snapshot "TLCK"
  | track_lock_set a => TrackLock (if a then 1 else 0)
  | ext_gain g => Queued "EGAN" g
  | bias_tee b => Queued "BIAS" (map (fun x : bool => if x then 1 else 0) b)
  | rf_query => Queued "RFQ " []
  | bearing az el => Queued "ORNT" [az; el]
  | park => Queued "PARK" []
  | scan_start => Queued "SCAN" []
  | orientation_stop => Queued "OSTP" []
  | orientation_query => Queued "OQRY" []
  end.

(** One value per channel, and a document that does not end in a NUL. *)
Definition fits_channels (c : command) : Prop :=
  match c with
  | gain g | ext_gain g => length g = M
  | bias_tee b => length b = M
  | schedule_load j => list.last j <> Some 0
  | _ => True
  end.

Lemma build_frame_eq v p f :
  build_frame v p = Some f -> (length p <= 124)%nat /\ f = wire_verb v ++ p ++ replicate (124 - length p) 0.
Proof. unfold build_frame, PAYLOAD_SIZE. destruct (Nat.ltb_spec 124 (length p)); [done|]. intros [= <-]. split; [lia|done]. Qed.

Lemma wire_verb_length v : length (wire_verb v) = 4%nat.
Proof. unfold wire_verb. rewrite length_app, length_replicate, length_take. lia. Qed.

Lemma frame_verb v p rest : take 4 (wire_verb v ++ p ++ rest) = wire_verb v.
Proof. by rewrite take_app_length' by (by rewrite wire_verb_length). Qed.

Lemma frame_body v p : drop 4 (wire_verb v ++ p) = p.
Proof. by rewrite drop_app_length' by (by rewrite wire_verb_length). Qed.

Lemma uint_at v n off pre z post :
  off = (4 + length pre)%nat -> 0 <= z < 256 ^ Z.of_nat n -> uint n off (wire_verb v ++ pre ++ le_bytes n z ++ post) = z.
Proof.
  intros -> Hz. unfold uint. rewrite <- drop_drop, frame_body, drop_app_length.
  rewrite take_app_length' by (by rewrite le_bytes_length). by apply le_val_small.
Qed.

Lemma uint_first v n z post : 0 <= z < 256 ^ Z.of_nat n -> uint n 4 (wire_verb v ++ le_bytes n z ++ post) = z.
Proof. intros Hz. exact (uint_at v n 4 [] z post eq_refl Hz). Qed.

Lemma u32_list_pack l rest :
  forallb in_u32 l = true -> u32_list (length l) (take (4 * length l) (pack_u32_list l ++ rest)) = Some l.
Proof.
  unfold pack_u32_list. induction l as [|z l IH]; intros H; [done|]. cbn in H. apply andb_prop in H as [Hz Hl].
  unfold in_u32 in Hz. replace (4 * length (z :: l))%nat with (4 + 4 * length l)%nat by (cbn; lia).
  change (concat (map (le_bytes 4) (z :: l))) with (le_bytes 4 z ++ concat (map (le_bytes 4) l)).
  rewrite <- app_assoc, take_app_add' by (by rewrite le_bytes_length). cbn [length u32_list].
  rewrite (proj2 (Nat.ltb_ge _ _)) by (rewrite length_app, le_bytes_length; lia).
  rewrite drop_app_length', take_app_length' by (by rewrite le_bytes_length). rewrite IH by done.
  rewrite le_val_small by lia. done.
Qed.

Lemma rstrip_padded j k : list.last j <> Some 0 -> rstrip_nul (j ++ replicate k 0) = j.
Proof.
  intros H. unfold rstrip_nul. rewrite reverse_app, reverse_replicate.
  assert (drop_nul (replicate k 0 ++ reverse j) = reverse j) as ->; [|by rewrite reverse_involutive].
  induction k as [|k IH]; [|exact IH]. cbn. rewrite <- head_reverse in H. destruct (reverse j) as [|b r]; [done|]. by destruct b.
Qed.

Lemma verb_is_frame v w p : verb_is v (wire_verb w ++ p) = bool_decide (wire_verb w = wire_verb v).
Proof. unfold verb_is. by rewrite take_app_length' by (by rewrite wire_verb_length). Qed.

Lemma queue_u32s_frame v l rest :
  forallb in_u32 l = true -> length l = M -> queue_u32s v (wire_verb v ++ pack_u32_list l ++ rest) = Queued v l.
Proof. intros Hl Hm. unfold queue_u32s. rewrite <- Hm. by rewrite frame_body, u32_list_pack. Qed.

(** Decide which verb a frame carries. *)
Ltac dispatch :=
  unfold process_ctr_frame; cbn [existsb MUTATING_COMMANDS]; rewrite !verb_is_frame;
  repeat match goal with
  | |- context [bool_decide (wire_verb ?a = wire_verb ?b)] =>
      let x := eval vm_compute in (bool_decide (wire_verb a = wire_verb b)) in
      change (bool_decide (wire_verb a = wire_verb b)) with x
  end; cbv iota beta; cbn [orb andb].

(** What the client of [heimdall_ctl] sends is what the controller
    decodes.  For every command whose frame can be built, with one value per
    channel where the command carries a list, the server of the control port
    reads back the same verb and the same parameters; on a connection whose
    handshake was not refused it hands exactly these on. *)
Theorem command_roundtrip cmd f now n c :
  _send cmd = Some f -> fits_channels cmd -> c_bad c = false ->
  length f = FRAME_SIZE /\ process_ctr_frame f now n c = Some (n, c, meaning cmd).
Proof.
  intros Hf Hfit Hc.
  assert (forall v p, build_frame v p = Some f -> length f = FRAME_SIZE) as Hlen.
  { intros v p Hb. apply build_frame_eq in Hb as [Hp ->]. unfold FRAME_SIZE. rewrite !length_app, wire_verb_length, length_replicate. lia. }
  destruct cmd as [hz|g| | | |j| | | | | | |a|g|b| |az el| | | |]; cbn [_send guarded] in Hf;
    try (destruct ((0 <=? hz) && (hz <? 2 ^ 64)) eqn:Hhz; [|done]);
    try (destruct (forallb in_u32 g) eqn:Hg; [|done]);
    try (destruct (in_u32 az && in_u32 el) eqn:Hae; [|done]);
    (split; [by eapply Hlen|]); apply build_frame_eq in Hf as [Hp ->]; dispatch; rewrite ?Hc; cbn [andb]; try done; cbn [meaning].
  - by rewrite uint_first by (cbn; lia).
  - by rewrite queue_u32s_frame.
  - by rewrite frame_body, rstrip_padded.
  - by rewrite uint_first by (destruct a; cbn; lia).
  - by rewrite queue_u32s_frame.
  - rewrite queue_u32s_frame; [done| |by rewrite length_map]. apply forallb_forall. intros z Hz.
    apply in_map_iff in Hz as ([] & <- & _); done.
  - unfold in_u32 in Hae. rewrite <- app_assoc, uint_first by (cbn; lia).
    by rewrite uint_at by (cbn; lia).
Qed.

(** ** The chunked upload *)

(** One connection: frames processed so far, session counter, connection state
    and the replies the client has not read.  [clock] gives the time at which
    the server processes each frame; TCP keeps frames and replies in order. *)
Record link := Link { l_count : nat; l_ids : Z; l_conn : conn; l_replies : list reply }.

Definition send_frame (clock : nat -> Z) (f : option bytes) (l : link) : option link :=
  f ← f;
  '(n, c, r) ← process_ctr_frame f (clock (l_count l)) (l_ids l) (l_conn l);
  Some (Link (S (l_count l)) n c (l_replies l ++ [r])).

Definition read_reply (l : link) : option (reply * link) :=
  match l_replies l with [] => None | r :: rs => Some (r, Link (l_count l) (l_ids l) (l_conn l) rs) end.

Definition chunk (data : bytes) (i : nat) : bytes := take 116 (drop (116 * i) data).
Definition chunk_count (data : bytes) : nat := ((length data + 115) / 116)%nat.

Definition schb_frame (data : bytes) : option bytes :=
  build_frame "SCHB" (le_bytes 4 (Z.of_nat (length data)) ++ le_bytes 4 (crc32 data) ++ le_bytes 2 (Z.of_nat (chunk_count data)) ++ le_bytes 2 0).
Definition schc_frame (data : bytes) (sid : Z) (i : nat) : option bytes :=
  build_frame "SCHC" (le_bytes 2 sid ++ le_bytes 2 (Z.of_nat i) ++ le_bytes 2 (Z.of_nat (length (chunk data i))) ++ chunk data i).
Definition sche_frame (sid : Z) : option bytes := build_frame "SCHE" (le_bytes 2 sid).

Section Upload.
Context (clock : nat -> Z) (window : nat) (data : bytes).

(** The inner loop: [k] chunks from [sent] on. *)
Fixpoint send_chunks (sid : Z) (sent k : nat) (l : link) : option link :=
  match k with O => Some l | S k => l1 ← send_frame clock (schc_frame data sid sent) l; send_chunks sid (S sent) k l1 end.

(** The outer loop; each round reads one reply. *)
Fixpoint pump (fuel : nat) (sid : Z) (sent acked : nat) (l : link) : option link :=
  if (acked <? chunk_count data)%nat then
    match fuel with
    | O => None
    | S fuel =>
        let k := Nat.min (chunk_count data - sent) (window - (sent - acked)) in
        l1 ← send_chunks sid sent k l;
        '(r, l2) ← read_reply l1;
        match r with ChunkOk _ => pump fuel sid (sent + k) (S acked) l2 | _ => None end
    end
  else Some l.

(** [upload_schedule_chunked]: the reply to [SCHE]; [None] is an exception. *)
Definition upload_schedule_chunked (l : link) : option reply :=
  if (0 <? Z.of_nat (length data)) && (Z.of_nat (length data) <=? 262144) then
    l1 ← send_frame clock (schb_frame data) l;
    '(r, l2) ← read_reply l1;
    match r with
    | SessOk sid =>
        l3 ← pump (chunk_count data) sid 0 0 l2;
        l4 ← send_frame clock (sche_frame sid) l3;
        '(r, _) ← read_reply l4;
        Some r
    | _ => None
    end
  else None.

Context (Hdata : Forall byte_ok data) (Hlen : 0 < Z.of_nat (length data) <= 262144)
  (Hclock : forall k, clock (S k) - clock k <= SCHED_SESSION_IDLE).

Lemma chunk_count_bounds : (116 * chunk_count data >= length data)%nat /\ (116 * (chunk_count data - 1) < length data)%nat /\ (1 <= chunk_count data <= 2260)%nat.
Proof.
  unfold chunk_count. pose proof (Nat.div_mod_eq (length data + 115) 116) as H. pose proof (Nat.mod_upper_bound (length data + 115) 116 ltac:(lia)). lia.
Qed.

Lemma chunk_length i : (i < chunk_count data)%nat -> (1 <= length (chunk data i) <= 116)%nat /\ (116 * i + length (chunk data i) <= length data)%nat.
Proof. intros Hi. pose proof chunk_count_bounds. unfold chunk. rewrite length_take, length_drop. lia. Qed.

(** The session after [i] chunks. *)
Definition receiving (sid : Z) (i : nat) (c0 c : conn) (t : Z) : Prop :=
  c = set_session (Some (SchedSession sid (Z.of_nat (length data)) (crc32 data) (Z.of_nat (chunk_count data))
        (take (116 * i) data) (Z.of_nat i) t)) c0.

Lemma frame_fields v a b d rest :
  0 <= a < 65536 -> 0 <= b < 65536 -> 0 <= d < 65536 ->
  let msg := wire_verb v ++ (le_bytes 2 a ++ le_bytes 2 b ++ le_bytes 2 d ++ rest) in
  uint 2 4 msg = a /\ uint 2 6 msg = b /\ uint 2 8 msg = d /\ drop 10 msg = rest.
Proof.
  intros Ha Hb Hd. cbv zeta. split_and!.
  - apply uint_first. cbn; lia.
  - apply (uint_at v 2 6 (le_bytes 2 a)); [done|cbn; lia].
  - rewrite (app_assoc (le_bytes 2 a)). apply (uint_at v 2 8 (le_bytes 2 a ++ le_bytes 2 b)); [done|cbn; lia].
  - change 10%nat with (4 + 6)%nat. rewrite <- drop_drop, frame_body, !app_assoc. done.
Qed.

Lemma schc_step sid i c0 c t now n :
  0 <= sid < 65536 -> c_bad c0 = false -> (i < chunk_count data)%nat -> receiving sid i c0 c t -> now - t <= SCHED_SESSION_IDLE ->
  exists f c', schc_frame data sid i = Some f /\ process_ctr_frame f now n c = Some (n, c', ChunkOk (Z.of_nat i)) /\ receiving sid (S i) c0 c' now.
Proof.
  intros Hs Hb Hi Hr Ht. pose proof (chunk_length i Hi) as [Hc1 Hc2]. pose proof chunk_count_bounds as (_ & _ & Hn).
  unfold schc_frame. set (p := le_bytes 2 sid ++ _).
  assert (length p = 6 + length (chunk data i))%nat as Hp by (subst p; rewrite !length_app, !le_bytes_length; lia).
  unfold build_frame, PAYLOAD_SIZE. rewrite (proj2 (Nat.ltb_ge _ _)) by lia. eexists _, _. split; [done|].
  rewrite Hr. dispatch. cbn [c_bad set_session]. rewrite Hb. cbn [andb].
  destruct (frame_fields "SCHC" sid (Z.of_nat i) (Z.of_nat (length (chunk data i))) (chunk data i ++ replicate (124 - length p) 0))
    as (E1 & E2 & E3 & E4); [lia..|]. subst p. rewrite <- !app_assoc in *. unfold _handle_schc. rewrite E1, E2, E3, E4.
  unfold _live_session. cbn [c_session set_session sess last_activity]. rewrite Z.eqb_refl. cbn [negb].
  rewrite (proj2 (Z.ltb_ge _ _)) by lia. cbn [next_seq buf total_len nchunks]. rewrite Z.eqb_refl, length_take. cbn [negb].
  unfold SCHC_MAX_CHUNK. rewrite (proj2 (Z.leb_le _ _)), (proj2 (Z.leb_le _ _)), (proj2 (Z.ltb_ge _ _)), (proj2 (Z.leb_gt _ _)) by lia.
  cbn [negb orb andb]. split; [done|]. unfold receiving. rewrite Nat2Z.id, take_app_length. cbn [sess total_len crc nchunks].
  replace (take (116 * i) data ++ chunk data i) with (take (116 * S i) data)
    by (replace (116 * S i)%nat with (116 * i + 116)%nat by lia; unfold chunk; by rewrite take_take_drop).
  by replace (Z.of_nat i + 1) with (Z.of_nat (S i)) by lia.
Qed.

Lemma schb_step now n c :
  c_bad c = false -> exists f c', schb_frame data = Some f /\
    process_ctr_frame f now n c = Some (next_session_id n, c', SessOk (next_session_id n)) /\ receiving (next_session_id n) 0 c c' now.
Proof.
  intros Hb. pose proof chunk_count_bounds as (Hn1 & Hn2 & Hn3). pose proof (crc32_range data Hdata) as Hcrc. unfold schb_frame, build_frame, PAYLOAD_SIZE.
  rewrite (proj2 (Nat.ltb_ge _ _)) by (rewrite !length_app, !le_bytes_length; lia). eexists _, _. split; [done|].
  dispatch. rewrite Hb. cbn [andb]. unfold _handle_schb. rewrite <- !app_assoc.
  rewrite uint_first by (cbn; lia). rewrite (uint_at "SCHB" 4 8) by (rewrite ?le_bytes_length; cbn; lia).
  assert (0 <= Z.of_nat (chunk_count data) < 256 ^ Z.of_nat 2) by (change (256 ^ Z.of_nat 2) with 65536; lia).
  rewrite (app_assoc (le_bytes 4 _)), (uint_at "SCHB" 2 12) by (rewrite ?length_app, ?le_bytes_length; done).
  unfold SCHB_MAX_BYTES, SCHC_MAX_CHUNK. rewrite (proj2 (Z.ltb_ge _ _)) by lia.
  rewrite (proj2 (Z.eqb_neq _ _)), (proj2 (Z.eqb_neq _ _)), (proj2 (Z.ltb_ge _ _)), (proj2 (Z.ltb_ge _ _)) by lia. done.
Qed.

Lemma sche_step sid c0 c t now n :
  0 <= sid < 65536 -> c_bad c0 = false -> receiving sid (chunk_count data) c0 c t -> now - t <= SCHED_SESSION_IDLE ->
  exists f c', sche_frame sid = Some f /\
    process_ctr_frame f now n c = Some (n, c', match entries_of data with Some k => Loaded data (Z.min 99999 k) | None => Refused "parse_error" end).
Proof.
  intros Hs Hb Hr Ht. pose proof chunk_count_bounds as (Hn1 & _ & _). unfold sche_frame, build_frame, PAYLOAD_SIZE.
  rewrite (proj2 (Nat.ltb_ge _ _)) by (rewrite le_bytes_length; lia). eexists _, _. split; [done|].
  rewrite Hr. dispatch. cbn [c_bad set_session]. rewrite Hb. cbn [andb]. unfold _handle_sche. rewrite uint_first by (cbn; lia).
  unfold _live_session. cbn [c_session set_session sess last_activity]. rewrite Z.eqb_refl. cbn [negb].
  rewrite (proj2 (Z.ltb_ge _ _)) by lia. cbn [buf total_len next_seq nchunks crc]. rewrite (take_ge data) by lia. by rewrite !Z.eqb_refl.
Qed.

Lemma send_frame_eq f l n c r :
  process_ctr_frame f (clock (l_count l)) (l_ids l) (l_conn l) = Some (n, c, r) ->
  send_frame clock (Some f) l = Some (Link (S (l_count l)) n c (l_replies l ++ [r])).
Proof. intros E. unfold send_frame. cbn. by rewrite E. Qed.

(** ** The loops *)

(** [sent] chunks are with the server, [sent - acked] of them unread. *)
Definition pumping (sid : Z) (c0 : conn) (sent acked : nat) (l : link) : Prop :=
  receiving sid sent c0 (l_conn l) (clock (l_count l - 1)) /\ (1 <= l_count l)%nat /\
  l_replies l = map (fun i => ChunkOk (Z.of_nat i)) (seq acked (sent - acked)).

Lemma idle_gap k : (1 <= k)%nat -> clock k - clock (k - 1) <= SCHED_SESSION_IDLE.
Proof. intros Hk. destruct k as [|k]; [lia|]. rewrite Nat.sub_succ, Nat.sub_0_r. apply Hclock. Qed.

Lemma send_chunks_ok sid c0 k : forall sent acked l,
  0 <= sid < 65536 -> c_bad c0 = false -> (acked <= sent)%nat -> (sent + k <= chunk_count data)%nat -> pumping sid c0 sent acked l ->
  exists l', send_chunks sid sent k l = Some l' /\ pumping sid c0 (sent + k) acked l'.
Proof.
  induction k as [|k IH]; intros sent acked l Hs Hb Ha Hk (Hr & Hc & Hq); cbn [send_chunks].
  { exists l. rewrite Nat.add_0_r. done. }
  destruct (schc_step sid sent c0 (l_conn l) _ (clock (l_count l)) (l_ids l) Hs Hb ltac:(lia) Hr (idle_gap _ Hc)) as (f & c' & Ef & Ep & Hr').
  rewrite Ef, (send_frame_eq _ _ _ _ _ Ep). cbn [mbind option_bind].
  destruct (IH (S sent) acked (Link (S (l_count l)) (l_ids l) c' (l_replies l ++ [ChunkOk (Z.of_nat sent)]))) as (l' & El & Hp); [done..|lia|lia| |].
  - split_and!; cbn [l_conn l_count l_replies]; [by rewrite Nat.sub_succ, Nat.sub_0_r|lia|]. rewrite Hq.
    replace (S sent - acked)%nat with (sent - acked + 1)%nat by lia. rewrite seq_app, map_app. cbn. do 4 f_equal. lia.
  - exists l'. split; [done|]. by rewrite <- Nat.add_succ_comm.
Qed.

Context (Hwindow : (0 < window)%nat).

Lemma pump_ok sid c0 fuel : forall sent acked l,
  0 <= sid < 65536 -> c_bad c0 = false -> (acked <= sent <= chunk_count data)%nat -> (sent - acked <= window)%nat ->
  (chunk_count data - acked <= fuel)%nat -> pumping sid c0 sent acked l ->
  exists l', pump fuel sid sent acked l = Some l' /\ pumping sid c0 (chunk_count data) (chunk_count data) l'.
Proof.
  induction fuel as [|fuel IH]; intros sent acked l Hs Hb Ha Hw Hf Hp; cbn [pump].
  { rewrite (proj2 (Nat.ltb_ge _ _)) by lia. exists l. split; [done|]. by replace (chunk_count data) with sent by lia; replace acked with sent in Hp by lia. }
  destruct (Nat.ltb_spec acked (chunk_count data)) as [Hlt|Hge].
  2:{ exists l. split; [done|]. by replace (chunk_count data) with sent by lia; replace acked with sent in Hp by lia. }
  set (k := Nat.min (chunk_count data - sent) (window - (sent - acked))).
  destruct (send_chunks_ok sid c0 k sent acked l Hs Hb ltac:(lia) ltac:(lia) Hp) as (l1 & E1 & (Hr & Hc & Hq)).
  rewrite E1. cbn [mbind option_bind]. unfold read_reply. rewrite Hq.
  replace (sent + k - acked)%nat with (S (sent + k - S acked))%nat by lia. cbn [seq map mbind option_bind].
  apply IH; [done|done|lia|lia|lia|]. by split_and!.
Qed.



End Upload.

End Server.

(** ** Acknowledgements *)
Section Acks.
Context (float_repr : Q -> chars) (applied : option bool) (extra : dict) (fsm : string) (seq_ : Z).

Definition prefix (reason : string) (k : nat) : string := of_chars (take k (to_chars reason)).

(** The inner [_encode]; the text is ASCII, one byte per character. *)
Definition encode (text : string) : chars :=
  dumps float_repr (JObj ([("applied", match applied with Some b => JBool b | None => JNull end); ("reason", JStr text)]
    ++ extra ++ [("fsm", JStr fsm); ("seq", JInt seq_)])).

Definition fits124 (text : string) : bool := (length (encode text) <=? 124)%nat.

(** The loop of the binary search. *)
Fixpoint longest (fuel : nat) (reason : string) (lo hi : nat) : option nat :=
  if (lo <? hi)%nat then
    match fuel with
    | O => None
    | S fuel =>
        let mid := ((lo + hi + 1) / 2)%nat in
        if fits124 (prefix reason mid) then longest fuel reason mid hi else longest fuel reason lo (mid - 1)
    end
  else Some lo.

Definition _ack_payload (fuel : nat) (reason : string) : option chars :=
  if fits124 reason then Some (encode reason)
  else let n := length (to_chars reason) in
       k ← longest fuel reason (Nat.min 6 n) n; Some (encode (prefix reason k)).

(** The bytes around the reason. *)
Definition frame_size : nat := length (encode "").

Lemma encode_length text : length (encode text) = (frame_size + escaped text)%nat.
Proof.
  unfold frame_size, encode. rewrite !dumps_obj_length. cbn [app map]. rewrite !length_cons. cbn [foldr sum].
  unfold field_size at 2 5. cbn [fst snd dumps]. rewrite !length_app. cbn [length]. rewrite !dump_str_length.
  change (escaped "") with 0%nat. lia.
Qed.

Lemma escape_length c : (1 <= length (escape c) <= 6)%nat.
Proof. unfold escape. repeat case_match; cbn; lia. Qed.

Lemma escaped_take l k : (k <= length l)%nat ->
  (k <= escaped (of_chars (take k l)) <= 6 * k)%nat.
Proof.
  unfold escaped. rewrite to_of_chars. revert k. induction l as [|c l IH]; intros [|k] Hk; cbn in *; try lia.
  rewrite length_app. pose proof (escape_length c). specialize (IH k). lia.
Qed.

Lemma escaped_mono l j k : (j <= k)%nat -> (escaped (of_chars (take j l)) <= escaped (of_chars (take k l)))%nat.
Proof.
  unfold escaped. rewrite !to_of_chars. revert j k. induction l as [|c l IH]; intros [|j] [|k] Hk; cbn; try lia.
  rewrite !length_app. specialize (IH j k). lia.
Qed.

Lemma fits_mono reason j k : (j <= k)%nat -> fits124 (prefix reason k) = true -> fits124 (prefix reason j) = true.
Proof.
  intros Hjk H. unfold fits124 in *. rewrite encode_length in *. pose proof (escaped_mono (to_chars reason) j k Hjk). unfold prefix in *.
  apply Nat.leb_le in H. apply Nat.leb_le. lia.
Qed.

Lemma longest_ok reason fuel : forall lo hi,
  (hi - lo <= fuel)%nat -> (lo <= hi)%nat -> fits124 (prefix reason lo) = true ->
  exists k, longest fuel reason lo hi = Some k /\ (lo <= k <= hi)%nat /\ fits124 (prefix reason k) = true /\
    forall j, (k < j <= hi)%nat -> fits124 (prefix reason j) = false.
Proof.
  induction fuel as [|fuel IH]; intros lo hi Hf Hle Hlo; cbn [longest]; destruct (Nat.ltb_spec lo hi) as [Hlt|Hge]; try lia.
  1,3: exists lo; split_and!; [done|lia|lia|done|lia].
  set (mid := ((lo + hi + 1) / 2)%nat). assert (lo < mid <= hi)%nat as Hmid.
  { subst mid. pose proof (Nat.div_mod_eq (lo + hi + 1) 2). pose proof (Nat.mod_upper_bound (lo + hi + 1) 2 ltac:(lia)). lia. }
  clearbody mid. destruct (fits124 (prefix reason mid)) eqn:E.
  - destruct (IH mid hi) as (k & Ek & Hk & Hfit & Hmax); [lia|lia|done|]. exists k. split_and!; [done|lia|lia|done|done].
  - destruct (IH lo (mid - 1)%nat) as (k & Ek & Hk & Hfit & Hmax); [lia|lia|done|]. exists k. split_and!; [done|lia|lia|done|].
    intros j Hj. destruct (decide (j <= mid - 1)%nat) as [Hj1|Hj1]; [apply Hmax; lia|].
    destruct (fits124 (prefix reason j)) eqn:Ej; [|done]. rewrite (fits_mono reason mid j) in E by (done || lia). done.
Qed.

Lemma prefix_all reason : prefix reason (length (to_chars reason)) = reason.
Proof. unfold prefix. by rewrite take_ge, of_to_chars. Qed.

(** The documents the server builds: a state name, a 32-bit sequence number,
    and for some verbs the session's entry count or the approval. *)
Definition fsm_names : list string := ["INIT"; "GAIN_CTR_WAIT"; "GAIN_TUNE"; "IQ_CAL"; "NOISE_CTR_WAIT"].

Definition extra_ok : Prop :=
  extra = [] \/ exists k n, extra = [(k, JInt n)] /\ k ∈ ["entries"; "appr"] /\ 0 <= n <= 99999.

Lemma ack_frame_size : fsm ∈ fsm_names -> 0 <= seq_ < 2 ^ 32 -> extra_ok -> (frame_size <= 88)%nat.
Proof.
  intros Hfsm Hs Hx. assert ((length (to_chars fsm) <= 14)%nat /\ escaped fsm = length (to_chars fsm)) as [Hf He].
  { unfold fsm_names in Hfsm. rewrite !elem_of_cons, elem_of_nil in Hfsm. destruct_or? Hfsm; subst; vm_compute; (split; [lia|done]) || done. }
  pose proof (str_of_int_length seq_ 10 ltac:(cbn; lia) ltac:(lia)) as Hsl.
  unfold frame_size, encode. rewrite dumps_obj_length.
  assert (field_size float_repr ("fsm", JStr fsm) <= 22)%nat as H1
    by (unfold field_size; cbn [fst snd dumps]; rewrite length_app; cbn [length]; rewrite !dump_str_length, He; change (escaped "fsm") with 3%nat; lia).
  assert (field_size float_repr ("seq", JInt seq_) <= 16)%nat as H2
    by (unfold field_size; cbn [fst snd dumps]; rewrite length_app; cbn [length]; rewrite !dump_str_length; change (escaped "seq") with 3%nat; lia).
  assert (field_size float_repr ("applied", match applied with Some b => JBool b | None => JNull end) <= 15)%nat as H3
    by (destruct applied as [[]|]; vm_compute; lia).
  assert (field_size float_repr ("reason", JStr "") = 11)%nat as H4 by reflexivity.
  destruct Hx as [->|(k & n & -> & Hk & Hn)]; cbn [app map foldr sum length]; rewrite H4; [lia|].
  pose proof (str_of_int_length n 5 ltac:(cbn; lia) ltac:(lia)) as Hnl.
  assert (escaped k <= 7)%nat as Hkl by (rewrite !elem_of_cons, elem_of_nil in Hk; destruct_or? Hk; subst; (vm_compute; lia) || done).
  assert (field_size float_repr (k, JInt n) <= 15)%nat as H5
    by (unfold field_size; cbn [fst snd dumps]; rewrite length_app; cbn [length]; rewrite !dump_str_length; lia).
  lia.
Qed.

(** An acknowledgement always fits its frame.  Whatever the
    reason (an exception's message included), for every state name, sequence
    number and extra field the server uses, the search ends and the payload has
    at most the 124 bytes of a reply; it is the acknowledgement of a prefix of
    the reason, and of the longest one that fits. *)
Theorem ack_payload_fits reason :
  fsm ∈ fsm_names -> 0 <= seq_ < 2 ^ 32 -> extra_ok ->
  exists p k, _ack_payload (length (to_chars reason)) reason = Some p /\ p = encode (prefix reason k) /\ (length p <= 124)%nat /\
    (k <= length (to_chars reason))%nat /\
    forall j, (k < j <= length (to_chars reason))%nat -> (124 < length (encode (prefix reason j)))%nat.
Proof.
  intros Hf Hq Hx. pose proof (ack_frame_size Hf Hq Hx) as Hs. unfold _ack_payload. set (n := length (to_chars reason)). destruct (fits124 reason) eqn:E.
  { exists (encode reason), n. unfold n. rewrite prefix_all. apply Nat.leb_le in E. split_and!; [done..|lia]. }
  destruct (longest_ok reason n (Nat.min 6 n) n) as (k & Ek & Hk & Hfit & Hmax); [lia|lia| |].
  { apply Nat.leb_le. rewrite encode_length. pose proof (escaped_take (to_chars reason) (Nat.min 6 n) ltac:(lia)). unfold prefix. lia. }
  exists (encode (prefix reason k)), k. rewrite Ek. apply Nat.leb_le in Hfit. split_and!; [done..|lia|].
  intros j Hj. specialize (Hmax j Hj). unfold fits124 in Hmax. apply Nat.leb_gt in Hmax. lia.
Qed.

End Acks.

(** ** Witnesses *)
Lemma command_roundtrip_witness :
  exists f, _send (gain [77; 496]) = Some f /\ length f = FRAME_SIZE /\
    process_ctr_frame 2 (fun _ => None) f 0 1 (Conn true false None) = Some (1, Conn true false None, Queued "GAIN" [77; 496]).
Proof. eexists. split; [reflexivity|]. apply (command_roundtrip 2 (fun _ => None) (gain [77; 496])); vm_compute; reflexivity. Defined.

(** 300 bytes in three chunks, two of them in flight. *)
Definition ex_doc : bytes := replicate 300 32.


Definition ex_reason : string := of_chars (to_chars "error:" ++ replicate 200 quote).

Lemma ack_payload_fits_witness :
  exists p k, _ack_payload (fun _ => []) (Some false) [] "IQ_CAL" 7 206 ex_reason = Some p /\
    p = encode (fun _ => []) (Some false) [] "IQ_CAL" 7 (prefix ex_reason k) /\ (length p <= 124)%nat /\ (k <= 206)%nat /\
    forall j, (k < j <= 206)%nat -> (124 < length (encode (fun _ => []) (Some false) [] "IQ_CAL" 7 (prefix ex_reason j)))%nat.
Proof.
  apply (ack_payload_fits (fun _ => []) (Some false) [] "IQ_CAL" 7 ex_reason); [unfold fsm_names; set_solver|lia|by left].
Defined.

End Wire.
