(* ===== verification/HwcRelay.v ===== *)
(** * The relay from the hardware controller to the delay synchroniser

    [hwc_relay.py] with its writer in [hw_controller.py] ([_relay_event_handler],
    [_build_hwc_state], [_write_hwc_state], [_relay_tick]) and its readers
    ([HwcStateWatcher], [RecalWatcher]): two processes that share two files.  A
    file is replaced as a whole ([os.replace]), so a reader sees one document or
    the other; a document is a JSON value and the text of the recalibration
    request a list of characters. *)
From S2P Require Import Prelude PyStruct PyText PyJson.
From Stdlib Require Import Ascii.
Open Scope Z_scope.

Module Relay.

(** ** Reading the state document *)

(** [raw]: what the file holds; [None] when it is missing or not JSON. *)
Definition read_hwc_state (raw : option json) : option dict :=
  match raw with
  | Some (JObj d) =>
      match dict_get "v" d, dict_get "epoch" d with
      | Some (JInt v), Some (JStr _) =>
          if v <? 1 then None
          else match dict_get "events" d with None | Some (JArr _) => Some d | _ => None end
      | _, _ => None
      end
  | _ => None
  end.

Definition _event_seq (ev : json) : option Z :=
  match ev with
  | JObj d => match dict_get "seq" d with Some (JInt s) => Some s | _ => None end
  | _ => None
  end.

Definition has_seq (ev : json) : bool := match _event_seq ev with Some _ => true | None => false end.
Definition seq_of (ev : json) : Z := default 0 (_event_seq ev).

Definition epoch_of (d : dict) : option string := match dict_get "epoch" d with Some (JStr e) => Some e | _ => None end.
Definition events_of (d : dict) : list json := match dict_get "events" d with Some (JArr l) => l | _ => [] end.

Definition new_events_since (doc : option dict) (last_epoch : option string) (last_seq : Z) : list json * option string * Z :=
  match doc with
  | None => ([], last_epoch, last_seq)
  | Some d =>
      let events := List.filter has_seq (events_of d) in
      let '(fresh, new_last) :=
        if bool_decide (epoch_of d = last_epoch) then (List.filter (fun ev => last_seq <? seq_of ev) events, last_seq) else (events, -1) in
      (fresh, epoch_of d, foldl (fun n ev => Z.max n (seq_of ev)) new_last fresh)
  end.

(** [hwc_status_view] at time [now]; [age] rounds a difference of times. *)
Definition hwc_status_view (age : json -> json) (doc : option dict) : option dict :=
  match doc with
  | None => None
  | Some d =>
      Some (dict_set "age_sec" (match dict_get "ts" d with Some (JInt z) => age (JInt z) | Some (JFloat f) => age (JFloat f) | _ => JNull end)
              (List.filter (fun kv => negb (bool_decide (kv.1 = "events"))) d))
  end.

Record watcher := Watcher { last_epoch : option string; last_seq : Z; errors : Z }.

(** The constructor: a baseline, nothing reported. *)
Definition watch (raw : option json) : watcher :=
  let '(_, e, n) := new_events_since (read_hwc_state raw) None (-1) in Watcher e n 0.

Definition poll (raw : option json) (w : watcher) : watcher * list json :=
  match read_hwc_state raw with
  | None => (Watcher (last_epoch w) (last_seq w) (errors w + 1), [])
  | Some d =>
      let '(events, e, n) := new_events_since (Some d) (last_epoch w) (last_seq w) in (Watcher e n (errors w), events)
  end.

(** ** Writing it *)

(** The rest of the document: what [_build_hwc_state] takes from the controller. *)
Record snapshot := Snapshot {
  ts : json; pid : Z; fw_version : string; fsm : string; n_pending : Z; noise_source : bool; agc : bool;
  gains_idx : list Z; gains_tenths : list Z; ext_lna : list json; bias_tee : Z; schedule : json; orientation : json;
  frame_age_ms : Z; max_term_seen : Z; cal_stalled : bool }.

Definition _build_hwc_state (epoch : string) (x : snapshot) (events : list json) (seq : Z) : json :=
  JObj [("v", JInt 1); ("epoch", JStr epoch); ("seq", JInt seq); ("ts", ts x); ("pid", JInt (pid x));
        ("fw_version", JStr (fw_version x)); ("fsm", JStr (fsm x)); ("pending", JInt (n_pending x));
        ("noise_source", JInt (if noise_source x then 1 else 0)); ("agc", JInt (if agc x then 1 else 0));
        ("gains_idx", JArr (map JInt (gains_idx x))); ("gains_tenths", JArr (map JInt (gains_tenths x)));
        ("ext_lna_gains_db", JArr (ext_lna x)); ("bias_tee", JInt (bias_tee x)); ("schedule", schedule x);
        ("orientation", orientation x); ("frame_age_ms", JInt (frame_age_ms x)); ("max_term_seen", JInt (max_term_seen x));
        ("cal_stalled", JBool (cal_stalled x)); ("events", JArr events)].

Definition item (seq : Z) (body : dict) : json := JObj (("seq", JInt seq) :: body).

(** [deque(maxlen=32).append] *)
Definition RELAY_EVENTS : nat := 32.
Definition push (l : list json) (x : json) : list json := drop (length l + 1 - RELAY_EVENTS) (l ++ [x]).

(** Where the main loop is in [_relay_tick] and [_write_hwc_state]. *)
Inductive pc := Idle | Due | Copied (events : list json) (seq : Z).

Record writer := Writer {
  epoch : string; relay_events : list json; relay_seq : Z; relay_dirty : bool; frame_cntr : Z; at_ : pc }.

Definition start (e : string) : writer := Writer e [] 0 false 0 Idle.

(** [_relay_event_handler], on the bus thread. *)
Definition _relay_event_handler (body : dict) (w : writer) : writer :=
  Writer (epoch w) (push (relay_events w) (item (relay_seq w) body)) (relay_seq w + 1) true (frame_cntr w) (at_ w).

(** One action of the main loop: the tick with its look at the dirty flag, the
    copy under the lock, the write, which may fail.  The result has what the
    file holds after it. *)
Definition main (x : snapshot) (ok : bool) (w : writer) (file : option json) : writer * option json :=
  match at_ w with
  | Idle =>
      if (5 <=? frame_cntr w + 1) || relay_dirty w
      then (Writer (epoch w) (relay_events w) (relay_seq w) (relay_dirty w) 0 Due, file)
      else (Writer (epoch w) (relay_events w) (relay_seq w) (relay_dirty w) (frame_cntr w + 1) Idle, file)
  | Due => (Writer (epoch w) (relay_events w) (relay_seq w) false (frame_cntr w) (Copied (relay_events w) (relay_seq w)), file)
  | Copied evs n =>
      (Writer (epoch w) (relay_events w) (relay_seq w) (relay_dirty w) (frame_cntr w) Idle,
       if ok then Some (_build_hwc_state (epoch w) x evs n) else file)
  end.

(** ** Both processes *)

(** [hist]: all that was emitted under an epoch; [used]: the epochs so far;
    [log]: what this reader has reported. *)
Record sys := Sys {
  wr : writer; file : option json; rd : watcher;
  hist : string -> list json; used : list string; log : list (string * json) }.

Inductive event := Emit (body : dict) | Main (x : snapshot) (ok : bool) | Poll (readable : bool) | Restart (e : string).

Definition reported (x : string) (s : sys) : list json := (List.filter (fun p => bool_decide (p.1 = x)) (log s)).*2.

Definition step (ev : event) (s : sys) : option sys :=
  match ev with
  | Emit body =>
      let e := epoch (wr s) in
      Some (Sys (_relay_event_handler body (wr s)) (file s) (rd s)
              (fun x => if bool_decide (x = e) then hist s e ++ [item (relay_seq (wr s)) body] else hist s x) (used s) (log s))
  | Main x ok => let '(w, f) := main x ok (wr s) (file s) in Some (Sys w f (rd s) (hist s) (used s) (log s))
  | Poll readable =>
      let '(w, evs) := poll (if readable then file s else None) (rd s) in
      Some (Sys (wr s) (file s) w (hist s) (used s) (log s ++ map (fun ev => (default "" (last_epoch w), ev)) evs))
  | Restart e =>
      if bool_decide (e ∈ used s) then None
      else Some (Sys (start e) (file s) (rd s) (hist s) (used s ++ [e]) (log s))
  end.

Fixpoint run (es : list event) (s : sys) : option sys :=
  match es with [] => Some s | e :: es => s1 ← step e s; run es s1 end.

(** The first start: whatever an earlier run left in the file. *)
Definition leftover_epoch (raw : option json) : list string :=
  match read_hwc_state raw with Some d => option_list (epoch_of d) | None => [] end.

Definition boot (raw : option json) (e : string) : option sys :=
  if bool_decide (e ∈ leftover_epoch raw) then None
  else Some (Sys (start e) raw (watch raw) (fun _ => []) (leftover_epoch raw ++ [e]) []).

(** A new reader beside a running or a starting controller. *)
Definition new_reader (s : sys) : sys := Sys (wr s) (file s) (watch (file s)) (hist s) (used s) [].

(** ** Numbered lists *)
Definition consec (a : Z) (l : list json) : Prop := forall i it, l !! i = Some it -> _event_seq it = Some (a + Z.of_nat i).

Lemma consec_cons a x l : consec a (x :: l) <-> _event_seq x = Some a /\ consec (a + 1) l.
Proof.
  split.
  - intros H. split; [by rewrite (H 0%nat x eq_refl), Z.add_0_r|]. intros i it Hi. rewrite (H (S i) it Hi). f_equal. lia.
  - intros [Hx Hl] [|i] it Hi; cbn in Hi; [injection Hi as <-; by rewrite Z.add_0_r|]. rewrite (Hl i it Hi). f_equal. lia.
Qed.

Lemma consec_drop a l n : (n <= length l)%nat -> consec a l -> consec (a + Z.of_nat n) (drop n l).
Proof. intros Hn H i it Hi. rewrite lookup_drop in Hi. rewrite (H _ _ Hi). f_equal. lia. Qed.

Lemma consec_take a l n : consec a l -> consec a (take n l).
Proof. intros H i it Hi. apply lookup_take_Some in Hi as [Hi _]. by apply H. Qed.

Lemma consec_has_seq a l : consec a l -> List.filter has_seq l = l.
Proof.
  revert a. induction l as [|x l IH]; intros a H; [done|]. apply consec_cons in H as [Hx Hl]. cbn. unfold has_seq at 1. rewrite Hx. by rewrite (IH _ Hl).
Qed.

Lemma consec_filter a l n : consec a l -> List.filter (fun ev => n <? seq_of ev) l = drop (Z.to_nat (n + 1 - a)) l.
Proof.
  revert a. induction l as [|x l IH]; intros a H; [by rewrite drop_nil|]. apply consec_cons in H as [Hx Hl]. cbn [List.filter].
  replace (seq_of x) with a by (unfold seq_of; by rewrite Hx). rewrite (IH _ Hl). destruct (Z.ltb_spec n a).
  - replace (Z.to_nat (n + 1 - a)) with 0%nat by lia. replace (Z.to_nat (n + 1 - (a + 1))) with 0%nat by lia. by rewrite !drop_0.
  - replace (Z.to_nat (n + 1 - a)) with (S (Z.to_nat (n + 1 - (a + 1)))) by lia. done.
Qed.

Lemma consec_max a l n : consec a l -> n < a -> foldl (fun n ev => Z.max n (seq_of ev)) n l = if decide (l = []) then n else a + Z.of_nat (length l) - 1.
Proof.
  revert a n. induction l as [|x l IH]; intros a n H Hn; [done|]. apply consec_cons in H as [Hx Hl]. cbn [foldl].
  replace (Z.max n (seq_of x)) with a by (unfold seq_of; rewrite Hx; cbn; lia). rewrite (IH (a + 1) a Hl) by lia.
  rewrite (decide_False (P := x :: l = [])) by done. cbn [length]. destruct (decide (l = [])) as [->|]; cbn; lia.
Qed.

(** The last 32 of the first [k]. *)
Definition window (h : list json) (k : nat) : list json := drop (k - RELAY_EVENTS) (take k h).

Lemma window_push h x : push (window h (length h)) x = window (h ++ [x]) (length (h ++ [x])).
Proof.
  unfold push, window. rewrite !take_ge by (rewrite ?length_app; lia). rewrite length_drop, length_app. cbn [length].
  set (n := length h). destruct (decide (n < RELAY_EVENTS)%nat) as [H|H].
  - replace (n - RELAY_EVENTS)%nat with 0%nat by lia. replace (n + 1 - RELAY_EVENTS)%nat with 0%nat by lia.
    replace (n - 0 + 1 - RELAY_EVENTS)%nat with 0%nat by lia. by rewrite !drop_0.
  - replace (n - (n - RELAY_EVENTS) + 1 - RELAY_EVENTS)%nat with 1%nat by lia.
    rewrite <- drop_app_le by lia. rewrite drop_drop. f_equal. lia.
Qed.

(** The new events of a document of epoch [x] that holds the first [k] events. *)
Lemma window_new h k l : consec 0 h -> (k <= length h)%nat -> 0 <= l + 1 <= Z.of_nat k ->
  let fresh := List.filter (fun ev => l <? seq_of ev) (List.filter has_seq (window h k)) in
  fresh = drop (Nat.max (k - RELAY_EVENTS) (Z.to_nat (l + 1))) (take k h) /\
  foldl (fun n ev => Z.max n (seq_of ev)) l fresh = Z.of_nat k - 1.
Proof.
  intros Hc Hk Hl. cbv zeta. assert (consec (Z.of_nat (k - RELAY_EVENTS)) (window h k)) as Hw.
  { apply (consec_drop 0); [rewrite length_take; lia|by apply consec_take]. }
  rewrite (consec_has_seq _ _ Hw), (consec_filter _ _ _ Hw). unfold window. rewrite drop_drop.
  replace (k - RELAY_EVENTS + Z.to_nat (l + 1 - Z.of_nat (k - RELAY_EVENTS)))%nat with (Nat.max (k - RELAY_EVENTS) (Z.to_nat (l + 1))) by lia.
  split; [done|]. set (m := Nat.max _ _). assert (m <= k)%nat by (unfold m, RELAY_EVENTS in *; lia).
  rewrite (consec_max (Z.of_nat m)) by (try (apply (consec_drop 0); [rewrite length_take; lia|by apply consec_take]); lia).
  assert (length (drop m (take k h)) = k - m)%nat as Hlen by (rewrite length_drop, length_take; lia).
  destruct (decide (drop m (take k h) = [])) as [E|E].
  - rewrite E in Hlen. cbn in Hlen. unfold m, RELAY_EVENTS in *. lia.
  - rewrite Hlen. destruct (drop m (take k h)); [done|]. cbn in Hlen. lia.
Qed.

Lemma window_first h k : consec 0 h -> (k <= length h)%nat ->
  List.filter has_seq (window h k) = window h k /\ foldl (fun n ev => Z.max n (seq_of ev)) (-1) (window h k) = Z.of_nat k - 1.
Proof.
  intros Hc Hk. assert (consec (Z.of_nat (k - RELAY_EVENTS)) (window h k)) as Hw.
  { apply (consec_drop 0); [rewrite length_take; lia|by apply consec_take]. }
  destruct (window_new h k (-1) Hc Hk ltac:(lia)) as [_ E2]. cbv zeta in E2.
  rewrite (consec_has_seq _ _ Hw), (consec_filter _ _ _ Hw) in E2. replace (Z.to_nat _) with 0%nat in E2 by lia. rewrite drop_0 in E2.
  split; [by apply (consec_has_seq _ _ Hw)|done].
Qed.

(** ** The invariant *)
Definition doc_is (s : sys) (x : string) (k : nat) : Prop :=
  (k <= length (hist s x))%nat /\ exists v, file s = Some (_build_hwc_state x v (window (hist s x) k) (Z.of_nat k)).

(** What an earlier run left, already seen by this reader. *)
Definition leftover (s : sys) : Prop :=
  match read_hwc_state (file s) with
  | None => last_epoch (rd s) = None
  | Some d => exists x, epoch_of d = Some x /\ x ∈ used s /\ x <> epoch (wr s) /\ hist s x = [] /\ last_epoch (rd s) = Some x /\
                Forall (fun ev => has_seq ev = true -> seq_of ev <= last_seq (rd s)) (events_of d)
  end.

Definition seen (s : sys) : nat := Z.to_nat (last_seq (rd s) + 1).

Record inv (s : sys) : Prop := {
  inv_items : forall x, consec 0 (hist s x);
  inv_deque : relay_events (wr s) = window (hist s (epoch (wr s))) (length (hist s (epoch (wr s))));
  inv_seq : relay_seq (wr s) = Z.of_nat (length (hist s (epoch (wr s)))) /\ 0 <= frame_cntr (wr s);
  inv_used : epoch (wr s) ∈ used s /\ forall x, x ∉ used s -> hist s x = [];
  inv_pc : match at_ (wr s) with
           | Copied evs n => exists k, (k <= length (hist s (epoch (wr s))))%nat /\ evs = window (hist s (epoch (wr s))) k /\ n = Z.of_nat k /\
                               forall k', doc_is s (epoch (wr s)) k' -> (k' <= k)%nat
           | _ => True
           end;
  inv_file : leftover s \/ exists x k, x ∈ used s /\ doc_is s x k;
  inv_rd : match last_epoch (rd s) with
           | None => last_seq (rd s) = -1 /\ log s = []
           | Some y => y ∈ used s /\ (forall k, doc_is s y k -> 0 <= last_seq (rd s) + 1 <= Z.of_nat k) /\
                       reported y s `sublist_of` take (seen s) (hist s y) /\ (y = epoch (wr s) -> exists k, doc_is s y k)
           end;
  inv_fresh : forall x, last_epoch (rd s) <> Some x -> x = epoch (wr s) \/ (exists k, doc_is s x k) -> reported x s = [];
  inv_log : forall p, p ∈ log s -> p.1 ∈ used s;
  inv_sub : forall x, reported x s `sublist_of` hist s x }.

Lemma read_doc x v evs n : read_hwc_state (Some (_build_hwc_state x v evs n)) =
  Some (match _build_hwc_state x v evs n with JObj d => d | _ => [] end).
Proof. reflexivity. Qed.

Lemma doc_is_inj s x k x' k' : doc_is s x k -> doc_is s x' k' -> x = x' /\ k = k'.
Proof. intros [_ [v E]] [_ [v' E']]. rewrite E in E'. injection E'. intros. split; [done|lia]. Qed.

(** Polling a document of the writer. *)
Lemma poll_doc s x k :
  inv s -> doc_is s x k ->
  let b := if decide (last_epoch (rd s) = Some x) then seen s else 0%nat in
  (b <= k)%nat /\
  poll (file s) (rd s) = (Watcher (Some x) (Z.of_nat k - 1) (errors (rd s)), drop (Nat.max (k - RELAY_EVENTS) b) (take k (hist s x))).
Proof.
  intros H Hd. pose proof Hd as [Hk [v E]]. unfold poll. rewrite E, read_doc. unfold new_events_since.
  change (events_of _) with (window (hist s x) k). change (epoch_of _) with (Some x).
  pose proof (inv_items _ H x) as Hc. cbv zeta. destruct (decide (last_epoch (rd s) = Some x)) as [Ex|Ex].
  - pose proof (inv_rd _ H) as Hr. rewrite Ex in Hr. destruct Hr as (_ & Hle & _). specialize (Hle k Hd).
    rewrite Ex, bool_decide_true by done. destruct (window_new (hist s x) k (last_seq (rd s)) Hc Hk Hle) as [E1 E2].
    cbv zeta in E1, E2. rewrite E2, E1. unfold seen. split; [lia|done].
  - rewrite bool_decide_false by congruence. destruct (window_first (hist s x) k Hc Hk) as [-> ->].
    split; [lia|]. by rewrite Nat.max_0_r.
Qed.

(** ** Every event keeps it *)
Lemma reported_app x l k s : log s = l ++ k ->
  reported x s = (List.filter (fun p => bool_decide (p.1 = x)) l).*2 ++ (List.filter (fun p => bool_decide (p.1 = x)) k).*2.
Proof. intros E. unfold reported. rewrite E, List.filter_app. apply fmap_app. Qed.

Lemma filter_tagged (x y : string) (evs : list json) :
  (List.filter (fun p => bool_decide (p.1 = y)) (map (fun ev => (x, ev)) evs)).*2 = if decide (x = y) then evs else [].
Proof.
  induction evs as [|ev evs IH]; cbn; [by destruct (decide (x = y))|]. destruct (decide (x = y)) as [->|Hne].
  - rewrite bool_decide_true by done. cbn. by rewrite IH.
  - by rewrite bool_decide_false.
Qed.

Lemma slice_sublist (h : list json) b m k : (b <= m)%nat -> (b <= k)%nat -> take b h ++ drop m (take k h) `sublist_of` take k h.
Proof.
  intros Hbm Hbk. rewrite <- (take_drop b (take k h)) at 2. rewrite take_take. replace (b `min` k)%nat with b by lia.
  apply sublist_app; [done|]. replace m with (b + (m - b))%nat by lia. rewrite <- drop_drop. apply sublist_drop.
Qed.

Lemma poll_leftover s : leftover s -> exists w, poll (file s) (rd s) = (w, []) /\ last_epoch w = last_epoch (rd s) /\ last_seq w = last_seq (rd s).
Proof.
  intros Hl. unfold leftover in Hl. unfold poll. destruct (read_hwc_state (file s)) as [d|]; [|by eexists].
  destruct Hl as (x & Ed & _ & _ & _ & El & Hall). unfold new_events_since. rewrite Ed, El, bool_decide_true by done.
  assert (List.filter (fun ev => last_seq (rd s) <? seq_of ev) (List.filter has_seq (events_of d)) = []) as ->; [|by eexists].
  clear -Hall. induction Hall as [|ev l Hev Hl IH]; [done|]. cbn [List.filter]. destruct (has_seq ev); [|done]. cbn [List.filter].
  rewrite (proj2 (Z.ltb_ge _ _)) by auto. done.
Qed.

Lemma relay_poll_inv r s s' : inv s -> step (Poll r) s = Some s' -> inv s'.
Proof.
  intros H. cbn [step]. assert (forall w, last_epoch w = last_epoch (rd s) -> last_seq w = last_seq (rd s) ->
    inv (Sys (wr s) (file s) w (hist s) (used s) (log s ++ []))) as Hsame.
  { intros w E1 E2. rewrite app_nil_r. destruct H. constructor; unfold leftover, seen, reported, doc_is in *; cbn in *; rewrite ?E1, ?E2; done. }
  destruct r; [|intros [= <-]; by apply Hsame].
  destruct (inv_file _ H) as [Hl|(x & k & Hx & Hd)].
  - destruct (poll_leftover s Hl) as (w & -> & E1 & E2). intros [= <-]. by apply Hsame.
  - destruct (poll_doc s x k H Hd) as [Hb E]. rewrite E. intros [= <-]. cbn [last_epoch default].
    set (b := if decide _ then _ else _) in *. set (fresh := drop _ _).
    set (s' := Sys _ _ _ _ _ _). assert (forall y, reported y s' = reported y s ++ (if decide (x = y) then fresh else [])) as Hrep.
    { intros y. rewrite (reported_app y (log s) (map (fun ev => (x, ev)) fresh) s') by done. by rewrite filter_tagged. }
    assert (reported x s `sublist_of` take b (hist s x)) as Hsub.
    { subst b. destruct (decide (last_epoch (rd s) = Some x)) as [Ex|Ex].
      - pose proof (inv_rd _ H) as Hr. rewrite Ex in Hr. apply Hr.
      - rewrite (inv_fresh _ H x Ex) by eauto. apply sublist_nil_l. }
    assert (reported x s' `sublist_of` take k (hist s x)) as Hsub'.
    { rewrite Hrep, decide_True by done. etrans; [by apply sublist_app|]. apply slice_sublist; lia. }
    destruct H as [H1 H2 H3 H4 H5 H6 H7 H8 H9 H10]. constructor; try done.
    + right. by exists x, k.
    + cbn. split_and!; [done| | |by eauto].
      * intros k' Hk'. destruct (doc_is_inj _ _ _ _ _ Hd Hk') as [_ <-]. lia.
      * unfold seen. cbn. by replace (Z.to_nat (Z.of_nat k - 1 + 1)) with k by lia.
    + intros y Hy Hor. cbn in Hy, Hor. assert (x <> y) by congruence. rewrite Hrep, decide_False by done. rewrite app_nil_r.
      apply H8; [|by destruct Hor; auto]. intros Ey. rewrite Ey in H7. destruct H7 as (_ & _ & _ & Hex).
      destruct Hor as [->|[k' Hk']]; [destruct (Hex eq_refl) as [k' Hk']|]; destruct (doc_is_inj _ _ _ _ _ Hd Hk'); done.
    + intros p. cbn. rewrite elem_of_app. intros [Hp|Hp]; [by apply H9|]. apply list_elem_of_fmap in Hp as (ev & -> & _). done.
    + intros y. destruct (decide (x = y)) as [<-|Hne]; [etrans; [exact Hsub'|apply sublist_take]|]. rewrite Hrep, decide_False by done. by rewrite app_nil_r.
Qed.

Lemma relay_restart_inv e s s' : inv s -> step (Restart e) s = Some s' -> inv s'.
Proof.
  intros [H1 H2 H3 H4 H5 H6 H7 H8 H9 H10]. cbn [step]. destruct (decide (e ∈ used s)) as [|Hf]; [by rewrite bool_decide_true|].
  rewrite bool_decide_false by done. intros [= <-]. pose proof (proj2 H4 e Hf) as He.
  constructor; cbn; rewrite ?He; try done.
  - split; [set_solver|]. intros x Hx. apply H4. set_solver.
  - destruct H6 as [Hl|(x & k & Hx & Hd)]; [left|right; exists x, k; split; [set_solver|done]].
    unfold leftover in *. cbn. destruct (read_hwc_state (file s)); [|done]. destruct Hl as (x & ? & Hx & ? & ? & ? & ?).
    exists x. split_and!; [done|set_solver| |done..]. intros ->. done.
  - destruct (last_epoch (rd s)) as [y|]; [|done]. destruct H7 as (Hy & ? & ? & ?). split_and!; [set_solver|done..|]. intros ->. done.
  - intros x Hx [->|Hd]; [|by apply H8; auto]. unfold reported. cbn. assert (List.filter (fun p => bool_decide (p.1 = e)) (log s) = []) as ->; [|done].
    assert (forall p, p ∈ log s -> p.1 ≠ e) as Hne by (intros p Hp <-; by apply Hf, H9). clear -Hne.
    induction (log s) as [|p l IH]; [done|]. cbn. rewrite bool_decide_false by (apply Hne; set_solver). apply IH. set_solver.
  - intros p Hp. set_solver.
Qed.

Lemma window_app h x k : (k <= length h)%nat -> window (h ++ [x]) k = window h k.
Proof. intros Hk. unfold window. by rewrite take_app_le. Qed.

Definition emitted (body : dict) (s : sys) : sys :=
  let e := epoch (wr s) in
  Sys (_relay_event_handler body (wr s)) (file s) (rd s)
    (fun x => if bool_decide (x = e) then hist s e ++ [item (relay_seq (wr s)) body] else hist s x) (used s) (log s).

Lemma emitted_hist body s : hist (emitted body s) (epoch (wr s)) = hist s (epoch (wr s)) ++ [item (relay_seq (wr s)) body].
Proof. cbn. by rewrite bool_decide_true. Qed.

Lemma emitted_other body s x : x <> epoch (wr s) -> hist (emitted body s) x = hist s x.
Proof. intros Hx. cbn. by rewrite bool_decide_false. Qed.

Lemma emitted_doc body s x k : inv s -> doc_is (emitted body s) x k <-> doc_is s x k.
Proof.
  intros H. pose proof (emitted_hist body s) as He. destruct (decide (x = epoch (wr s))) as [->|Hx]; [|unfold doc_is; by rewrite emitted_other].
  unfold doc_is. rewrite He, length_app. cbn [length]. split.
  - intros [Hk [v E]]. destruct (inv_file _ H) as [Hl|(x & k' & _ & Hd)].
    + unfold leftover in Hl. cbn in E. rewrite E in Hl. destruct Hl as (x & [= <-] & _ & Hx & _). done.
    + destruct Hd as [Hk' [v' E']]. cbn in E. pose proof E as E2. rewrite E' in E2. injection E2. intros Hkk _ _. intros. assert (k' = k) as -> by lia.
      split; [by subst x|]. exists v. rewrite E. by rewrite window_app by (by subst x).
  - intros [Hk [v E]]. split; [lia|]. exists v. cbn. by rewrite E, window_app.
Qed.

Lemma relay_emit_inv body s s' : inv s -> step (Emit body) s = Some s' -> inv s'.
Proof.
  intros H [= <-]. fold (emitted body s). pose proof (fun x k => emitted_doc body s x k H) as Hdoc. pose proof (emitted_hist body s) as He.
  pose proof (emitted_other body s) as Hne. destruct H as [H1 H2 [H3 Hcn] H4 H5 H6 H7 H8 H9 H10].
  set (e := epoch (wr s)) in *. set (it := item (relay_seq (wr s)) body) in *. set (s' := emitted body s) in *.
  assert (forall x, hist s x `sublist_of` hist s' x) as Hmono.
  { intros x. destruct (decide (x = e)) as [->|Hx]; [rewrite He; by apply sublist_inserts_r|by rewrite Hne]. }
  constructor.
  - intros x. destruct (decide (x = e)) as [->|Hx]; [|by rewrite Hne]. rewrite He. intros i y Hi.
    apply lookup_app_Some in Hi as [Hi|[Hge Hi]]; [exact (H1 e i y Hi)|]. apply list_lookup_singleton_Some in Hi as [Hi0 <-].
    cbn. f_equal. unfold e in *. lia.
  - change (epoch (wr s')) with e. rewrite He. cbn. rewrite H2. apply window_push.
  - change (epoch (wr s')) with e. rewrite He, length_app. cbn. unfold e in *. split; [lia|done].
  - change (epoch (wr s')) with e. split; [apply H4|]. intros x Hx. rewrite Hne by (intros ->; by apply Hx, H4). by apply H4.
  - change (epoch (wr s')) with e. change (at_ (wr s')) with (at_ (wr s)). destruct (at_ (wr s)) as [| |evs n]; try done.
    destruct H5 as (k & Hk & -> & -> & Hle). exists k. rewrite He, length_app, window_app by done. split_and!; [lia|done|done|].
    intros k' Hk'. apply Hle. by apply Hdoc.
  - destruct H6 as [Hl|(x & k & Hx & Hd)]; [left|right; exists x, k; split; [done|by apply Hdoc]].
    unfold leftover in *. cbn. destruct (read_hwc_state (file s)); [|done]. destruct Hl as (x & ? & ? & Hx & Hh & ? & ?).
    exists x. split_and!; try done. by rewrite bool_decide_false.
  - change (last_epoch (rd s')) with (last_epoch (rd s)). destruct (last_epoch (rd s)) as [y|]; [|done]. destruct H7 as (Hy & Hk & Hs & Hw).
    split_and!; [done| | |].
    + intros k Hd. apply Hk. by apply Hdoc.
    + etrans; [exact Hs|]. change (seen s') with (seen s). destruct (decide (y = e)) as [->|Hx]; [|by rewrite Hne].
      rewrite He, take_app. by apply sublist_inserts_r.
    + intros Ey. destruct (Hw Ey) as [k Hd]. exists k. by apply Hdoc.
  - intros x Hx Hor. apply (H8 x Hx). destruct Hor as [|[k Hd]]; [by left|right]. exists k. by apply Hdoc.
  - done.
  - intros x. etrans; [apply H10|apply Hmono].
Qed.

Lemma relay_main_inv x ok s s' : inv s -> step (Main x ok) s = Some s' -> inv s'.
Proof.
  intros [H1 H2 [H3 Hcn] H4 H5 H6 H7 H8 H9 H10]. cbn [step]. unfold main. destruct (at_ (wr s)) as [| |evs n].
  - destruct (_ || _); intros [= <-]; constructor; try done; cbn; (split; [done|lia]).
  - intros [= <-]. constructor; try done. cbn. exists (length (hist s (epoch (wr s)))). split_and!; [done..|]. intros k' [Hk' _]. exact Hk'.
  - destruct H5 as (k & Hk & -> & -> & Hle). destruct ok; intros [= <-]; [|by constructor]. set (e := epoch (wr s)) in *. set (s' := Sys _ _ _ _ _ _).
    assert (doc_is s' e k) as Hd by (split; [done|by exists x]). constructor; try done.
    + right. exists e, k. split; [apply H4|done].
    + change (last_epoch (rd s')) with (last_epoch (rd s)). destruct (last_epoch (rd s)) as [y|]; [|done]. destruct H7 as (Hy & Hkk & Hs & Hw).
      split_and!; [done| |done|].
      * intros k' Hd'. destruct (doc_is_inj _ _ _ _ _ Hd Hd') as [<- <-]. destruct (Hw eq_refl) as [k0 Hd0]. specialize (Hkk k0 Hd0). specialize (Hle k0 Hd0). cbn. lia.
      * cbn. intros ->. by exists k.
    + intros y Hy Hor. apply (H8 y Hy). destruct Hor as [|[k' Hd']]; [by left|]. destruct (doc_is_inj _ _ _ _ _ Hd Hd') as [<- _]. by left.
Qed.

Lemma relay_step_inv ev s s' : inv s -> step ev s = Some s' -> inv s'.
Proof. destruct ev; eauto using relay_emit_inv, relay_main_inv, relay_poll_inv, relay_restart_inv. Qed.

Lemma relay_run_inv es s s' : inv s -> run es s = Some s' -> inv s'.
Proof.
  revert s. induction es as [|e es IH]; intros s H; cbn; [by intros [= <-]|]. destruct (step e s) as [s1|] eqn:E; [|done].
  apply IH. by eapply relay_step_inv.
Qed.

(** ** A reader starts *)
Lemma max_ge l n : n <= foldl (fun n ev => Z.max n (seq_of ev)) n l /\ Forall (fun ev => seq_of ev <= foldl (fun n ev => Z.max n (seq_of ev)) n l) l.
Proof.
  revert n. induction l as [|x l IH]; intros n; cbn; [split; [lia|constructor]|]. destruct (IH (Z.max n (seq_of x))) as [Hm Hl].
  split; [lia|]. constructor; [lia|done].
Qed.

Lemma watch_doc s x k : consec 0 (hist s x) -> doc_is s x k -> watch (file s) = Watcher (Some x) (Z.of_nat k - 1) 0.
Proof.
  intros Hc [Hk [v E]]. unfold watch. rewrite E, read_doc. unfold new_events_since. change (events_of _) with (window (hist s x) k).
  change (epoch_of _) with (Some x). rewrite bool_decide_false by done.
  by destruct (window_first (hist s x) k Hc Hk) as [-> ->].
Qed.

Record writing (s : sys) : Prop := {
  wr_items : forall x, consec 0 (hist s x);
  wr_deque : relay_events (wr s) = window (hist s (epoch (wr s))) (length (hist s (epoch (wr s))));
  wr_seq : relay_seq (wr s) = Z.of_nat (length (hist s (epoch (wr s)))) /\ 0 <= frame_cntr (wr s);
  wr_used : epoch (wr s) ∈ used s /\ forall x, x ∉ used s -> hist s x = [];
  wr_pc : match at_ (wr s) with
           | Copied evs n => exists k, (k <= length (hist s (epoch (wr s))))%nat /\ evs = window (hist s (epoch (wr s))) k /\ n = Z.of_nat k /\
                               forall k', doc_is s (epoch (wr s)) k' -> (k' <= k)%nat
           | _ => True
           end;
  wr_file : match read_hwc_state (file s) with
            | None => True
            | Some d => exists x, epoch_of d = Some x /\ x ∈ used s /\ ((x <> epoch (wr s) /\ hist s x = []) \/ exists k, doc_is s x k)
            end }.

Lemma inv_writing s : inv s -> writing s.
Proof.
  intros [H1 H2 H3 H4 H5 H6 H7 H8 H9 H10]. constructor; try done. destruct H6 as [Hl|(x & k & Hx & Hd)].
  - unfold leftover in Hl. destruct (read_hwc_state (file s)); [|done]. destruct Hl as (x & ? & ? & ? & ? & ? & ?). exists x. auto.
  - pose proof Hd as [_ [v E]]. rewrite E, read_doc. exists x. split_and!; [done..|]. eauto.
Qed.

Lemma new_reader_inv s : writing s -> inv (new_reader s).
Proof.
  intros [H1 H2 H3 H4 H5 H6]. destruct (read_hwc_state (file s)) as [d|] eqn:Er.
  2:{ assert (watch (file s) = Watcher None (-1) 0) as Ew by (unfold watch; by rewrite Er).
      constructor; cbn; try done; rewrite ?Ew; try done; [|intros p; by intros ?%elem_of_nil|intros x; apply sublist_nil_l].
      left. unfold leftover. cbn. by rewrite Er, Ew. }
  destruct H6 as (x & Ed & Hx & Hor).
  assert (exists n, watch (file s) = Watcher (Some x) n 0 /\ Forall (fun ev => has_seq ev = true -> seq_of ev <= n) (events_of d) /\
    forall k, doc_is s x k -> n = Z.of_nat k - 1) as (n & Ew & Hn & Hk).
  { unfold watch. rewrite Er. unfold new_events_since. rewrite Ed, bool_decide_false by done.
    eexists. split; [done|]. set (l := List.filter has_seq (events_of d)). split.
    - destruct (max_ge l (-1)) as [_ Hl]. apply list.Forall_forall. intros ev Hev Hs. rewrite list.Forall_forall in Hl. apply Hl.
      apply list_elem_of_In, filter_In. split; [by apply list_elem_of_In|done].
    - intros k Hd. pose proof (watch_doc s x k (H1 x) Hd) as Ew. unfold watch in Ew. rewrite Er in Ew. unfold new_events_since in Ew.
      rewrite Ed, bool_decide_false in Ew by done. by injection Ew. }
  constructor; cbn; try done; rewrite ?Ew; cbn.
  - destruct Hor as [[Hxe Hh]|[k Hd]]; [left|right; by exists x, k]. unfold leftover. cbn. rewrite Er, Ew. by exists x.
  - split_and!; [done| |apply sublist_nil_l|].
    + intros k Hd. rewrite (Hk k Hd). lia.
    + intros ->. destruct Hor as [[? _]|]; done.
  - intros p. by intros ?%elem_of_nil.
  - intros y. apply sublist_nil_l.
Qed.

Lemma relay_boot_inv raw e s : boot raw e = Some s -> inv s.
Proof.
  unfold boot. destruct (decide (e ∈ leftover_epoch raw)) as [|Hf]; [by rewrite bool_decide_true|]. rewrite bool_decide_false by done.
  intros [= <-]. apply (new_reader_inv (Sys (start e) raw (watch raw) (fun _ => []) (leftover_epoch raw ++ [e]) [])).
  constructor; cbn; try done.
  - split; [set_solver|done].
  - destruct (read_hwc_state raw) as [d|] eqn:Er; [|done]. unfold leftover_epoch in *. rewrite Er in *.
    assert (exists x, epoch_of d = Some x) as [x Ex].
    { unfold read_hwc_state in Er. destruct raw as [[]|]; try done. unfold epoch_of. repeat case_match; simplify_eq; eauto. }
    rewrite Ex in *. cbn in *. exists x. split_and!; [done|set_solver|]. left. split; [set_solver|done].
Qed.

(** ** What the reader has reported *)

(** At each poll the document is at most 32 events ahead of the reader. *)
Definition in_step (s : sys) : bool :=
  match read_hwc_state (file s) with
  | None => true
  | Some d =>
      match dict_get "seq" d with
      | Some (JInt n) => n - (if bool_decide (epoch_of d = last_epoch (rd s)) then last_seq (rd s) + 1 else 0) <=? 32
      | _ => true
      end
  end.

Fixpoint lossless (es : list event) (s : sys) : bool :=
  match es with
  | [] => true
  | e :: es => match e with Poll true => in_step s | _ => true end && match step e s with Some s1 => lossless es s1 | None => true end
  end.

(** From where on this reader reports the events of an epoch: after its
    baseline, or all of them. *)
Definition base (w : watcher) (x : string) : nat := if bool_decide (last_epoch w = Some x) then Z.to_nat (last_seq w + 1) else 0%nat.

(** Complete so far: nothing between the baseline and the reader's position is
    missing. *)
Definition complete (b : string -> nat) (s : sys) : Prop :=
  (forall x, last_epoch (rd s) = Some x -> (exists k, doc_is s x k) -> reported x s = drop (b x) (take (seen s) (hist s x)) /\ (b x <= seen s)%nat) /\
  (forall x, last_epoch (rd s) <> Some x -> x = epoch (wr s) \/ (exists k, doc_is s x k) \/ x ∉ used s -> b x = 0%nat).

Lemma emit_complete b body s s' : inv s -> complete b s -> step (Emit body) s = Some s' -> complete b s'.
Proof.
  intros H [Hc1 Hc2] [= <-]. fold (emitted body s). pose proof (fun x k => emitted_doc body s x k H) as Hdoc. split.
  - intros x Hx [k Hd]. apply Hdoc in Hd. destruct (Hc1 x Hx (ex_intro _ k Hd)) as [Hr Hb]. split; [|done].
    change (reported x (emitted body s)) with (reported x s). rewrite Hr. change (seen (emitted body s)) with (seen s). f_equal.
    destruct (decide (x = epoch (wr s))) as [->|Hne]; [|by rewrite emitted_other]. rewrite emitted_hist, take_app_le; [done|].
    pose proof (inv_rd _ H) as Hrd. change (last_epoch (rd (emitted body s))) with (last_epoch (rd s)) in Hx. rewrite Hx in Hrd.
    destruct Hrd as (_ & Hle & _). specialize (Hle k Hd). destruct Hd as [Hk _]. unfold seen. lia.
  - intros x Hx Hor. apply Hc2; [done|]. destruct Hor as [?|[[k Hd]|?]]; [by left|right; left; exists k; by apply Hdoc|by right; right].
Qed.

Lemma main_complete b x ok s s' : inv s -> complete b s -> step (Main x ok) s = Some s' -> complete b s'.
Proof.
  intros H [Hc1 Hc2]. cbn [step]. unfold main. pose proof (inv_pc _ H) as Hp. destruct (at_ (wr s)) as [| |evs n].
  - destruct (_ || _); intros [= <-]; by split.
  - intros [= <-]. by split.
  - destruct ok; intros [= <-]; [|by split]. destruct Hp as (k & Hk & -> & -> & Hle). set (s' := Sys _ _ _ _ _ _).
    assert (doc_is s' (epoch (wr s)) k) as Hd by (split; [done|by exists x]). split.
    + intros y Hy [k' Hd']. destruct (doc_is_inj _ _ _ _ _ Hd Hd') as [<- _]. apply Hc1; [done|].
      pose proof (inv_rd _ H) as Hr. change (rd s') with (rd s) in Hy. rewrite Hy in Hr. by apply Hr.
    + intros y Hy Hor. apply Hc2; [done|]. destruct Hor as [?|[[k' Hd']|?]]; [by left| |by right; right].
      left. by destruct (doc_is_inj _ _ _ _ _ Hd Hd') as [<- _].
Qed.

Lemma restart_complete b e s s' : inv s -> complete b s -> step (Restart e) s = Some s' -> complete b s'.
Proof.
  intros H [Hc1 Hc2]. cbn [step]. destruct (decide (e ∈ used s)) as [|Hf]; [by rewrite bool_decide_true|].
  rewrite bool_decide_false by done. intros [= <-]. split; [done|]. intros x Hx Hor. apply Hc2; [done|]. cbn in Hor.
  destruct Hor as [->|[?|?]]; [by right; right|by right; left|right; right; set_solver].
Qed.

Lemma slice_join (h : list json) a b k : (a <= b <= k)%nat -> drop a (take b h) ++ drop b (take k h) = drop a (take k h).
Proof.
  intros [Hab Hbk]. rewrite <- (take_drop b (take k h)) at 2. rewrite take_take. replace (b `min` k)%nat with b by lia.
  destruct (decide (b <= length h)%nat) as [Hl|Hl]; [rewrite drop_app_le; [done|rewrite length_take; lia]|].
  rewrite !(take_ge h) by lia. rewrite (drop_ge h b), !app_nil_r by lia. done.
Qed.

Lemma poll_complete b r s s' :
  inv s -> complete b s -> (r = true -> in_step s = true) -> step (Poll r) s = Some s' -> complete b s'.
Proof.
  intros H [Hc1 Hc2] Hin. cbn [step]. assert (forall w, last_epoch w = last_epoch (rd s) -> last_seq w = last_seq (rd s) ->
    complete b (Sys (wr s) (file s) w (hist s) (used s) (log s ++ []))) as Hsame.
  { intros w E1 E2. rewrite app_nil_r. unfold complete, seen, reported, doc_is in *. cbn. rewrite E1, E2. done. }
  destruct r; [|intros [= <-]; by apply Hsame]. destruct (inv_file _ H) as [Hl|(x & k & Hx & Hd)].
  - destruct (poll_leftover s Hl) as (w & -> & E1 & E2). intros [= <-]. by apply Hsame.
  - destruct (poll_doc s x k H Hd) as [Hb E]. rewrite E. intros [= <-]. cbn [last_epoch default].
    specialize (Hin eq_refl). unfold in_step in Hin. pose proof Hd as [Hk [v Ef]]. rewrite Ef, read_doc in Hin.
    change (epoch_of _) with (Some x) in Hin. change (dict_get "seq" _) with (Some (JInt (Z.of_nat k))) in Hin. apply Z.leb_le in Hin.
    set (b0 := if decide _ then _ else _) in *.
    assert (Z.of_nat b0 = if bool_decide (Some x = last_epoch (rd s)) then last_seq (rd s) + 1 else 0) as Hb0.
    { subst b0. destruct (decide (last_epoch (rd s) = Some x)) as [Ex|Ex]; [|by rewrite bool_decide_false by congruence].
      rewrite bool_decide_true by congruence. pose proof (inv_rd _ H) as Hr. rewrite Ex in Hr. destruct Hr as (_ & Hle & _). specialize (Hle k Hd).
      unfold seen. lia. }
    rewrite <- Hb0 in Hin. replace (Nat.max (k - RELAY_EVENTS) b0) with b0 by (unfold RELAY_EVENTS; lia). set (s' := Sys _ _ _ _ _ _). split.
    + intros y [= <-] _. assert (seen s' = k) as -> by (unfold seen; cbn; lia).
      rewrite (reported_app x (log s) (map (fun ev => (x, ev)) (drop b0 (take k (hist s x)))) s') by done. rewrite filter_tagged, decide_True by done.
      fold (reported x s). change (hist s' x) with (hist s x). subst b0. destruct (decide (last_epoch (rd s) = Some x)) as [Ex|Ex].
      * destruct (Hc1 x Ex ltac:(eauto)) as [-> Hbx]. split; [apply slice_join|]; lia.
      * rewrite (inv_fresh _ H x Ex), (Hc2 x Ex) by eauto. split; [done|lia].
    + intros y Hy Hor. cbn in Hy, Hor. destruct (decide (last_epoch (rd s) = Some y)) as [Ey|Ey]; [|apply Hc2; [done|by intuition]].
      pose proof (inv_rd _ H) as Hr. rewrite Ey in Hr. destruct Hr as (Hu & _ & _ & Hw).
      destruct Hor as [->|[[k' Hd']|?]]; [destruct (Hw eq_refl) as [k' Hd']| |done]; destruct (doc_is_inj _ _ _ _ _ Hd Hd'); congruence.
Qed.

Lemma relay_run_complete b es s s' :
  inv s -> complete b s -> lossless es s = true -> run es s = Some s' -> complete b s'.
Proof.
  revert s. induction es as [|e es IH]; intros s H Hc Hl; cbn [run]; [by intros [= <-]|]. cbn [lossless] in Hl. apply andb_prop in Hl as [He Hl].
  destruct (step e s) as [s1|] eqn:E; [|done]. cbn. pose proof (relay_step_inv _ _ _ H E) as H1. apply IH; [done| |done].
  destruct e as [body|x ok|r|e].
  - by apply (emit_complete b body s).
  - by apply (main_complete b x ok s).
  - apply (poll_complete b r s); [done..| |done]. by intros ->.
  - by apply (restart_complete b e s).
Qed.

Lemma new_reader_complete s : complete (base (watch (file s))) (new_reader s).
Proof.
  split.
  - intros x Hx _. unfold base, seen. cbn in *. rewrite Hx, bool_decide_true by done. split; [|done]. by rewrite drop_ge by (rewrite length_take; lia).
  - intros x Hx _. unfold base. cbn in Hx. by rewrite bool_decide_false.
Qed.

Lemma relay_run_app es1 es2 s : run (es1 ++ es2) s = run es1 s ≫= run es2.
Proof. revert s. induction es1 as [|e es1 IH]; intros s; cbn; [done|]. destruct (step e s); cbn; [apply IH|done]. Qed.

Lemma lossless_app es1 es2 s s1 : run es1 s = Some s1 -> lossless (es1 ++ es2) s = lossless es1 s && lossless es2 s1.
Proof.
  revert s. induction es1 as [|e es1 IH]; intros s; cbn; [by intros [= <-]|]. destruct (step e s); cbn; [|done]. intros E. by rewrite (IH _ E), andb_assoc.
Qed.

Lemma consec_NoDup a l : consec a l -> NoDup l.
Proof.
  intros H. apply NoDup_alt. intros i j x Hi Hj. pose proof (H _ _ Hj) as E. rewrite (H _ _ Hi) in E. injection E. lia.
Qed.

(** [C17] No event is reported twice or out of order.  Whatever an earlier run
    left in the relay file, through any interleaving of emitted events, frames,
    failing writes, failing reads and restarts of the controller, what a reader
    has reported of one controller process is a subsequence, without repetition,
    of what that process emitted. *)
Theorem relay_reports_once raw e sb es0 s0 es s x :
  boot raw e = Some sb -> run es0 sb = Some s0 -> run es (new_reader s0) = Some s ->
  reported x s `sublist_of` hist s x /\ NoDup (reported x s).
Proof.
  intros Hb H0 H. pose proof (new_reader_inv s0 (inv_writing _ (relay_run_inv _ _ _ (relay_boot_inv _ _ _ Hb) H0))) as Hi.
  pose proof (relay_run_inv _ _ _ Hi H) as [H1 _ _ _ _ _ _ _ _ H10]. split; [apply H10|].
  eapply sublist_NoDup; [|apply H10]. eapply consec_NoDup, H1.
Qed.

(** ** The writer catches up *)
Definition synced (s : sys) : Prop := doc_is s (epoch (wr s)) (length (hist s (epoch (wr s)))).

(** Actions of the main loop until a copy made from now on is in the file. *)
Definition main_left (w : writer) : Z :=
  match at_ w with
  | Copied _ n => if n =? relay_seq w then 1 else 8
  | Due => 2
  | Idle => if relay_dirty w then 3 else 7 - Z.min 4 (frame_cntr w)
  end.

Lemma main_progress x s s' :
  inv s -> step (Main x true) s = Some s' -> (synced s -> synced s') /\ (synced s' \/ main_left (wr s') <= main_left (wr s) - 1).
Proof.
  intros H. pose proof (inv_pc _ H) as Hp. pose proof (inv_seq _ H) as [Hq Hcn]. cbn [step]. unfold main, main_left. destruct (at_ (wr s)) as [| |evs n].
  - destruct (relay_dirty (wr s)) eqn:Ed, (Z.leb_spec 5 (frame_cntr (wr s) + 1)); cbn [orb]; intros [= <-]; (split; [done|right]); cbn; lia.
  - intros [= <-]. split; [done|right]. cbn. by rewrite Z.eqb_refl.
  - destruct Hp as (k & Hk & -> & -> & Hle). intros [= <-]. set (s' := Sys _ _ _ _ _ _).
    assert (k = length (hist s (epoch (wr s))) -> synced s') as Hs.
    { intros ->. split; [done|]. by exists x. }
    split; [intros Hsy; apply Hs; specialize (Hle _ Hsy); lia|].
    destruct (Z.eqb_spec (Z.of_nat k) (relay_seq (wr s))); [left; apply Hs; lia|right]. cbn. destruct (relay_dirty (wr s)); lia.
Qed.

Lemma main_catches_up x n : forall s, inv s -> main_left (wr s) <= Z.of_nat n \/ synced s ->
  exists s', run (replicate n (Main x true)) s = Some s' /\ synced s'.
Proof.
  induction n as [|n IH]; intros s H Hor; cbn [replicate run].
  - exists s. split; [done|]. destruct Hor as [Hl|]; [|done]. exfalso. unfold main_left in Hl. destruct (at_ (wr s)); [destruct (relay_dirty (wr s))| |case_match]; lia.
  - destruct (step (Main x true) s) as [s1|] eqn:E; [|by destruct (main x true (wr s) (file s)) eqn:Em; cbn in E; rewrite Em in E].
    cbn [mbind option_bind]. destruct (main_progress x s s1 H E) as [Hp Hq]. apply IH; [by eapply relay_step_inv|].
    destruct Hor as [Hl|Hs]; [|right; auto]. destruct Hq; [by right|left; lia].
Qed.

Lemma main_left_bound s : inv s -> main_left (wr s) <= 8.
Proof. intros H. pose proof (inv_seq _ H) as [_ Hcn]. unfold main_left. repeat case_match; lia. Qed.

(** Every event reaches the reader.  If no poll finds the document more
    than 32 events ahead (the bound of the queue), then after eight actions of
    the writer's main loop with writes that succeed, and a poll, the reader has
    reported every event the controller process has emitted since the reader's
    baseline, in order; for a process that started after the reader these are
    all its events. *)
Theorem relay_delivers_all raw e sb es0 s0 es v s :
  boot raw e = Some sb -> run es0 sb = Some s0 ->
  run (es ++ replicate 8 (Main v true) ++ [Poll true]) (new_reader s0) = Some s ->
  lossless (es ++ replicate 8 (Main v true) ++ [Poll true]) (new_reader s0) = true ->
  reported (epoch (wr s)) s = drop (base (watch (file s0)) (epoch (wr s))) (hist s (epoch (wr s))).
Proof.
  intros Hb H0 H Hl. pose proof (new_reader_inv s0 (inv_writing _ (relay_run_inv _ _ _ (relay_boot_inv _ _ _ Hb) H0))) as Hi.
  pose proof (relay_run_complete _ _ _ _ Hi (new_reader_complete s0) Hl H) as [Hc _].
  rewrite relay_run_app in H. destruct (run es (new_reader s0)) as [s1|] eqn:E1; [|done]. cbn [mbind option_bind] in H.
  pose proof (relay_run_inv _ _ _ Hi E1) as Hi1. destruct (main_catches_up v 8 s1 Hi1) as (s2 & E2 & Hs).
  { left. pose proof (main_left_bound s1 Hi1). lia. }
  rewrite relay_run_app, E2 in H. cbn [mbind option_bind] in H. pose proof (relay_run_inv _ _ _ Hi1 E2) as Hi2.
  cbn [run step] in H. destruct (poll_doc s2 _ _ Hi2 Hs) as [_ Ep]. cbv iota in H. rewrite Ep in H. cbn in H. injection H as <-.
  cbn in Hc |- *. destruct (Hc _ eq_refl) as [-> _]; [by eexists|]. unfold seen. cbn.
  rewrite take_ge; [done|lia].
Qed.

(** ** Witnesses *)
Definition ex_view : snapshot := Snapshot (JInt 0) 7 "1.0" "IQ_CAL" 0 false false [] [] [] 0 JNull JNull (-1) 0 false.
Definition ex_left : option json := Some (_build_hwc_state "6-1" ex_view [item 0 []; item 1 []] 2).
Definition ex_boot : sys := default (new_reader (Sys (start "") None (watch None) (fun _ => []) [] [])) (boot ex_left "7-2").
Definition ex_run (es : list event) (s : sys) : sys := default s (run es s).

(** A leftover of two events, three new ones, a restart and another one. *)
Definition ex_events : list event :=
  [Emit []; Main ex_view true; Poll true; Emit []] ++ replicate 3 (Main ex_view true) ++ [Poll true; Poll false; Emit []; Restart "8-3"; Emit []].
Definition ex_tail : list event := replicate 8 (Main ex_view true) ++ [Poll true].
Definition ex_last : sys := ex_run (ex_events ++ ex_tail) (new_reader ex_boot).

Lemma relay_reports_once_witness : reported "7-2" ex_last `sublist_of` hist ex_last "7-2" /\ NoDup (reported "7-2" ex_last).
Proof. apply (relay_reports_once ex_left "7-2" ex_boot [] ex_boot (ex_events ++ ex_tail) ex_last "7-2"); vm_compute; reflexivity. Defined.

Lemma relay_delivers_all_witness : reported "8-3" ex_last = drop (base (watch (file ex_boot)) "8-3") (hist ex_last "8-3").
Proof. apply (relay_delivers_all ex_left "7-2" ex_boot [] ex_boot ex_events ex_view ex_last); vm_compute; reflexivity. Defined.

(** All but the event emitted after the last write of the first process. *)
Lemma ex_reported : map seq_of (reported "7-2" ex_last) = [0; 1] /\ map seq_of (reported "8-3" ex_last) = [0] /\ reported "6-1" ex_last = [].
Proof. by vm_compute. Qed.

End Relay.

(** ** The recalibration request *)
Module Recal.

(** [_check_token]; [None] is the [ValueError]. *)
Definition _check_token (l : chars) : bool := match l with [] => false | _ => negb (existsb is_space l) end.

Definition nl : Ascii.ascii := Ascii.ascii_of_nat 10.

(** [write_recal_request]: the text of the file. *)
Definition write_recal_request (epoch : chars) (gen : Z) (reason : chars) (ts_ms : Z) : option chars :=
  if _check_token epoch && _check_token reason && (0 <=? gen)
  then Some (epoch ++ " "%char :: to_chars (str_of_int gen) ++ " "%char :: to_chars (str_of_int ts_ms) ++ " "%char :: reason ++ [nl])
  else None.

Definition request : Type := chars * Z * Z * chars.

(** [read_recal_request]; the file is read up to 4096 bytes. *)
Definition read_recal_request (raw : option chars) : option request :=
  match raw with
  | None => None
  | Some l =>
      match split_ws (take 4096 l) with
      | [epoch; gen_s; ts_s; reason] =>
          if isdigit gen_s && isdigit ts_s then
            g ← int_of_chars gen_s; t ← int_of_chars ts_s; Some (epoch, g, t, reason)
          else None
      | _ => None
      end
  end.

(** [RecalWatcher] *)
Record watcher := Watcher { last_epoch : option chars; last_gen : Z }.

Definition watch (raw : option chars) : watcher :=
  match read_recal_request raw with None => Watcher None (-1) | Some (e, g, _, _) => Watcher (Some e) g end.

Definition poll (raw : option chars) (w : watcher) : watcher * option request :=
  match read_recal_request raw with
  | None => (w, None)
  | Some (e, g, t, r) =>
      if negb (bool_decide (Some e = last_epoch w)) || (last_gen w <? g) then (Watcher (Some e) g, Some (e, g, t, r)) else (w, None)
  end.

(** *** The text *)
Lemma split_word acc w rest : Forall (fun c => is_space c = false) w -> split_go acc (w ++ rest) = split_go (reverse w ++ acc) rest.
Proof.
  intros H. revert acc. induction H as [|c w Hc Hw IH]; intros acc; [done|]. cbn [app split_go]. rewrite Hc, IH.
  by rewrite reverse_cons, <- app_assoc.
Qed.

Lemma split_token w c rest :
  Forall (fun c => is_space c = false) w -> w <> [] -> is_space c = true -> split_go [] (w ++ c :: rest) = w :: split_go [] rest.
Proof.
  intros Hw Hn Hc. rewrite split_word by done. rewrite app_nil_r. cbn [split_go]. rewrite Hc.
  destruct (reverse w) as [|x l] eqn:E; [by apply (f_equal reverse) in E; rewrite reverse_involutive in E|]. by rewrite <- E, reverse_involutive.
Qed.

Lemma token_ok l : _check_token l = true -> Forall (fun c => is_space c = false) l /\ l <> [].
Proof.
  destruct l as [|c l]; [done|]. unfold _check_token. intros H. apply negb_true_iff in H. split; [|done].
  apply list.Forall_forall. intros x Hx. destruct (is_space x) eqn:E; [|done]. exfalso. revert H. apply not_false_iff_true.
  apply existsb_exists. exists x. split; [by apply list_elem_of_In|done].
Qed.

Lemma number_ok z : 0 <= z -> let l := to_chars (str_of_int z) in
  Forall (fun c => is_space c = false) l /\ l <> [] /\ isdigit l = true /\ int_of_chars l = Some z.
Proof.
  intros Hz. destruct (int_of_str_of_int z Hz) as [E1 E2]. cbv zeta. split_and!; [| |done..].
  - destruct (str_of_int_digits z Hz) as (u & _ & -> & _). exact (list.Forall_impl _ _ _ (uint_digits u) digit_not_space).
  - intros E. by rewrite E in E2.
Qed.

Lemma recal_text_roundtrip e g r t l :
  write_recal_request e g r t = Some l -> 0 <= t -> (length l <= 4096)%nat -> read_recal_request (Some l) = Some (e, g, t, r).
Proof.
  unfold write_recal_request. destruct (_check_token e && _check_token r && (0 <=? g)) eqn:E; [|done]. intros [= <-] Ht Hl.
  apply andb_prop in E as [E Hg]. apply andb_prop in E as [He Hr]. apply token_ok in He as [He1 He2], Hr as [Hr1 Hr2]. apply Z.leb_le in Hg.
  destruct (number_ok g Hg) as (G1 & G2 & G3 & G4). destruct (number_ok t Ht) as (T1 & T2 & T3 & T4).
  unfold read_recal_request. rewrite take_ge by done. unfold split_ws. rewrite !split_token by done. cbn [split_go].
  by rewrite G3, T3, G4, T4.
Qed.

(** *** Both processes *)
Record sys := Sys {
  epoch : chars; recal_generation : Z; used : list chars; file : option chars; rd : watcher;
  issued : list (chars * Z); acted : list (chars * Z) }.

(** [Request]: [_perform_recal] with the outcome of its write. *)
Inductive event := Request (reason : chars) (ts : Z) (ok : bool) | Poll (readable : bool) | Restart (e : chars).

Definition step (ev : event) (s : sys) : option sys :=
  match ev with
  | Request reason ts ok =>
      let g := recal_generation s + 1 in
      let text := if ok then write_recal_request (epoch s) g reason ts else None in
      Some (Sys (epoch s) g (used s) (match text with Some l => Some l | None => file s end) (rd s)
              (match text with Some _ => issued s ++ [(epoch s, g)] | None => issued s end) (acted s))
  | Poll readable =>
      let '(w, r) := poll (if readable then file s else None) (rd s) in
      Some (Sys (epoch s) (recal_generation s) (used s) (file s) w (issued s)
              (acted s ++ match r with Some (e, g, _, _) => [(e, g)] | None => [] end))
  | Restart e =>
      if bool_decide (e ∈ used s) then None else Some (Sys e 0 (used s ++ [e]) (file s) (rd s) (issued s) (acted s))
  end.

Fixpoint run (es : list event) (s : sys) : option sys :=
  match es with [] => Some s | e :: es => s1 ← step e s; run es s1 end.

Definition leftover_epoch (raw : option chars) : list chars :=
  match read_recal_request raw with Some (e, _, _, _) => [e] | None => [] end.

(** A reader starts beside a controller of epoch [e]. *)
Definition boot (raw : option chars) (e : chars) : option sys :=
  if bool_decide (e ∈ leftover_epoch raw) then None else Some (Sys e 0 (leftover_epoch raw ++ [e]) raw (watch raw) [] []).

(** Requests are written after 1970, in lines that fit the reader's buffer. *)
Definition sane (ev : event) (s : sys) : bool :=
  match ev with
  | Request r ts _ =>
      (0 <=? ts) && match write_recal_request (epoch s) (recal_generation s + 1) r ts with Some l => (length l <=? 4096)%nat | None => true end
  | _ => true
  end.

Fixpoint all_sane (es : list event) (s : sys) : bool :=
  match es with [] => true | e :: es => sane e s && match step e s with Some s1 => all_sane es s1 | None => true end end.

(** The test of [RecalWatcher.poll]. *)
Definition newer (a b : chars * Z) : Prop := b.1 <> a.1 \/ a.2 < b.2.

Definition baseline (w : watcher) : option (chars * Z) := (fun e => (e, last_gen w)) <$> last_epoch w.

Record inv (s : sys) : Prop := {
  inv_epoch : epoch s ∈ used s /\ 0 <= recal_generation s;
  inv_used : forall q, q ∈ issued s -> q.1 ∈ used s /\ (q.1 = epoch s -> q.2 <= recal_generation s);
  inv_order : forall i j a b, (i < j)%nat -> issued s !! i = Some a -> issued s !! j = Some b -> newer a b;
  inv_file : match issued s with
             | [] => read_recal_request (file s) = None /\ last_epoch (rd s) = None \/
                     exists e g t r, read_recal_request (file s) = Some (e, g, t, r) /\ rd s = Watcher (Some e) g /\ e ∈ used s /\ e <> epoch s
             | _ => exists q t r, list.last (issued s) = Some q /\ read_recal_request (file s) = Some (q.1, q.2, t, r)
             end;
  inv_seen : exists p, (p <= length (issued s))%nat /\ acted s `sublist_of` take p (issued s) /\
               match p with
               | O => match baseline (rd s) with None => True | Some b => b.1 ∈ used s /\ b.1 <> epoch s /\ forall q, q ∈ issued s -> newer b q end
               | S n => exists q, issued s !! n = Some q /\ baseline (rd s) = Some q /\ list.last (acted s) = Some q
               end }.

Lemma recal_boot_inv raw e s : boot raw e = Some s -> inv s.
Proof.
  unfold boot. destruct (decide (e ∈ leftover_epoch raw)) as [|Hf]; [by rewrite bool_decide_true|]. rewrite bool_decide_false by done.
  intros [= <-]. unfold leftover_epoch, watch in *. destruct (read_recal_request raw) as [[[[e0 g0] t0] r0]|] eqn:E; constructor; cbn; try done; rewrite ?E.
  - split; [set_solver|done].
  - intros q Hq. by apply elem_of_nil in Hq.
  - right. exists e0, g0, t0, r0. split_and!; [done..|set_solver|set_solver].
  - exists 0%nat. split_and!; [done..|set_solver|set_solver|]. intros q Hq. by apply elem_of_nil in Hq.
  - split; [set_solver|done].
  - intros q Hq. by apply elem_of_nil in Hq.
  - by left.
  - by exists 0%nat.
Qed.

Lemma recal_restart_inv e s s' : inv s -> step (Restart e) s = Some s' -> inv s'.
Proof.
  intros [[H1 H1'] H2 H3 H4 (p & H5 & H6 & H7)]. cbn. destruct (decide (e ∈ used s)) as [|Hf]; [by rewrite bool_decide_true|].
  rewrite bool_decide_false by done. intros [= <-]. constructor; cbn; try done.
  - split; [set_solver|lia].
  - intros q Hq. destruct (H2 q Hq) as [Hu _]. split; [set_solver|]. intros E. by rewrite E in Hu.
  - destruct (issued s); [|done]. destruct H4 as [H4|(e0 & g & t & r & Hr & Hw & Hu & _)]; [by left|right].
    exists e0, g, t, r. split_and!; [done..|set_solver|]. by intros ->.
  - exists p. split_and!; [done..|]. destruct p; [|done]. destruct (baseline (rd s)) as [q|]; [|done].
    destruct H7 as (Hu & _ & Hn). split_and!; [set_solver| |done]. intros E. by rewrite E in Hu.
Qed.

Lemma recal_request_inv r t ok s s' : inv s -> sane (Request r t ok) s = true -> step (Request r t ok) s = Some s' -> inv s'.
Proof.
  intros [[H1 H1'] H2 H3 H4 (p & H5 & H6 & H7)] Hs. cbn in Hs |- *. apply andb_prop in Hs as [Ht Hl]. apply Z.leb_le in Ht. intros [= <-].
  destruct (if ok then write_recal_request (epoch s) (recal_generation s + 1) r t else None) as [l|] eqn:E.
  2:{ constructor; cbn; [split; [done|lia]| |done|done|by exists p]. intros q Hq. destruct (H2 q Hq) as [? Hle]. split; [done|]. intros Hq1. specialize (Hle Hq1). lia. }
  destruct ok; [|done]. rewrite E in Hl. apply Nat.leb_le in Hl. pose proof (recal_text_roundtrip _ _ _ _ _ E Ht Hl) as Hr.
  set (q0 := (epoch s, recal_generation s + 1)). constructor; cbn.
  - split; [done|lia].
  - intros q Hq. apply elem_of_app in Hq as [Hq| ->%list_elem_of_singleton]; [|split; [done|cbn; lia]].
    destruct (H2 q Hq) as [? Hle]. split; [done|]. intros Hq1. specialize (Hle Hq1). lia.
  - intros i j a b Hij Ha Hb. apply lookup_app_Some in Hb as [Hb|[Hge Hb]].
    + rewrite lookup_app_l in Ha by (apply lookup_lt_Some in Hb; lia). by eapply H3.
    + apply list_lookup_singleton_Some in Hb as [Hj <-]. rewrite lookup_app_l in Ha by lia. destruct (H2 a) as [_ Hle]; [by eapply list_elem_of_lookup_2|].
      unfold newer. cbn. destruct (decide (epoch s = a.1)) as [Ea|]; [right; specialize (Hle (eq_sym Ea)); lia|by left].
  - destruct (issued s ++ [q0]) eqn:Ei; [by destruct (issued s)|]. rewrite <- Ei. exists q0, t, r. split; [by rewrite last_snoc|done].
  - exists p. rewrite length_app, take_app_le by done. split_and!; [cbn; lia|done|]. destruct p as [|n].
    + destruct (baseline (rd s)) as [b|]; [|done]. destruct H7 as (Hu & Hne & Hn). split_and!; [done..|].
      intros q Hq. apply elem_of_app in Hq as [Hq| ->%list_elem_of_singleton]; [by apply Hn|]. left. by apply not_eq_sym.
    + destruct H7 as (q & Hq & Hb & Hla). exists q. split; [by apply lookup_app_l_Some|done].
Qed.

Lemma poll_none raw w : read_recal_request raw = None -> poll raw w = (w, None).
Proof. intros E. unfold poll. by rewrite E. Qed.

Lemma poll_newer raw w e g t r :
  read_recal_request raw = Some (e, g, t, r) ->
  (match baseline w with None => True | Some b => newer b (e, g) end -> poll raw w = (Watcher (Some e) g, Some (e, g, t, r))) /\
  (baseline w = Some (e, g) -> poll raw w = (w, None)).
Proof.
  intros E. unfold poll, baseline, newer. rewrite E. destruct w as [[e0|] g0]; cbn; (split; [|try done]).
  - intros [Hn|Hn]; [by rewrite bool_decide_false by congruence|]. rewrite (proj2 (Z.ltb_lt _ _)) by done. by rewrite orb_true_r.
  - intros [= -> ->]. by rewrite bool_decide_true, Z.ltb_irrefl.
  - intros _. by rewrite bool_decide_false.
Qed.

(** A poll that reads the file brings the reader up to date. *)
Lemma recal_poll_inv rdb s s' : inv s -> step (Poll rdb) s = Some s' ->
  inv s' /\ (rdb = true -> issued s' <> [] -> list.last (acted s') = list.last (issued s')).
Proof.
  intros H. pose proof H as [H1 H2 H3 H4 (p & H5 & H6 & H7)]. cbn [step].
  assert (inv (Sys (epoch s) (recal_generation s) (used s) (file s) (rd s) (issued s) (acted s ++ []))) as Hsame
    by (rewrite app_nil_r; constructor; try done; by exists p).
  destruct rdb; [|rewrite poll_none by done; intros [= <-]; done].
  destruct (issued s) as [|q1 l] eqn:Ei.
  { destruct H4 as [[Hr _]|(e & g & t & r & Hr & Hw & _)].
    - rewrite poll_none by done. intros [= <-]. rewrite <- Ei. split; [by rewrite Ei in *|]. by rewrite Ei.
    - rewrite (proj2 (poll_newer _ (rd s) _ _ _ _ Hr)) by (by rewrite Hw). intros [= <-]. rewrite <- Ei. split; [by rewrite Ei in *|]. by rewrite Ei. }
  rewrite <- Ei in *. destruct H4 as ([qe qg] & t & r & Hlast & Hr). cbn [fst snd] in Hr. set (q := (qe, qg)) in *. set (L := issued s) in *.
  assert (L !! (length L - 1)%nat = Some q /\ (0 < length L)%nat) as [Hq Hpos].
  { rewrite last_lookup in Hlast. split; [by rewrite <- Hlast; f_equal; lia|]. rewrite Ei. cbn. lia. }
  destruct (poll_newer (file s) (rd s) _ _ _ _ Hr) as [Hact Hidle].
  destruct (decide (p = length L)) as [Ep|Ep].
  - destruct p as [|n]; [lia|]. destruct H7 as (q' & Hq' & Hb & Hla). replace (length L - 1)%nat with n in Hq by lia.
    assert (q' = q) as -> by congruence. rewrite (Hidle Hb). intros [= <-]. split; [done|]. intros _ _. cbn. by rewrite app_nil_r, Hla.
  - rewrite Hact.
    2:{ destruct p as [|n].
        - destruct (baseline (rd s)) as [b|]; [|done]. apply H7. by eapply list_elem_of_lookup_2.
        - destruct H7 as (q' & Hq' & -> & _). eapply (H3 n (length L - 1)%nat); [lia|done..]. }
    intros [= <-]. split; [|intros _ _; cbn; rewrite last_snoc; by rewrite Hlast].
    constructor; cbn; try done.
    + unfold L in *. rewrite Ei in *. by exists q, t, r.
    + exists (length L). split; [done|]. rewrite take_ge by done. split.
      * assert (L = take (length L - 1) L ++ [q]) as EL by (rewrite <- take_S_r by done; rewrite take_ge; [done|lia]).
        rewrite EL. fold q. apply sublist_app; [|done]. etrans; [exact H6|]. replace p with (p `min` (length L - 1))%nat by lia.
        rewrite <- take_take. apply sublist_take.
      * destruct (length L) as [|n] eqn:En; [lia|]. exists q. replace (S n - 1)%nat with n in Hq by lia. split_and!; [done..|by rewrite last_snoc].
Qed.

Lemma recal_step_inv ev s s' : inv s -> sane ev s = true -> step ev s = Some s' -> inv s'.
Proof.
  destruct ev as [r t ok|b|e]; intros H Hs E.
  - by apply (recal_request_inv r t ok s).
  - by apply (recal_poll_inv b s).
  - by apply (recal_restart_inv e s).
Qed.

Lemma recal_run_inv es s s' : inv s -> all_sane es s = true -> run es s = Some s' -> inv s'.
Proof.
  revert s. induction es as [|e es IH]; intros s H Hs; cbn; [by intros [= <-]|]. cbn in Hs. apply andb_prop in Hs as [He Hs].
  destruct (step e s) as [s1|] eqn:E; [|done]. cbn. apply IH; [|done]. by eapply recal_step_inv.
Qed.

Lemma recal_run_snoc es e s : run (es ++ [e]) s = run es s ≫= step e.
Proof. revert s. induction es as [|x es IH]; intros s; cbn; [by destruct (step e s)|]. destruct (step x s); cbn; [apply IH|done]. Qed.

(** A recalibration request is acted on once.  Over any sequence of
    requests (their writes may fail), polls and controller restarts: the reader
    acts on requests in the order they were written, on each at most once, never
    on one left by an earlier run, and after a poll that reads the file the last
    request written has been acted on. *)
Theorem recal_acted_once raw e s0 es s :
  boot raw e = Some s0 -> all_sane es s0 = true -> run (es ++ [Poll true]) s0 = Some s ->
  acted s `sublist_of` issued s /\ NoDup (acted s) /\ (issued s <> [] -> list.last (acted s) = list.last (issued s)).
Proof.
  intros Hb Hs H. rewrite recal_run_snoc in H. destruct (run es s0) as [s1|] eqn:E1; [|done]. cbn [mbind option_bind] in H.
  pose proof (recal_run_inv _ _ _ (recal_boot_inv _ _ _ Hb) Hs E1) as H1. destruct (recal_poll_inv true s1 s H1 H) as [[_ _ Ho _ (p & _ & Hsub & _)] Hl].
  assert (acted s `sublist_of` issued s) as Hsub' by (etrans; [exact Hsub|apply sublist_take]). split; [done|]. split; [|by apply Hl].
  eapply sublist_NoDup; [|exact Hsub']. apply NoDup_alt. intros i j x Hi Hj.
  destruct (Nat.lt_trichotomy i j) as [Hij|[?|Hij]]; [|done|]; exfalso; [destruct (Ho _ _ _ _ Hij Hi Hj)|destruct (Ho _ _ _ _ Hij Hj Hi)]; by lia || done.
Qed.

Definition ex_left : option chars := write_recal_request (to_chars "6-1") 3 (to_chars "wire") 5.
Definition ex_start : sys := default (Sys [] 0 [] None (watch None) [] []) (boot ex_left (to_chars "7-2")).
Definition ex_requests : list event :=
  [Poll true; Request (to_chars "wire") 9 true; Request (to_chars "wire") 10 true; Poll true; Request (to_chars "wire") 11 false; Poll true;
   Restart (to_chars "8-3"); Request (to_chars "gain_change") 12 true].
Definition ex_end : sys := default ex_start (run (ex_requests ++ [Poll true]) ex_start).

Lemma recal_acted_once_witness :
  acted ex_end = [(to_chars "7-2", 2); (to_chars "8-3", 1)] /\
  (acted ex_end `sublist_of` issued ex_end /\ NoDup (acted ex_end) /\ (issued ex_end <> [] -> list.last (acted ex_end) = list.last (issued ex_end))).
Proof. split; [by vm_compute|]. apply (recal_acted_once ex_left (to_chars "7-2") ex_start ex_requests ex_end); vm_compute; reflexivity. Defined.

End Recal.
