(* ===== verification/DelaySync.v ===== *)
(** * The delay synchroniser ([_daq_core/delay_sync.py])

    The state machine that aligns the receiver channels: integer and fractional
    sample delays, IQ corrections, tracking and its loss, the calibration
    timeout, the overrun invalidation, the wire recalibration and the header it
    sends on.  What the machine measures on the samples of a frame (correlation
    functions, fractional delays, dynamic ranges and IQ differences) is an input. *)
From Stdlib Require Import Qabs.
From S2P Require Import Prelude PyStruct PyText PyJson IQHeader HwcRelay.

Module Sync.
Import Hdr.

(** [IQHeader.FRAME_TYPE_*] *)
Definition FRAME_TYPE_DATA : Z := 0.
Definition FRAME_TYPE_DUMMY : Z := 1.
Definition FRAME_TYPE_CAL : Z := 3.

Inductive fsm :=
  | STATE_INIT | STATE_SAMPLE_CAL | STATE_SYNC_WAIT | STATE_FRAC_SAMPLE_CAL | STATE_FRAC_SYNC_WAIT
  | STATE_IQ_CAL | STATE_TRACK_LOCK | STATE_TRACK.

#[export] Instance fsm_eq_dec : EqDecision fsm.
Proof. solve_decision. Defined.

Definition CALIBRATION_STATES : list fsm :=
  [STATE_SAMPLE_CAL; STATE_SYNC_WAIT; STATE_FRAC_SAMPLE_CAL; STATE_FRAC_SYNC_WAIT; STATE_IQ_CAL].

(** ** Tuning of the sampling rates *)

Definition Qsign (q : Q) : Q := if Qltb 0 q then 1 else if Qltb q 0 then -1 else 0.

(** [(gain_table[1, (gain_table[0, :] <= abs(delay))])[0]]; the table as its
    columns, an [IndexError] as [None]. *)
Definition int_fs_tune_gain (delay : Z) (gain_table : list (Z * Z)) : option Z :=
  match List.filter (fun c => c.1 <=? Z.abs delay) gain_table with [] => None | c :: _ => Some c.2 end.

Definition int_fs_ppm_offset (gain_table : list (Z * Z)) (min_ppm max_ppm : Q) (delay : Z) : option Q :=
  g ← int_fs_tune_gain delay gain_table;
  let x := (inject_Z (-1 * delay * g) * min_ppm)%Q in
  Some (if Qltb max_ppm (Qabs x) then (Qsign x * max_ppm)%Q else x).

Definition int_fs_ppm_offsets (delays : list Z) (gain_table : list (Z * Z)) (min_ppm max_ppm : Q) : option (list Q) :=
  mapM (int_fs_ppm_offset gain_table min_ppm max_ppm) delays.

Definition frac_fs_ppm_offsets (taus : list Q) (channel_list : list nat) (M : nat) (tol gain min_ppm : Q) : list Q :=
  foldl (fun out '(tau, m) =>
    if Qltb tol (Qabs tau) then <[m := (Qsign tau * Qabs (tau * gain) * min_ppm)%Q]> out else out)
    (replicate M 0%Q) (zip taus channel_list).

Definition MIN_FS_PPM_OFFSET : Q := 1 # 10000000.
Definition MAX_FS_PPM_OFFSET : Q := 1 # 100.
Definition INT_FS_TUNE_GAIN : list (Z * Z) := [(100, 50); (2, 25); (0, 15)].
Definition FRAC_FS_TUNE_GAIN : Q := 20.

(** [np.argmax]: the first of the largest. *)
Fixpoint argmax_from (best : Q) (at_ i : Z) (l : list Q) : Z :=
  match l with
  | [] => at_
  | x :: l => if Qltb best x then argmax_from x i (i + 1) l else argmax_from best at_ (i + 1) l
  end.
Definition argmax (l : list Q) : Z := match l with [] => 0 | x :: l => argmax_from x 0 1 l end.

(** [np.min]: NaN wins. *)
Definition np_min (x : pynum) (l : list pynum) : pynum :=
  foldl (fun a b => match a, b with NaN, _ | _, NaN => NaN | _, _ => if num_lt b a then b else a end) x l.

(** Events and history records the machine leaves. *)
Inductive evt :=
  | CAL_START (freq : Z) | SAMPLE_CAL_DONE | SYNC_LOCK (freq : Z) | SYNC_LOST (total : Z)
  | FREQ_CHANGE (old new : Z) | CAL_TIMEOUT (st : fsm) (frames : Z) | RECAL (gen : Z).

Section Machine.
(** Vectors of IQ differences, one complex number for each channel, and what
    numpy does with them: the product, the quotient, the tests of
    [phase_diff_tolerance] and [_amplitude_out_of_tolerance], and the adjustment
    vector of a centre frequency. *)
Context {V : Type} (vmul vdiv : V -> V -> V) (out_of_tolerance : V -> bool) (iq_adjust_at : Z -> V).
(** [10*np.log10(x)] *)
Context (decibel : Q -> Q).
(** The configuration. *)
Context (M std_ch_ind : nat) (N_proc corr_peak_offset : Z) (min_corr_peak_dyn_range frac_delay_tolerance : Q).
Context (en_iq_cal : bool) (cal_track_mode max_sync_fails track_decimation cal_timeout_frames : Z).

Definition channel_list : list nat := List.filter (fun m => negb (m =? std_ch_ind)%nat) (seq 0 M).

Record cal := Cal {
  current_state : fsm; sync_failed_cntr : Z; sync_failed_cntr_total : Z; sample_compensation_cntr : Z; iq_compensation_cntr : Z; last_update_ind : Z; last_rf : Z; delays : list Z; iq_adjust : V; iq_corrections : V; iq_diff_ref : V; cal_quality : pynum; track_check_counter : Z; track_last_flags : bool * bool; cal_timeout_count : Z; cal_start_frame : Z; tunes : list (list Q); log : list evt }.

Definition set_state (x : fsm) (s : cal) : cal :=
  Cal x (sync_failed_cntr s) (sync_failed_cntr_total s) (sample_compensation_cntr s) (iq_compensation_cntr s)
    (last_update_ind s) (last_rf s) (delays s) (iq_adjust s) (iq_corrections s) (iq_diff_ref s) (cal_quality
    s) (track_check_counter s) (track_last_flags s) (cal_timeout_count s) (cal_start_frame s) (tunes s) (log
    s).
Definition set_failed (x : Z) (s : cal) : cal :=
  Cal (current_state s) x (sync_failed_cntr_total s) (sample_compensation_cntr s) (iq_compensation_cntr s)
    (last_update_ind s) (last_rf s) (delays s) (iq_adjust s) (iq_corrections s) (iq_diff_ref s) (cal_quality
    s) (track_check_counter s) (track_last_flags s) (cal_timeout_count s) (cal_start_frame s) (tunes s) (log
    s).
Definition set_failed_total (x : Z) (s : cal) : cal :=
  Cal (current_state s) (sync_failed_cntr s) x (sample_compensation_cntr s) (iq_compensation_cntr s)
    (last_update_ind s) (last_rf s) (delays s) (iq_adjust s) (iq_corrections s) (iq_diff_ref s) (cal_quality
    s) (track_check_counter s) (track_last_flags s) (cal_timeout_count s) (cal_start_frame s) (tunes s) (log
    s).
Definition set_sample_comp (x : Z) (s : cal) : cal :=
  Cal (current_state s) (sync_failed_cntr s) (sync_failed_cntr_total s) x (iq_compensation_cntr s)
    (last_update_ind s) (last_rf s) (delays s) (iq_adjust s) (iq_corrections s) (iq_diff_ref s) (cal_quality
    s) (track_check_counter s) (track_last_flags s) (cal_timeout_count s) (cal_start_frame s) (tunes s) (log
    s).
Definition set_iq_comp (x : Z) (s : cal) : cal :=
  Cal (current_state s) (sync_failed_cntr s) (sync_failed_cntr_total s) (sample_compensation_cntr s) x
    (last_update_ind s) (last_rf s) (delays s) (iq_adjust s) (iq_corrections s) (iq_diff_ref s) (cal_quality
    s) (track_check_counter s) (track_last_flags s) (cal_timeout_count s) (cal_start_frame s) (tunes s) (log
    s).
Definition set_update_ind (x : Z) (s : cal) : cal :=
  Cal (current_state s) (sync_failed_cntr s) (sync_failed_cntr_total s) (sample_compensation_cntr s)
    (iq_compensation_cntr s) x (last_rf s) (delays s) (iq_adjust s) (iq_corrections s) (iq_diff_ref s)
    (cal_quality s) (track_check_counter s) (track_last_flags s) (cal_timeout_count s) (cal_start_frame s)
    (tunes s) (log s).
Definition set_last_rf (x : Z) (s : cal) : cal :=
  Cal (current_state s) (sync_failed_cntr s) (sync_failed_cntr_total s) (sample_compensation_cntr s)
    (iq_compensation_cntr s) (last_update_ind s) x (delays s) (iq_adjust s) (iq_corrections s) (iq_diff_ref s)
    (cal_quality s) (track_check_counter s) (track_last_flags s) (cal_timeout_count s) (cal_start_frame s)
    (tunes s) (log s).
Definition set_delays (x : list Z) (s : cal) : cal :=
  Cal (current_state s) (sync_failed_cntr s) (sync_failed_cntr_total s) (sample_compensation_cntr s)
    (iq_compensation_cntr s) (last_update_ind s) (last_rf s) x (iq_adjust s) (iq_corrections s) (iq_diff_ref
    s) (cal_quality s) (track_check_counter s) (track_last_flags s) (cal_timeout_count s) (cal_start_frame s)
    (tunes s) (log s).
Definition set_adjust (x : V) (s : cal) : cal :=
  Cal (current_state s) (sync_failed_cntr s) (sync_failed_cntr_total s) (sample_compensation_cntr s)
    (iq_compensation_cntr s) (last_update_ind s) (last_rf s) (delays s) x (iq_corrections s) (iq_diff_ref s)
    (cal_quality s) (track_check_counter s) (track_last_flags s) (cal_timeout_count s) (cal_start_frame s)
    (tunes s) (log s).
Definition set_corrections (x : V) (s : cal) : cal :=
  Cal (current_state s) (sync_failed_cntr s) (sync_failed_cntr_total s) (sample_compensation_cntr s)
    (iq_compensation_cntr s) (last_update_ind s) (last_rf s) (delays s) (iq_adjust s) x (iq_diff_ref s)
    (cal_quality s) (track_check_counter s) (track_last_flags s) (cal_timeout_count s) (cal_start_frame s)
    (tunes s) (log s).
Definition set_diff_ref (x : V) (s : cal) : cal :=
  Cal (current_state s) (sync_failed_cntr s) (sync_failed_cntr_total s) (sample_compensation_cntr s)
    (iq_compensation_cntr s) (last_update_ind s) (last_rf s) (delays s) (iq_adjust s) (iq_corrections s) x
    (cal_quality s) (track_check_counter s) (track_last_flags s) (cal_timeout_count s) (cal_start_frame s)
    (tunes s) (log s).
Definition set_quality (x : pynum) (s : cal) : cal :=
  Cal (current_state s) (sync_failed_cntr s) (sync_failed_cntr_total s) (sample_compensation_cntr s)
    (iq_compensation_cntr s) (last_update_ind s) (last_rf s) (delays s) (iq_adjust s) (iq_corrections s)
    (iq_diff_ref s) x (track_check_counter s) (track_last_flags s) (cal_timeout_count s) (cal_start_frame s)
    (tunes s) (log s).
Definition set_check_counter (x : Z) (s : cal) : cal :=
  Cal (current_state s) (sync_failed_cntr s) (sync_failed_cntr_total s) (sample_compensation_cntr s)
    (iq_compensation_cntr s) (last_update_ind s) (last_rf s) (delays s) (iq_adjust s) (iq_corrections s)
    (iq_diff_ref s) (cal_quality s) x (track_last_flags s) (cal_timeout_count s) (cal_start_frame s) (tunes s)
    (log s).
Definition set_last_flags (x : bool * bool) (s : cal) : cal :=
  Cal (current_state s) (sync_failed_cntr s) (sync_failed_cntr_total s) (sample_compensation_cntr s)
    (iq_compensation_cntr s) (last_update_ind s) (last_rf s) (delays s) (iq_adjust s) (iq_corrections s)
    (iq_diff_ref s) (cal_quality s) (track_check_counter s) x (cal_timeout_count s) (cal_start_frame s) (tunes
    s) (log s).
Definition set_timeout (x : Z) (s : cal) : cal :=
  Cal (current_state s) (sync_failed_cntr s) (sync_failed_cntr_total s) (sample_compensation_cntr s)
    (iq_compensation_cntr s) (last_update_ind s) (last_rf s) (delays s) (iq_adjust s) (iq_corrections s)
    (iq_diff_ref s) (cal_quality s) (track_check_counter s) (track_last_flags s) x (cal_start_frame s) (tunes
    s) (log s).
Definition set_cal_start (x : Z) (s : cal) : cal :=
  Cal (current_state s) (sync_failed_cntr s) (sync_failed_cntr_total s) (sample_compensation_cntr s)
    (iq_compensation_cntr s) (last_update_ind s) (last_rf s) (delays s) (iq_adjust s) (iq_corrections s)
    (iq_diff_ref s) (cal_quality s) (track_check_counter s) (track_last_flags s) (cal_timeout_count s) x
    (tunes s) (log s).
Definition set_tunes (x : list (list Q)) (s : cal) : cal :=
  Cal (current_state s) (sync_failed_cntr s) (sync_failed_cntr_total s) (sample_compensation_cntr s)
    (iq_compensation_cntr s) (last_update_ind s) (last_rf s) (delays s) (iq_adjust s) (iq_corrections s)
    (iq_diff_ref s) (cal_quality s) (track_check_counter s) (track_last_flags s) (cal_timeout_count s)
    (cal_start_frame s) x (log s).
Definition set_log (x : list evt) (s : cal) : cal :=
  Cal (current_state s) (sync_failed_cntr s) (sync_failed_cntr_total s) (sample_compensation_cntr s)
    (iq_compensation_cntr s) (last_update_ind s) (last_rf s) (delays s) (iq_adjust s) (iq_corrections s)
    (iq_diff_ref s) (cal_quality s) (track_check_counter s) (track_last_flags s) (cal_timeout_count s)
    (cal_start_frame s) (tunes s) x.

(** What is measured on a frame: a correlation function for each channel, the
    fractional delays in the order of [channel_list], the dynamic ranges and the
    differences of [calc_iq_sync], and whether [rtl_daq] confirms a request. *)
Record meas := Meas {
  corr_functions : list (list Q); taus : list Q; dyn_ranges : list pynum; iq_diffs : V; confirmed : bool }.

Definition flags : Type := bool * bool * Z.

Definition is_frame (ft : Z) (h : Hdr.t) : bool := frame_type h =? ft.

(** ** [STATE_SAMPLE_CAL] *)

Definition dyn_range (corr : list Q) (peak_index : Z) : Q :=
  let peak_val := nth (Z.to_nat peak_index) corr 0%Q in
  let sidelobe_val := nth (Z.to_nat ((peak_index + corr_peak_offset) mod (2 * N_proc))) corr 0%Q in
  if Qltb 0 peak_val && Qltb 0 sidelobe_val then decibel (peak_val / sidelobe_val) else 0%Q.

(** The loop over the channels: the delays, [sample_sync_flag],
    [delay_update_flag], and whether it ran to its end. *)
Fixpoint check_peaks (chs : list nat) (corr : list (list Q)) (ds : list Z) (sync upd : bool) : list Z * bool * bool * bool :=
  match chs with
  | [] => (ds, sync, upd, true)
  | m :: chs =>
      let c := nth m corr [] in
      let peak_index := argmax c in
      if Qltb (dyn_range c peak_index) min_corr_peak_dyn_range then (ds, false, false, false)
      else
        let d := N_proc - peak_index in
        let far := 1 <=? Z.abs d in
        check_peaks chs corr (<[m := d]> ds) (if far then false else sync) (if far then true else upd)
  end.

Definition sample_cal (h : Hdr.t) (m : meas) (s : cal) : cal * flags :=
  let '(ds, sync, upd, ran) := check_peaks channel_list (corr_functions m) (delays s) true false in
  let fs_ppm_offsets :=
    if ran then default [] (int_fs_ppm_offsets ds INT_FS_TUNE_GAIN MIN_FS_PPM_OFFSET MAX_FS_PPM_OFFSET)
    else replicate M 0%Q in
  let s1 := set_delays ds s in
  let s2 :=
    if upd then
      let s := set_tunes (tunes s1 ++ [fs_ppm_offsets]) s1 in
      if confirmed m then set_state STATE_SYNC_WAIT (set_update_ind (cpi_index h) s) else s
    else s1 in
  let s3 :=
    if sync then
      set_log (log s2 ++ [SAMPLE_CAL_DONE])
        (set_state STATE_FRAC_SAMPLE_CAL (set_sample_comp (sample_compensation_cntr s2 + 1) s2))
    else s2 in
  (s3, (sync, false, 2)).

(** [STATE_SYNC_WAIT] and [STATE_FRAC_SYNC_WAIT] *)
Definition sync_wait (h : Hdr.t) (s : cal) : cal :=
  if last_update_ind s + 1 =? cpi_index h then set_update_ind (last_update_ind s + 1) s else s.

(** ** [STATE_FRAC_SAMPLE_CAL] *)
Definition frac_far (m : meas) : bool :=
  existsb (fun tau => Qltb frac_delay_tolerance (Qabs tau)) (take (length channel_list) (taus m)).

Definition frac_sample_cal (h : Hdr.t) (m : meas) (s : cal) : cal * flags :=
  let offs := frac_fs_ppm_offsets (taus m) channel_list M frac_delay_tolerance FRAC_FS_TUNE_GAIN MIN_FS_PPM_OFFSET in
  let s1 :=
    if frac_far m then
      let s := set_tunes (tunes s ++ [offs]) s in
      if confirmed m then set_state STATE_FRAC_SYNC_WAIT (set_update_ind (cpi_index h) s) else s
    else set_state STATE_IQ_CAL s in
  (s1, (false, false, 3)).

(** ** [STATE_IQ_CAL] and tracking *)

(** [calc_iq_sync], the adjustment and the quality estimate *)
Definition low_range (m : meas) : bool := existsb (fun d => num_lt d (Fin min_corr_peak_dyn_range)) (dyn_ranges m).
Definition adjusted (m : meas) (s : cal) : V := vmul (iq_diffs m) (iq_adjust s).
Definition note_quality (m : meas) (s : cal) : cal :=
  match dyn_ranges m with [] => s | d :: ds => set_quality (np_min d ds) s end.

Definition iq_cal (h : Hdr.t) (m : meas) (s : cal) : cal * flags :=
  let diffs := adjusted m s in
  let s1 := if en_iq_cal then note_quality m s else s in
  let low := en_iq_cal && low_range m in
  let update := en_iq_cal && negb (low_range m) && out_of_tolerance diffs in
  let s2 :=
    if update then set_corrections (vmul (iq_corrections s1) diffs) (set_iq_comp (iq_compensation_cntr s1 + 1) s1) else s1 in
  let sample_sync := negb low in
  let iq_sync := negb low && negb update in
  let s3 := if sample_sync then s2 else set_state STATE_SAMPLE_CAL s2 in
  let s4 :=
    if sample_sync && iq_sync then
      let s := set_log (log s3 ++ [SYNC_LOCK (rf_center_freq h)]) (set_state STATE_TRACK_LOCK s3) in
      if (cal_track_mode =? 2) && en_iq_cal then set_diff_ref diffs s else s
    else s3 in
  (s4, (sample_sync, iq_sync, 4)).

Definition track_lock (h : Hdr.t) (m : meas) (s : cal) : cal * flags :=
  let s1 :=
    if is_frame FRAME_TYPE_DATA h then
      let s := note_quality m s in
      let s := if cal_track_mode =? 1 then set_diff_ref (adjusted m s) s else s in
      set_last_flags (true, true) (set_check_counter 0 (set_last_rf (rf_center_freq h) (set_state STATE_TRACK s)))
    else s in
  (s1, (true, true, 5)).

Definition track_check (h : Hdr.t) : bool :=
  (cal_track_mode =? 1) || ((cal_track_mode =? 2) && is_frame FRAME_TYPE_CAL h).

Definition decimated (h : Hdr.t) : bool :=
  track_check h && (cal_track_mode =? 1) && (1 <? track_decimation) && is_frame FRAME_TYPE_DATA h.

(** One check of the tracking: the flags it gives. *)
Definition check_flags (m : meas) (s : cal) : bool * bool :=
  (negb (low_range m), en_iq_cal && negb (out_of_tolerance (vdiv (adjusted m s) (iq_diff_ref s)))).

Definition check_failed (f : bool * bool) : bool := negb f.1 || (en_iq_cal && negb f.2).

(** The loss control: the counters and the state after a check. *)
Definition loss_control (f : bool * bool) (s : cal) : cal :=
  let s1 :=
    if check_failed f
    then set_failed (sync_failed_cntr s + 1) (set_failed_total (sync_failed_cntr_total s + 1) s)
    else set_failed (sync_failed_cntr s - 1) s in
  if sync_failed_cntr s1 =? max_sync_fails then
    set_log (log s1 ++ [SYNC_LOST (sync_failed_cntr_total s1)]) (set_failed 0 (set_state STATE_INIT s1))
  else if sync_failed_cntr s1 <? 0 then set_failed 0 s1 else s1.

Definition track (h : Hdr.t) (m : meas) (s : cal) : cal * flags :=
  let run_check := track_check h && (negb (decimated h) || (track_check_counter s mod track_decimation =? 0)) in
  let s0 := if decimated h then set_check_counter (track_check_counter s + 1) s else s in
  let '(s1, f) :=
    if run_check then
      let f := check_flags m s0 in
      (set_last_flags f (loss_control f (note_quality m s0)), f)
    else if track_check h then (s0, track_last_flags s0)
    else (s0, (true, true)) in
  if last_rf s1 =? rf_center_freq h then (s1, (f.1, f.2, 6))
  else
    (set_log (log s1 ++ [FREQ_CHANGE (last_rf s1) (rf_center_freq h)]) (set_state STATE_INIT (set_failed 0 s1)),
     (false, false, 6)).

Definition init_state (h : Hdr.t) (s : cal) : cal * flags :=
  let v := iq_adjust_at (rf_center_freq h) in
  let s1 := set_corrections v (set_adjust v s) in
  let s2 :=
    if is_frame FRAME_TYPE_CAL h then
      set_log (log s1 ++ [CAL_START (rf_center_freq h)]) (set_cal_start (cpi_index h) (set_state STATE_SAMPLE_CAL s1))
    else s1 in
  (s2, (false, false, 1)).

Definition dummy (s : cal) : cal :=
  let s1 := set_failed 0 s in
  match current_state s1 with
  | STATE_SYNC_WAIT => set_state STATE_SAMPLE_CAL s1
  | STATE_FRAC_SYNC_WAIT => set_state STATE_FRAC_SAMPLE_CAL s1
  | _ => s1
  end.

(** [_track_cal_timeout] *)
Definition _track_cal_timeout (before : fsm) (h : Hdr.t) (s : cal) : cal :=
  if bool_decide (current_state s ∈ CALIBRATION_STATES) && bool_decide (before ∈ CALIBRATION_STATES) then
    if is_frame FRAME_TYPE_CAL h then
      let s1 := set_timeout (cal_timeout_count s + 1) s in
      if cal_timeout_count s1 =? cal_timeout_frames
      then set_log (log s1 ++ [CAL_TIMEOUT before (cal_timeout_count s1)]) s1 else s1
    else s
  else set_timeout 0 s.

Definition fsm_body (h : Hdr.t) (m : meas) (s : cal) : cal * flags :=
  if is_frame FRAME_TYPE_DUMMY h then (dummy s, (false, false, 0))
  else
    match current_state s with
    | STATE_INIT => init_state h s
    | STATE_SAMPLE_CAL => sample_cal h m s
    | STATE_SYNC_WAIT => (sync_wait h s, (false, false, 3))
    | STATE_FRAC_SAMPLE_CAL => frac_sample_cal h m s
    | STATE_FRAC_SYNC_WAIT => (sync_wait h s, (false, false, 3))
    | STATE_IQ_CAL => iq_cal h m s
    | STATE_TRACK_LOCK => track_lock h m s
    | STATE_TRACK => track h m s
    end.

Definition _fsm_step (h : Hdr.t) (m : meas) (s : cal) : cal * flags :=
  let '(s1, f) := fsm_body h m s in
  (if 0 <? cal_timeout_frames then _track_cal_timeout (current_state s) h s1 else s1, f).

(** ** The frame around the machine *)

(** Continuity counters and the overrun invalidation. *)
Record cont := Cont {
  prev_cpi_index : option Z; prev_daq_block_index : option Z; prev_overrun_cnt : option Z; overrun_increased : bool;
  cpi_gaps : Z; daq_block_gaps : Z; overrun_invalidate_left : Z; overrun_invalidated_frames : Z }.

(** The relay files of the hardware controller. *)
Record relay := Relays {
  relay_counter : Z; hwc_watcher : option Relay.watcher; recal_watcher : option Recal.watcher; recal_generation : Z;
  relayed : list json }.

Record t := T { machine : cal; continuity : cont; relays : relay; last_sync_state : Z; iq_header : Hdr.t }.

Definition RELAY_POLL_FRAMES : Z := 5.

Context (track_continuity invalidate_on_overrun stamp_cal_telemetry : bool) (frames_after_overrun : Z) (stamp_node_id : option Z).

(** A decoded header has all its slots, so that [get_buffer_overrun_cnt] does
    not raise. *)
Definition overruns_of (h : Hdr.t) : Z := match get_buffer_overrun_cnt h with Ok v => v | Raise _ => 0 end.

Definition _update_continuity (h : Hdr.t) (c : cont) : cont :=
  let up := match prev_overrun_cnt c with Some p => p <? overruns_of h | None => false end in
  Cont (Some (cpi_index h)) (Some (daq_block_index h)) (Some (overruns_of h)) up
    (match prev_cpi_index c with Some p => if cpi_index h =? p + 1 then cpi_gaps c else cpi_gaps c + 1 | None => cpi_gaps c end)
    (match prev_daq_block_index c with
     | Some p => if daq_block_index h <? p then daq_block_gaps c + 1 else daq_block_gaps c
     | None => daq_block_gaps c
     end)
    (if invalidate_on_overrun && up then 1 + frames_after_overrun else overrun_invalidate_left c)
    (overrun_invalidated_frames c).

Definition _apply_wire_recal (gen : Z) (s : cal) : cal :=
  set_log (log s ++ [RECAL gen]) (set_timeout 0 (set_failed 0 (set_state STATE_INIT s))).

(** [_poll_relays]; the arguments are what the two files hold. *)
Definition _poll_relays (hwc : option json) (recal : option chars) (r : relay) (s : cal) : relay * cal :=
  let '(hw, evs) := match hwc_watcher r with
                    | Some w => let '(w, evs) := Relay.poll hwc w in (Some w, evs)
                    | None => (None, [])
                    end in
  let r1 := Relays (relay_counter r) hw (recal_watcher r) (recal_generation r) (relayed r ++ evs) in
  match recal_watcher r with
  | None => (r1, s)
  | Some w =>
      match Recal.poll recal w with
      | (w, None) => (Relays (relay_counter r1) hw (Some w) (recal_generation r1) (relayed r1), s)
      | (w, Some (_, gen, _, _)) => (Relays (relay_counter r1) hw (Some w) gen (relayed r1), _apply_wire_recal gen s)
      end
  end.

Definition _tick_relays (hwc : option json) (recal : option chars) (r : relay) (s : cal) : relay * cal :=
  match hwc_watcher r, recal_watcher r with
  | None, None => (r, s)
  | _, _ =>
      let r1 := Relays (relay_counter r + 1) (hwc_watcher r) (recal_watcher r) (recal_generation r) (relayed r) in
      if RELAY_POLL_FRAMES <=? relay_counter r1
      then _poll_relays hwc recal (Relays 0 (hwc_watcher r) (recal_watcher r) (recal_generation r) (relayed r)) s
      else (r1, s)
  end.

Definition with_sync (d i st : Z) (h : Hdr.t) : Hdr.t :=
  mk (sync_word h) (frame_type h) (hardware_id h) (unit_id h) (active_ant_chs h) (ioo_type h)
     (rf_center_freq h) (adc_sampling_freq h) (sampling_freq h) (cpi_length h) (time_stamp h)
     (daq_block_index h) (cpi_index h) (ext_integration_cntr h) (data_type h)
     (sample_bit_depth h) (adc_overdrive_flags h) (if_gains h) d i st (noise_source_state h) (reserved h) (header_version h).

Definition times1000 (x : pynum) : pynum := match x with Fin q => Fin (q * 1000) | _ => x end.

(** [_finalize_header]; the telemetry of the RF front end is not enabled. *)
Definition _finalize_header (f : flags) (s : t) (h : Hdr.t) : res (t * Hdr.t) :=
  let c := continuity s in
  let bad := 0 <? overrun_invalidate_left c in
  let c1 := if bad then Cont (prev_cpi_index c) (prev_daq_block_index c) (prev_overrun_cnt c) (overrun_increased c) (cpi_gaps c)
                          (daq_block_gaps c) (overrun_invalidate_left c - 1) (overrun_invalidated_frames c + 1) else c in
  let h1 := with_sync (if bad then 0 else Z.b2z f.1.1) (if bad then 0 else Z.b2z f.1.2) f.2 h in
  let s1 := T (machine s) c1 (relays s) f.2 h1 in
  h2 ← (if stamp_cal_telemetry then
          a ← set_cal_quality_mdb (times1000 (cal_quality (machine s))) h1;
          b ← set_iq_comp_cnt (iq_compensation_cntr (machine s)) a;
          c ← set_sample_comp_cnt (sample_compensation_cntr (machine s)) b;
          set_recal_gen (recal_generation (relays s)) c
        else Ok h1);
  h3 ← match stamp_node_id with Some crc => set_node_id_crc32 crc h2 | None => Ok h2 end;
  Ok (T (machine s1) c1 (relays s1) (last_sync_state s1) h3, h3).

(** What one frame brings besides its header. *)
Record env := Env { e_meas : meas; e_hwc : option json; e_recal : option chars }.

Definition process (h : Hdr.t) (e : env) (s : t) : res (t * Hdr.t) :=
  let c := if track_continuity then _update_continuity h (continuity s) else continuity s in
  let '(r, m) := _tick_relays (e_hwc e) (e_recal e) (relays s) (machine s) in
  let '(m1, f) := _fsm_step h (e_meas e) m in
  _finalize_header f (T m1 c r (last_sync_state s) h) h.

(** One round of [start]: the header of the frame that is sent on, or [None]
    where the main loop is left. *)
Definition start_round (bs : bytes) (e : env) (s : t) : option (t * bytes) :=
  match decode_header (iq_header s) bs with
  | (h, None) =>
      if check_sync_word h =? 0 then
        match process h e s with
        | Ok (s1, h1) => match encode_header h1 with Ok out => Some (s1, out) | Raise _ => None end
        | Raise _ => None
        end
      else None
  | (_, Some _) => None
  end.

(** Frames one after the other; the headers sent on. *)
Fixpoint run (ins : list (Hdr.t * env)) (s : t) : res (t * list Hdr.t) :=
  match ins with
  | [] => Ok (s, [])
  | (h, e) :: ins =>
      '(s1, o) ← process h e s;
      '(s2, os) ← run ins s1;
      Ok (s2, o :: os)
  end.

(** The constructor. *)
Definition start_cal (adj ones : V) : cal :=
  Cal STATE_INIT 0 0 0 0 (-3) 0 (replicate M 0) adj ones ones (Fin 0) 0 (true, true) 0 0 [] [].

Definition boot (adj ones : V) (hwc : option Relay.watcher) (recal : option Recal.watcher) : t :=
  T (start_cal adj ones) (Cont None None None false 0 0 0 0) (Relays 0 hwc recal 0 []) 0 Hdr.init.

(** ** A lock is earned *)

(** What the measurements of a frame say. *)
Definition aligned (m : meas) : Prop :=
  Forall (fun ch => let c := nth ch (corr_functions m) [] in
    argmax c = N_proc /\ Qltb (dyn_range c (argmax c)) min_corr_peak_dyn_range = false) channel_list.
Definition settled (m : meas) : Prop := frac_far m = false.
Definition matched (adj : V) (m : meas) : Prop :=
  en_iq_cal = true -> low_range m = false /\ out_of_tolerance (vmul (iq_diffs m) adj) = false.

(** How far a calibration is. *)
Definition level (st : fsm) : nat :=
  match st with
  | STATE_INIT | STATE_SAMPLE_CAL | STATE_SYNC_WAIT => 0
  | STATE_FRAC_SAMPLE_CAL | STATE_FRAC_SYNC_WAIT => 1
  | STATE_IQ_CAL => 2
  | STATE_TRACK_LOCK | STATE_TRACK => 3
  end.

Definition reaches (lv : nat) (adj : V) (m : meas) : Prop :=
  match lv with 0%nat => aligned m | 1%nat => settled m | _ => matched adj m end.

Lemma check_peaks_sync corr chs : forall ds sync upd ds' upd' ran,
  check_peaks chs corr ds sync upd = (ds', true, upd', ran) ->
  sync = true /\
  Forall (fun ch => let c := nth ch corr [] in
    argmax c = N_proc /\ Qltb (dyn_range c (argmax c)) min_corr_peak_dyn_range = false) chs.
Proof.
  induction chs as [|ch chs IH]; intros ds sync upd ds' upd' ran; cbn [check_peaks]; [by intros [= _ <- _ _]|].
  destruct (Qltb _ _) eqn:Hd; [done|]. intros H. apply IH in H as [Hs Hf].
  destruct (Z.leb_spec 1 (Z.abs (N_proc - argmax (nth ch corr [])))) as [Hl|Hl]; [done|].
  split; [done|]. constructor; [|done]. split; [lia|done].
Qed.

(** [_fsm_step] but for the timeout, which changes its counter only. *)
Lemma timeout_frame b h s :
  let s' := _track_cal_timeout b h s in
  current_state s' = current_state s /\ iq_adjust s' = iq_adjust s /\ last_rf s' = last_rf s /\
  sync_failed_cntr s' = sync_failed_cntr s /\ iq_diff_ref s' = iq_diff_ref s.
Proof. unfold _track_cal_timeout. repeat case_match; done. Qed.

Lemma fsm_step_body h m s s' f :
  _fsm_step h m s = (s', f) ->
  exists s1, fsm_body h m s = (s1, f) /\ current_state s' = current_state s1 /\ iq_adjust s' = iq_adjust s1 /\
             last_rf s' = last_rf s1 /\ sync_failed_cntr s' = sync_failed_cntr s1 /\ iq_diff_ref s' = iq_diff_ref s1.
Proof.
  unfold _fsm_step. destruct (fsm_body h m s) as [s1 f1]. intros [= <- <-]. exists s1. split; [done|].
  case_match; [apply timeout_frame|done].
Qed.

Lemma note_quality_frame m s :
  current_state (note_quality m s) = current_state s /\ iq_adjust (note_quality m s) = iq_adjust s /\
  last_rf (note_quality m s) = last_rf s /\ sync_failed_cntr (note_quality m s) = sync_failed_cntr s /\
  iq_diff_ref (note_quality m s) = iq_diff_ref s.
Proof. unfold note_quality. by destruct (dyn_ranges m). Qed.

Lemma loss_control_frame f s :
  iq_adjust (loss_control f s) = iq_adjust s /\ last_rf (loss_control f s) = last_rf s /\
  iq_diff_ref (loss_control f s) = iq_diff_ref s /\
  (current_state (loss_control f s) = STATE_INIT \/ current_state (loss_control f s) = current_state s).
Proof. unfold loss_control. repeat case_match; cbn; auto. Qed.

(** One frame takes the calibration at most one step on, and only on the
    measurement that step is about. *)
Definition advances_by (h : Hdr.t) (m : meas) (s s' : cal) : Prop :=
  current_state s' = STATE_INIT \/ (level (current_state s') <= level (current_state s))%nat \/
  (level (current_state s') = S (level (current_state s)) /\ is_frame FRAME_TYPE_DUMMY h = false /\
   reaches (level (current_state s)) (iq_adjust s) m).

Lemma sample_cal_advances h m s s' f :
  current_state s = STATE_SAMPLE_CAL -> is_frame FRAME_TYPE_DUMMY h = false -> sample_cal h m s = (s', f) ->
  f.2 = 2 /\ iq_adjust s' = iq_adjust s /\ advances_by h m s s'.
Proof.
  intros Hs Hd. unfold sample_cal, advances_by. rewrite Hs.
  destruct (check_peaks _ _ _ _ _) as [[[ds sync] upd] ran] eqn:Hc. intros [= <- <-].
  destruct sync.
  - apply check_peaks_sync in Hc as [_ Hf]. split_and!; [done| |right; right]; destruct upd, (confirmed m); done.
  - split_and!; [done| |right; left]; destruct upd, (confirmed m); cbn; rewrite ?Hs; cbn; (done || lia).
Qed.

Lemma frac_cal_advances h m s s' f :
  current_state s = STATE_FRAC_SAMPLE_CAL -> is_frame FRAME_TYPE_DUMMY h = false -> frac_sample_cal h m s = (s', f) ->
  f.2 = 3 /\ iq_adjust s' = iq_adjust s /\ advances_by h m s s'.
Proof.
  intros Hs Hd. unfold frac_sample_cal, advances_by. intros [= <- <-]. rewrite Hs. destruct (frac_far m) eqn:Hf.
  - split_and!; [done| |right; left]; destruct (confirmed m); cbn; rewrite ?Hs; cbn; (done || lia).
  - split_and!; [done|done|right; right; done].
Qed.

Lemma iq_cal_advances h m s s' f :
  current_state s = STATE_IQ_CAL -> is_frame FRAME_TYPE_DUMMY h = false -> iq_cal h m s = (s', f) ->
  f.2 = 4 /\ iq_adjust s' = iq_adjust s /\ advances_by h m s s'.
Proof.
  intros Hs Hd. unfold iq_cal, advances_by. rewrite Hs. intros [= <- <-]. split; [done|].
  destruct (note_quality_frame m s) as (Hq & Ha & _).
  destruct en_iq_cal eqn:Ei, (low_range m) eqn:El, (out_of_tolerance (adjusted m s)) eqn:Eo; cbn [andb negb];
    destruct (cal_track_mode =? 2); cbn; rewrite ?Hq, ?Ha, ?Hs; split; try done; cbn;
    try (right; left; lia); right; right; split_and!; try done; unfold matched; (congruence || by intros _).
Qed.

Lemma track_lock_advances h m s s' f :
  current_state s = STATE_TRACK_LOCK -> track_lock h m s = (s', f) ->
  f.2 = 5 /\ iq_adjust s' = iq_adjust s /\ level (current_state s') = 3%nat.
Proof.
  intros Hs. unfold track_lock. intros [= <- <-]. destruct (note_quality_frame m s) as (Hq & Ha & _).
  destruct (is_frame _ h); [|by rewrite Hs]. by destruct (cal_track_mode =? 1); cbn; rewrite ?Ha.
Qed.

(** Tracking: a check, or none; then the comparison of the frequencies. *)
Lemma track_cases h m s s' f :
  track h m s = (s', f) ->
  exists s1, iq_adjust s1 = iq_adjust s /\ last_rf s1 = last_rf s /\ iq_diff_ref s1 = iq_diff_ref s /\
             (current_state s1 = STATE_INIT \/ current_state s1 = current_state s) /\ f.2 = 6 /\
             iq_adjust s' = iq_adjust s1 /\ last_rf s' = last_rf s1 /\ iq_diff_ref s' = iq_diff_ref s1 /\
             (if last_rf s =? rf_center_freq h then current_state s' = current_state s1
              else current_state s' = STATE_INIT /\ f = (false, false, 6)).
Proof.
  unfold track. set (s0 := if decimated h then _ else _).
  assert (current_state s0 = current_state s /\ iq_adjust s0 = iq_adjust s /\ last_rf s0 = last_rf s /\
          iq_diff_ref s0 = iq_diff_ref s) as (H1 & H2 & H3 & H4) by (unfold s0; by case_match).
  destruct (note_quality_frame m s0) as (Q1 & Q2 & Q3 & _ & Q5).
  destruct (loss_control_frame (check_flags m s0) (note_quality m s0)) as (L1 & L2 & L3 & L4).
  destruct (track_check h && _); [|destruct (track_check h)].
  - cbn [last_rf set_last_flags]. rewrite L2, Q3, H3. intros Hx.
    exists (set_last_flags (check_flags m s0) (loss_control (check_flags m s0) (note_quality m s0))).
    cbn. rewrite L1, L2, L3, Q2, Q3, Q5, H2, H3, H4. rewrite Q1, H1 in L4.
    destruct (last_rf s =? _); injection Hx as <- <-; cbn; rewrite ?L1, ?L2, ?L3, ?Q2, ?Q3, ?Q5; auto 10.
  - intros Hx. rewrite H3 in Hx. exists s0. rewrite H1, H2, H3, H4.
    destruct (last_rf s =? _); injection Hx as <- <-; cbn; auto 10.
  - intros Hx. rewrite H3 in Hx. exists s0. rewrite H1, H2, H3, H4.
    destruct (last_rf s =? _); injection Hx as <- <-; cbn; auto 10.
Qed.

Lemma body_level h m s s' f :
  fsm_body h m s = (s', f) ->
  (5 <= f.2 -> level (current_state s) = 3%nat) /\
  match current_state s with
  | STATE_INIT =>
      current_state s' = STATE_INIT \/
      (current_state s' = STATE_SAMPLE_CAL /\ is_frame FRAME_TYPE_CAL h = true /\ iq_adjust s' = iq_adjust_at (rf_center_freq h))
  | _ => f.2 <> 1 /\ iq_adjust s' = iq_adjust s /\ advances_by h m s s'
  end.
Proof.
  unfold fsm_body. destruct (is_frame FRAME_TYPE_DUMMY h) eqn:Hd.
  { intros [= <- <-]. split; [done|]. unfold dummy, advances_by. cbn.
    destruct (current_state s) eqn:Hs; cbn; rewrite ?Hs; cbn; split_and?; try done; auto; try (right; left; lia). }
  destruct (current_state s) eqn:Hs.
  - unfold init_state. intros [= <- <-]. split; [done|]. destruct (is_frame FRAME_TYPE_CAL h); cbn; auto.
  - intros H. apply sample_cal_advances in H as (-> & Ha & Hb); auto. split; [lia|]. by split.
  - intros [= <- <-]. split; [done|]. unfold sync_wait, advances_by. split_and!; [done|by case_match|].
    case_match; cbn; rewrite Hs; cbn; auto.
  - intros H. apply frac_cal_advances in H as (-> & Ha & Hb); auto. split; [lia|]. by split.
  - intros [= <- <-]. split; [done|]. unfold sync_wait, advances_by. split_and!; [done|by case_match|].
    case_match; cbn; rewrite Hs; cbn; auto.
  - intros H. apply iq_cal_advances in H as (-> & Ha & Hb); auto. split; [lia|]. by split.
  - intros H. apply track_lock_advances in H as (-> & Ha & Hb); [|done]. split; [done|]. unfold advances_by. rewrite Hb, Hs. auto.
  - intros H. apply track_cases in H as (s1 & Ha & _ & _ & Hc & -> & Ha' & _ & _ & H). split; [done|].
    split; [done|]. split; [congruence|]. unfold advances_by. rewrite Hs.
    destruct (last_rf s =? _); [rewrite H; destruct Hc as [-> | ->]; rewrite ?Hs; cbn; auto|destruct H as [-> _]; auto].
Qed.

(** ** Runs *)
Lemma set_u32_reserved k v h h' : _set_u32 k v h = Ok h' -> exists r, h' = with_reserved h r.
Proof. intros [_ ->]%set_u32_spec. by eexists. Qed.

Lemma with_reserved_twice h r r' : with_reserved (with_reserved h r) r' = with_reserved h r'.
Proof. done. Qed.

Definition invalid (s : t) : bool := 0 <? overrun_invalidate_left (continuity s).

(** The header that is sent differs from the one that came in the sync fields
    and in reserved slots only. *)
Lemma finalize_ok f s h s' o :
  _finalize_header f s h = Ok (s', o) ->
  machine s' = machine s /\ relays s' = relays s /\
  overrun_invalidate_left (continuity s') = (if invalid s then overrun_invalidate_left (continuity s) - 1 else overrun_invalidate_left (continuity s)) /\
  prev_overrun_cnt (continuity s') = prev_overrun_cnt (continuity s) /\
  exists r, o = with_reserved (with_sync (if invalid s then 0 else Z.b2z f.1.1) (if invalid s then 0 else Z.b2z f.1.2) f.2 h) r.
Proof.
  unfold _finalize_header. fold (invalid s). set (h1 := with_sync _ _ _ h).
  intros (h2 & H2 & (h3 & H3 & [= <- <-])%res_bind_ok)%res_bind_ok. cbn.
  split_and!; [done|done|by destruct (invalid s)|by destruct (invalid s)|].
  assert (exists r, h2 = with_reserved h1 r) as [r ->].
  { destruct stamp_cal_telemetry; [|injection H2 as <-; by exists (reserved h1)].
    apply res_bind_ok in H2 as (a & [ra ->]%set_u32_reserved & (b & [rb ->]%set_u32_reserved & (c & [rc ->]%set_u32_reserved & [rd ->]%set_u32_reserved)%res_bind_ok)%res_bind_ok).
    by exists rd. }
  destruct stamp_node_id as [crc|]; [|injection H3 as <-; by exists r].
  apply set_u32_reserved in H3 as [r' ->]. by exists r'.
Qed.

Lemma run_app a b s : run (a ++ b) s = ('(s1, os) ← run a s; '(s2, os') ← run b s1; Ok (s2, os ++ os')).
Proof.
  revert s. induction a as [|[h e] a IH]; intros s; cbn [app run].
  - cbn. destruct (run b s) as [[s2 os]|]; done.
  - destruct (process h e s) as [[s1 o]|]; cbn; [|done]. rewrite IH. destruct (run a s1) as [[s2 os]|]; cbn; [|done].
    destruct (run b s2) as [[s3 os']|]; done.
Qed.

Lemma run_length ins s s' os : run ins s = Ok (s', os) -> length os = length ins.
Proof.
  revert s os. induction ins as [|[h e] ins IH]; intros s os; cbn [run]; [by intros [= _ <-]|].
  intros ([s1 o] & Hp & ([s2 os1] & Hr & [= <- <-])%res_bind_ok)%res_bind_ok. cbn. f_equal. by eapply IH.
Qed.

Lemma run_snoc ins h e s s' os :
  run (ins ++ [(h, e)]) s = Ok (s', os) ->
  exists s1 os1 o, run ins s = Ok (s1, os1) /\ process h e s1 = Ok (s', o) /\ os = os1 ++ [o].
Proof.
  rewrite run_app. intros ([s1 os1] & Hr & ([s2 os2] & Hp & [= <- <-])%res_bind_ok)%res_bind_ok.
  cbn [run] in Hp. apply res_bind_ok in Hp as ([s3 o] & Hp & [= <- <-]). by exists s1, os1, o.
Qed.

(** A frame: the machine of the frame before, perhaps sent back to
    [STATE_INIT] by a request, makes one step. *)
Lemma process_cases h e s s' o :
  process h e s = Ok (s', o) ->
  exists m f r, (m = machine s \/ exists g, m = _apply_wire_recal g (machine s)) /\
    _fsm_step h (e_meas e) m = (machine s', f) /\ sync_state o = f.2 /\ rf_center_freq o = rf_center_freq h /\
    (delay_sync_flag o = 1 -> f.1.1 = true) /\ (iq_sync_flag o = 1 -> f.1.2 = true) /\ relays s' = r.
Proof.
  unfold process. destruct (_tick_relays _ _ _ _) as [r m] eqn:Ht. destruct (_fsm_step _ _ _) as [m1 f] eqn:Hf.
  intros (Hm & Hr & _ & _ & x & ->)%finalize_ok. cbn in Hm, Hr. rewrite Hm. exists m, f, r. split_and!; try done.
  - unfold _tick_relays, _poll_relays in Ht. repeat case_match; simplify_eq; eauto.
  - cbn. case_match; [done|]. by destruct f.1.1.
  - cbn. case_match; [done|]. by destruct f.1.2.
Qed.

(** *** The history of a calibration *)
Definition input : Type := Hdr.t * env.

Definition measured (ins : list input) (i : nat) (P : meas -> Prop) : Prop :=
  exists h e, ins !! i = Some (h, e) /\ is_frame FRAME_TYPE_DUMMY h = false /\ P (e_meas e).

(** Frame [c] started a calibration with the adjustment vector [adj], and none
    was started since. *)
Definition begun (ins : list input) (os : list Hdr.t) (adj : V) (c : nat) : Prop :=
  (exists h e, ins !! c = Some (h, e) /\ is_frame FRAME_TYPE_CAL h = true /\ adj = iq_adjust_at (rf_center_freq h)) /\
  forall x o, (c < x)%nat -> os !! x = Some o -> sync_state o <> 1.

(** The steps of the calibration that were made since frame [c]. *)
Definition steps_made (lv : nat) (ins : list input) (adj : V) (c : nat) : Prop :=
  match lv with
  | 0%nat => True
  | 1%nat => exists j, (c < j)%nat /\ measured ins j aligned
  | 2%nat => exists j k, (c < j < k)%nat /\ measured ins j aligned /\ measured ins k settled
  | _ => exists j k l, (c < j < k)%nat /\ (k < l)%nat /\ measured ins j aligned /\ measured ins k settled /\ measured ins l (matched adj)
  end.

Lemma measured_snoc ins x i P : measured ins i P -> measured (ins ++ [x]) i P.
Proof. intros (h & e & H & ?). exists h, e. split; [by apply lookup_app_l_Some|done]. Qed.

Lemma steps_made_snoc lv ins adj c x : steps_made lv ins adj c -> steps_made lv (ins ++ [x]) adj c.
Proof. destruct lv as [|[|[|lv]]]; cbn; naive_solver eauto using measured_snoc. Qed.

Lemma steps_made_le lv lv' ins adj c : (lv' <= lv)%nat -> (lv <= 3)%nat -> steps_made lv ins adj c -> steps_made lv' ins adj c.
Proof.
  intros Hl H3. destruct lv as [|[|[|[|lv]]]]; [| | | |lia]; destruct lv' as [|[|[|[|lv']]]]; try lia; cbn; try done; naive_solver eauto with lia.
Qed.

Lemma steps_made_more lv ins adj c h e :
  (lv < 3)%nat -> (c < length ins)%nat -> steps_made lv ins adj c -> is_frame FRAME_TYPE_DUMMY h = false -> reaches lv adj (e_meas e) ->
  steps_made (S lv) (ins ++ [(h, e)]) adj c.
Proof.
  intros Hl Hc Hs Hd Hr.
  assert (forall P : meas -> Prop, P (e_meas e) -> measured (ins ++ [(h, e)]) (length ins) P) as Hn
    by (intros P HP; exists h, e; split; [by apply list_lookup_middle|done]).
  assert (forall i P, measured ins i P -> (i < length ins)%nat) as Hi
    by (intros i P (? & ? & ? & _); by eapply lookup_lt_Some).
  destruct lv as [|[|[|lv]]]; [| | |lia]; cbn in *.
  - exists (length ins). auto.
  - destruct Hs as (j & Hj & Hm). exists j, (length ins). pose proof (Hi _ _ Hm). split; [lia|]. auto using measured_snoc.
  - destruct Hs as (j & k & Hj & Hm & Hk). exists j, k, (length ins). pose proof (Hi _ _ Hk). split_and!; try lia; auto using measured_snoc.
Qed.

Lemma begun_snoc ins os adj c x o :
  length os = length ins -> begun ins os adj c -> sync_state o <> 1 -> begun (ins ++ [x]) (os ++ [o]) adj c.
Proof.
  intros Hlen [(h & e & Hi & Hc) Hn] Ho. split; [exists h, e; split; [by apply lookup_app_l_Some|done]|].
  intros y o' Hy [Ho'|[Hl Ho']]%lookup_app_Some; [by eapply Hn|]. apply list_lookup_singleton_Some in Ho' as [_ <-]. done.
Qed.

Definition earned (ins : list input) (os : list Hdr.t) (s : cal) : Prop :=
  current_state s = STATE_INIT \/
  exists c, (c < length ins)%nat /\ begun ins os (iq_adjust s) c /\ steps_made (level (current_state s)) ins (iq_adjust s) c.

Lemma earned_recal ins os s m : m = s \/ (exists g, m = _apply_wire_recal g s) -> earned ins os s -> earned ins os m.
Proof. intros [-> | [g ->]]; [done|]. by left. Qed.

Lemma level_le st : (level st <= 3)%nat.
Proof. destruct st; cbn; lia. Qed.

Lemma earned_frame ins os h e s s' f o :
  length os = length ins -> _fsm_step h (e_meas e) s = (s', f) -> sync_state o = f.2 ->
  earned ins os s -> earned (ins ++ [(h, e)]) (os ++ [o]) s'.
Proof.
  intros Hlen (s1 & Hb & Hst & Hadj & _)%fsm_step_body Ho He. apply body_level in Hb as [_ Hb]. unfold earned.
  rewrite Hst, Hadj. clear Hst Hadj s'. destruct (decide (current_state s1 = STATE_INIT)) as [|Hn]; [by left|]. right.
  destruct (decide (current_state s = STATE_INIT)) as [Hi|Hi].
  - rewrite Hi in Hb. destruct Hb as [|(Hs & Hc & Ha)]; [done|]. exists (length ins). rewrite length_app, Hs. cbn.
    split_and!; [lia|split|done].
    + exists h, e. split; [by apply list_lookup_middle|]. by split.
    + intros x o' Hx Hl. apply lookup_lt_Some in Hl. rewrite length_app in Hl. cbn in Hl. lia.
  - assert (f.2 <> 1 /\ iq_adjust s1 = iq_adjust s /\ advances_by h (e_meas e) s s1) as (Hf & Ha & Hadv) by (by destruct (current_state s)).
    destruct He as [|(c & Hc & Hbg & Hm)]; [done|]. rewrite Ha. exists c. rewrite length_app.
    split_and!; [cbn; lia|apply begun_snoc; [done|done|by rewrite Ho]|].
    destruct Hadv as [|[Hle|(Hs & Hd & Hr)]]; [done| |].
    + apply steps_made_snoc. by eapply steps_made_le; [exact Hle|apply level_le|].
    + rewrite Hs. apply steps_made_more; try done. pose proof (level_le (current_state s1)). lia.
Qed.

Lemma run_earned ins adj ones hwc recal s os :
  run ins (boot adj ones hwc recal) = Ok (s, os) -> earned ins os (machine s).
Proof.
  revert s os. induction ins as [|[h e] ins IH] using rev_ind; intros s os.
  { intros [= <- <-]. by left. }
  intros (s1 & os1 & o & Hr & Hp & ->)%run_snoc. apply process_cases in Hp as (m & f & r & Hm & Hs & Ho & _).
  eapply earned_frame; [by eapply run_length|exact Hs|done|]. eapply earned_recal; [exact Hm|]. by apply IH.
Qed.

(** The state before the frame whose header is the [i]-th sent. *)
Lemma run_at ins s0 s os i o :
  run ins s0 = Ok (s, os) -> os !! i = Some o ->
  exists h e s1 s2, ins !! i = Some (h, e) /\ run (take i ins) s0 = Ok (s1, take i os) /\ process h e s1 = Ok (s2, o).
Proof.
  intros Hr Ho. pose proof (run_length _ _ _ _ Hr) as Hlen. pose proof (lookup_lt_Some _ _ _ Ho) as Hi.
  destruct (lookup_lt_is_Some_2 ins i) as [[h e] Hin]; [lia|]. exists h, e.
  pose proof Hr as Hr'. rewrite <- (take_drop_middle ins i (h, e) Hin), run_app in Hr'.
  apply res_bind_ok in Hr' as ([s1 os1] & H1 & ([s3 os3] & H2 & [= <- <-])%res_bind_ok).
  cbn [run] in H2. apply res_bind_ok in H2 as ([s2 o'] & Hp & ([s4 os4] & _ & [= <- <-])%res_bind_ok).
  pose proof (run_length _ _ _ _ H1) as Hl1. rewrite length_take in Hl1. assert (length os1 = i) as El by lia.
  rewrite <- El, list_lookup_middle in Ho by done. injection Ho as <-.
  exists s1, s2. split_and!; [done| |done]. rewrite H1. by rewrite <- El, take_app_length.
Qed.


Lemma iq_cal_state h m s s' f :
  current_state s = STATE_IQ_CAL -> iq_cal h m s = (s', f) ->
  current_state s' ∈ [STATE_SAMPLE_CAL; STATE_IQ_CAL; STATE_TRACK_LOCK] /\ f.2 = 4.
Proof.
  intros Hs. unfold iq_cal. intros [= <- <-]. destruct (note_quality_frame m s) as (Hq & _).
  destruct en_iq_cal, (low_range m), (out_of_tolerance (adjusted m s)); cbn [andb negb]; destruct (cal_track_mode =? 2);
    cbn; rewrite ?Hq, ?Hs; split; try done; set_solver.
Qed.

(** ** Tracking *)

(** The machine is in [STATE_TRACK] after a frame that was announced as locked,
    or after one of the tracking itself. *)
Lemma body_track h m s s' f :
  fsm_body h m s = (s', f) ->
  (current_state s' = STATE_TRACK ->
   (f.2 = 5 /\ last_rf s' = rf_center_freq h) \/
   (current_state s = STATE_TRACK /\ last_rf s' = last_rf s /\ (f.2 = 0 \/ f.2 = 6))) /\
  (f.2 = 6 -> f.1.1 = true \/ f.1.2 = true -> current_state s = STATE_TRACK /\ last_rf s = rf_center_freq h).
Proof.
  unfold fsm_body. destruct (is_frame FRAME_TYPE_DUMMY h).
  { intros [= <- <-]. split; [|done]. unfold dummy. cbn. destruct (current_state s) eqn:Hs; cbn; rewrite ?Hs; auto; done. }
  destruct (current_state s) eqn:Hs.
  - unfold init_state. intros [= <- <-]. split; [|done]. destruct (is_frame _ h); cbn; congruence.
  - unfold sample_cal. destruct (check_peaks _ _ _ _ _) as [[[ds sync] upd] ran]. intros [= <- <-]. split; [|done].
    destruct sync, upd, (confirmed m); cbn; congruence.
  - intros [= <- <-]. split; [|done]. unfold sync_wait. case_match; cbn; congruence.
  - unfold frac_sample_cal. intros [= <- <-]. split; [|done]. destruct (frac_far m), (confirmed m); cbn; congruence.
  - intros [= <- <-]. split; [|done]. unfold sync_wait. case_match; cbn; congruence.
  - intros Hx. apply iq_cal_state in Hx as [Hx ->]; [|done]. split; [|done]. intros E. rewrite E in Hx. by apply list_elem_of_In in Hx as [|[|[|[]]]].
  - unfold track_lock. intros [= <- <-]. split; [|done]. destruct (is_frame _ h); [|congruence]. by left.
  - intros (s1 & _ & Hl & _ & Hc & Hf & _ & Hl' & _ & H)%track_cases. split.
    + intros E. right. rewrite Hl', Hl. auto.
    + intros _ Hfl. destruct (Z.eqb_spec (last_rf s) (rf_center_freq h)) as [E|]; [done|]. destruct H as [_ ->]. by destruct Hfl.
Qed.

Definition tracking (os : list Hdr.t) (s : cal) : Prop :=
  current_state s = STATE_TRACK ->
  exists p op, os !! p = Some op /\ sync_state op = 5 /\ rf_center_freq op = last_rf s /\
    forall x o, (p < x)%nat -> os !! x = Some o -> sync_state o = 0 \/ sync_state o = 6.

Lemma tracking_frame h m s s' f os o :
  _fsm_step h m s = (s', f) -> sync_state o = f.2 -> rf_center_freq o = rf_center_freq h -> tracking os s -> tracking (os ++ [o]) s'.
Proof.
  intros (s1 & Hb & Hst & _ & Hrf & _)%fsm_step_body Ho Hr Ht E. rewrite Hst in E. rewrite Hrf.
  apply body_track in Hb as [Hb _]. destruct (Hb E) as [[Hf Hl]|(Hs & Hl & Hf)].
  - exists (length os), o. split_and!; [by apply list_lookup_middle|congruence|congruence|].
    intros x o' Hx Hl'%lookup_lt_Some. rewrite length_app in Hl'. cbn in Hl'. lia.
  - destruct (Ht Hs) as (p & op & Hp & H5 & Hrp & Hn). exists p, op.
    split_and!; [by apply lookup_app_l_Some|done|congruence|].
    intros x o' Hx [Ho'|[_ Ho']]%lookup_app_Some; [by eapply Hn|]. apply list_lookup_singleton_Some in Ho' as [_ <-]. by rewrite Ho.
Qed.

Lemma run_tracking ins adj ones hwc recal s os :
  run ins (boot adj ones hwc recal) = Ok (s, os) -> tracking os (machine s).
Proof.
  revert s os. induction ins as [|[h e] ins IH] using rev_ind; intros s os; [by intros [= <- <-]|].
  intros (s1 & os1 & o & Hr & Hp & ->)%run_snoc. apply process_cases in Hp as (m & f & r & Hm & Hs & Ho & Hrf & _).
  eapply tracking_frame; [done..|]. destruct Hm as [-> | [g ->]]; [by apply IH|done].
Qed.

(** [C28] While tracking, synchronism is claimed at one frequency only: a frame with
    sync state 6 and one of its flags set has the centre frequency of the frame
    with which the tracking began, the last one with sync state 5.  A retune
    while tracking is noticed on its first frame. *)
Theorem claims_at_one_frequency ins adj ones hwc recal s os i o :
  run ins (boot adj ones hwc recal) = Ok (s, os) -> os !! i = Some o ->
  sync_state o = 6 -> delay_sync_flag o = 1 \/ iq_sync_flag o = 1 ->
  exists p op, (p < i)%nat /\ os !! p = Some op /\ sync_state op = 5 /\ rf_center_freq op = rf_center_freq o /\
    forall x o', (p < x <= i)%nat -> os !! x = Some o' -> sync_state o' = 0 \/ sync_state o' = 6.
Proof.
  intros Hr Ho H6 Hfl. pose proof (run_at _ _ _ _ _ _ Hr Ho) as (h & e & s1 & s2 & Hi & Hr1 & Hp).
  pose proof (run_tracking _ _ _ _ _ _ _ Hr1) as Ht.
  apply process_cases in Hp as (m & f & r & Hm & Hs & Hf & Hrf & Hd & Hq & _).
  apply fsm_step_body in Hs as (m1 & Hb & _). apply body_track in Hb as [_ Hb].
  destruct Hb as [Hst Hl]; [congruence|by destruct Hfl; auto|].
  destruct Hm as [-> | [g ->]]; [|done]. destruct (Ht Hst) as (p & op & [Hp Hpi]%lookup_take_Some & H5 & Hrp & Hn).
  exists p, op. split_and!; try done; [congruence|]. intros x o' Hx Hxo.
  destruct (decide (x = i)) as [-> | Hne]; [rewrite Ho in Hxo; injection Hxo as <-; auto|].
  apply (Hn x); [lia|]. rewrite lookup_take_lt by lia. done.
Qed.

(** *** Loss of tracking *)

(** Failed checks less passed ones. *)
Definition net (l : list bool) : Z := foldr (fun b n => (if b : bool then 1 else -1) + n) 0 l.

Lemma net_app a b : net (a ++ b) = net a + net b.
Proof. induction a as [|x a IH]; cbn; [done|]. fold (net (a ++ b)) (net a). lia. Qed.

(** The counter as it is without a limit: it never falls below zero. *)
Definition bucket (l : list bool) : Z := foldl (fun c b => Z.max 0 (c + if b : bool then 1 else -1)) 0 l.

Lemma bucket_snoc l b : bucket (l ++ [b]) = Z.max 0 (bucket l + if b then 1 else -1).
Proof. unfold bucket. by rewrite foldl_app. Qed.

Lemma bucket_nonneg l : 0 <= bucket l.
Proof. destruct l as [|b l _] using rev_ind; [done|]. rewrite bucket_snoc. lia. Qed.

(** It is the largest net count of a suffix. *)
Lemma bucket_suffix l :
  (exists a, (a <= length l)%nat /\ bucket l = net (drop a l)) /\ forall a, net (drop a l) <= bucket l.
Proof.
  induction l as [|b l [(a & Ha & IH) IHle]] using rev_ind; [split; [by exists 0%nat|intros a; by rewrite drop_nil]|].
  rewrite bucket_snoc. pose proof (bucket_nonneg l). split.
  - destruct (Z.leb_spec 0 (bucket l + if b then 1 else -1)).
    + exists a. rewrite length_app, drop_app_le by done. split; [cbn; lia|]. rewrite net_app, Z.max_r, IH by lia. cbn. lia.
    + exists (length (l ++ [b])). split; [done|]. rewrite drop_all. cbn. lia.
  - intros c. destruct (Nat.leb_spec c (length l)).
    + rewrite drop_app_le by done. rewrite net_app. specialize (IHle c). destruct b; cbn; lia.
    + rewrite drop_ge by (rewrite length_app; cbn; lia). cbn. lia.
Qed.

(** Frames that are checked while tracking. *)
Definition checked (s : cal) (x : Hdr.t * meas) : Prop :=
  is_frame FRAME_TYPE_DUMMY x.1 = false /\ track_check x.1 = true /\ decimated x.1 = false /\ rf_center_freq x.1 = last_rf s.

Definition verdict (s : cal) (x : Hdr.t * meas) : bool := check_failed (check_flags x.2 s).

Definition steps (xs : list (Hdr.t * meas)) (s : cal) : cal := foldl (fun s x => (_fsm_step x.1 x.2 s).1) s xs.

Lemma checked_step s0 x s :
  current_state s = STATE_TRACK -> last_rf s = last_rf s0 -> iq_adjust s = iq_adjust s0 -> iq_diff_ref s = iq_diff_ref s0 ->
  checked s0 x ->
  let s' := (_fsm_step x.1 x.2 s).1 in
  let n := sync_failed_cntr s + if verdict s0 x then 1 else -1 in
  last_rf s' = last_rf s0 /\ iq_adjust s' = iq_adjust s0 /\ iq_diff_ref s' = iq_diff_ref s0 /\
  if n =? max_sync_fails then current_state s' = STATE_INIT
  else current_state s' = STATE_TRACK /\ sync_failed_cntr s' = Z.max 0 n.
Proof.
  destruct x as [h m]. intros Hs Hl Ha Hr (Hd & Ht & Hdec & Hrf). cbn [fst snd] in *. cbv zeta.
  destruct (_fsm_step h m s) as [s' f] eqn:Hx. cbn [fst].
  apply fsm_step_body in Hx as (s1 & Hb & -> & -> & -> & -> & ->). unfold fsm_body in Hb. rewrite Hd, Hs in Hb.
  unfold track in Hb. rewrite Hdec, Ht in Hb. cbn [negb orb andb] in Hb.
  assert (check_flags m s = check_flags m s0) as Hc by (unfold check_flags, adjusted; by rewrite Ha, Hr).
  rewrite Hc in Hb. unfold verdict. cbn [snd]. set (f0 := check_flags m s0) in *.
  destruct (note_quality_frame m s) as (Q1 & Q2 & Q3 & Q4 & Q5).
  destruct (loss_control_frame f0 (note_quality m s)) as (L1 & L2 & L3 & _).
  cbn [last_rf set_last_flags] in Hb. rewrite L2, Q3, Hl, Hrf, Z.eqb_refl in Hb. injection Hb as <- _.
  cbn. rewrite L1, L2, L3, Q2, Q3, Q5. split_and!; try done.
  unfold loss_control. destruct (check_failed f0); cbn; rewrite Q4; [|replace (sync_failed_cntr s - 1) with (sync_failed_cntr s + -1) by lia];
    (destruct (_ =? max_sync_fails); [done|]); (case_match eqn:E; [apply Z.ltb_lt in E|apply Z.ltb_ge in E]); cbn;
    rewrite ?Q1, ?Q4; (split; [done|lia]).
Qed.

(** As long as the bucket never reached the limit, the machine tracks, with the
    bucket in its counter. *)
Lemma steps_bucket s xs :
  1 <= max_sync_fails -> current_state s = STATE_TRACK -> sync_failed_cntr s = 0 -> Forall (checked s) xs ->
  (forall n, bucket (take n (map (verdict s) xs)) < max_sync_fails) ->
  current_state (steps xs s) = STATE_TRACK /\ sync_failed_cntr (steps xs s) = bucket (map (verdict s) xs) /\
  last_rf (steps xs s) = last_rf s /\ iq_adjust (steps xs s) = iq_adjust s /\ iq_diff_ref (steps xs s) = iq_diff_ref s.
Proof.
  intros Hm Hs H0. induction xs as [|x xs IH] using rev_ind; intros Hc Hb; [done|].
  apply Forall_app in Hc as [Hc [Hx _]%list.Forall_cons]. rewrite map_app in Hb.
  destruct IH as (I1 & I2 & I3 & I4 & I5); [done| |].
  { intros n. destruct (Nat.leb_spec n (length xs)).
    - specialize (Hb n). by rewrite take_app_le in Hb by (by rewrite length_map).
    - rewrite take_ge by (rewrite length_map; lia). specialize (Hb (length xs)).
      by rewrite take_app_length' in Hb by (by rewrite length_map). }
  unfold steps. rewrite foldl_app. cbn [foldl]. fold (steps xs s).
  pose proof (checked_step s x (steps xs s) I1 I3 I4 I5 Hx) as (S1 & S2 & S3 & S4). cbv zeta in S4. rewrite I2 in S4.
  specialize (Hb (S (length xs))). rewrite take_ge in Hb by (rewrite length_app, length_map; cbn; lia).
  cbn [map] in Hb. rewrite bucket_snoc in Hb. rewrite map_app. cbn [map]. rewrite bucket_snoc.
  destruct (Z.eqb_spec (bucket (map (verdict s) xs) + if verdict s x then 1 else -1) max_sync_fails) as [E|_]; [lia|].
  destruct S4. auto.
Qed.

Lemma bucket_step l b : bucket (l ++ [b]) <= bucket l + 1.
Proof. rewrite bucket_snoc. pose proof (bucket_nonneg l). destruct b; lia. Qed.

(** Where the bucket reaches the limit it does so exactly. *)
Lemma bucket_reaches k l :
  1 <= k -> ~ (forall n, bucket (take n l) < k) ->
  exists l1 b l2, l = l1 ++ b :: l2 /\ bucket (l1 ++ [b]) = k /\ forall n, bucket (take n l1) < k.
Proof.
  intros Hk. induction l as [|b l IH] using rev_ind; intros Hn.
  { destruct Hn. intros n. rewrite take_nil. cbn. lia. }
  destruct (decide (Forall (fun n => bucket (take n l) < k) (seq 0 (S (length l))))) as [Hall|Hall].
  - assert (forall n, bucket (take n l) < k) as Hl.
    { intros n. destruct (Nat.leb_spec n (length l)).
      - rewrite list.Forall_forall in Hall. apply Hall, list_elem_of_In, in_seq. lia.
      - rewrite take_ge by lia. rewrite list.Forall_forall in Hall. specialize (Hall (length l)).
        rewrite take_ge in Hall by lia. apply Hall, list_elem_of_In, in_seq. lia. }
    exists l, b, []. split_and!; [done| |done]. pose proof (bucket_step l b) as Hs. specialize (Hl (length l)) as Hll. rewrite firstn_all in Hll.
    destruct (Z.ltb_spec (bucket (l ++ [b])) k) as [Hlt|]; [|lia]. destruct Hn. intros n.
    destruct (Nat.leb_spec n (length l)); [rewrite take_app_le by done; apply Hl|].
    rewrite take_ge by (rewrite length_app; cbn; lia). done.
  - destruct IH as (l1 & c & l2 & -> & H1 & H2).
    + intros Hc. apply Hall, list.Forall_forall. auto.
    + exists l1, c, (l2 ++ [b]). by rewrite <- app_assoc.
Qed.

(** [C27] Tracking is lost exactly when the failed checks of some stretch of frames
    exceed the passed ones by [maximum_sync_fails]: for frames that are
    checked one after the other from a fresh counter on, the machine goes back
    to [STATE_INIT] at one of them if and only if there is such a stretch. *)
Theorem tracking_lost_iff s xs :
  1 <= max_sync_fails -> current_state s = STATE_TRACK -> sync_failed_cntr s = 0 -> Forall (checked s) xs ->
  (exists n, (n <= length xs)%nat /\ current_state (steps (take n xs) s) = STATE_INIT) <->
  (exists a n, max_sync_fails <= net (take n (drop a (map (verdict s) xs)))).
Proof.
  intros Hm Hs H0 Hc. set (l := map (verdict s) xs).
  assert (forall n, Forall (checked s) (take n xs)) as Hct by (intros n; by apply Forall_take).
  split.
  - intros (n & Hn & Hi). destruct (decide (Forall (fun i => bucket (take i l) < max_sync_fails) (seq 0 (S (length l))))) as [Ha|Ha].
    + destruct (steps_bucket s (take n xs) Hm Hs H0 (Hct n)) as [E _]; [|congruence]. intros i.
      rewrite <- firstn_map, take_take. rewrite list.Forall_forall in Ha. fold l.
      destruct (Nat.leb_spec (Nat.min i n) (length l)); [apply Ha, list_elem_of_In, in_seq; lia|].
      rewrite take_ge by lia. specialize (Ha (length l)). rewrite take_ge in Ha by lia. apply Ha, list_elem_of_In, in_seq. lia.
    + apply not_Forall_Exists, Exists_exists in Ha as (i & _ & Hi'); [|apply _].
      destruct (bucket_suffix (take i l)) as [(a & Hal & Hb) _]. assert (max_sync_fails <= bucket (take i l)) as Hge by (apply Z.nlt_ge; exact Hi'). exists a, (i - a)%nat.
      rewrite take_drop_commute. replace (a + (i - a))%nat with i; [lia|]. rewrite length_take in Hal. lia.
  - intros (a & n & Hw). rewrite take_drop_commute in Hw. destruct (bucket_suffix (take (a + n) l)) as [_ Hle]. specialize (Hle a).
    destruct (bucket_reaches max_sync_fails l Hm) as (l1 & b & l2 & El & Hb & Hlt); [intros Hall; specialize (Hall (a + n)%nat); lia|].
    unfold l in El. apply map_eq_app in El as (x1 & x2 & -> & <- & E2). destruct x2 as [|x x2]; [done|]. injection E2 as <- E2.
    exists (S (length x1)). split; [rewrite length_app; cbn; lia|].
    rewrite take_app_ge, Nat.sub_succ_l, Nat.sub_diag by lia. cbn [take]. unfold steps. rewrite foldl_app. cbn [foldl]. fold (steps x1 s).
    apply Forall_app in Hc as [Hc1 [Hx _]%list.Forall_cons].
    destruct (steps_bucket s x1 Hm Hs H0 Hc1 Hlt) as (I1 & I2 & I3 & I4 & I5).
    pose proof (checked_step s x (steps x1 s) I1 I3 I4 I5 Hx) as (_ & _ & _ & S4). cbv zeta in S4. rewrite I2 in S4.
    rewrite bucket_snoc in Hb. destruct (Z.eqb_spec (bucket (map (verdict s) x1) + if verdict s x then 1 else -1) max_sync_fails); [done|lia].
Qed.

(** ** Overruns *)
Definition left_of (s : t) : Z := overrun_invalidate_left (continuity s).

Lemma process_left h e s s' o :
  process h e s = Ok (s', o) -> track_continuity = true -> invalidate_on_overrun = true ->
  let up := match prev_overrun_cnt (continuity s) with Some p => p <? overruns_of h | None => false end in
  let n := if up then 1 + frames_after_overrun else left_of s in
  left_of s' = (if 0 <? n then n - 1 else n) /\ prev_overrun_cnt (continuity s') = Some (overruns_of h) /\
  (0 < n -> delay_sync_flag o = 0 /\ iq_sync_flag o = 0).
Proof.
  intros Hp Hc Hi. unfold process in Hp. rewrite Hc in Hp. destruct (_tick_relays _ _ _ _) as [r m]. destruct (_fsm_step _ _ _) as [m1 f].
  apply finalize_ok in Hp as (_ & _ & Hl & Hpv & x & ->). unfold left_of. rewrite Hl, Hpv. unfold invalid. cbn. rewrite Hi. cbn [andb].
  split_and!; [done|done|]. intros Hn. apply Z.ltb_lt in Hn. by rewrite Hn.
Qed.

(** An overrun of the receiver's buffers withdraws the claim of synchronism: the
    frame whose overrun counter is above that of the frame before, and as many
    frames after it as configured, are sent with both flags cleared, whatever
    the state machine found. *)
Theorem overrun_clears_flags ins adj ones hwc recal s os i j h e h' e' o :
  track_continuity = true -> invalidate_on_overrun = true -> 0 <= frames_after_overrun ->
  run ins (boot adj ones hwc recal) = Ok (s, os) ->
  ins !! i = Some (h, e) -> ins !! S i = Some (h', e') -> overruns_of h < overruns_of h' ->
  (S i <= j)%nat -> Z.of_nat j <= Z.of_nat (S i) + frames_after_overrun -> os !! j = Some o ->
  delay_sync_flag o = 0 /\ iq_sync_flag o = 0.
Proof.
  intros Hc Hi Hf Hr Hii Hsi Hov Hj Hjf Ho.
  assert (forall k s1 os1, run (take k ins) (boot adj ones hwc recal) = Ok (s1, os1) ->
    left_of s1 <= frames_after_overrun /\
    ((i < k)%nat -> k = S i -> prev_overrun_cnt (continuity s1) = Some (overruns_of h)) /\
    ((S i < k)%nat -> (k <= length ins)%nat -> Z.of_nat (S i) + frames_after_overrun - Z.of_nat (k - 1) <= left_of s1)) as Hinv.
  { induction k as [|k IH]; intros s1 os1 Hr1; [injection Hr1 as <- _; cbn; split_and!; lia|].
    destruct (ins !! k) as [[hk ek]|] eqn:Hk.
    - rewrite (take_S_r _ _ _ Hk) in Hr1. apply run_snoc in Hr1 as (s2 & os2 & o2 & Hr2 & Hp & ->).
      destruct (IH _ _ Hr2) as (B1 & B2 & B3). destruct (process_left _ _ _ _ _ Hp Hc Hi) as (P1 & P2 & _). cbv zeta in P1.
      split_and!.
      + rewrite P1. repeat case_match; lia.
      + intros Hik Ek. injection Ek as ->. rewrite Hk in Hii. injection Hii as -> _. done.
      + intros Hik Hkl. rewrite P1. destruct (decide (k = S i)) as [-> | Hne].
        * rewrite Hsi in Hk. injection Hk as <- <-. rewrite (B2 ltac:(lia) eq_refl). apply Z.ltb_lt in Hov. rewrite Hov.
          destruct (Z.ltb_spec 0 (1 + frames_after_overrun)); lia.
        * pose proof (B3 ltac:(lia) ltac:(lia)). repeat case_match; lia.
    - pose proof (lookup_ge_None_1 _ _ Hk). rewrite take_ge in Hr1 by lia.
      destruct (IH s1 os1) as (B1 & B2 & B3); [by rewrite take_ge by lia|].
      pose proof (lookup_lt_Some _ _ _ Hsi). split_and!; [done|lia|lia]. }
  pose proof (run_at _ _ _ _ _ _ Hr Ho) as (hj & ej & s1 & s2 & Hij & Hr1 & Hp).
  destruct (Hinv _ _ _ Hr1) as (B1 & B2 & B3). destruct (process_left _ _ _ _ _ Hp Hc Hi) as (_ & _ & P3). apply P3.
  destruct (decide (j = S i)) as [-> | Hne].
  - rewrite Hsi in Hij. injection Hij as <- <-. rewrite (B2 ltac:(lia) eq_refl). apply Z.ltb_lt in Hov. rewrite Hov. lia.
  - pose proof (lookup_lt_Some _ _ _ Hij). pose proof (B3 ltac:(lia) ltac:(lia)). case_match; lia.
Qed.

(** ** Requests to the receiver *)
Lemma int_offset_bounds d :
  exists x, int_fs_ppm_offset INT_FS_TUNE_GAIN MIN_FS_PPM_OFFSET MAX_FS_PPM_OFFSET d = Some x /\
    (Qabs x <= MAX_FS_PPM_OFFSET)%Q /\ (0 < d -> (x < 0)%Q) /\ (d < 0 -> (0 < x)%Q) /\ (d = 0 -> (x == 0)%Q).
Proof.
  unfold int_fs_ppm_offset, int_fs_tune_gain, INT_FS_TUNE_GAIN. cbn [List.filter fst snd].
  assert (exists g, (0 < g) /\ (match (if 100 <=? Z.abs d then (100, 50) :: (if 2 <=? Z.abs d then (2, 25) :: (if 0 <=? Z.abs d then [(0, 15)] else [])
             else if 0 <=? Z.abs d then [(0, 15)] else []) else if 2 <=? Z.abs d then (2, 25) :: (if 0 <=? Z.abs d then [(0, 15)] else [])
             else if 0 <=? Z.abs d then [(0, 15)] else []) with [] => None | c :: _ => Some c.2 end) = Some g) as (g & Hg & ->).
  { destruct (100 <=? Z.abs d); [exists 50; split; [lia|done]|]. destruct (2 <=? Z.abs d); [exists 25; split; [lia|done]|].
    destruct (Z.leb_spec 0 (Z.abs d)); [exists 15; split; [lia|done]|lia]. }
  cbn [mbind option_bind]. set (x := (inject_Z (-1 * d * g) * MIN_FS_PPM_OFFSET)%Q).
  assert ((0 < d -> (x < 0)%Q) /\ (d < 0 -> (0 < x)%Q) /\ (d = 0 -> (x == 0)%Q)) as (X1 & X2 & X3).
  { unfold x, MIN_FS_PPM_OFFSET, Qlt, Qeq. cbn. split_and!; intros; nia. }
  destruct (Qltb MAX_FS_PPM_OFFSET (Qabs x)) eqn:E; q_prop; eexists; (split; [reflexivity|]); [|auto].
  unfold Qsign, MAX_FS_PPM_OFFSET in *. destruct (Z.lt_trichotomy d 0) as [Hd|[Hd|Hd]].
  - specialize (X2 Hd). assert (Qltb 0 x = true) as -> by (by apply Qltb_lt).
    split_and!; intros; (lia || (vm_compute; congruence)).
  - specialize (X3 Hd). exfalso. rewrite X3 in E. by vm_compute in E.
  - specialize (X1 Hd). assert (Qltb 0 x = false) as -> by (apply Qltb_ge; lra). assert (Qltb x 0 = true) as -> by (by apply Qltb_lt).
    split_and!; intros; (lia || (vm_compute; congruence)).
Qed.

Definition counteracts (d : Z) (x : Q) : Prop :=
  (Qabs x <= MAX_FS_PPM_OFFSET)%Q /\ (0 < d -> (x < 0)%Q) /\ (d < 0 -> (0 < x)%Q) /\ (d = 0 -> (x == 0)%Q).

Lemma int_offsets_total ds :
  exists offs, int_fs_ppm_offsets ds INT_FS_TUNE_GAIN MIN_FS_PPM_OFFSET MAX_FS_PPM_OFFSET = Some offs /\ Forall2 counteracts ds offs.
Proof.
  induction ds as [|d ds (offs & IH & IHb)]; [by exists []|]. destruct (int_offset_bounds d) as (x & Hx & Hb).
  exists (x :: offs). unfold int_fs_ppm_offsets in *. cbn [mapM]. rewrite Hx. cbn. rewrite IH. cbn. split; [done|]. by constructor.
Qed.

Lemma check_peaks_ran corr chs : forall ds sync ds' sync' upd ran,
  check_peaks chs corr ds sync upd = (ds', sync', true, ran) -> ran = true.
Proof.
  induction chs as [|ch chs IH]; intros ds sync ds' sync' upd ran; cbn [check_peaks]; [by intros [= _ _ _ <-]|].
  destruct (Qltb _ _); [done|]. intros H. by apply IH in H.
Qed.

(** [C29] A correction of the sampling rates, where the integer calibration asks for
    one, is for the measured delays, has one value for each channel, works
    against the delay of that channel, is zero where there is none, and stays
    within the tuning range. *)
Theorem corrections_counteract h m s s' f :
  sample_cal h m s = (s', f) ->
  tunes s' = tunes s \/ exists offs, tunes s' = tunes s ++ [offs] /\ Forall2 counteracts (delays s') offs.
Proof.
  unfold sample_cal. destruct (check_peaks _ _ _ _ _) as [[[ds sync] upd] ran] eqn:Hc. intros [= <- <-].
  destruct upd.
  - right. apply check_peaks_ran in Hc as ->. destruct (int_offsets_total ds) as (offs & Ho & Hb). rewrite Ho. exists offs.
    destruct sync, (confirmed m); by cbn.
  - left. by destruct sync.
Qed.

(** ** The header that is sent *)

(** Everything but the sync fields and five reserved slots is passed on. *)
Lemma header_passes_through h e s s' o :
  process h e s = Ok (s', o) ->
  exists d i st r, o = with_reserved (with_sync d i st h) r /\ iq_header s' = o /\ last_sync_state s' = st /\
    forall k, k ∉ [RSV_NODE_ID_CRC32; RSV_CAL_QUALITY_MDB; RSV_IQ_COMP_CNT; RSV_SAMPLE_COMP_CNT; RSV_RECAL_GEN] ->
      r !! k = reserved h !! k.
Proof.
  unfold process. destruct (_tick_relays _ _ _ _) as [rl m]. destruct (_fsm_step _ _ _) as [m1 f]. unfold _finalize_header. cbn zeta.
  set (h1 := with_sync _ _ _ h). intros (h2 & H2 & (h3 & H3 & [= <- <-])%res_bind_ok)%res_bind_ok. cbn [iq_header last_sync_state].
  assert (forall k v x y, _set_u32 k v x = Ok y -> exists r, y = with_reserved x r /\ forall j, j <> k -> r !! j = reserved x !! j) as Hset.
  { intros k v x y [_ ->]%set_u32_spec. eexists. split; [done|]. intros j Hj. by apply list_lookup_insert_ne. }
  assert (exists r, h2 = with_reserved h1 r /\ forall k, k ∉ [RSV_CAL_QUALITY_MDB; RSV_IQ_COMP_CNT; RSV_SAMPLE_COMP_CNT; RSV_RECAL_GEN] ->
            r !! k = reserved h !! k) as (r & -> & Hr).
  { destruct stamp_cal_telemetry; [|injection H2 as <-; by exists (reserved h)].
    apply res_bind_ok in H2 as (a & (ra & -> & Ra)%Hset & (b & (rb & -> & Rb)%Hset & (c & (rc & -> & Rc)%Hset & (rd & -> & Rd)%Hset)%res_bind_ok)%res_bind_ok).
    exists rd. split; [done|]. intros k Hk. rewrite !not_elem_of_cons in Hk. destruct Hk as (? & ? & ? & ? & _).
    rewrite Rd, Rc, Rb, Ra by done. done. }
  eexists _, _, _. destruct stamp_node_id as [crc|].
  - apply Hset in H3 as (r' & -> & Hr'). exists r'. split_and!; [done|done|done|]. intros k Hk. rewrite not_elem_of_cons in Hk.
    destruct Hk as [Hk1 Hk2]. rewrite Hr' by done. by apply Hr.
  - injection H3 as <-. exists r. split_and!; [done|done|done|]. intros k Hk. rewrite not_elem_of_cons in Hk. by apply Hr, Hk.
Qed.

End Machine.

(** ** A small system *)

(** Two channels; IQ differences are integers and one is no difference; blocks
    of two samples; three failures lose the track. *)
Definition ex_run (timeout : Z) (invalidate : bool) :=
  run Z.mul Z.div (fun v => negb (v =? 1)) (fun _ => 1) (fun q => q) 2 0 2 1 5 (1 # 10) true 1 3 1 timeout
    true invalidate false 2 None.
Definition ex_boot : @t Z := boot 2 1 1 None None.

Definition ex_header (ft cpi rf ovr : Z) : Hdr.t :=
  mk SYNC_WORD ft [] 0 2 0 rf 0 0 2 0 cpi cpi 0 0 8 0 (replicate 32 0) 0 0 0 0 (<[RSV_BUFFER_OVERRUN_CNT := ovr]> (replicate reserved_words 0)) 8.

Definition ex_good : @meas Z := Meas [[]; [1; 1; 8; 1]%Q] [0%Q] [Fin 20] 1 true.
Definition ex_bad : @meas Z := Meas [[]; [1; 8; 1; 1]%Q] [1%Q] [Fin 1] 1 true.
Definition ex_frame (m : @meas Z) (ft cpi rf ovr : Z) : Hdr.t * @env Z := (ex_header ft cpi rf ovr, Env m None None).

(** A start, a calibration and the first frames of the tracking. *)
Definition ex_ins : list (Hdr.t * @env Z) :=
  [ex_frame ex_good 3 0 100 0; ex_frame ex_good 3 1 100 0; ex_frame ex_good 3 2 100 0; ex_frame ex_good 3 3 100 0;
   ex_frame ex_good 0 4 100 0; ex_frame ex_good 0 5 100 0; ex_frame ex_good 0 6 100 1; ex_frame ex_good 0 7 100 1].

Definition ex_outs (ins : list (Hdr.t * @env Z)) : list (Z * Z * Z) :=
  match ex_run 0 true ins ex_boot with
  | Ok (_, os) => map (fun o => (delay_sync_flag o, iq_sync_flag o, sync_state o)) os
  | Raise _ => []
  end.

Lemma ex_outs_value :
  ex_outs ex_ins = [(0, 0, 1); (1, 0, 2); (0, 0, 3); (1, 1, 4); (1, 1, 5); (1, 1, 6); (0, 0, 6); (0, 0, 6)].
Proof. vm_compute. reflexivity. Qed.

(** A centre frequency that changes between the calibration and the first
    tracking frame is not noticed: the frames at the new frequency are sent as
    synchronised with the corrections of the old one. *)
Lemma retune_before_tracking_unnoticed :
  ex_outs (take 4 ex_ins ++ [ex_frame ex_good 0 4 200 0; ex_frame ex_good 0 5 200 0]) =
    [(0, 0, 1); (1, 0, 2); (0, 0, 3); (1, 1, 4); (1, 1, 5); (1, 1, 6)].
Proof. vm_compute. reflexivity. Qed.

(** Dynamic ranges that are not numbers, as of a channel without a signal, pass
    the test of the tracking. *)
Lemma undefined_ranges_pass :
  ex_outs (take 6 ex_ins ++ [ex_frame (Meas [] [] [NaN] 1 true) 0 6 100 0]) =
    [(0, 0, 1); (1, 0, 2); (0, 0, 3); (1, 1, 4); (1, 1, 5); (1, 1, 6); (1, 1, 6)].
Proof. vm_compute. reflexivity. Qed.

Definition ex_end : @t Z * list Hdr.t := match ex_run 0 true ex_ins ex_boot with Ok x => x | Raise _ => (ex_boot, []) end.
Definition ex_out (i : nat) : Hdr.t := nth i ex_end.2 Hdr.init.


Lemma claims_at_one_frequency_witness :
  exists p op, (p < 5)%nat /\ ex_end.2 !! p = Some op /\ sync_state op = 5 /\ rf_center_freq op = 100.
Proof.
  destruct (claims_at_one_frequency Z.mul Z.div (fun v => negb (v =? 1)) (fun _ => 1) (fun q => q) 2 0 2 1 5 (1 # 10) true 1 3 1 0
    true true false 2 None ex_ins 1 1 None None ex_end.1 ex_end.2 5 (ex_out 5)) as (p & op & H1 & H2 & H3 & H4 & _).
  - vm_compute. reflexivity.
  - vm_compute. reflexivity.
  - vm_compute. reflexivity.
  - left. vm_compute. reflexivity.
  - exists p, op. split_and!; [lia|done|done|]. rewrite H4. vm_compute. reflexivity.
Defined.

Lemma overrun_clears_flags_witness : delay_sync_flag (ex_out 7) = 0 /\ iq_sync_flag (ex_out 7) = 0.
Proof.
  apply (overrun_clears_flags Z.mul Z.div (fun v => negb (v =? 1)) (fun _ => 1) (fun q => q) 2 0 2 1 5 (1 # 10) true 1 3 1 0
    true true false 2 None ex_ins 1 1 None None ex_end.1 ex_end.2 5 7
    (ex_header 0 5 100 0) (Env ex_good None None) (ex_header 0 6 100 1) (Env ex_good None None) (ex_out 7)).
  - reflexivity.
  - reflexivity.
  - lia.
  - vm_compute. reflexivity.
  - vm_compute. reflexivity.
  - vm_compute. reflexivity.
  - vm_compute. reflexivity.
  - lia.
  - lia.
  - vm_compute. reflexivity.
Defined.

(** The machine when the tracking began, and frames with five failed checks and
    one that passes. *)
Definition ex_track : @cal Z := machine (match ex_run 0 true (take 5 ex_ins) ex_boot with Ok (s, _) => s | Raise _ => ex_boot end).
Definition ex_checks : list (Hdr.t * @meas Z) :=
  map (fun m => (ex_header 0 9 100 0, m)) [ex_bad; ex_bad; ex_good; ex_bad; ex_bad].

Lemma tracking_lost_iff_witness :
  (exists n, (n <= 5)%nat /\
     current_state (steps Z.mul Z.div (fun v => negb (v =? 1)) (fun _ => 1) (fun q => q) 2 0 2 1 5 (1 # 10) true 1 3 1 0
       (take n ex_checks) ex_track) = STATE_INIT).
Proof.
  apply (tracking_lost_iff Z.mul Z.div (fun v => negb (v =? 1)) (fun _ => 1) (fun q => q) 2 0 2 1 5 (1 # 10) true 1 3 1 0 ex_track ex_checks).
  - lia.
  - vm_compute. reflexivity.
  - vm_compute. reflexivity.
  - repeat constructor.
  - exists 0%nat, 5%nat. vm_compute. congruence.
Defined.

Lemma corrections_counteract_witness :
  exists offs, tunes (sample_cal (fun q => q) 2 0 2 1 5 (ex_header 3 1 100 0) ex_bad (start_cal 2 1 1)).1 = [offs] /\
    Forall2 counteracts [0; 1] offs.
Proof.
  destruct (corrections_counteract (fun q => q) 2 0 2 1 5 (ex_header 3 1 100 0) ex_bad (start_cal 2 1 1)
    (sample_cal (fun q => q) 2 0 2 1 5 (ex_header 3 1 100 0) ex_bad (start_cal 2 1 1)).1
    (sample_cal (fun q => q) 2 0 2 1 5 (ex_header 3 1 100 0) ex_bad (start_cal 2 1 1)).2) as [H|(offs & H & Hf)].
  - vm_compute. reflexivity.
  - exfalso. by vm_compute in H.
  - exists offs. split; [exact H|exact Hf].
Defined.

End Sync.
