(* ===== verification/RtlDaq.v ===== *)
(** * The receiver process ([_daq_core/rtl_daq.c])

    The control thread that takes the 128-byte messages of the other processes,
    the main loop that stamps and sends one frame for each complete block of
    the receivers and then applies the requested settings, and the ring the USB
    callbacks fill.  The tuner library is an input: which of its calls succeed. *)
From S2P Require Import Prelude PyStruct PyFloat PyText IQHeader Messages.
From Stdlib Require Import SpecFloat.

Module Daq.

Definition NO_DUMMY_FRAMES : Z := 5.
Definition ZMQ_MAX_CH_PARAMS : nat := 31.
(** [0.008] as a double *)
Definition FS_CORRECTION_KEEP_LIMIT : spec_float := S754_finite false 1152921504606847 (-57).

(** [rtl_rec_struct] *)
Record rec := Rec { gain : Z; agc : bool; center_freq : Z; sample_rate : Z }.

(** What the devices were last told: the noise source, the bias tees and the
    corrections of the sampling rates. *)
Record device := Dev { d_noise : bool; d_bias : list bool; d_fs : list spec_float }.

Record rx := Rx {
  recs : list rec;
  noise_source_state : bool; last_noise_source_state : bool;
  en_dummy_frame : bool; dummy_frame_cntr : Z;
  new_center_freq : Z; center_freq_change_flag : bool;
  new_gains : list Z; gain_change_flag : bool;
  agc_change_flag : bool;
  new_fs_corrections : list spec_float; fs_correction_flag : bool; fs_reset_cntr : Z;
  new_bias_states : list bool; bias_change_flag : bool;
  reconfig_trigger : bool; exit_flag : bool;
  read_buff_ind : Z; overrun_cntr : Z;
  dev : device }.

(** ** Requests *)

(** [param_u32[i]] and [param_f32[i]] *)
Definition word (msg : bytes) (i : nat) : Z := le_val (take 4 (drop (2 + 4 * i) msg)).
Definition param_f32 (msg : bytes) (i : nat) : spec_float := f32_of_bits (word msg i).
(** [(int) parameters[i]] *)
Definition param_int (msg : bytes) (i : nat) : Z := sx 32 (word msg i).

Definition command_identifier (msg : bytes) : Z := nth 1 msg 0.

(** The first [n] entries replaced. *)
Definition fill {A} (n : nat) (f : nat -> A) (l : list A) : list A := map f (seq 0 n) ++ drop n l.

Definition n_ch_params (ch_no : nat) : nat := Nat.min ch_no ZMQ_MAX_CH_PARAMS.

(** What a request asks for, without its dummy frames. *)
Definition publish (ch_no : nat) (msg : bytes) (s : rx) : rx :=
  let c := command_identifier msg in
  let n := n_ch_params ch_no in
  if c =? Msg.CMD_R then
    Rx (map (fun r => Rec (param_int msg 2) (agc r) (word msg 0) (word msg 1)) (recs s))
      (noise_source_state s) (last_noise_source_state s) (en_dummy_frame s) (dummy_frame_cntr s) (new_center_freq s)
      (center_freq_change_flag s) (new_gains s) (gain_change_flag s) (agc_change_flag s) (new_fs_corrections s)
      (fs_correction_flag s) (fs_reset_cntr s) (new_bias_states s) (bias_change_flag s) true (exit_flag s) (read_buff_ind s)
      (overrun_cntr s) (dev s)
  else if c =? Msg.CMD_C then
    Rx (recs s) (noise_source_state s) (last_noise_source_state s) (en_dummy_frame s) (dummy_frame_cntr s) (word msg 0)
      true (new_gains s) (gain_change_flag s) (agc_change_flag s) (new_fs_corrections s) (fs_correction_flag s) (fs_reset_cntr s)
      (new_bias_states s) (bias_change_flag s) (reconfig_trigger s) (exit_flag s) (read_buff_ind s) (overrun_cntr s) (dev s)
  else if c =? Msg.CMD_G then
    Rx (recs s) (noise_source_state s) (last_noise_source_state s) (en_dummy_frame s) (dummy_frame_cntr s) (new_center_freq s)
      (center_freq_change_flag s) (fill n (param_int msg) (new_gains s)) true (agc_change_flag s) (new_fs_corrections s)
      (fs_correction_flag s) (fs_reset_cntr s) (new_bias_states s) (bias_change_flag s) (reconfig_trigger s) (exit_flag s)
      (read_buff_ind s) (overrun_cntr s) (dev s)
  else if c =? Msg.CMD_A then
    Rx (recs s) (noise_source_state s) (last_noise_source_state s) (en_dummy_frame s) (dummy_frame_cntr s) (new_center_freq s)
      (center_freq_change_flag s) (new_gains s) (gain_change_flag s) true (new_fs_corrections s) (fs_correction_flag s)
      (fs_reset_cntr s) (new_bias_states s) (bias_change_flag s) (reconfig_trigger s) (exit_flag s) (read_buff_ind s)
      (overrun_cntr s) (dev s)
  else if c =? Msg.CMD_S then
    Rx (recs s) (noise_source_state s) (last_noise_source_state s) (en_dummy_frame s) (dummy_frame_cntr s) (new_center_freq s)
      (center_freq_change_flag s) (new_gains s) (gain_change_flag s) (agc_change_flag s)
      (fill n (param_f32 msg) (new_fs_corrections s)) true 0 (new_bias_states s) (bias_change_flag s) (reconfig_trigger s)
      (exit_flag s) (read_buff_ind s) (overrun_cntr s) (dev s)
  else if c =? Msg.CMD_N then
    Rx (recs s) (negb (nth 2 msg 0 =? 0)) (last_noise_source_state s) (en_dummy_frame s) (dummy_frame_cntr s) (new_center_freq s)
      (center_freq_change_flag s) (new_gains s) (gain_change_flag s) (agc_change_flag s) (new_fs_corrections s)
      (fs_correction_flag s) (fs_reset_cntr s) (new_bias_states s) (bias_change_flag s) (reconfig_trigger s) (exit_flag s)
      (read_buff_ind s) (overrun_cntr s) (dev s)
  else if c =? Msg.CMD_B then
    Rx (recs s) (noise_source_state s) (last_noise_source_state s) (en_dummy_frame s) (dummy_frame_cntr s) (new_center_freq s)
      (center_freq_change_flag s) (new_gains s) (gain_change_flag s) (agc_change_flag s) (new_fs_corrections s)
      (fs_correction_flag s) (fs_reset_cntr s) (fill n (fun i => negb (word msg i =? 0)) (new_bias_states s)) true
      (reconfig_trigger s) (exit_flag s) (read_buff_ind s) (overrun_cntr s) (dev s)
  else if c =? 104 (* h *) then
    Rx (recs s) (noise_source_state s) (last_noise_source_state s) (en_dummy_frame s) (dummy_frame_cntr s) (new_center_freq s)
      (center_freq_change_flag s) (new_gains s) (gain_change_flag s) (agc_change_flag s) (new_fs_corrections s)
      (fs_correction_flag s) (fs_reset_cntr s) (new_bias_states s) (bias_change_flag s) (reconfig_trigger s) true
      (read_buff_ind s) (overrun_cntr s) (dev s)
  else s.

Definition start_dummies (s : rx) : rx :=
  Rx (recs s) (noise_source_state s) (last_noise_source_state s) true 0 (new_center_freq s)
    (center_freq_change_flag s) (new_gains s) (gain_change_flag s) (agc_change_flag s) (new_fs_corrections s)
    (fs_correction_flag s) (fs_reset_cntr s) (new_bias_states s) (bias_change_flag s) (reconfig_trigger s) (exit_flag s)
    (read_buff_ind s) (overrun_cntr s) (dev s).

(** One message of the control thread: under the mutex, so in one step. *)
Definition handle (ch_no : nat) (msg : bytes) (s : rx) : rx := start_dummies (publish ch_no msg s).

(** ** Frames *)

(** The outcome of the library calls that a frame makes, and what it stamps
    besides the state. *)
Record env := Env {
  overrun_detected : bool; time_stamp_ms : Z; overdrive_flags : Z;
  freq_ok : nat -> bool; freq_set : Z -> Z; gain_ok : nat -> bool; agc_ok : nat -> bool; fs_ok : nat -> bool }.

Section Frames.
Variables (ch_no : nat) (daq_buffer_size : Z) (en_noise_source_ctr : bool) (base : Hdr.t).

Definition frame_type_of (s : rx) : Z := if en_dummy_frame s then 1 else if noise_source_state s then 3 else 0.

(** The header of the next frame. *)
Definition stamp (e : env) (s : rx) : Hdr.t :=
  let n := if overrun_detected e then (overrun_cntr s + 1) mod 2 ^ 32 else overrun_cntr s in
  Hdr.mk (Hdr.sync_word base) (frame_type_of s) (Hdr.hardware_id base) (Hdr.unit_id base) (Hdr.active_ant_chs base)
    (Hdr.ioo_type base) (match list.last (recs s) with Some r => center_freq r | None => Hdr.rf_center_freq base end)
    (Hdr.adc_sampling_freq base) (Hdr.sampling_freq base) (if en_dummy_frame s then 0 else daq_buffer_size) (time_stamp_ms e)
    (read_buff_ind s mod 2 ^ 32) (Hdr.cpi_index base) (Hdr.ext_integration_cntr base) (if en_dummy_frame s then 0 else 1)
    (Hdr.sample_bit_depth base) (overdrive_flags e) (map (fun r => gain r mod 2 ^ 32) (recs s) ++ drop (length (recs s)) (Hdr.if_gains base))
    (Hdr.delay_sync_flag base) (Hdr.iq_sync_flag base) (Hdr.sync_state base) (Z.b2z (noise_source_state s))
    (<[Hdr.RSV_BUFFER_OVERRUN_CNT := n]> (Hdr.reserved base)) (Hdr.header_version base).

(** The dummy frames are counted when one was sent. *)
Definition count_frame (e : env) (s : rx) : rx :=
  let d := dummy_frame_cntr s + 1 in
  Rx (recs s) (noise_source_state s) (last_noise_source_state s)
    (if en_dummy_frame s then negb (d =? NO_DUMMY_FRAMES) else false) (if en_dummy_frame s then d else dummy_frame_cntr s)
    (new_center_freq s) (center_freq_change_flag s) (new_gains s) (gain_change_flag s) (agc_change_flag s) (new_fs_corrections s)
    (fs_correction_flag s) (fs_reset_cntr s) (new_bias_states s) (bias_change_flag s) (reconfig_trigger s) (exit_flag s)
    (read_buff_ind s + 1) (if overrun_detected e then (overrun_cntr s + 1) mod 2 ^ 32 else overrun_cntr s) (dev s).

(** The tuner control of the main loop, in its order. *)
Definition tune_freq (e : env) (s : rx) : list rec :=
  if center_freq_change_flag s
  then imap (fun i r => if freq_ok e i then Rec (gain r) (agc r) (freq_set e (new_center_freq s)) (sample_rate r) else r) (recs s)
  else recs s.

Definition tune_gain (e : env) (s : rx) (l : list rec) : list rec :=
  if gain_change_flag s
  then imap (fun i r => if gain_ok e i then Rec (nth i (new_gains s) 0) false (center_freq r) (sample_rate r) else r) l
  else l.

Definition tune_agc (e : env) (s : rx) (l : list rec) : list rec :=
  if agc_change_flag s
  then imap (fun i r => if agc_ok e i then Rec (gain r) true (center_freq r) (sample_rate r) else r) l
  else l.

(** [fabs(x) < FS_CORRECTION_KEEP_LIMIT] *)
Definition small (x : spec_float) : bool := SFltb (SFabs x) FS_CORRECTION_KEEP_LIMIT.

Definition tune_fs (e : env) (s : rx) : list spec_float :=
  if fs_correction_flag s then
    if fs_reset_cntr s =? 0
    then imap (fun i x => if fs_ok e i then nth i (new_fs_corrections s) (S754_zero false) else x) (d_fs (dev s))
    else if fs_reset_cntr s =? 1
    then imap (fun i x => if small (nth i (new_fs_corrections s) (S754_zero false)) && fs_ok e i then S754_zero false else x) (d_fs (dev s))
    else d_fs (dev s)
  else d_fs (dev s).

Definition tune (e : env) (s : rx) : rx :=
  let bias := bias_change_flag s && negb (noise_source_state s) in
  Rx (tune_agc e s (tune_gain e s (tune_freq e s)))
    (noise_source_state s) (noise_source_state s) (en_dummy_frame s) (dummy_frame_cntr s)
    (new_center_freq s) false (new_gains s) false false (new_fs_corrections s)
    (fs_correction_flag s && negb (fs_reset_cntr s =? 1)) (if fs_correction_flag s then fs_reset_cntr s + 1 else fs_reset_cntr s)
    (new_bias_states s) (bias_change_flag s && noise_source_state s) false (exit_flag s) (read_buff_ind s) (overrun_cntr s)
    (Dev (if negb (Bool.eqb (last_noise_source_state s) (noise_source_state s)) && en_noise_source_ctr
          then noise_source_state s else d_noise (dev s))
       (if bias then new_bias_states s else d_bias (dev s)) (tune_fs e s)).

(** A round of the main loop with a complete block: it sends the frame, and
    then counts it and applies what was requested.  The mutex is not held, so
    that a message may come in between. *)
Definition settle (e : env) (s : rx) : rx := tune e (count_frame e s).

Inductive event := Command (msg : bytes) | Send (e : env) | Settle (e : env).

(** The receiver, and whether the main loop has sent a frame it did not count yet. *)
Record sys := Sys { state : rx; sent : bool }.

Definition step (y : sys) (ev : event) : option sys :=
  match ev with
  | Command m => Some (Sys (handle ch_no m (state y)) (sent y))
  | Send e => if sent y || exit_flag (state y) then None else Some (Sys (state y) true)
  | Settle e => if sent y then Some (Sys (settle e (state y)) false) else None
  end.

(** The final state, and the frames sent: the state of the receiver at each and
    its header. *)
Fixpoint run (evs : list event) (y : sys) : option (sys * list (rx * Hdr.t)) :=
  match evs with
  | [] => Some (y, [])
  | ev :: evs =>
      y1 ← step y ev;
      '(y2, fs) ← run evs y1;
      Some (y2, match ev with Send e => [(state y, stamp e (state y))] | _ => [] end ++ fs)
  end.

Definition boot (g f r : Z) : rx :=
  Rx (replicate ch_no (Rec g false f r)) false false false 0 0 false (replicate ch_no 0) false false
    (replicate ch_no (S754_zero false)) false 0 (replicate ch_no false) false false false 0 0
    (Dev false (replicate ch_no false) (replicate ch_no (S754_zero false))).

End Frames.
(** ** The messages of the Python processes are understood *)
Lemma nth_words vs rest i v : vs !! i = Some v -> Msg.u32 v -> le_val (take 4 (drop (4 * i) (concat (map (le_bytes 4) vs) ++ rest))) = v.
Proof. intros Hv Hu. rewrite (word_at _ _ _ _ Hv). by apply le_val_small. Qed.

Lemma word_of_params a c vs rest i v :
  vs !! i = Some v -> Msg.u32 v -> word (a :: c :: concat (map (le_bytes 4) vs) ++ rest) i = v.
Proof. intros Hv Hu. unfold word. rewrite <- drop_drop. cbn [app drop]. by apply nth_words. Qed.

Lemma map_words {A} a c vs rest (f : Z -> A) :
  Forall Msg.u32 vs ->
  map (fun i => f (word (a :: c :: concat (map (le_bytes 4) vs) ++ rest) i)) (seq 0 (length vs)) = map f vs.
Proof.
  intros Hu. apply list_eq. intros i. rewrite !list_lookup_fmap.
  destruct (vs !! i) as [v|] eqn:Hv.
  - rewrite lookup_seq_lt by (by eapply lookup_lt_Some). cbn [fmap option_fmap option_map]. rewrite (word_of_params _ _ vs rest i v Hv); [done|].
    by eapply Forall_lookup_1.
  - apply lookup_ge_None in Hv. rewrite lookup_seq_ge by done. done.
Qed.

Lemma fill_all {A} n (f : nat -> A) l : length l = n -> fill n f l = map f (seq 0 n).
Proof. intros H. unfold fill. rewrite drop_ge by lia. apply app_nil_r. Qed.

(** What a message asks for is what the receiver takes it for. *)
Definition taken (m : Msg.im_msg) (s s' : rx) : Prop :=
  match m with
  | Msg.Reconfigure f r g =>
      reconfig_trigger s' = true /\ map gain (recs s') = replicate (length (recs s)) (sx 32 g) /\
      map center_freq (recs s') = replicate (length (recs s)) f /\ map sample_rate (recs s') = replicate (length (recs s)) r
  | Msg.RfTune f => new_center_freq s' = f /\ center_freq_change_flag s' = true
  | Msg.SetGain gs => new_gains s' = map (sx 32) gs /\ gain_change_flag s' = true
  | Msg.EnableAgc => agc_change_flag s' = true
  | Msg.NoiseSource b => noise_source_state s' = b
  | Msg.SampleFreq fs => new_fs_corrections s' = fs /\ fs_correction_flag s' = true /\ fs_reset_cntr s' = 0
  | Msg.SetBiasTee ss => new_bias_states s' = ss /\ bias_change_flag s' = true
  end.

Lemma handle_takes ch_no id m bs s :
  (ch_no <= ZMQ_MAX_CH_PARAMS)%nat -> length (new_gains s) = ch_no -> length (new_fs_corrections s) = ch_no ->
  length (new_bias_states s) = ch_no ->
  Msg.fits ch_no m -> Msg.im_encode id m = Ok bs -> command_identifier bs = Msg.cmd_of m /\ taken m s (handle ch_no bs s).
Proof.
  intros Hn Hg Hfs Hb Hf [He ->]%Msg.im_encode_layout. split; [done|]. destruct He as [_ He].
  unfold handle, publish, n_ch_params. rewrite Nat.min_l by done.
  set (rest := replicate _ 0). set (bs := _ ++ _). assert (command_identifier bs = Msg.cmd_of m) as -> by done.
  assert (bs = id mod 256 :: Msg.cmd_of m :: (Msg.params_of m ++ rest)) as Ebs by done. clearbody bs rest.
  destruct m; cbn [Msg.cmd_of Msg.params_of Msg.fits taken] in *;
    cbn [Z.eqb Pos.eqb Msg.CMD_R Msg.CMD_C Msg.CMD_G Msg.CMD_A Msg.CMD_N Msg.CMD_S Msg.CMD_B]; subst bs.
  - destruct He as (Hf1 & Hs & Hgn). cbn [start_dummies recs reconfig_trigger].
    pose proof (word_of_params (id mod 256) Msg.CMD_R [center_frequency; sample_rate0; gain0] rest) as Hw.
    unfold param_int. rewrite (Hw 0%nat center_frequency), (Hw 1%nat sample_rate0), (Hw 2%nat gain0) by done.
    rewrite !map_map. cbn. split_and!; [done|..]; clear; induction (recs s); cbn; congruence.
  - cbn [start_dummies new_center_freq center_freq_change_flag]. split; [|done]. by apply (word_of_params _ _ [center_frequency]).
  - destruct He as [_ He]. cbn [start_dummies new_gains gain_change_flag]. split; [|done]. rewrite fill_all by done.
    rewrite <- Hf at 1. by apply (map_words _ _ gains).
  - done.
  - by destruct state0.
  - destruct Hf as [Hl Hv]. cbn [start_dummies new_fs_corrections fs_correction_flag fs_reset_cntr]. split_and!; [|done|done].
    rewrite fill_all by done. unfold param_f32.
    rewrite <- (map_map (fun x => f32_bits (to_f32 x)) (le_bytes 4) offsets).
    rewrite <- Hl at 1. rewrite <- (length_map (fun x => f32_bits (to_f32 x)) offsets) at 1.
    rewrite map_words.
    + rewrite map_map. rewrite <- (map_id offsets) at 2. apply map_ext_Forall. eapply list.Forall_impl; [exact Hv|].
      intros x [Hx ->]. by apply f32_of_bits_bits.
    + apply Forall_map. eapply list.Forall_impl; [exact Hv|]. intros x [Hx Ex]. cbn. rewrite Ex. by apply f32_bits_range.
  - cbn [start_dummies new_bias_states bias_change_flag]. split; [|done]. rewrite fill_all by done.
    rewrite <- Hf at 1. rewrite <- (length_map (fun s : bool => if s then 1 else 0) states) at 1.
    rewrite (map_words _ _ _ _ (fun z => negb (z =? 0))).
    + rewrite map_map. rewrite <- (map_id states) at 2. apply map_ext. by intros [].
    + apply Forall_map, Forall_true. intros []; unfold Msg.u32; cbn; lia.
Qed.


(** ** Settled frames *)
Section Settled.
Context (ch_no : nat) (daq_buffer_size : Z) (base : Hdr.t).

(** A request that the main loop has not carried out. *)
Definition pending (s : rx) : bool :=
  reconfig_trigger s || center_freq_change_flag s || gain_change_flag s || agc_change_flag s || fs_correction_flag s ||
  (bias_change_flag s && negb (noise_source_state s)).

(** Requests other than a correction of the sampling rates are carried out with
    the first frame that is counted after them, a correction with the second. *)
Record ready (s : rx) : Prop := {
  ready_cntr : en_dummy_frame s = true -> 0 <= dummy_frame_cntr s < NO_DUMMY_FRAMES;
  ready_flags : en_dummy_frame s = false \/ 0 < dummy_frame_cntr s ->
    reconfig_trigger s = false /\ center_freq_change_flag s = false /\ gain_change_flag s = false /\ agc_change_flag s = false /\
    (bias_change_flag s && negb (noise_source_state s)) = false /\
    last_noise_source_state s = noise_source_state s /\ d_noise (dev s) = noise_source_state s;
  ready_last : en_dummy_frame s = true -> dummy_frame_cntr s = 0 -> d_noise (dev s) = last_noise_source_state s;
  ready_fs : fs_correction_flag s = true -> en_dummy_frame s = true /\ dummy_frame_cntr s <= fs_reset_cntr s <= 1 /\ 0 <= fs_reset_cntr s }.

Lemma ready_boot g f r : ready (boot ch_no g f r).
Proof. by constructor. Qed.

Lemma publish_keeps msg s :
  last_noise_source_state (publish ch_no msg s) = last_noise_source_state s /\ dev (publish ch_no msg s) = dev s /\
  (fs_correction_flag (publish ch_no msg s) = true ->
   fs_reset_cntr (publish ch_no msg s) = 0 \/ (fs_correction_flag s = true /\ fs_reset_cntr (publish ch_no msg s) = fs_reset_cntr s)).
Proof. unfold publish. repeat case_match; cbn; auto. Qed.

Lemma ready_handle msg s : ready s -> ready (handle ch_no msg s).
Proof.
  intros [H1 H2 H3 H4]. destruct (publish_keeps msg s) as (K1 & K2 & K3). unfold handle. constructor; cbn.
  - unfold NO_DUMMY_FRAMES. lia.
  - intros [|]; [done|lia].
  - intros _ _. rewrite K1, K2. destruct (en_dummy_frame s) eqn:Ed.
    + destruct (Z.eq_dec (dummy_frame_cntr s) 0); [by apply H3|]. destruct H2 as (_ & _ & _ & _ & _ & -> & ->); [|done].
      right. specialize (H1 eq_refl). lia.
    + by destruct H2 as (_ & _ & _ & _ & _ & -> & ->); [left|].
  - intros Hf. split; [done|]. destruct (K3 Hf) as [-> | [Hf' ->]]; [lia|]. destruct (H4 Hf'). lia.
Qed.

Lemma ready_settle e s : ready s -> ready (settle true e s).
Proof.
  intros [H1 H2 H3 H4].
  assert (d_noise (dev s) = last_noise_source_state s) as Hn.
  { destruct (en_dummy_frame s) eqn:Ed; [|by destruct H2 as (_ & _ & _ & _ & _ & -> & ->); [left|]].
    destruct (Z.eq_dec (dummy_frame_cntr s) 0); [by apply H3|]. destruct H2 as (_ & _ & _ & _ & _ & -> & ->); [|done].
    right. specialize (H1 eq_refl). lia. }
  constructor; unfold settle, tune, count_frame; cbn.
  - destruct (en_dummy_frame s); [|done]. specialize (H1 eq_refl). unfold NO_DUMMY_FRAMES in *.
    destruct (Z.eqb_spec (dummy_frame_cntr s + 1) 5); cbn; [done|lia].
  - intros _. split_and!; try done.
    + by destruct (bias_change_flag s), (noise_source_state s).
    + rewrite Hn. by destruct (last_noise_source_state s), (noise_source_state s).
  - destruct (en_dummy_frame s); [|done]. intros _ Hc. specialize (H1 eq_refl). lia.
  - intros [Hf Hr]%andb_true_iff. destruct (H4 Hf) as (Hd & Hc & H0). rewrite Hf, Hd. specialize (H1 Hd).
    apply negb_true_iff, Z.eqb_neq in Hr. destruct (Z.eqb_spec (dummy_frame_cntr s + 1) NO_DUMMY_FRAMES) as [E|E]; cbn; [unfold NO_DUMMY_FRAMES in E; lia|lia].
Qed.

Lemma ready_run evs y y' fs :
  run ch_no daq_buffer_size true base evs y = Some (y', fs) -> ready (state y) -> ready (state y') /\ Forall (fun f => ready f.1) fs.
Proof.
  revert y fs. induction evs as [|ev evs IH]; intros y fs; cbn [run]; [by intros [= <- <-]|].
  destruct (step _ _ y ev) as [y1|] eqn:Hs; [|done]. cbn [mbind option_bind]. destruct (run _ _ _ _ evs y1) as [[y2 fs']|] eqn:Hr; [|done].
  intros [= <- <-] Hy.
  assert (ready (state y1)) as Hy1.
  { destruct ev; cbn in Hs; [injection Hs as <-; by apply ready_handle| |]; case_match; try done; injection Hs as <-; [done|by apply ready_settle]. }
  destruct (IH _ _ Hr Hy1) as [H1 H2]. split; [done|]. apply Forall_app. split; [|done].
  destruct ev; [by apply list.Forall_nil|by apply list.Forall_singleton|by apply list.Forall_nil].
Qed.


End Settled.

(** ** The ring of USB transfers *)

(** One receiver: the number of the block it stores next, and for each slot of
    its ring the number of the block it holds. *)
Record chan := Chan { buff_ind : Z; slots : list Z }.

Section Transfers.
Variable num_buff : nat.

Definition slot (b : Z) : nat := Z.to_nat (b mod Z.of_nat num_buff).

(** [rtlsdrCallback] *)
Definition rtlsdrCallback (c : chan) : chan := Chan (buff_ind c + 1) (<[slot (buff_ind c) := buff_ind c]> (slots c)).

Inductive verdict := NotReady | Race (ind : Z) | Ready (overrun : bool).

(** The loop over the receivers that decides whether a frame can be sent. *)
Fixpoint check (read_ind : Z) (cs : list chan) (overrun : bool) : verdict :=
  match cs with
  | [] => Ready overrun
  | c :: cs =>
      if buff_ind c <=? read_ind then NotReady
      else if (buff_ind c mod Z.of_nat num_buff =? read_ind mod Z.of_nat num_buff) then Race (buff_ind c)
      else check read_ind cs (overrun || (Z.of_nat num_buff <=? buff_ind c - read_ind))
  end.

(** The last [num_buff] blocks are in their slots. *)
Definition holds (c : chan) : Prop :=
  0 <= buff_ind c /\ length (slots c) = num_buff /\
  forall b, 0 <= b < buff_ind c -> buff_ind c - b <= Z.of_nat num_buff -> slots c !! slot b = Some b.

Lemma slot_lt b : (0 < num_buff)%nat -> (slot b < num_buff)%nat.
Proof. intros H. unfold slot. pose proof (Z.mod_pos_bound b (Z.of_nat num_buff) ltac:(lia)). lia. Qed.

Lemma slot_ne a b : (0 < num_buff)%nat -> 0 < a - b < Z.of_nat num_buff -> slot a <> slot b.
Proof.
  intros Hn Hd E. unfold slot in E. pose proof (Z.mod_pos_bound a (Z.of_nat num_buff) ltac:(lia)).
  pose proof (Z.mod_pos_bound b (Z.of_nat num_buff) ltac:(lia)). apply Z2Nat.inj in E; [|lia|lia].
  pose proof (Z.div_mod a (Z.of_nat num_buff) ltac:(lia)). pose proof (Z.div_mod b (Z.of_nat num_buff) ltac:(lia)).
  assert (a - b = Z.of_nat num_buff * (a / Z.of_nat num_buff - b / Z.of_nat num_buff)) by lia.
  destruct (Z.le_gt_cases (a / Z.of_nat num_buff - b / Z.of_nat num_buff) 0); nia.
Qed.

Lemma holds_callback c : (0 < num_buff)%nat -> holds c -> holds (rtlsdrCallback c).
Proof.
  intros Hn (H0 & Hl & Hb). unfold holds. cbn. rewrite length_insert. split_and!; [lia|done|].
  intros b Hr Hd. destruct (Z.eq_dec b (buff_ind c)) as [-> | Hne].
  - apply list_lookup_insert_eq. rewrite Hl. by apply slot_lt.
  - rewrite list_lookup_insert_ne; [apply Hb; lia|]. apply slot_ne; lia.
Qed.

Lemma check_ready read_ind cs o :
  check read_ind cs o = Ready false -> o = false /\ Forall (fun c => read_ind < buff_ind c < read_ind + Z.of_nat num_buff) cs.
Proof.
  revert o. induction cs as [|c cs IH]; intros o; cbn [check]; [by intros [= ->]|].
  destruct (Z.leb_spec (buff_ind c) read_ind); [done|]. case_match; [done|].
  intros [[-> Ho]%orb_false_iff Hf]%IH. split; [done|]. constructor; [|done]. apply Z.leb_gt in Ho. lia.
Qed.

(** The channels of a frame belong together: if the main loop found every
    receiver ahead and no overrun, then a channel holds exactly the block that is
    sent, as long as the receiver did not fill the rest of its ring between the
    check and the copy. *)
Theorem frames_are_coherent read_ind cs before after :
  (0 < num_buff)%nat -> 0 <= read_ind ->
  cs = map (fun n => Nat.iter n rtlsdrCallback (Chan 0 (replicate num_buff 0))) before ->
  check read_ind cs false = Ready false ->
  Forall2 (fun c k => buff_ind c + Z.of_nat k <= read_ind + Z.of_nat num_buff) cs after ->
  Forall (fun c => slots c !! slot read_ind = Some read_ind) (zip_with (fun c k => Nat.iter k rtlsdrCallback c) cs after).
Proof.
  intros Hn H0 -> Hc Hk. apply check_ready in Hc as [_ Hc].
  assert (forall k c, holds c -> holds (Nat.iter k rtlsdrCallback c) /\
            buff_ind (Nat.iter k rtlsdrCallback c) = buff_ind c + Z.of_nat k) as Hit.
  { induction k as [|k IH]; intros c Hh; [split; [done|cbn; lia]|]. destruct (IH c Hh) as [I1 I2]. cbn [Nat.iter nat_rect].
    split; [by apply holds_callback|]. cbn [buff_ind rtlsdrCallback]. unfold Nat.iter in I2. rewrite I2. lia. }
  assert (holds (Chan 0 (replicate num_buff 0))) as Hstart by (split_and!; [done|apply length_replicate|cbn; lia]).
  apply Forall_lookup. intros i c (c0 & k & -> & Hc0 & Hki)%lookup_zip_with_Some.
  rewrite Forall_lookup in Hc. specialize (Hc i c0 Hc0). pose proof (Forall2_lookup_lr _ _ _ _ _ _ Hk Hc0 Hki) as Hb. cbn in Hc, Hb.
  apply list_lookup_fmap_Some in Hc0 as (n & -> & _). destruct (Hit n _ Hstart) as [Hh _].
  destruct (Hit k _ Hh) as [(_ & _ & Hs) Hi]. apply Hs; lia.
Qed.

End Transfers.

(** ** A receiver of two channels *)
Definition ex_env : env := Env false 0 0 (fun _ => true) (fun f => f) (fun _ => true) (fun _ => true) (fun _ => true).
Definition ex_msg (m : Msg.im_msg) : bytes := match Msg.im_encode 6 m with Ok bs => bs | Raise _ => [] end.


(** A frame, the noise source on with a message between sending and counting a
    frame, and the frames after it. *)
Definition ex_events : list event :=
  [Send ex_env; Settle ex_env; Send ex_env; Command (ex_msg (Msg.NoiseSource true)); Settle ex_env] ++
  concat (replicate 5 [Send ex_env; Settle ex_env]).

Definition ex_result : option (sys * list (rx * Hdr.t)) := run 2 4 true Hdr.init ex_events (Sys (boot 2 0 100 1) false).
Definition ex_frames : list (rx * Hdr.t) := match ex_result with Some (_, fs) => fs | None => [] end.

Lemma ex_frame_types : map (fun f => Hdr.frame_type f.2) ex_frames = [0; 0; 1; 1; 1; 1; 3].
Proof. vm_compute. reflexivity. Qed.


Lemma frames_are_coherent_witness :
  Forall (fun c => slots c !! slot 4 3 = Some 3)
    (zip_with (fun c k => Nat.iter k (rtlsdrCallback 4) c)
       (map (fun n => Nat.iter n (rtlsdrCallback 4) (Chan 0 (replicate 4 0))) [5; 6]%nat) [2; 1]%nat).
Proof.
  apply (frames_are_coherent 4 3 _ [5; 6]%nat [2; 1]%nat).
  - lia.
  - lia.
  - reflexivity.
  - vm_compute. reflexivity.
  - repeat constructor; vm_compute; congruence.
Defined.

End Daq.
