(* ===== verification/CalLoop.v ===== *)
(** * The calibration loop

    The receiver ([RtlDaq]), the delay synchroniser ([DelaySync]) and the hardware
    controller ([HwControl]) closed over a chain of frames in flight: the
    synchroniser stamps its state into the headers, the controller reacts to it
    with messages, and the receiver carries them out and marks its frames.  The
    loop is started, and it is shown that it calibrates and comes to rest. *)
From S2P Require Import Prelude PyStruct PyText PyJson IQHeader Messages HwControl HwcRelay DelaySync RtlDaq.
From Stdlib Require Import SpecFloat.

Module Loop.

Section Loop.
(** The parameters of the synchroniser. *)
Context {V : Type} (vmul vdiv : V -> V -> V) (out_of_tolerance : V -> bool) (iq_adjust_at : Z -> V) (decibel : Q -> Q).
Context (M std_ch_ind : nat) (N_proc corr_peak_offset : Z) (min_corr_peak_dyn_range frac_delay_tolerance : Q).
Context (en_iq_cal : bool) (cal_track_mode max_sync_fails track_decimation cal_timeout_frames : Z).
Context (track_continuity invalidate_on_overrun : bool) (frames_after_overrun : Z).
(** Those of the controller that it does not share with it. *)
Context (unified : bool) (cal_frame_interval cal_frame_burst_size gain_lock_interval : Z).
Context (defer_during_burst recal_on_gain_change en_wire_recal en_bias_tee_runtime : bool).
(** Those of the receiver, the room of the chain, and the rounding of a
    correction to a float. *)
Context (daq_buffer_size : Z) (base : Hdr.t) (room : nat) (float_of : Q -> spec_float).

Definition sync_process : Hdr.t -> Sync.env -> Sync.t -> res (Sync.t * Hdr.t) :=
  Sync.process vmul vdiv out_of_tolerance iq_adjust_at decibel M std_ch_ind N_proc corr_peak_offset min_corr_peak_dyn_range
    frac_delay_tolerance en_iq_cal cal_track_mode max_sync_fails track_decimation cal_timeout_frames track_continuity
    invalidate_on_overrun false frames_after_overrun None.

Definition hwc_frame : Hwc.hw -> Hwc.input -> option Hwc.hw :=
  Hwc.frame M unified cal_track_mode cal_frame_interval cal_frame_burst_size gain_lock_interval false defer_during_burst
    recal_on_gain_change en_wire_recal en_bias_tee_runtime (fun _ => true).

(** What the controller reads of a header. *)
Definition seen (o : Hdr.t) : Hwc.header :=
  Hwc.Header (Hdr.frame_type o =? Sync.FRAME_TYPE_DUMMY) (Hdr.sync_state o) (Hdr.noise_source_state o) (Hdr.if_gains o)
    (Hdr.adc_overdrive_flags o) (Hdr.rf_center_freq o).

(** The messages, as they go over the wire. *)
Definition message (m : Hwc.msg) : Msg.im_msg :=
  match m with
  | Hwc.MGain g => Msg.SetGain g
  | Hwc.MNoise b => Msg.NoiseSource b
  | Hwc.MAgc => Msg.EnableAgc
  | Hwc.MFreq f => Msg.RfTune f
  | Hwc.MBias b => Msg.SetBiasTee (map (fun z => negb (z =? 0)) b)
  end.

Definition deliver (id : Z) (r : Daq.rx) (m : Msg.im_msg) : Daq.rx :=
  match Msg.im_encode id m with Ok bs => Daq.handle M bs r | Raise _ => r end.

Record sys := Sys { rx : Daq.rx; chain : list Hdr.t; ds : @Sync.t V; hw : Hwc.hw }.

(** The receiver sends a frame, which a full or a collecting stage may swallow;
    the synchroniser and the controller process the oldest frame of the chain. *)
Inductive event := Emit (e : Daq.env) (kept : bool) | Consume (e : @Sync.env V).

Definition emit (e : Daq.env) (kept : bool) (y : sys) : sys :=
  let h := Daq.stamp daq_buffer_size base e (rx y) in
  Sys (Daq.settle true e (rx y)) (if kept && (length (chain y) <? room)%nat then chain y ++ [h] else chain y) (ds y) (hw y).

Definition consume (e : Sync.env) (y : sys) : option sys :=
  match chain y with
  | [] => None
  | h :: rest =>
      match sync_process h e (ds y) with
      | Ok (d, o) =>
          w ← hwc_frame (hw y) (Hwc.Input (seen o) true None []);
          let tunes := map (fun l => Msg.SampleFreq (map float_of l)) (drop (length (Sync.tunes (Sync.machine (ds y)))) (Sync.tunes (Sync.machine d))) in
          let msgs := map message (drop (length (Hwc.sent (hw y))) (Hwc.sent w)) in
          Some (Sys (foldl (deliver 6) (foldl (deliver 5) (rx y) tunes) msgs) rest d w)
      | Raise _ => None
      end
  end.

Definition step (y : sys) (ev : event) : option sys :=
  match ev with Emit e k => Some (emit e k y) | Consume e => consume e y end.

Fixpoint run (evs : list event) (y : sys) : option sys :=
  match evs with [] => Some y | ev :: evs => y1 ← step y ev; run evs y1 end.

Definition start (adj ones : V) (gains0 : list Z) (g f r : Z) : sys :=
  Sys (Daq.boot M g f r) [] (Sync.boot M adj ones None None) (Hwc.configured M gains0 false f).

(** ** The receiver in the loop *)

(** The receiver tuned to [f], on its way to the noise source [x] and the gains [g]. *)
Record radio (x : bool) (g : list Z) (f : Z) (r : Daq.rx) : Prop := {
  radio_noise : Daq.noise_source_state r = x;
  radio_recs : length (Daq.recs r) = M /\ Forall (fun c => Daq.center_freq c = f) (Daq.recs r);
  radio_lengths : length (Daq.new_gains r) = M /\ length (Daq.new_fs_corrections r) = M /\ length (Daq.new_bias_states r) = M;
  radio_freq : Daq.center_freq_change_flag r = false;
  radio_gains : if Daq.gain_change_flag r then Daq.new_gains r = g else map Daq.gain (Daq.recs r) = g;
  radio_cntr : Daq.en_dummy_frame r = true -> 0 <= Daq.dummy_frame_cntr r < Daq.NO_DUMMY_FRAMES;
  radio_done : Daq.en_dummy_frame r = false -> Daq.gain_change_flag r = false }.

(** The tuners accept the gains. *)
Definition tuners_ok (e : Daq.env) : Prop := forall i, Daq.gain_ok e i = true.

(** Dummy frames still to come. *)
Definition owed (r : Daq.rx) : nat := if Daq.en_dummy_frame r then Z.to_nat (Daq.NO_DUMMY_FRAMES - Daq.dummy_frame_cntr r) else 0.

Lemma owed_le r x g f : radio x g f r -> (owed r <= 5)%nat.
Proof.
  intros [_ _ _ _ _ H _]. unfold owed. destruct (Daq.en_dummy_frame r); [|lia]. specialize (H eq_refl). unfold Daq.NO_DUMMY_FRAMES in *. lia.
Qed.

Lemma imap_gains (e : Daq.env) ng : forall rs : list Daq.rec, length ng = length rs -> tuners_ok e ->
  map Daq.gain (imap (fun i r => if Daq.gain_ok e i then Daq.Rec (nth i ng 0) false (Daq.center_freq r) (Daq.sample_rate r) else r) rs) = ng.
Proof.
  intros rs Hl He. apply list_eq. intros i. rewrite list_lookup_fmap, list_lookup_imap.
  destruct (rs !! i) as [r|] eqn:Hr; cbn.
  - rewrite He. cbn. apply lookup_lt_Some in Hr. destruct (lookup_lt_is_Some_2 ng i) as [v Hv]; [lia|].
    by rewrite Hv, (nth_lookup_Some _ _ _ _ Hv).
  - apply lookup_ge_None in Hr. symmetry. apply lookup_ge_None. lia.
Qed.

Lemma tune_gain_keeps e r l f : length (Daq.tune_gain e r l) = length l /\
  (Forall (fun c => Daq.center_freq c = f) l -> Forall (fun c => Daq.center_freq c = f) (Daq.tune_gain e r l)).
Proof.
  unfold Daq.tune_gain. case_match; [|done]. split; [by rewrite length_imap|]. rewrite !Forall_lookup. intros Hf i c.
  rewrite list_lookup_imap. destruct (l !! i) as [c0|] eqn:E; [|done]. cbn. intros [= <-]. specialize (Hf _ _ E). by case_match.
Qed.

Lemma tune_agc_keeps e r l f : length (Daq.tune_agc e r l) = length l /\ map Daq.gain (Daq.tune_agc e r l) = map Daq.gain l /\
  (Forall (fun c => Daq.center_freq c = f) l -> Forall (fun c => Daq.center_freq c = f) (Daq.tune_agc e r l)).
Proof.
  unfold Daq.tune_agc. case_match; [|done]. split_and!; [by rewrite length_imap| |].
  - apply list_eq. intros i. rewrite !list_lookup_fmap, list_lookup_imap. destruct (l !! i); [|done]. cbn. by case_match.
  - rewrite !Forall_lookup. intros Hf i c. rewrite list_lookup_imap. destruct (l !! i) as [c0|] eqn:E; [|done]. cbn.
    intros [= <-]. specialize (Hf _ _ E). by case_match.
Qed.

Lemma radio_settle x g f r e : radio x g f r -> tuners_ok e ->
  radio x g f (Daq.settle true e r) /\ owed (Daq.settle true e r) = (owed r - 1)%nat.
Proof.
  intros [H1 [H2 H3] H4 H5 H6 H7 H8] He.
  assert (Daq.tune_freq e (Daq.count_frame e r) = Daq.recs r) as Ef by (unfold Daq.tune_freq; cbn; by rewrite H5).
  destruct (tune_gain_keeps e (Daq.count_frame e r) (Daq.recs r) f) as [G1 G2].
  destruct (tune_agc_keeps e (Daq.count_frame e r) (Daq.tune_gain e (Daq.count_frame e r) (Daq.recs r)) f) as (A1 & A2 & A3).
  split.
  - constructor; unfold Daq.settle, Daq.tune; cbn [Daq.noise_source_state Daq.recs Daq.new_gains Daq.new_fs_corrections Daq.new_bias_states
      Daq.center_freq_change_flag Daq.gain_change_flag Daq.en_dummy_frame Daq.dummy_frame_cntr]; rewrite ?Ef; try done.
    + split; [congruence|]. by apply A3, G2.
    + rewrite A2. unfold Daq.tune_gain. cbn [Daq.count_frame Daq.gain_change_flag Daq.new_gains].
      destruct (Daq.gain_change_flag r); [|done]. rewrite imap_gains; [done|lia|done].
    + cbn. destruct (Daq.en_dummy_frame r); [|done]. specialize (H7 eq_refl). unfold Daq.NO_DUMMY_FRAMES in *.
      destruct (Z.eqb_spec (Daq.dummy_frame_cntr r + 1) 5); cbn; [done|lia].
  - unfold owed, Daq.settle, Daq.tune. cbn. destruct (Daq.en_dummy_frame r); [|done]. specialize (H7 eq_refl).
    unfold Daq.NO_DUMMY_FRAMES in *. destruct (Z.eqb_spec (Daq.dummy_frame_cntr r + 1) 5); cbn; lia.
Qed.

Context (Hchannels : (0 < M <= 31)%nat).

Definition gain_word (v : Z) : Prop := 0 <= v < 2 ^ 31.

Lemma handle_command r bs m : Daq.command_identifier bs = Msg.cmd_of m ->
  match m with
  | Msg.SetGain _ =>
      Daq.handle M bs r = Daq.start_dummies (Daq.Rx (Daq.recs r) (Daq.noise_source_state r) (Daq.last_noise_source_state r) (Daq.en_dummy_frame r)
        (Daq.dummy_frame_cntr r) (Daq.new_center_freq r) (Daq.center_freq_change_flag r) (Daq.new_gains (Daq.handle M bs r)) true
        (Daq.agc_change_flag r) (Daq.new_fs_corrections r) (Daq.fs_correction_flag r) (Daq.fs_reset_cntr r) (Daq.new_bias_states r)
        (Daq.bias_change_flag r) (Daq.reconfig_trigger r) (Daq.exit_flag r) (Daq.read_buff_ind r) (Daq.overrun_cntr r) (Daq.dev r))
  | Msg.NoiseSource _ =>
      Daq.handle M bs r = Daq.start_dummies (Daq.Rx (Daq.recs r) (Daq.noise_source_state (Daq.handle M bs r)) (Daq.last_noise_source_state r) (Daq.en_dummy_frame r)
        (Daq.dummy_frame_cntr r) (Daq.new_center_freq r) (Daq.center_freq_change_flag r) (Daq.new_gains r) (Daq.gain_change_flag r)
        (Daq.agc_change_flag r) (Daq.new_fs_corrections r) (Daq.fs_correction_flag r) (Daq.fs_reset_cntr r) (Daq.new_bias_states r)
        (Daq.bias_change_flag r) (Daq.reconfig_trigger r) (Daq.exit_flag r) (Daq.read_buff_ind r) (Daq.overrun_cntr r) (Daq.dev r))
  | _ => True
  end.
Proof. intros E. destruct m; try done; unfold Daq.handle, Daq.publish; rewrite E; reflexivity. Qed.

Lemma deliver_gain x g0 g f r : radio x g0 f r -> length g = M -> Forall gain_word g ->
  radio x g f (deliver 6 r (Msg.SetGain g)) /\ Daq.en_dummy_frame (deliver 6 r (Msg.SetGain g)) = true.
Proof.
  intros [H1 H2 (H4 & H4' & H4'') H5 H6 H7 H8] Hl Hg. unfold deliver.
  destruct (Msg.im_encode 6 (Msg.SetGain g)) as [bs|] eqn:E.
  2:{ exfalso. assert (Msg.encodable 6 (Msg.SetGain g)) as He.
      { split; [lia|]. split; [lia|]. eapply list.Forall_impl; [exact Hg|]. unfold gain_word, Msg.u32. lia. }
      pose proof (proj2 (Msg.im_encode_layout 6 (Msg.SetGain g) _) (conj He eq_refl)). congruence. }
  destruct (Daq.handle_takes M 6 (Msg.SetGain g) bs r) as [Ec [Et _]]; try done; [unfold Daq.ZMQ_MAX_CH_PARAMS; lia|].
  rewrite (handle_command r bs _ Ec). rewrite Et. split; [|done]. constructor; cbn; try done.
  - by rewrite length_map.
  - rewrite <- (map_id g) at 2. apply map_ext_Forall. eapply list.Forall_impl; [exact Hg|]. unfold gain_word. intros v Hv.
    unfold sx. destruct (Z.leb_spec (2 ^ (32 - 1)) v); lia.
Qed.

Lemma deliver_noise x b g f r : radio x g f r ->
  radio b g f (deliver 6 r (Msg.NoiseSource b)) /\ Daq.en_dummy_frame (deliver 6 r (Msg.NoiseSource b)) = true.
Proof.
  intros [H1 H2 (H4 & H4' & H4'') H5 H6 H7 H8]. unfold deliver.
  destruct (Msg.im_encode 6 (Msg.NoiseSource b)) as [bs|] eqn:E.
  2:{ exfalso. assert (Msg.encodable 6 (Msg.NoiseSource b)) as He by (split; [lia|done]).
      pose proof (proj2 (Msg.im_encode_layout 6 (Msg.NoiseSource b) _) (conj He eq_refl)). congruence. }
  destruct (Daq.handle_takes M 6 (Msg.NoiseSource b) bs r) as [Ec Et]; try done; [unfold Daq.ZMQ_MAX_CH_PARAMS; lia|].
  rewrite (handle_command r bs _ Ec). split; [|done]. constructor; done.
Qed.

(** ** Frames *)
Definition framed (x : bool) (f : Z) (h : Hdr.t) : Prop :=
  Hdr.frame_type h = (if x then Sync.FRAME_TYPE_CAL else Sync.FRAME_TYPE_DATA) /\ Hdr.noise_source_state h = Z.b2z x /\ Hdr.rf_center_freq h = f.
Definition dummy (h : Hdr.t) : Prop := Hdr.frame_type h = Sync.FRAME_TYPE_DUMMY.
(** Frames from before a request and its dummies, and frames after them. *)
Definition stale (x : bool) (f : Z) (h : Hdr.t) : Prop := dummy h \/ framed (negb x) f h.
Definition steady (x : bool) (g : list Z) (f : Z) (h : Hdr.t) : Prop := framed x f h /\ take M (Hdr.if_gains h) = g.

Lemma stamp_dummy e r : Daq.en_dummy_frame r = true -> dummy (Daq.stamp daq_buffer_size base e r).
Proof. intros H. unfold dummy. cbn. unfold Daq.frame_type_of. by rewrite H. Qed.

Lemma stamp_steady x g f e r : radio x g f r -> Forall gain_word g -> Daq.en_dummy_frame r = false ->
  steady x g f (Daq.stamp daq_buffer_size base e r).
Proof.
  intros [H1 [H2 H3] _ _ H6 _ H8] Hg Hd. rewrite (H8 Hd) in H6. split; [split_and!|]; cbn.
  - unfold Daq.frame_type_of. rewrite Hd, H1. by destruct x.
  - by rewrite H1.
  - destruct (list.last (Daq.recs r)) as [c|] eqn:E; [|apply last_None in E; rewrite E in H2; cbn in H2; lia].
    rewrite last_lookup in E. by eapply (Forall_lookup_1 _ _ _ _ H3).
  - rewrite take_app_length' by (by rewrite length_map). rewrite <- H6.
    rewrite <- H6 in Hg. rewrite List.Forall_forall in Hg. apply map_ext_in. intros c Hc. apply Z.mod_small.
    specialize (Hg _ (in_map _ _ _ Hc)). unfold gain_word in Hg. lia.
Qed.

(** ** The synchroniser in the loop *)
Notation fstep := (Sync._fsm_step vmul vdiv out_of_tolerance iq_adjust_at decibel M std_ch_ind N_proc corr_peak_offset min_corr_peak_dyn_range
  frac_delay_tolerance en_iq_cal cal_track_mode max_sync_fails track_decimation cal_timeout_frames).
Notation fbody := (Sync.fsm_body vmul vdiv out_of_tolerance iq_adjust_at decibel M std_ch_ind N_proc corr_peak_offset min_corr_peak_dyn_range
  frac_delay_tolerance en_iq_cal cal_track_mode max_sync_fails track_decimation).

Definition plain (s : @Sync.t V) : Prop := Sync.hwc_watcher (Sync.relays s) = None /\ Sync.recal_watcher (Sync.relays s) = None.

Lemma process_plain h e s : plain s ->
  exists m fl c o, fstep h (Sync.e_meas e) (Sync.machine s) = (m, fl) /\ sync_process h e s = Ok (Sync.T m c (Sync.relays s) fl.2 o, o) /\
    seen o = Hwc.Header (Hdr.frame_type h =? Sync.FRAME_TYPE_DUMMY) fl.2 (Hdr.noise_source_state h) (Hdr.if_gains h) (Hdr.adc_overdrive_flags h) (Hdr.rf_center_freq h).
Proof.
  intros [H1 H2]. unfold sync_process, Sync.process, Sync._tick_relays. rewrite H1, H2.
  destruct (fstep h (Sync.e_meas e) (Sync.machine s)) as [m fl]. do 4 eexists. split; [done|]. split; [reflexivity|done].
Qed.

(** The measurements a calibration succeeds on: the channels are aligned, and two
    of them differ within the tolerance of the tracking. *)
Record agreeing (f : Z) (good : @Sync.meas V -> Prop) : Prop := {
  agree_peaks : forall m, good m -> Sync.aligned decibel M std_ch_ind N_proc corr_peak_offset min_corr_peak_dyn_range m;
  agree_taus : forall m, good m -> Sync.settled M std_ch_ind frac_delay_tolerance m;
  agree_iq : forall m, good m -> Sync.matched vmul out_of_tolerance min_corr_peak_dyn_range en_iq_cal (iq_adjust_at f) m;
  agree_track : cal_track_mode = 1 -> forall m m0, good m -> good m0 -> Sync.low_range min_corr_peak_dyn_range m = false /\
    (en_iq_cal = true -> out_of_tolerance (vdiv (vmul (Sync.iq_diffs m) (iq_adjust_at f)) (vmul (Sync.iq_diffs m0) (iq_adjust_at f))) = false) }.

Context (f : Z) (good : @Sync.meas V -> Prop) (Hgood : agreeing f good) (Hfails : 0 < max_sync_fails).

Record mach (st : Sync.fsm) (s : @Sync.cal V) : Prop := {
  mach_state : Sync.current_state s = st;
  mach_failed : Sync.sync_failed_cntr s = 0;
  mach_adjust : st <> Sync.STATE_INIT -> Sync.iq_adjust s = iq_adjust_at f;
  mach_rf : st = Sync.STATE_TRACK -> Sync.last_rf s = f;
  mach_ref : st = Sync.STATE_TRACK -> cal_track_mode = 1 -> exists m0, good m0 /\ Sync.iq_diff_ref s = vmul (Sync.iq_diffs m0) (iq_adjust_at f) }.

Lemma mach_view st s s' :
  mach st s -> Sync.current_state s' = Sync.current_state s -> Sync.sync_failed_cntr s' = Sync.sync_failed_cntr s ->
  Sync.iq_adjust s' = Sync.iq_adjust s -> Sync.last_rf s' = Sync.last_rf s -> Sync.iq_diff_ref s' = Sync.iq_diff_ref s -> mach st s'.
Proof. intros [] E1 E2 E3 E4 E5. constructor; rewrite ?E1, ?E2, ?E3, ?E4, ?E5; done. Qed.

(** What a step leaves, but for the counter of the timeout. *)
Lemma step_of_body h m s s' fl : fstep h m s = (s', fl) ->
  exists s1, fbody h m s = (s1, fl) /\ Sync.tunes s' = Sync.tunes s1 /\ forall st, mach st s1 -> mach st s'.
Proof.
  unfold Sync._fsm_step. destruct (fbody h m s) as [s1 fl1]. intros [= <- <-]. exists s1. split; [done|].
  case_match; [|done]. destruct (Sync.timeout_frame cal_timeout_frames (Sync.current_state s) h s1) as (E1 & E2 & E3 & E4 & E5).
  split; [|intros st Hm; by eapply mach_view]. unfold Sync._track_cal_timeout. repeat case_match; done.
Qed.

Lemma peaks_aligned corr chs :
  Forall (fun ch => let c := nth ch corr [] in
    Sync.argmax c = N_proc /\ Qltb (Sync.dyn_range decibel N_proc corr_peak_offset c (Sync.argmax c)) min_corr_peak_dyn_range = false) chs ->
  forall ds, exists ds', Sync.check_peaks decibel N_proc corr_peak_offset min_corr_peak_dyn_range chs corr ds true false = (ds', true, false, true).
Proof.
  induction 1 as [|ch chs [Ha Hd] _ IH]; intros ds; cbn [Sync.check_peaks]; [by eexists|]. rewrite Hd, Ha, Z.sub_diag. cbn. apply IH.
Qed.

Lemma quality_view st m s : mach st s -> mach st (Sync.note_quality m s) /\ Sync.tunes (Sync.note_quality m s) = Sync.tunes s.
Proof. intros H. unfold Sync.note_quality. case_match; [done|]. split; [|done]. by eapply mach_view. Qed.

(** What a calibration and a data frame do to the machine on good measurements. *)
Definition on_frame (x : bool) (st : Sync.fsm) : option (Sync.fsm * Z) :=
  match st with
  | Sync.STATE_INIT => Some (if x then Sync.STATE_SAMPLE_CAL else Sync.STATE_INIT, 1)
  | Sync.STATE_SAMPLE_CAL => if x then Some (Sync.STATE_FRAC_SAMPLE_CAL, 2) else None
  | Sync.STATE_FRAC_SAMPLE_CAL => if x then Some (Sync.STATE_IQ_CAL, 3) else None
  | Sync.STATE_IQ_CAL => if x then Some (Sync.STATE_TRACK_LOCK, 4) else None
  | Sync.STATE_TRACK_LOCK => Some (if x then Sync.STATE_TRACK_LOCK else Sync.STATE_TRACK, 5)
  | Sync.STATE_TRACK => if x then None else Some (Sync.STATE_TRACK, 6)
  | _ => None
  end.

Lemma cal_init h s : mach Sync.STATE_INIT s -> Hdr.rf_center_freq h = f ->
  let s1 := (Sync.init_state iq_adjust_at h s).1 in
  mach (if Sync.is_frame Sync.FRAME_TYPE_CAL h then Sync.STATE_SAMPLE_CAL else Sync.STATE_INIT) s1 /\ Sync.tunes s1 = Sync.tunes s.
Proof. intros [H1 H2 _ _ _] Hf. unfold Sync.init_state. rewrite Hf. destruct (Sync.is_frame _ h); split; try done; by constructor. Qed.

Lemma cal_sample h m s : mach Sync.STATE_SAMPLE_CAL s -> good m ->
  exists s1 fl, Sync.sample_cal decibel M std_ch_ind N_proc corr_peak_offset min_corr_peak_dyn_range h m s = (s1, (fl, 2)) /\
    mach Sync.STATE_FRAC_SAMPLE_CAL s1 /\ Sync.tunes s1 = Sync.tunes s.
Proof.
  intros [H1 H2 H3 _ _] Hm. destruct (peaks_aligned _ _ (agree_peaks _ _ Hgood m Hm) (Sync.delays s)) as [ds E].
  unfold Sync.sample_cal. rewrite E. do 2 eexists. split; [reflexivity|]. split; [|done]. constructor; try done. intros _. by apply H3.
Qed.

Lemma cal_frac h m s : mach Sync.STATE_FRAC_SAMPLE_CAL s -> good m ->
  exists s1 fl, Sync.frac_sample_cal M std_ch_ind frac_delay_tolerance h m s = (s1, (fl, 3)) /\ mach Sync.STATE_IQ_CAL s1 /\ Sync.tunes s1 = Sync.tunes s.
Proof.
  intros [H1 H2 H3 _ _] Hm. unfold Sync.frac_sample_cal. rewrite (agree_taus _ _ Hgood m Hm). do 2 eexists. split; [reflexivity|].
  split; [|done]. constructor; try done. intros _. by apply H3.
Qed.

Lemma cal_iq h m s : mach Sync.STATE_IQ_CAL s -> good m ->
  exists s1 fl, Sync.iq_cal vmul out_of_tolerance min_corr_peak_dyn_range en_iq_cal cal_track_mode h m s = (s1, (fl, 4)) /\
    mach Sync.STATE_TRACK_LOCK s1 /\ Sync.tunes s1 = Sync.tunes s.
Proof.
  intros Hs Hm. destruct (quality_view _ m s Hs) as [[Q1 Q2 Q3 _ _] Qt]. pose proof (mach_adjust _ _ Hs ltac:(done)) as Ha.
  pose proof (agree_iq _ _ Hgood m Hm) as Hi. unfold Sync.iq_cal, Sync.adjusted. rewrite Ha. do 2 eexists. split; [reflexivity|].
  destruct en_iq_cal eqn:Ei.
  - destruct (Hi eq_refl) as [Hl Ho]. rewrite Hl, Ho. cbn [andb negb]. destruct (cal_track_mode =? 2); (split; [|done]); constructor; try done;
      intros _; by apply Q3.
  - destruct Hs as [H1 H2 H3 _ _]. cbn [andb negb]. rewrite andb_false_r. split; [|done]. by constructor.
Qed.

Lemma cal_lock h m s : mach Sync.STATE_TRACK_LOCK s -> good m -> Hdr.rf_center_freq h = f ->
  exists s1 fl, Sync.track_lock vmul cal_track_mode h m s = (s1, (fl, 5)) /\
    mach (if Sync.is_frame Sync.FRAME_TYPE_DATA h then Sync.STATE_TRACK else Sync.STATE_TRACK_LOCK) s1 /\ Sync.tunes s1 = Sync.tunes s.
Proof.
  intros Hs Hm Hf. unfold Sync.track_lock. do 2 eexists. split; [reflexivity|]. destruct (Sync.is_frame _ h); [|done].
  destruct (quality_view _ m s Hs) as [[Q1 Q2 Q3 _ _] Qt]. pose proof (Q3 ltac:(done)) as Ha.
  destruct (Z.eqb_spec cal_track_mode 1) as [E|E]; (split; [|done]); constructor; try done.
  intros _ _. exists m. split; [done|]. unfold Sync.adjusted. cbn. by rewrite Ha.
Qed.

Lemma cal_track h m s : mach Sync.STATE_TRACK s -> good m -> Hdr.rf_center_freq h = f ->
  (cal_track_mode = 0 \/ cal_track_mode = 1) ->
  exists s1 fl, Sync.track vmul vdiv out_of_tolerance min_corr_peak_dyn_range en_iq_cal cal_track_mode max_sync_fails track_decimation h m s = (s1, (fl, 6)) /\
    mach Sync.STATE_TRACK s1 /\ Sync.tunes s1 = Sync.tunes s.
Proof.
  intros Hs Hm Hf Hmode. unfold Sync.track. set (s0 := if Sync.decimated _ _ h then _ else s).
  assert (mach Sync.STATE_TRACK s0 /\ Sync.tunes s0 = Sync.tunes s) as [H0 Ht0].
  { unfold s0. case_match; [|done]. split; [by eapply mach_view|done]. }
  clearbody s0. destruct (Sync.track_check cal_track_mode h && _) eqn:Ec; [|destruct (Sync.track_check _ h)];
    try (rewrite (mach_rf _ _ H0 eq_refl), Hf, Z.eqb_refl; do 2 eexists; split; [reflexivity|]; by rewrite Ht0).
  assert (cal_track_mode = 1) as E1 by (destruct Hmode as [E|E]; [|done]; apply andb_true_iff in Ec as [Ec _]; unfold Sync.track_check in Ec; by rewrite E in Ec).
  destruct (mach_ref _ _ H0 eq_refl E1) as (m0 & Hm0 & Hr). destruct (agree_track _ _ Hgood E1 m m0 Hm Hm0) as [Hl Ho].
  assert (Sync.check_failed en_iq_cal (Sync.check_flags vmul vdiv out_of_tolerance min_corr_peak_dyn_range en_iq_cal m s0) = false) as Hc.
  { unfold Sync.check_failed, Sync.check_flags. cbn. rewrite Hl. cbn. destruct en_iq_cal; [|done]. cbn. unfold Sync.adjusted.
    rewrite (mach_adjust _ _ H0 ltac:(done)), Hr, Ho; done. }
  destruct (quality_view _ m s0 H0) as [HQ Qt]. unfold Sync.loss_control. rewrite Hc. cbn [Sync.sync_failed_cntr Sync.set_failed].
  rewrite (mach_failed _ _ HQ). destruct (Z.eqb_spec (0 - 1) max_sync_fails); [lia|]. change (0 - 1 <? 0) with true. cbn [Sync.last_rf Sync.set_last_flags Sync.set_failed].
  rewrite (mach_rf _ _ HQ eq_refl), Hf, Z.eqb_refl. do 2 eexists. split; [reflexivity|]. split; [|by rewrite <- Ht0].
  destruct HQ as [Q1 Q2 Q3 Q4 Q5]. by constructor.
Qed.

Lemma mach_frame x st st' n h m s s' fl :
  (cal_track_mode = 0 \/ cal_track_mode = 1) ->
  mach st s -> good m -> framed x f h -> on_frame x st = Some (st', n) -> fstep h m s = (s', fl) ->
  mach st' s' /\ fl.2 = n /\ Sync.tunes s' = Sync.tunes s.
Proof.
  intros Hmode Hs Hm (Ht & _ & Hf) Ho (s1 & Hb & Et & Hv)%step_of_body.
  assert (Sync.is_frame Sync.FRAME_TYPE_DUMMY h = false /\ Sync.is_frame Sync.FRAME_TYPE_CAL h = x /\ Sync.is_frame Sync.FRAME_TYPE_DATA h = negb x)
    as (Hd & Hc & Ha) by (unfold Sync.is_frame; rewrite Ht; by destruct x).
  unfold Sync.fsm_body in Hb. rewrite Hd, (mach_state _ _ Hs) in Hb. rewrite Et.
  destruct st; try done; cbn in Ho.
  - destruct (cal_init h s Hs Hf) as [Hm1 Ht1]. rewrite Hb, Hc in *. injection Ho as <- <-. unfold Sync.init_state in Hb.
    split_and!; [by apply Hv|by injection Hb as _ <-|done].
  - destruct x; [|done]. injection Ho as <- <-. destruct (cal_sample h m s Hs Hm) as (s2 & fl2 & E & H1 & H2). rewrite E in Hb. injection Hb as <- <-. auto.
  - destruct x; [|done]. injection Ho as <- <-. destruct (cal_frac h m s Hs Hm) as (s2 & fl2 & E & H1 & H2). rewrite E in Hb. injection Hb as <- <-. auto.
  - destruct x; [|done]. injection Ho as <- <-. destruct (cal_iq h m s Hs Hm) as (s2 & fl2 & E & H1 & H2). rewrite E in Hb. injection Hb as <- <-. auto.
  - destruct (cal_lock h m s Hs Hm Hf) as (s2 & fl2 & E & H1 & H2). rewrite E in Hb. injection Hb as <- <-. rewrite Ha in H1.
    injection Ho as <- <-. destruct x; auto.
  - destruct x; [done|]. injection Ho as <- <-. destruct (cal_track h m s Hs Hm Hf Hmode) as (s2 & fl2 & E & H1 & H2). rewrite E in Hb. injection Hb as <- <-. auto.
Qed.

Lemma mach_dummy st h m s s' fl :
  mach st s -> st <> Sync.STATE_SYNC_WAIT -> st <> Sync.STATE_FRAC_SYNC_WAIT -> dummy h -> fstep h m s = (s', fl) ->
  mach st s' /\ fl.2 = 0 /\ Sync.tunes s' = Sync.tunes s.
Proof.
  intros Hs N1 N2 Hd (s1 & Hb & Et & Hv)%step_of_body. unfold Sync.fsm_body, Sync.is_frame in Hb. rewrite Hd in Hb. cbn in Hb.
  injection Hb as <- <-. rewrite Et. destruct Hs as [H1 H2 H3 H4 H5].
  assert (Sync.dummy s = Sync.set_failed 0 s) as E by (unfold Sync.dummy; cbn; rewrite H1; by destruct st).
  rewrite E in *. split; [|done]. apply Hv. by constructor.
Qed.

(** ** The controller in the loop *)
Context (Hmode : cal_track_mode = 0 \/ cal_track_mode = 1).

Definition user_list (g : list nat) : Prop := length g = M /\ Forall Hwc.idx_ok g /\ Hwc.uniform M unified g.
Definition index_list (x : bool) (g : list nat) : list nat := if x then replicate M (Hwc.cal_gain f) else g.
(** The gains commanded with the noise source on and off. *)
Definition commanded (x : bool) (g : list nat) : list Z := Hwc.tenths (index_list x g).

Record ctl (st : Hwc.fsm) (x : bool) (g : list nat) (w : Hwc.hw) : Prop := {
  ctl_state : Hwc.current_state w = st;
  ctl_noise : Hwc.noise_source_state w = x;
  ctl_gains : Hwc.gains w = index_list x g;
  ctl_agc : Hwc.agc w = false;
  ctl_last : x = true -> Hwc.last_gains w = g /\ Hwc.last_agc w = false }.

Notation observe w hd := (hwc_frame w (Hwc.Input hd true None [])).

Lemma frame_plain w hd : Hwc.h_dummy hd = false ->
  observe w hd = Hwc.fsm_step M unified cal_track_mode cal_frame_interval cal_frame_burst_size gain_lock_interval false
                   recal_on_gain_change en_wire_recal en_bias_tee_runtime (fun _ => true) hd true None w.
Proof.
  intros E. unfold hwc_frame, Hwc.frame. cbn [Hwc.i_header Hwc.i_approved Hwc.i_sched Hwc.i_requests]. rewrite E.
  destruct (Hwc.fsm_step _ _ _ _ _ _ _ _ _ _ _ _ _ _ w) as [w1|]; [|done]. cbn. by destruct (Hwc.current_state w1).
Qed.

Lemma observe_dummy w hd : Hwc.h_dummy hd = true -> observe w hd = Some w.
Proof. intros E. unfold hwc_frame, Hwc.frame. cbn. rewrite E. cbn. by destruct (Hwc.current_state w). Qed.

Lemma mode_first (a : bool) : (cal_track_mode =? 0) || (cal_track_mode =? 1) || a = true /\ (cal_track_mode =? 2) = false.
Proof. by destruct Hmode as [-> | ->]. Qed.

Lemma user_list_unify g : length g = M -> Forall Hwc.idx_ok g -> user_list (Hwc.unify M unified g).
Proof.
  intros Hl Hi. unfold Hwc.unify, user_list, Hwc.uniform. destruct unified; [|done].
  split_and!; [by rewrite length_replicate| |by eexists]. apply Forall_replicate. by apply Hwc.list_min_ok.
Qed.

Lemma unify_cal : Hwc.unify M unified (replicate M (Hwc.cal_gain f)) = replicate M (Hwc.cal_gain f).
Proof. apply Hwc.unify_id. intros _. by eexists. Qed.

Lemma observe_init w hd g : Hwc.h_dummy hd = false -> Hwc.current_state w = Hwc.STATE_INIT -> Hwc.gains w = g -> length g = M ->
  Hwc.noise_source_state w = false -> Hwc.agc w = false -> existsb id (Hwc.gain_tune_states w) = false ->
  exists w', observe w hd = Some w' /\ ctl Hwc.STATE_IQ_CAL false (Hwc.unify M unified g) w' /\
    Hwc.sent w' = Hwc.sent w ++ [Hwc.MGain (commanded false (Hwc.unify M unified g)); Hwc.MNoise false].
Proof.
  intros Hd Hs Hg Hl Hn Ha Ht. rewrite frame_plain by done. unfold Hwc.fsm_step. rewrite Hs. eexists. split; [done|].
  rewrite Hwc.change_gains_eq. cbn. rewrite Ht, Hg. split; [by constructor|]. rewrite <- app_assoc. unfold commanded, index_list.
  rewrite take_ge; [done|]. unfold Hwc.unify. destruct unified; rewrite ?length_replicate; lia.
Qed.

Lemma observe_on w hd g : ctl Hwc.STATE_IQ_CAL false g w -> Hwc.h_dummy hd = false -> Hwc.h_sync_state hd < 5 -> Hwc.h_noise hd = 0 -> Hwc.h_freq hd = f ->
  exists w', observe w hd = Some w' /\ ctl Hwc.STATE_NOISE_CTR_WAIT true g w' /\
    Hwc.sent w' = Hwc.sent w ++ [Hwc.MGain (commanded true g); Hwc.MNoise true].
Proof.
  intros [Hs Hn Hg Ha _] Hd Hsy Hno Hf. rewrite frame_plain by done. unfold Hwc.fsm_step, Hwc.iq_cal. rewrite Hs.
  destruct (mode_first ((cal_track_mode =? 2) && (Hwc.cal_frame_cntr w <? cal_frame_interval))) as [-> ->].
  destruct (Z.ltb_spec (Hwc.h_sync_state hd) 5); [|lia]. rewrite Hno. cbn [Z.eqb Hwc.schedule_cmds]. eexists. split; [done|].
  unfold Hwc._control_noise_source. rewrite Hwc.change_gains_eq. cbn. rewrite Hf, unify_cal.
  split; [|rewrite <- app_assoc; unfold commanded, index_list; by rewrite take_ge by (by rewrite length_replicate)].
  constructor; try done.
Qed.

Lemma observe_off w hd g : user_list g -> ctl Hwc.STATE_IQ_CAL true g w -> Hwc.h_dummy hd = false -> 5 <= Hwc.h_sync_state hd -> Hwc.h_noise hd = 1 ->
  exists w', observe w hd = Some w' /\ ctl Hwc.STATE_NOISE_CTR_WAIT false g w' /\
    Hwc.sent w' = Hwc.sent w ++ [Hwc.MNoise false; Hwc.MGain (commanded false g)].
Proof.
  intros (Hl & _ & Hu) [Hs Hn Hg Ha HL] Hd Hsy Hno. rewrite frame_plain by done. unfold Hwc.fsm_step, Hwc.iq_cal. rewrite Hs.
  destruct (mode_first ((cal_track_mode =? 2) && (Hwc.cal_frame_cntr w <? cal_frame_interval))) as [-> ->].
  destruct (Z.ltb_spec (Hwc.h_sync_state hd) 5); [lia|]. rewrite Hno. cbn [Z.eqb Pos.eqb negb orb andb Hwc.schedule_cmds]. eexists. split; [done|].
  destruct (HL eq_refl) as [HL1 HL2].
  unfold Hwc._control_noise_source. cbn [Hwc.transact fst snd]. rewrite Hwc.change_gains_eq. cbn. rewrite HL1, HL2, (Hwc.unify_id _ _ _ Hu).
  unfold Hwc._enable_agc. cbn. split; [by constructor|]. rewrite <- app_assoc. unfold commanded, index_list. by rewrite take_ge by lia.
Qed.

Lemma observe_idle w hd x g : ctl Hwc.STATE_IQ_CAL x g w -> Hwc.h_dummy hd = false ->
  (if x then Hwc.h_sync_state hd < 5 /\ Hwc.h_noise hd = 1 else 5 <= Hwc.h_sync_state hd /\ Hwc.h_noise hd = 0) -> observe w hd = Some w.
Proof.
  intros [Hs Hn Hg Ha HL] Hd Hx. rewrite frame_plain by done. unfold Hwc.fsm_step, Hwc.iq_cal. rewrite Hs.
  destruct (mode_first ((cal_track_mode =? 2) && (Hwc.cal_frame_cntr w <? cal_frame_interval))) as [-> ->].
  destruct x, Hx as [Hsy ->], (Z.ltb_spec (Hwc.h_sync_state hd) 5); try lia; done.
Qed.

Lemma observe_wait w hd x g : ctl Hwc.STATE_NOISE_CTR_WAIT x g w -> Hwc.h_dummy hd = false -> Hwc.h_noise hd = Z.b2z (negb x) -> observe w hd = Some w.
Proof.
  intros [Hs Hn Hg Ha HL] Hd Hno. rewrite frame_plain by done. unfold Hwc.fsm_step. rewrite Hs, Hn, Hno. by destruct x.
Qed.

Lemma observe_done w hd x g : ctl Hwc.STATE_NOISE_CTR_WAIT x g w -> length g = M -> Hwc.h_dummy hd = false -> Hwc.h_noise hd = Z.b2z x ->
  take M (Hwc.h_if_gains hd) = commanded x g ->
  exists w', observe w hd = Some w' /\ ctl Hwc.STATE_IQ_CAL x g w' /\ Hwc.sent w' = Hwc.sent w.
Proof.
  intros [Hs Hn Hg Ha HL] Hl Hd Hno Hif. rewrite frame_plain by done. unfold Hwc.fsm_step. rewrite Hs, Hn, Hno, Z.eqb_refl.
  assert (Hwc.gains_settled M hd w = true) as ->; [|eexists; split; [done|]; split; [by constructor|done]].
  unfold Hwc.gains_settled. apply forallb_forall. intros m [_ Hm]%in_seq. apply Z.eqb_eq. rewrite Hg.
  assert (nth m (Hwc.h_if_gains hd) 0 = nth m (take M (Hwc.h_if_gains hd)) 0) as -> by (rewrite !nth_lookup, lookup_take_lt; [done|lia]).
  rewrite Hif. unfold commanded, Hwc.tenths.
  destruct (lookup_lt_is_Some_2 (index_list x g) m) as [v Hv]; [unfold index_list; destruct x; rewrite ?length_replicate; lia|].
  rewrite (nth_lookup_Some _ _ _ _ Hv). symmetry. apply nth_lookup_Some. by rewrite list_lookup_fmap, Hv.
Qed.

(** ** The loop *)

(** The receiver heads for [x] and [g]; the frames of the chain are first stale
    and then steady, and [n] frames at most come before the first steady one. *)
Definition waits (x : bool) (g : list Z) (p : bool) (n : nat) (y : sys) : Prop :=
  exists pre post, chain y = pre ++ post /\ Forall (stale p f) pre /\ Forall (steady x g f) post /\
    (Daq.en_dummy_frame (rx y) = true -> post = []) /\ radio x g f (rx y) /\ n = (length pre + owed (rx y))%nat.

Lemma tenths_words l : Forall Hwc.idx_ok l -> Forall gain_word (Hwc.tenths l).
Proof.
  intros H. eapply list.Forall_impl; [by apply Hwc.tenths_ok|]. intros v Hv.
  assert (Forall gain_word Hwc.valid_gains) as Hw by (repeat constructor; unfold gain_word; lia).
  by eapply (proj1 (list.Forall_forall _ _) Hw).
Qed.

Lemma commanded_ok x g : user_list g -> length (commanded x g) = M /\ Forall gain_word (commanded x g).
Proof.
  intros (Hl & Hi & _). unfold commanded, index_list. split.
  - unfold Hwc.tenths. rewrite length_map. destruct x; [by rewrite length_replicate|done].
  - apply tenths_words. destruct x; [|done]. apply Forall_replicate. apply Hwc.cal_gain_ok.
Qed.

Lemma waits_emit x g p n y e k : waits x g p n y -> Forall gain_word g -> tuners_ok e ->
  exists n', (n' <= n)%nat /\ waits x g p n' (emit e k y).
Proof.
  intros (pre & post & Hc & Hp & Hq & Hd & Hr & ->) Hg He. destruct (radio_settle _ _ _ _ _ Hr He) as [Hr' Ho].
  unfold emit. set (h := Daq.stamp _ _ _ _). set (kept := k && _).
  destruct (Daq.en_dummy_frame (rx y)) eqn:Ed.
  - assert (owed (rx y) <> 0)%nat as H0.
    { unfold owed. rewrite Ed. pose proof (radio_cntr _ _ _ _ Hr Ed). unfold Daq.NO_DUMMY_FRAMES in *. lia. }
    rewrite (Hd eq_refl), app_nil_r in Hc. pose proof (stamp_dummy e _ Ed : dummy h) as Hh.
    exists (length (if kept then pre ++ [h] else pre) + (owed (rx y) - 1))%nat. split; [destruct kept; rewrite ?length_app; cbn; lia|].
    exists (if kept then pre ++ [h] else pre), []. rewrite app_nil_r. split_and!; try done; cbn.
    + by rewrite Hc.
    + destruct kept; [|done]. apply list.Forall_app. split; [done|]. constructor; [by left|done].
    + by rewrite Ho.
  - pose proof (stamp_steady _ _ _ e _ Hr Hg Ed : steady x g f h) as Hh. exists (length pre + owed (rx y))%nat. split; [lia|].
    exists pre, (if kept then post ++ [h] else post). split_and!; try done; cbn.
    + rewrite Hc. destruct kept; [by rewrite app_assoc|done].
    + destruct kept; [|done]. apply list.Forall_app. split; [done|]. by constructor.
    + rewrite Ed. done.
    + rewrite Ho. unfold owed. rewrite Ed. done.
Qed.

(** A frame that makes the controller send [msgs]. *)
Lemma consume_ok e y h rest m fl w msgs :
  chain y = h :: rest -> plain (ds y) -> fstep h (Sync.e_meas e) (Sync.machine (ds y)) = (m, fl) ->
  Sync.tunes m = Sync.tunes (Sync.machine (ds y)) ->
  observe (hw y) (Hwc.Header (Hdr.frame_type h =? Sync.FRAME_TYPE_DUMMY) fl.2 (Hdr.noise_source_state h) (Hdr.if_gains h) (Hdr.adc_overdrive_flags h) (Hdr.rf_center_freq h)) = Some w ->
  Hwc.sent w = Hwc.sent (hw y) ++ msgs ->
  exists d, consume e y = Some (Sys (foldl (deliver 6) (rx y) (map message msgs)) rest d w) /\ Sync.machine d = m /\ plain d.
Proof.
  intros Hc Hp Hf Ht Ho Hs. destruct (process_plain h e _ Hp) as (m1 & fl1 & c & o & Hf1 & Hpr & Hse).
  rewrite Hf in Hf1. injection Hf1 as <- <-. unfold consume. rewrite Hc, Hpr, Hse, Ho. cbn [mbind option_bind Sync.machine].
  rewrite Ht, drop_all, Hs, drop_app_length. eexists. split; [done|]. split; [done|]. exact Hp.
Qed.

(** Where the three processes are. *)
Record at_ (st : Sync.fsm) (c : Hwc.fsm) (x : bool) (u : list nat) (p : bool) (n : nat) (y : sys) : Prop := {
  at_plain : plain (ds y);
  at_room : (length (chain y) <= room)%nat;
  at_mach : mach st (Sync.machine (ds y));
  at_ctl : ctl c x u (hw y);
  at_waits : waits x (commanded x u) p n y }.

Lemma at_radio st c x u p n y : at_ st c x u p n y -> radio x (commanded x u) f (rx y).
Proof. intros [_ _ _ _ (pre & post & _ & _ & _ & _ & Hr & _)]. done. Qed.

Lemma waits_uncons x g p n y h rest : waits x g p n y -> chain y = h :: rest ->
  (stale p f h /\ exists n', (n' < n)%nat /\ forall y', rx y' = rx y -> chain y' = rest -> waits x g p n' y') \/
  (steady x g f h /\ forall p' y', rx y' = rx y -> chain y' = rest -> waits x g p' 0 y').
Proof.
  intros (pre & post & Hc & Hp & Hq & Hd & Hr & ->) E. rewrite E in Hc. destruct pre as [|h0 pre].
  - right. cbn in Hc. subst post. apply list.Forall_cons in Hq as [Hh Hq]. split; [done|]. intros p' y' Hy Hc'.
    destruct (Daq.en_dummy_frame (rx y)) eqn:Ed; [by specialize (Hd eq_refl)|]. exists [], rest. unfold owed. by rewrite Hy, Hc', Ed.
  - left. injection Hc as <- ->. apply list.Forall_cons in Hp as [Hh Hp]. split; [done|]. exists (length pre + owed (rx y))%nat.
    split; [cbn; lia|]. intros y' Hy Hc'. exists pre, post. by rewrite Hy, Hc'.
Qed.

Lemma waits_respond x g p y : radio x g f (rx y) -> Daq.en_dummy_frame (rx y) = true -> Forall (stale p f) (chain y) ->
  (length (chain y) <= room)%nat -> exists n, (n <= room + 5)%nat /\ waits x g p n y.
Proof.
  intros Hr Hd Hs Hl. exists (length (chain y) + owed (rx y))%nat. pose proof (owed_le _ _ _ _ Hr). split; [lia|].
  exists (chain y), []. by rewrite app_nil_r.
Qed.

Lemma waits_stale x g p n y h rest : waits x g p n y -> chain y = h :: rest -> p = negb x \/ n = 0%nat -> Forall (stale (negb x) f) rest.
Proof.
  intros (pre & post & Hc & Hp & Hq & _ & _ & En) E Hx.
  assert (Forall (stale (negb x) f) (pre ++ post)) as H.
  { apply list.Forall_app. split.
    - destruct Hx as [-> | ->]; [done|]. destruct pre; [constructor|cbn in En; lia].
    - eapply list.Forall_impl; [exact Hq|]. intros h0 [Hf _]. right. by rewrite negb_involutive. }
  rewrite <- Hc, E in H. by apply list.Forall_cons in H as [_ H].
Qed.

Definition looks (h : Hdr.t) (n : Z) : Hwc.header :=
  Hwc.Header (Hdr.frame_type h =? Sync.FRAME_TYPE_DUMMY) n (Hdr.noise_source_state h) (Hdr.if_gains h) (Hdr.adc_overdrive_flags h) (Hdr.rf_center_freq h).

(** A frame on which nothing is sent. *)
Lemma consume_quiet e y y' h rest m fl w :
  chain y = h :: rest -> plain (ds y) -> fstep h (Sync.e_meas e) (Sync.machine (ds y)) = (m, fl) ->
  Sync.tunes m = Sync.tunes (Sync.machine (ds y)) -> observe (hw y) (looks h fl.2) = Some w -> Hwc.sent w = Hwc.sent (hw y) ->
  consume e y = Some y' -> rx y' = rx y /\ chain y' = rest /\ Sync.machine (ds y') = m /\ plain (ds y') /\ hw y' = w.
Proof.
  intros Hc Hp Hf Ht Ho Hs Hy. destruct (consume_ok e y h rest m fl w [] Hc Hp Hf Ht Ho) as (d & E & Hm & Hpd); [by rewrite app_nil_r|].
  rewrite E in Hy. injection Hy as <-. done.
Qed.

(** A frame that the machines wait on. *)
Lemma at_stays st c x u p n e y y' h rest st' m fl w :
  at_ st c x u p n y -> chain y = h :: rest -> fstep h (Sync.e_meas e) (Sync.machine (ds y)) = (m, fl) ->
  Sync.tunes m = Sync.tunes (Sync.machine (ds y)) -> mach st' m ->
  observe (hw y) (looks h fl.2) = Some w -> Hwc.sent w = Hwc.sent (hw y) -> consume e y = Some y' ->
  forall c' p' n', ctl c' x u w -> (forall z, rx z = rx y -> chain z = rest -> waits x (commanded x u) p' n' z) -> at_ st' c' x u p' n' y'.
Proof.
  intros [Hp Hl _ _ _] Hc Hf Ht Hm Ho Hs Hy c' p' n' Hct Hw.
  destruct (consume_quiet e y y' h rest m fl w Hc Hp Hf Ht Ho Hs Hy) as (E1 & E2 & E3 & E4 & E5).
  constructor; [done|rewrite E2; rewrite Hc in Hl; cbn in Hl; lia|by rewrite E3|by rewrite E5|by apply Hw].
Qed.

(** A dummy frame while something is waited for. *)
Lemma at_dummy st c x u p n e y y' h rest :
  at_ st c x u p n y -> chain y = h :: rest -> dummy h -> st <> Sync.STATE_SYNC_WAIT -> st <> Sync.STATE_FRAC_SYNC_WAIT -> consume e y = Some y' ->
  forall p' n', (forall z, rx z = rx y -> chain z = rest -> waits x (commanded x u) p' n' z) -> at_ st c x u p' n' y'.
Proof.
  intros Ha Hc Hd N1 N2 Hy p' n' Hw. destruct (fstep h (Sync.e_meas e) (Sync.machine (ds y))) as [m fl] eqn:Hf.
  destruct (mach_dummy st h (Sync.e_meas e) _ m fl (at_mach _ _ _ _ _ _ _ Ha) N1 N2 Hd Hf) as (Hm & _ & Ht).
  assert (observe (hw y) (looks h fl.2) = Some (hw y)) as Ho by (apply observe_dummy; cbn; by apply Z.eqb_eq).
  eapply (at_stays _ _ _ _ _ _ _ _ _ _ _ _ _ _ _ Ha Hc Hf Ht Hm Ho eq_refl Hy); [apply Ha|done].
Qed.

Section Phases.
Context (u : list nat) (Hu : user_list u).

Lemma looks_frame x h n : framed x f h -> Hwc.h_dummy (looks h n) = false /\ Hwc.h_noise (looks h n) = Z.b2z x /\ Hwc.h_freq (looks h n) = f.
Proof. intros (E1 & E2 & E3). unfold looks. cbn. rewrite E1. split_and!; [by destruct x|done|done]. Qed.

(** The frame the controller answers with two messages. *)
Lemma at_answers x g e y y' h rest st' m fl w c' x' msgs :
  plain (ds y) -> (length (chain y) <= room)%nat -> radio x g f (rx y) -> chain y = h :: rest -> fstep h (Sync.e_meas e) (Sync.machine (ds y)) = (m, fl) ->
  Sync.tunes m = Sync.tunes (Sync.machine (ds y)) -> mach st' m ->
  observe (hw y) (looks h fl.2) = Some w -> Hwc.sent w = Hwc.sent (hw y) ++ msgs -> ctl c' x' u w ->
  msgs = [Hwc.MGain (commanded x' u); Hwc.MNoise x'] \/ msgs = [Hwc.MNoise x'; Hwc.MGain (commanded x' u)] ->
  consume e y = Some y' -> forall p', Forall (stale p' f) rest -> exists n', (n' <= room + 5)%nat /\ at_ st' c' x' u p' n' y'.
Proof.
  intros Hp Hl Hr Hc Hf Ht Hm Ho Hs Hct Hms Hy p' Hst.
  destruct (consume_ok e y h rest m fl w msgs Hc Hp Hf Ht Ho Hs) as (d & E & Hmd & Hpd). rewrite E in Hy. injection Hy as <-.
  rewrite Hc in Hl. cbn in Hl. destruct (commanded_ok x' u Hu) as [Hgl Hgw].
  assert (radio x' (commanded x' u) f (foldl (deliver 6) (rx y) (map message msgs)) /\
          Daq.en_dummy_frame (foldl (deliver 6) (rx y) (map message msgs)) = true) as [Hr' Hd'].
  { destruct Hms as [-> | ->]; cbn [map message foldl].
    - eapply deliver_noise. by eapply (deliver_gain _ _ _ _ _ Hr).
    - eapply deliver_gain; [|done..]. by eapply (deliver_noise _ x' _ _ _ Hr). }
  destruct (waits_respond x' (commanded x' u) p' (Sys (foldl (deliver 6) (rx y) (map message msgs)) rest d w)) as (n' & Hn' & Hw); try done; [cbn; lia|].
  exists n'. split; [done|]. constructor; cbn; try done; [lia|by rewrite Hmd].
Qed.

Lemma phase_idle n e y y' : at_ Sync.STATE_INIT Hwc.STATE_IQ_CAL false u true n y -> good (Sync.e_meas e) -> consume e y = Some y' ->
  (exists n', (n' < n)%nat /\ at_ Sync.STATE_INIT Hwc.STATE_IQ_CAL false u true n' y') \/
  (exists n', (n' <= room + 5)%nat /\ at_ Sync.STATE_INIT Hwc.STATE_NOISE_CTR_WAIT true u true n' y').
Proof.
  intros Ha Hg Hy. destruct (chain y) as [|h rest] eqn:Hc; [by unfold consume in Hy; rewrite Hc in Hy|].
  pose proof (waits_stale _ _ _ _ _ _ _ (at_waits _ _ _ _ _ _ _ Ha) Hc (or_introl eq_refl)) as Hst.
  assert (framed false f h -> exists n', (n' <= room + 5)%nat /\ at_ Sync.STATE_INIT Hwc.STATE_NOISE_CTR_WAIT true u true n' y') as Hdata.
  { intros Hh. destruct (fstep h (Sync.e_meas e) (Sync.machine (ds y))) as [m fl] eqn:Hf.
    destruct (mach_frame false _ _ _ _ _ _ _ _ Hmode (at_mach _ _ _ _ _ _ _ Ha) Hg Hh eq_refl Hf) as (Hm & Hn & Ht).
    destruct (looks_frame false h fl.2 Hh) as (L1 & L2 & L3).
    destruct (observe_on (hw y) (looks h fl.2) u) as (w & Ho & Hct & Hs); try done; [apply Ha|by rewrite Hn|].
    eapply (at_answers _ _ _ _ _ _ _ _ _ _ _ _ _ _ (at_plain _ _ _ _ _ _ _ Ha) (at_room _ _ _ _ _ _ _ Ha) (at_radio _ _ _ _ _ _ _ Ha) Hc Hf Ht Hm Ho Hs Hct (or_introl eq_refl) Hy). exact Hst. }
  destruct (waits_uncons _ _ _ _ _ _ _ (at_waits _ _ _ _ _ _ _ Ha) Hc) as [[[Hd|Hh] (n' & Hn & Hw)]|[[Hh _] _]]; [left|right; by apply Hdata..].
  exists n'. split; [done|]. by eapply (at_dummy _ _ _ _ _ _ _ _ _ _ _ Ha Hc Hd).
Qed.

(** Waiting for frames with the noise source as commanded. *)
Lemma phase_wait st st' k l x n e y y' :
  (x = true /\ st = Sync.STATE_INIT \/ x = false /\ st = Sync.STATE_TRACK_LOCK) ->
  on_frame (negb x) st = Some (st, k) -> on_frame x st = Some (st', l) ->
  at_ st Hwc.STATE_NOISE_CTR_WAIT x u x n y -> good (Sync.e_meas e) -> consume e y = Some y' ->
  (exists n', (n' < n)%nat /\ at_ st Hwc.STATE_NOISE_CTR_WAIT x u x n' y') \/ at_ st' Hwc.STATE_IQ_CAL x u (negb x) 0 y'.
Proof.
  intros Hx Hk Hl Ha Hg Hy. destruct (chain y) as [|h rest] eqn:Hc; [by unfold consume in Hy; rewrite Hc in Hy|].
  destruct (waits_uncons _ _ _ _ _ _ _ (at_waits _ _ _ _ _ _ _ Ha) Hc) as [[[Hd|Hh] (n' & Hn & Hw)]|[[Hh Hgs] Hw]].
  - left. exists n'. split; [done|]. eapply (at_dummy _ _ _ _ _ _ _ _ _ _ _ Ha Hc Hd); try done; by destruct Hx as [[_ ->]|[_ ->]].
  - left. exists n'. split; [done|]. destruct (fstep h (Sync.e_meas e) (Sync.machine (ds y))) as [m fl] eqn:Hf.
    destruct (mach_frame _ _ _ _ _ _ _ _ _ Hmode (at_mach _ _ _ _ _ _ _ Ha) Hg Hh Hk Hf) as (Hm & _ & Ht).
    destruct (looks_frame _ h fl.2 Hh) as (L1 & L2 & L3).
    pose proof (observe_wait _ _ _ _ (at_ctl _ _ _ _ _ _ _ Ha) L1 L2) as Ho.
    eapply (at_stays _ _ _ _ _ _ _ _ _ _ _ _ _ _ _ Ha Hc Hf Ht Hm Ho eq_refl Hy); [apply Ha|done].
  - right. destruct (fstep h (Sync.e_meas e) (Sync.machine (ds y))) as [m fl] eqn:Hf.
    destruct (mach_frame _ _ _ _ _ _ _ _ _ Hmode (at_mach _ _ _ _ _ _ _ Ha) Hg Hh Hl Hf) as (Hm & _ & Ht).
    destruct (looks_frame _ h fl.2 Hh) as (L1 & L2 & L3).
    destruct (observe_done _ (looks h fl.2) _ _ (at_ctl _ _ _ _ _ _ _ Ha) (proj1 Hu) L1 L2 Hgs) as (w & Ho & Hct & Hs).
    eapply (at_stays _ _ _ _ _ _ _ _ _ _ _ _ _ _ _ Ha Hc Hf Ht Hm Ho Hs Hy); [done|]. apply Hw.
Qed.

Lemma steady_head st c x p y h rest : at_ st c x u p 0 y -> chain y = h :: rest ->
  framed x f h /\ forall p' z, rx z = rx y -> chain z = rest -> waits x (commanded x u) p' 0 z.
Proof.
  intros Ha Hc. destruct (waits_uncons _ _ _ _ _ _ _ (at_waits _ _ _ _ _ _ _ Ha) Hc) as [(_ & n' & Hn & _)|[[Hh _] Hw]]; [lia|done].
Qed.

(** Frames of the noise source as commanded, that leave the controller alone. *)
Lemma phase_run st st' k x e y y' :
  on_frame x st = Some (st', k) -> (if x then k < 5 else 5 <= k) ->
  at_ st Hwc.STATE_IQ_CAL x u (negb x) 0 y -> good (Sync.e_meas e) -> consume e y = Some y' -> at_ st' Hwc.STATE_IQ_CAL x u (negb x) 0 y'.
Proof.
  intros Hst Hk Ha Hg Hy. destruct (chain y) as [|h rest] eqn:Hc; [by unfold consume in Hy; rewrite Hc in Hy|].
  destruct (steady_head _ _ _ _ _ _ _ Ha Hc) as [Hh Hw].
  destruct (fstep h (Sync.e_meas e) (Sync.machine (ds y))) as [m fl] eqn:Hf.
  destruct (mach_frame _ _ _ _ _ _ _ _ _ Hmode (at_mach _ _ _ _ _ _ _ Ha) Hg Hh Hst Hf) as (Hm & Hn & Ht).
  destruct (looks_frame _ h fl.2 Hh) as (L1 & L2 & L3).
  assert (observe (hw y) (looks h fl.2) = Some (hw y)) as Ho.
  { apply (observe_idle _ _ x u); [apply Ha|done|]. rewrite L2. cbn [looks Hwc.h_sync_state]. rewrite Hn. by destruct x. }
  eapply (at_stays _ _ _ _ _ _ _ _ _ _ _ _ _ _ _ Ha Hc Hf Ht Hm Ho eq_refl Hy); [apply Ha|]. apply Hw.
Qed.

Lemma phase_off e y y' : at_ Sync.STATE_TRACK_LOCK Hwc.STATE_IQ_CAL true u false 0 y -> good (Sync.e_meas e) -> consume e y = Some y' ->
  exists n', (n' <= room + 5)%nat /\ at_ Sync.STATE_TRACK_LOCK Hwc.STATE_NOISE_CTR_WAIT false u false n' y'.
Proof.
  intros Ha Hg Hy. destruct (chain y) as [|h rest] eqn:Hc; [by unfold consume in Hy; rewrite Hc in Hy|].
  pose proof (waits_stale _ _ _ _ _ _ _ (at_waits _ _ _ _ _ _ _ Ha) Hc (or_introl eq_refl)) as Hst.
  destruct (steady_head _ _ _ _ _ _ _ Ha Hc) as [Hh Hw].
  destruct (fstep h (Sync.e_meas e) (Sync.machine (ds y))) as [m fl] eqn:Hf.
  destruct (mach_frame true _ _ _ _ _ _ _ _ Hmode (at_mach _ _ _ _ _ _ _ Ha) Hg Hh eq_refl Hf) as (Hm & Hn & Ht).
  destruct (looks_frame true h fl.2 Hh) as (L1 & L2 & L3).
  destruct (observe_off (hw y) (looks h fl.2) u) as (w & Ho & Hct & Hs); try done; [apply Ha|by cbn; rewrite Hn|].
  eapply (at_answers _ _ _ _ _ _ _ _ _ _ _ _ _ _ (at_plain _ _ _ _ _ _ _ Ha) (at_room _ _ _ _ _ _ _ Ha) (at_radio _ _ _ _ _ _ _ Ha) Hc Hf Ht Hm Ho Hs Hct (or_intror eq_refl) Hy). exact Hst.
Qed.

End Phases.

(** ** Start-up *)
Context (gains0 : list Z).
(** The gains the user configured, as the controller sets them. *)
Definition user : list nat := Hwc.unify M unified (Hwc.init_gains M gains0).

Lemma user_ok : user_list user.
Proof. destruct (Hwc.init_gains_ok M gains0). by apply user_list_unify. Qed.

(** Before the controller saw a frame. *)
Record fresh (g : Z) (y : sys) : Prop := {
  fresh_plain : plain (ds y);
  fresh_room : (length (chain y) <= room)%nat;
  fresh_mach : mach Sync.STATE_INIT (Sync.machine (ds y));
  fresh_hw : exists fr, hw y = Hwc.configured M gains0 false fr;
  fresh_waits : waits false (replicate M g) true 0 y }.

Lemma start_fresh adj ones g r : fresh g (start adj ones gains0 g f r).
Proof.
  constructor; [done|cbn; lia|by constructor|by exists f|]. exists [], []. split_and!; try done.
  unfold start. constructor; cbn; rewrite ?length_replicate; try done; [|by rewrite fmap_replicate].
  split; [done|]. by apply Forall_replicate.
Qed.

Lemma phase_fresh g e y y' : fresh g y -> good (Sync.e_meas e) -> consume e y = Some y' ->
  exists n, (n <= room + 5)%nat /\ at_ Sync.STATE_INIT Hwc.STATE_IQ_CAL false user true n y'.
Proof.
  intros [Hp Hl Hma [fr Hw] Hwt] Hg Hy. destruct (chain y) as [|h rest] eqn:Hc; [by unfold consume in Hy; rewrite Hc in Hy|].
  pose proof (waits_stale _ _ _ _ _ _ _ Hwt Hc (or_introl eq_refl)) as Hst.
  destruct (waits_uncons _ _ _ _ _ _ _ Hwt Hc) as [(_ & n' & Hn & _)|[[Hh _] _]]; [lia|].
  destruct Hwt as (pre & post & _ & _ & _ & _ & Hr & _).
  destruct (fstep h (Sync.e_meas e) (Sync.machine (ds y))) as [m fl] eqn:Hf.
  destruct (mach_frame false _ _ _ _ _ _ _ _ Hmode Hma Hg Hh eq_refl Hf) as (Hm & Hn & Ht).
  destruct (looks_frame false h fl.2 Hh) as (L1 & L2 & L3).
  destruct (observe_init (hw y) (looks h fl.2) (Hwc.init_gains M gains0)) as (w & Ho & Hct & Hs); try done; try (by rewrite Hw).
  - apply Hwc.init_gains_ok.
  - rewrite Hw. cbn. clear. by induction M.
  - rewrite <- Hc in Hl. eapply (at_answers user user_ok _ _ _ _ _ _ _ _ _ _ _ _ _ _ Hp Hl Hr Hc Hf Ht Hm Ho Hs Hct (or_introl eq_refl) Hy). exact Hst.
Qed.

(** Frames until the loop rests, at most. *)
Inductive within : nat -> sys -> Prop :=
  | within_fresh g y : gain_word g -> fresh g y -> within (3 * room + 23) y
  | within_idle n y : at_ Sync.STATE_INIT Hwc.STATE_IQ_CAL false user true n y -> within (2 * room + 17 + n) y
  | within_on n y : at_ Sync.STATE_INIT Hwc.STATE_NOISE_CTR_WAIT true user true n y -> within (room + 11 + n) y
  | within_sample y : at_ Sync.STATE_SAMPLE_CAL Hwc.STATE_IQ_CAL true user false 0 y -> within (room + 10) y
  | within_frac y : at_ Sync.STATE_FRAC_SAMPLE_CAL Hwc.STATE_IQ_CAL true user false 0 y -> within (room + 9) y
  | within_iq y : at_ Sync.STATE_IQ_CAL Hwc.STATE_IQ_CAL true user false 0 y -> within (room + 8) y
  | within_lock y : at_ Sync.STATE_TRACK_LOCK Hwc.STATE_IQ_CAL true user false 0 y -> within (room + 7) y
  | within_off n y : at_ Sync.STATE_TRACK_LOCK Hwc.STATE_NOISE_CTR_WAIT false user false n y -> within (1 + n) y
  | within_rest y : at_ Sync.STATE_TRACK Hwc.STATE_IQ_CAL false user true 0 y -> within 0 y.

Lemma at_emit st c x p n y e k : at_ st c x user p n y -> tuners_ok e ->
  exists n', (n' <= n)%nat /\ at_ st c x user p n' (emit e k y).
Proof.
  intros [Hp Hl Hm Hct Hw] He. destruct (waits_emit _ _ _ _ _ e k Hw (proj2 (commanded_ok _ _ user_ok)) He) as (n' & Hn & Hw').
  exists n'. split; [done|]. constructor; try done. cbn. case_match eqn:E; [|done]. apply andb_true_iff in E as [_ E%Nat.ltb_lt].
  rewrite length_app. cbn. lia.
Qed.

Lemma within_emit n y e k : within n y -> tuners_ok e -> exists n', (n' <= n)%nat /\ within n' (emit e k y).
Proof.
  intros H He. destruct H as [g y Hg [Hp Hl Hm Hh Hw]|n y Ha|n y Ha|y Ha|y Ha|y Ha|y Ha|n y Ha|y Ha].
  1:{ destruct (waits_emit _ _ _ _ _ e k Hw) as (n' & Hn & Hw'); [by apply Forall_replicate|done|]. exists (3 * room + 23)%nat. split; [lia|].
      apply (within_fresh g); [done|]. constructor; try done; [|by replace 0%nat with n' by lia]. cbn. case_match eqn:E; [|done].
      apply andb_true_iff in E as [_ E%Nat.ltb_lt]. rewrite length_app. cbn. lia. }
  all: destruct (at_emit _ _ _ _ _ _ e k Ha He) as (n' & Hn & Ha'); try (replace n' with 0%nat in * by lia);
    (eexists; split; [|by econstructor]); lia.
Qed.

Lemma within_consume n y e y' : within n y -> good (Sync.e_meas e) -> consume e y = Some y' ->
  exists n', (n' <= n - 1)%nat /\ within n' y'.
Proof.
  pose proof user_ok as Hu. intros H Hg Hy. destruct H as [g y Hgw Ha|n y Ha|n y Ha|y Ha|y Ha|y Ha|y Ha|n y Ha|y Ha].
  - destruct (phase_fresh _ _ _ _ Ha Hg Hy) as (n & Hn & Ha'). eexists. split; [|by eapply within_idle]. lia.
  - destruct (phase_idle _ Hu _ _ _ _ Ha Hg Hy) as [(n' & Hn & Ha')|(n' & Hn & Ha')];
      eexists; (split; [|by econstructor]); lia.
  - destruct (phase_wait _ Hu _ _ _ _ true _ _ _ _ (or_introl (conj eq_refl eq_refl)) eq_refl eq_refl Ha Hg Hy) as [(n' & Hn & Ha')|Ha'];
      eexists; (split; [|by econstructor]); lia.
  - eexists. split; [|eapply within_frac]; [|by eapply (phase_run user Sync.STATE_SAMPLE_CAL _ 2 true _ _ _ eq_refl)]. lia.
  - eexists. split; [|eapply within_iq]; [|by eapply (phase_run user Sync.STATE_FRAC_SAMPLE_CAL _ 3 true _ _ _ eq_refl)]. lia.
  - eexists. split; [|eapply within_lock]; [|by eapply (phase_run user Sync.STATE_IQ_CAL _ 4 true _ _ _ eq_refl)]. lia.
  - destruct (phase_off _ Hu _ _ _ Ha Hg Hy) as (n' & Hn & Ha'). eexists. split; [|by econstructor]. lia.
  - destruct (phase_wait _ Hu _ _ _ _ false _ _ _ _ (or_intror (conj eq_refl eq_refl)) eq_refl eq_refl Ha Hg Hy) as [(n' & Hn & Ha')|Ha'];
      eexists; (split; [|by econstructor]); lia.
  - eexists. split; [|eapply within_rest]; [|by eapply (phase_run user Sync.STATE_TRACK _ 6 false _ _ _ eq_refl)]. lia.
Qed.

Definition consumes (evs : list event) : nat := length (List.filter (fun ev => match ev with Consume _ => true | _ => false end) evs).
(** Nothing goes wrong at the tuners, and the samples agree. *)
Definition favourable (ev : event) : Prop :=
  match ev with Emit e _ => tuners_ok e | Consume e => good (Sync.e_meas e) end.

Lemma within_run evs : forall n y y', within n y -> Forall favourable evs -> run evs y = Some y' ->
  exists n', (n' <= n - consumes evs)%nat /\ within n' y'.
Proof.
  induction evs as [|ev evs IH]; intros n y y' Hw Hf; cbn [run].
  - intros [= <-]. exists n. split; [cbn; lia|done].
  - apply list.Forall_cons in Hf as [H1 Hf]. destruct ev as [e k|e]; cbn [step mbind option_bind].
    + intros Hr. destruct (within_emit _ _ e k Hw H1) as (n1 & Hn1 & Hw1). destruct (IH _ _ _ Hw1 Hf Hr) as (n2 & Hn2 & Hw2).
      exists n2. split; [unfold consumes in *; cbn; lia|done].
    + destruct (consume e y) as [y1|] eqn:Hc; [|done]. cbn [mbind option_bind]. intros Hr.
      destruct (within_consume _ _ _ _ Hw H1 Hc) as (n1 & Hn1 & Hw1). destruct (IH _ _ _ Hw1 Hf Hr) as (n2 & Hn2 & Hw2).
      exists n2. split; [unfold consumes in *; cbn; lia|done].
Qed.

Lemma observe_some w hd : is_Some (observe w hd).
Proof.
  unfold hwc_frame, Hwc.frame. cbn [Hwc.i_header Hwc.i_approved Hwc.i_sched Hwc.i_requests].
  destruct (Hwc.h_dummy hd); cbn [mbind option_bind]; [by eexists|]. unfold Hwc.fsm_step.
  by destruct (Hwc.current_state w); cbn [mbind option_bind Hwc.schedule_cmds]; eexists.
Qed.

Lemma consume_some e y : plain (ds y) -> chain y <> [] -> is_Some (consume e y).
Proof.
  intros Hp Hc. destruct (chain y) as [|h rest] eqn:E; [done|]. destruct (process_plain h e _ Hp) as (m & fl & c & o & _ & Hpr & _).
  unfold consume. rewrite E, Hpr. destruct (observe_some (hw y) (seen o)) as [w ->]. by eexists.
Qed.

Lemma within_plain n y : within n y -> plain (ds y).
Proof. intros [g y0 _ Ha|? ? Ha|? ? Ha|? Ha|? Ha|? Ha|? Ha|? ? Ha|? Ha]; apply Ha. Qed.

(** The loop at rest: locked, the noise source off, and the gains as configured,
    also in every frame on its way. *)
Definition at_rest (y : sys) : Prop :=
  Sync.current_state (Sync.machine (ds y)) = Sync.STATE_TRACK /\
  Hwc.current_state (hw y) = Hwc.STATE_IQ_CAL /\ Hwc.noise_source_state (hw y) = false /\ Hwc.gains (hw y) = user /\
  Daq.noise_source_state (rx y) = false /\ Daq.en_dummy_frame (rx y) = false /\ map Daq.gain (Daq.recs (rx y)) = Hwc.tenths user /\
  Forall (steady false (Hwc.tenths user) f) (chain y).

Lemma within_0_rest y : within 0 y -> at_rest y.
Proof.
  remember 0%nat as n eqn:E. destruct 1 as [? ? _ _|? ? Ha|? ? Ha|? Ha|? Ha|? Ha|? Ha|? ? Ha|y Ha]; try lia.
  destruct Ha as [_ _ [Hm _ _ _ _] [Hs Hn Hg _ _] (pre & post & Hc & _ & Hq & _ & [Hx _ _ _ Hgs Hct Hd] & Hl)].
  assert (Daq.en_dummy_frame (rx y) = false) as Ed.
  { destruct (Daq.en_dummy_frame (rx y)) eqn:Ed; [|done]. unfold owed in Hl. rewrite Ed in Hl. specialize (Hct eq_refl).
    unfold Daq.NO_DUMMY_FRAMES in *. lia. }
  destruct pre as [|]; [|cbn in Hl; lia]. cbn in Hc. rewrite (Hd Ed) in Hgs. unfold at_rest. rewrite Hc. done.
Qed.


End Loop.
(** ** A small system *)

(** The synchroniser of [DelaySync], two channels, and a chain of four frames;
    each frame is processed as soon as it is sent. *)
Definition ex_start : @sys Z := start 2 1 1 [0; 9] 0 100000000 2400000.
Definition ex_run := run Z.mul Z.div (fun v => negb (v =? 1)) (fun _ => 1) (fun q => q) 2 0 2 1 5 (1 # 10) true 1 3 1 0 true true 2
  false 100 10 5 false false false false 4 Hdr.init 4 (fun _ => S754_zero false).
Definition ex_events (n : nat) : list (@event Z) := concat (replicate n [Emit Daq.ex_env true; Consume (Sync.Env Sync.ex_good None None)]).
Definition ex_state (n : nat) : @sys Z := match ex_run (ex_events n) ex_start with Some y => y | None => ex_start end.

(** The states of the machines on the way. *)
Lemma ex_states : map (fun n => (Sync.current_state (Sync.machine (ds (ex_state n))), Hwc.current_state (hw (ex_state n)))) [1; 6; 7; 12; 13; 14; 15; 16; 17; 22; 23]%nat =
  [(Sync.STATE_INIT, Hwc.STATE_IQ_CAL); (Sync.STATE_INIT, Hwc.STATE_IQ_CAL); (Sync.STATE_INIT, Hwc.STATE_NOISE_CTR_WAIT);
   (Sync.STATE_INIT, Hwc.STATE_NOISE_CTR_WAIT); (Sync.STATE_SAMPLE_CAL, Hwc.STATE_IQ_CAL); (Sync.STATE_FRAC_SAMPLE_CAL, Hwc.STATE_IQ_CAL);
   (Sync.STATE_IQ_CAL, Hwc.STATE_IQ_CAL); (Sync.STATE_TRACK_LOCK, Hwc.STATE_IQ_CAL); (Sync.STATE_TRACK_LOCK, Hwc.STATE_NOISE_CTR_WAIT);
   (Sync.STATE_TRACK_LOCK, Hwc.STATE_NOISE_CTR_WAIT); (Sync.STATE_TRACK, Hwc.STATE_IQ_CAL)].
Proof. vm_compute. reflexivity. Qed.

Lemma ex_agreeing : agreeing Z.mul Z.div (fun v => negb (v =? 1)) (fun _ => 1) (fun q => q) 2 0 2 1 5 (1 # 10) true 1 100000000 (fun m => m = Sync.ex_good).
Proof.
  constructor.
  - intros m ->. constructor; [|constructor]. vm_compute. done.
  - by intros m ->.
  - intros m -> _. done.
  - by intros _ m m0 -> ->.
Qed.


End Loop.
