(* ===== verification/IqRouter.v ===== *)
(** * The IQ router ([_daq_core/federation_iq_router.py])

    The router merges the frame streams of several stations and serves them to
    its clients: the aligner that puts frames into time-stamp order
    ([_Aligner]), the bounded queues of the clients ([ClientSink]), and the
    accounting of lost frames ([_account]).  The clock, the sources that are
    streaming and what a socket accepts are inputs of each step. *)
From S2P Require Import Prelude PyStruct PyText IQHeader.
From Stdlib Require Import Sorted.

(** [_Frame]; a logical source is a number. *)
Record frame := Frame { header : bytes; payload : bytes; ts : Z; source : nat }.
Definition nbytes (f : frame) : Z := Z.of_nat (length (header f) + length (payload f)).

(** ** The aligner *)
Module Align.

(** A threshold is a time stamp or one of the float infinities. *)
Inductive level := NegInf | At (z : Z) | PosInf.
Definition reached (z : Z) (l : level) : bool := match l with NegInf => false | At t => z <=? t | PosInf => true end.
Definition raise_to (z : Z) (l : level) : level := match l with NegInf => At z | At t => At (Z.max t z) | PosInf => PosInf end.

Definition fifo : Type := list (frame * Q).

Record aligner := Aligner {
  fifos : list (nat * fifo); max_seen : gmap nat Z; last_released_ts : option Z;
  late_frames : Z; forced_releases : Z; lags_ms : list Q;
  (** the calls of [router._forward_frame] *)
  forwarded : list frame }.

Definition init : aligner := Aligner [] ∅ None 0 0 [] [].

Section Aligner.
Context (window_sec : Q) (max_frames : nat).

Definition ALIGN_LAG_WINDOW : nat := 1024.

(** What a call reads besides the aligner: the clock, the streaming sources and
    the keys of all sources. *)
Record view := View { now : Q; streaming : list nat; key : nat -> chars }.

Definition code (x : Ascii.ascii) : Z := Z.of_N (Ascii.N_of_ascii x).
Fixpoint chars_lt (a b : chars) : bool :=
  match a, b with
  | [], [] => false
  | [], _ => true
  | _, [] => false
  | x :: a, y :: b => (code x <? code y) || ((code x =? code y) && chars_lt a b)
  end.

(** [cand < best[0]] *)
Definition cand_lt (a b : Z * chars) : bool := (a.1 <? b.1) || ((a.1 =? b.1) && chars_lt a.2 b.2).

Fixpoint get (s : nat) (fs : list (nat * fifo)) : option fifo :=
  match fs with [] => None | (k, q) :: fs => if Nat.eqb k s then Some q else get s fs end.
Fixpoint put (s : nat) (q : fifo) (fs : list (nat * fifo)) : list (nat * fifo) :=
  match fs with [] => [] | (k, q0) :: fs => if Nat.eqb k s then (k, q) :: fs else (k, q0) :: put s q fs end.

(** The level every streaming source has reached. *)
Definition watermark (v : view) (a : aligner) : level :=
  match streaming v with
  | [] => PosInf
  | _ => match mapM (fun s => max_seen a !! s) (streaming v) with
         | Some (t :: l) => At (foldl Z.min t l)
         | _ => NegInf
         end
  end.

(** [for frame, enq in q: if now - enq < window: break; threshold = max(...)] *)
Fixpoint overdue (t : Q) (q : fifo) (l : level) : level :=
  match q with
  | [] => l
  | (f, enq) :: q => if Qltb (t - enq) window_sec then l else overdue t q (raise_to (ts f) l)
  end.

Definition threshold (v : view) (forced : option Z) (a : aligner) : level :=
  let l := watermark v a in
  let l := match forced with Some t => raise_to t l | None => l end in
  foldl (fun l sq => overdue (now v) sq.2 l) l (fifos a).

(** The least head that has reached the level, ties by the key. *)
Fixpoint best (v : view) (l : level) (fs : list (nat * fifo)) (b : option (Z * chars * nat)) : option (Z * chars * nat) :=
  match fs with
  | [] => b
  | (s, []) :: fs => best v l fs b
  | (s, (f, _) :: _) :: fs =>
      let cand := (ts f, key v s) in
      best v l fs (if reached (ts f) l && match b with None => true | Some (c, _) => cand_lt cand c end then Some (cand, s) else b)
  end.

Definition held (a : aligner) : nat := list_sum (map (fun sq => length sq.2) (fifos a)).

(** One turn of the [while] loop of [_release]. *)
Definition release_one (v : view) (l : level) (a : aligner) : option aligner :=
  match best v l (fifos a) None with
  | None => None
  | Some (_, s) =>
      match get s (fifos a) with
      | Some ((f, enq) :: q) =>
          Some (Aligner (put s q (fifos a)) (max_seen a)
            (match last_released_ts a with Some t => Some (Z.max t (ts f)) | None => Some (ts f) end)
            (late_frames a) (forced_releases a)
            (let l := lags_ms a ++ [((now v - enq) * 1000)%Q] in drop (length l - ALIGN_LAG_WINDOW) l)
            (forwarded a ++ [f]))
      | _ => None
      end
  end.

Fixpoint release_all (n : nat) (v : view) (l : level) (a : aligner) : aligner :=
  match n with
  | O => a
  | S n => match release_one v l a with Some a => release_all n v l a | None => a end
  end.

(** [_release]: each turn takes one of the frames that are held. *)
Definition _release (v : view) (forced : option Z) (a : aligner) : aligner :=
  release_all (held a) v (threshold v forced a) a.

Definition see (s : nat) (f : frame) (a : aligner) : aligner :=
  Aligner (fifos a) (<[s := match max_seen a !! s with Some p => Z.max p (ts f) | None => ts f end]> (max_seen a))
    (last_released_ts a) (late_frames a) (forced_releases a) (lags_ms a) (forwarded a).
Definition late (f : frame) (a : aligner) : aligner :=
  Aligner (fifos a) (max_seen a) (last_released_ts a) (late_frames a + 1) (forced_releases a) (lags_ms a) (forwarded a ++ [f]).
(** [self.fifos.setdefault(src, deque())] *)
Definition setdefault (s : nat) (a : aligner) : aligner :=
  match get s (fifos a) with
  | Some _ => a
  | None => Aligner (fifos a ++ [(s, [])]) (max_seen a) (last_released_ts a) (late_frames a) (forced_releases a) (lags_ms a) (forwarded a)
  end.
Definition count_forced (a : aligner) : aligner :=
  Aligner (fifos a) (max_seen a) (last_released_ts a) (late_frames a) (forced_releases a + 1) (lags_ms a) (forwarded a).
Definition enqueue (s : nat) (f : frame) (t : Q) (a : aligner) : aligner :=
  Aligner (put s (default [] (get s (fifos a)) ++ [(f, t)]) (fifos a)) (max_seen a) (last_released_ts a) (late_frames a)
    (forced_releases a) (lags_ms a) (forwarded a).
Definition queue_of (s : nat) (a : aligner) : fifo := default [] (get s (fifos a)).

(** Room for one more frame of the source; [max_frames] is positive, so that a
    full queue has a head. *)
Definition make_room (v : view) (s : nat) (a : aligner) : aligner :=
  let a1 := if (max_frames <=? length (queue_of s a))%nat then _release v None a else a in
  if (max_frames <=? length (queue_of s a1))%nat
  then _release v (match queue_of s a1 with (f, _) :: _ => Some (ts f) | [] => None end) (count_forced a1)
  else a1.

Definition push (v : view) (s : nat) (f : frame) (a : aligner) : aligner :=
  let a1 := see s f a in
  if match last_released_ts a1 with Some t => ts f <? t | None => false end then late f a1
  else _release v None (enqueue s f (now v) (make_room v s (setdefault s a1))).

Definition clear (a : aligner) : aligner :=
  Aligner [] (max_seen a) (last_released_ts a) (late_frames a) (forced_releases a) (lags_ms a) (forwarded a).

(** A frame arrives, or the aligner's thread looks. *)
Inductive event := Push (v : view) (s : nat) (f : frame) | Look (v : view).
Definition step (a : aligner) (ev : event) : aligner :=
  match ev with Push v s f => push v s f a | Look v => _release v None a end.
Definition run (evs : list event) : aligner := foldl step init evs.

(** *** The dictionary of queues *)
Lemma get_put s q fs : is_Some (get s fs) -> get s (put s q fs) = Some q.
Proof.
  intros [q0 H]. induction fs as [|[k q1] fs IH]; cbn in *; [done|]. destruct (Nat.eqb k s) eqn:E; cbn; rewrite E; auto.
Qed.

Lemma get_put_ne s s' q fs : s <> s' -> get s' (put s q fs) = get s' fs.
Proof.
  intros N. induction fs as [|[k q1] fs IH]; cbn; [done|]. destruct (Nat.eqb_spec k s) as [->|]; cbn; [|by rewrite IH].
  by destruct (Nat.eqb_spec s s').
Qed.

Lemma put_keys s q fs : map fst (put s q fs) = map fst fs.
Proof. induction fs as [|[k q1] fs IH]; cbn; [done|]. destruct (Nat.eqb k s); cbn; congruence. Qed.

Lemma get_in s q fs : get s fs = Some q -> (s, q) ∈ fs.
Proof.
  induction fs as [|[k q1] fs IH]; cbn; [done|]. destruct (Nat.eqb_spec k s) as [->|].
  - intros [= ->]. by left.
  - intros H. right. by apply IH.
Qed.

Lemma in_get s q fs : NoDup (map fst fs) -> (s, q) ∈ fs -> get s fs = Some q.
Proof.
  induction fs as [|[k q1] fs IH]; cbn; [by intros _ ?%not_elem_of_nil|]. intros [Hk Hn]%list.NoDup_cons Hin.
  apply elem_of_cons in Hin as [[= -> ->]|Hin]; [by rewrite Nat.eqb_refl|].
  destruct (Nat.eqb_spec k s) as [->|]; [|by apply IH]. destruct Hk. apply (list_elem_of_fmap_2 fst _ _ Hin).
Qed.

Lemma get_none s fs : get s fs = None -> s ∉ map fst fs.
Proof.
  induction fs as [|[k q1] fs IH]; cbn; [intros _; apply not_elem_of_nil|]. destruct (Nat.eqb_spec k s) as [->|]; [done|].
  intros H [->|Hin]%elem_of_cons; [done|]. by apply IH.
Qed.

Definition sizes (fs : list (nat * fifo)) : nat := list_sum (map (fun sq => length sq.2) fs).

Lemma sizes_put s x q fs : get s fs = Some (x :: q) -> sizes fs = S (sizes (put s q fs)).
Proof.
  unfold sizes. induction fs as [|[k q1] fs IH]; cbn [get put]; [done|]. destruct (Nat.eqb k s); cbn [map list_sum foldr snd].
  - by intros [= ->].
  - intros H. unfold list_sum in *. cbn. rewrite (IH H). lia.
Qed.

(** *** The choice of a frame *)
Definition heads (fs : list (nat * fifo)) (s : nat) (f : frame) : Prop := exists enq q, (s, (f, enq) :: q) ∈ fs.

Lemma cand_lt_le a b : cand_lt a b = true -> a.1 <= b.1.
Proof. unfold cand_lt. intros [?%Z.ltb_lt|[?%Z.eqb_eq _]%andb_true_iff]%orb_true_iff; lia. Qed.
Lemma cand_ge_le a b : cand_lt a b = false -> b.1 <= a.1.
Proof. unfold cand_lt. intros [?%Z.ltb_ge _]%orb_false_iff. lia. Qed.

Lemma best_none v l fs b : best v l fs b = None -> b = None /\ forall s f, heads fs s f -> reached (ts f) l = false.
Proof.
  revert b. induction fs as [|[s [|[f enq] q]] fs IH]; intros b; cbn [best].
  - intros ->. split; [done|]. intros s f (? & ? & ?%not_elem_of_nil). done.
  - intros H. destruct (IH _ H) as [-> Hh]. split; [done|]. intros s' f' (e & q' & [?|Hin]%elem_of_cons); [done|]. apply (Hh s'). by exists e, q'.
  - intros H. destruct (IH _ H) as [Hb Hh]. destruct (reached (ts f) l) eqn:Er; cbn [andb] in Hb.
    { destruct b as [[c s0]|]; [|done]. by destruct (cand_lt _ c). }
    split; [done|]. intros s' f' (e & q' & [[= -> -> -> ->]|Hin]%elem_of_cons); [done|]. apply (Hh s'). by exists e, q'.
Qed.

Lemma best_some v l fs b c s : best v l fs b = Some (c, s) ->
  (b = Some (c, s) \/ exists f, heads fs s f /\ reached (ts f) l = true /\ c.1 = ts f) /\
  (forall c0 s0, b = Some (c0, s0) -> c.1 <= c0.1) /\ (forall s' f', heads fs s' f' -> reached (ts f') l = true -> c.1 <= ts f').
Proof.
  revert b. induction fs as [|[s1 [|[f enq] q]] fs IH]; intros b; cbn [best].
  - intros ->. split_and!; [by left|by intros ? ? [= <- <-]|]. intros s' f' (? & ? & ?%not_elem_of_nil). done.
  - intros H. destruct (IH _ H) as (H1 & H2 & H3). split_and!; [|done|].
    + destruct H1 as [|(f & (e & q & Hin) & Hr)]; [by left|]. right. exists f. split; [|done]. exists e, q. by right.
    + intros s' f' (e & q & [?|Hin]%elem_of_cons); [done|]. apply (H3 s'). by exists e, q.
  - intros H. destruct (IH _ H) as (H1 & H2 & H3). set (take := reached (ts f) l && _) in *. destruct take eqn:Et.
    + apply andb_true_iff in Et as [Er Eb]. split_and!.
      * right. destruct H1 as [[= <- <-]|(f' & (e & q' & Hin) & Hr)]; [exists f; split_and!; [|done|done]; exists enq, q; by left|].
        exists f'. split; [|done]. exists e, q'. by right.
      * intros c0 s0 ->. specialize (H2 _ _ eq_refl). apply cand_lt_le in Eb. cbn in *. lia.
      * intros s' f' (e & q' & [[= -> -> -> ->]|Hin]%elem_of_cons); [intros _; by apply (H2 _ _ eq_refl)|]. apply (H3 s'). by exists e, q'.
    + split_and!; [|done|].
      * destruct H1 as [|(f' & (e & q' & Hin) & Hr)]; [by left|]. right. exists f'. split; [|done]. exists e, q'. by right.
      * intros s' f' (e & q' & [[= -> -> -> ->]|Hin]%elem_of_cons); [|apply (H3 s'); by exists e, q']. intros Hr. unfold take in Et.
        rewrite Hr in Et. cbn in Et. destruct b as [[c0 s0]|]; [|done]. apply cand_ge_le in Et. specialize (H2 _ _ eq_refl). cbn in *. lia.
Qed.

(** *** What a release does *)
Definition wf (a : aligner) : Prop := NoDup (map fst (fifos a)).

(** One frame is taken: the earliest of the heads, and it has reached the level. *)
Definition takes (l : level) (a a' : aligner) : Prop := exists s f enq q,
  get s (fifos a) = Some ((f, enq) :: q) /\ reached (ts f) l = true /\ (forall s' f', heads (fifos a) s' f' -> ts f <= ts f') /\
  fifos a' = put s q (fifos a) /\ max_seen a' = max_seen a /\
  last_released_ts a' = Some (match last_released_ts a with Some t => Z.max t (ts f) | None => ts f end) /\
  late_frames a' = late_frames a /\ forced_releases a' = forced_releases a /\ forwarded a' = forwarded a ++ [f].

Lemma reached_mono x y l : reached x l = true -> reached y l = false -> x <= y.
Proof. destruct l; cbn; try done. rewrite Z.leb_le, Z.leb_gt. lia. Qed.

Lemma release_one_takes v l a a' : wf a -> release_one v l a = Some a' -> takes l a a'.
Proof.
  intros Hwf. unfold release_one. destruct (best v l (fifos a) None) as [[c s]|] eqn:Hb; [|done].
  apply best_some in Hb as ([?|(f & (enq & q & Hin) & Hr & Hc)] & _ & Hmin); [done|]. rewrite (in_get _ _ _ Hwf Hin). intros [= <-].
  exists s, f, enq, q. split_and!; try done; [by apply in_get| |by destruct (last_released_ts a)].
  intros s' f' Hh. destruct (reached (ts f') l) eqn:Er; [specialize (Hmin _ _ Hh Er); lia|]. by eapply reached_mono.
Qed.

Lemma release_one_stops v l a : wf a -> release_one v l a = None -> forall s f, heads (fifos a) s f -> reached (ts f) l = false.
Proof.
  intros Hwf. unfold release_one. destruct (best v l (fifos a) None) as [[c s]|] eqn:Hb; [|intros _; by eapply best_none].
  apply best_some in Hb as ([?|(f & (enq & q & Hin) & _)] & _); [done|]. by rewrite (in_get _ _ _ Hwf Hin).
Qed.

Lemma takes_wf l a a' : takes l a a' -> wf a -> wf a'.
Proof. intros (s & f & enq & q & _ & _ & _ & E & _) Hwf. unfold wf. by rewrite E, put_keys. Qed.

Lemma takes_held l a a' : takes l a a' -> held a = S (held a').
Proof. intros (s & f & enq & q & Hg & _ & _ & E & _). unfold held. rewrite E. by apply (sizes_put s (f, enq)). Qed.

Lemma release_all_spec n v l a : wf a -> (held a <= n)%nat ->
  rtc (takes l) a (release_all n v l a) /\ forall s f, heads (fifos (release_all n v l a)) s f -> reached (ts f) l = false.
Proof.
  revert a. induction n as [|n IH]; intros a Hwf Hn; cbn [release_all].
  - split; [done|]. intros s f (enq & q & Hin). exfalso. apply (in_get _ _ _ Hwf) in Hin. pose proof (sizes_put _ _ _ _ Hin).
    unfold held in Hn. unfold sizes in *. lia.
  - destruct (release_one v l a) as [a1|] eqn:E; [|split; [done|]; by apply (release_one_stops v)].
    apply release_one_takes in E; [|done]. destruct (IH a1) as [H1 H2]; [by eapply takes_wf|pose proof (takes_held _ _ _ E); lia|].
    split; [by eapply rtc_l|done].
Qed.

Lemma release_spec v forced a : wf a ->
  rtc (takes (threshold v forced a)) a (_release v forced a) /\
  forall s f, heads (fifos (_release v forced a)) s f -> reached (ts f) (threshold v forced a) = false.
Proof. intros H. by apply release_all_spec. Qed.

(** What every frame that is taken preserves, a release preserves. *)
Lemma release_keeps (P : aligner -> Prop) v forced a :
  (forall l a a', wf a -> P a -> takes l a a' -> P a') -> wf a -> P a -> P (_release v forced a) /\ wf (_release v forced a).
Proof.
  intros Hs Hwf HP. destruct (release_spec v forced a Hwf) as [Hr _]. revert Hwf HP. induction Hr as [b|b b1 b2 Ht _ IH]; [done|].
  intros Hwf HP. apply IH; [by eapply takes_wf|by eapply Hs].
Qed.

(** *** Queues are bounded *)
Definition bounded (n : nat) (a : aligner) : Prop := forall s, (length (queue_of s a) <= n)%nat.

Lemma takes_queue l a a' s : takes l a a' -> exists pre, queue_of s a = pre ++ queue_of s a'.
Proof.
  intros (s0 & f & enq & q & Hg & _ & _ & E & _). unfold queue_of. rewrite E. destruct (decide (s0 = s)) as [->|N].
  - rewrite get_put by done. rewrite Hg. by exists [(f, enq)].
  - rewrite get_put_ne by done. by exists [].
Qed.

Lemma rtc_queue l a a' s : rtc (takes l) a a' -> exists pre, queue_of s a = pre ++ queue_of s a'.
Proof.
  induction 1 as [a|a a1 a2 Ht _ [pre IH]]; [by exists []|]. destruct (takes_queue _ _ _ s Ht) as [pre0 E]. exists (pre0 ++ pre).
  by rewrite E, IH, app_assoc.
Qed.

Lemma release_queue v forced a s : wf a -> exists pre, queue_of s a = pre ++ queue_of s (_release v forced a).
Proof. intros H. destruct (release_spec v forced a H) as [Hr _]. by eapply rtc_queue. Qed.

Lemma release_shrinks v forced a n : wf a -> bounded n a -> bounded n (_release v forced a).
Proof.
  intros Hwf Hb s. destruct (release_queue v forced a s Hwf) as [pre E]. specialize (Hb s). rewrite E, length_app in Hb. lia.
Qed.

Lemma overdue_reached t q l z : reached z l = true -> reached z (overdue t q l) = true.
Proof.
  revert l. induction q as [|[f enq] q IH]; intros l H; cbn; [done|]. case_match; [done|]. apply IH. destruct l; cbn in *; [done| |done].
  apply Z.leb_le in H. apply Z.leb_le. lia.
Qed.

Lemma overdues_reached t (fs : list (nat * fifo)) l z : reached z l = true -> reached z (foldl (fun l sq => overdue t sq.2 l) l fs) = true.
Proof. revert l. induction fs as [|[s q] fs IH]; intros l H; cbn; [done|]. by apply IH, overdue_reached. Qed.

Lemma forced_reached v z a : reached z (threshold v (Some z) a) = true.
Proof. apply overdues_reached. destruct (watermark v a); cbn; rewrite ?Z.leb_le; lia. Qed.

Lemma queue_heads s f enq q a : queue_of s a = (f, enq) :: q -> heads (fifos a) s f.
Proof.
  unfold queue_of. destruct (get s (fifos a)) eqn:E; cbn; [|done]. intros ->. apply get_in in E. by exists enq, q.
Qed.

Lemma make_room_room v s a : (0 < max_frames)%nat -> wf a -> bounded max_frames a ->
  wf (make_room v s a) /\ bounded max_frames (make_room v s a) /\ (length (queue_of s (make_room v s a)) < max_frames)%nat.
Proof.
  intros Hm Hwf Hb. unfold make_room. set (a1 := if (max_frames <=? length (queue_of s a))%nat then _ else a).
  assert (wf a1 /\ bounded max_frames a1) as [Hwf1 Hb1].
  { unfold a1. case_match; [|done]. split; [by apply (release_keeps (fun _ => True))|by apply release_shrinks]. }
  clearbody a1. destruct (Nat.leb_spec max_frames (length (queue_of s a1))) as [Hl|Hl]; [|done].
  destruct (queue_of s a1) as [|[f enq] q] eqn:Eq; [cbn in Hl; lia|]. cbv beta iota.
  assert (wf (count_forced a1)) as Hwf2 by done. assert (bounded max_frames (count_forced a1)) as Hb2 by done.
  split_and!; [by apply (release_keeps (fun _ => True))|by apply release_shrinks|].
  destruct (release_spec v (Some (ts f)) _ Hwf2) as [Hr Hstop]. destruct (rtc_queue _ _ _ s Hr) as [pre E].
  assert (queue_of s (count_forced a1) = (f, enq) :: q) as Eq2 by done. rewrite Eq2 in E. specialize (Hb1 s). rewrite Eq in Hb1.
  destruct pre as [|x pre].
  - symmetry in E. cbn in E. apply queue_heads in E. apply Hstop in E. by rewrite forced_reached in E.
  - injection E as _ E. apply (f_equal length) in E. rewrite length_app in E. cbn [length] in Hb1. lia.
Qed.

Lemma takes_key l a a' s : takes l a a' -> is_Some (get s (fifos a)) -> is_Some (get s (fifos a')).
Proof.
  intros (s0 & f & enq & q & Hg & _ & _ & E & _) H. rewrite E. destruct (decide (s0 = s)) as [->|N].
  - by rewrite get_put by done.
  - by rewrite get_put_ne by done.
Qed.

Lemma make_room_keeps (P : aligner -> Prop) v s a :
  (forall l a a', wf a -> P a -> takes l a a' -> P a') -> (forall a, P a -> P (count_forced a)) -> wf a -> P a ->
  P (make_room v s a) /\ wf (make_room v s a).
Proof.
  intros Ht Hc Hwf HP. unfold make_room. set (a1 := if (max_frames <=? length (queue_of s a))%nat then _ else a).
  assert (P a1 /\ wf a1) as [HP1 Hwf1] by (unfold a1; case_match; [by apply release_keeps|done]). clearbody a1.
  case_match; [|done]. apply release_keeps; [done|done|by apply Hc].
Qed.

Lemma get_app s fs k q : get s (fs ++ [(k, q)]) = match get s fs with Some x => Some x | None => if Nat.eqb k s then Some q else None end.
Proof. induction fs as [|[k0 q0] fs IH]; cbn; [done|]. by destruct (Nat.eqb k0 s). Qed.

Lemma setdefault_spec s a : wf a ->
  wf (setdefault s a) /\ is_Some (get s (fifos (setdefault s a))) /\ forall s', queue_of s' (setdefault s a) = queue_of s' a.
Proof.
  intros Hwf. unfold setdefault, queue_of. destruct (get s (fifos a)) eqn:E; [by rewrite E|]. cbn. split_and!.
  - unfold wf. cbn. rewrite map_app. apply list.NoDup_app. split_and!; [done| |apply list.NoDup_singleton].
    intros x Hx ->%list_elem_of_singleton. by apply get_none in E.
  - rewrite get_app, E, Nat.eqb_refl. by eexists.
  - intros s'. rewrite get_app. destruct (Nat.eqb_spec s s') as [->|]; [by rewrite E|]. by destruct (get s' (fifos a)).
Qed.

Lemma enqueue_spec s f t a : wf a -> is_Some (get s (fifos a)) ->
  wf (enqueue s f t a) /\ forall s', queue_of s' (enqueue s f t a) = if decide (s' = s) then queue_of s a ++ [(f, t)] else queue_of s' a.
Proof.
  intros Hwf Hs. split; [unfold wf; cbn; by rewrite put_keys|]. intros s'. unfold queue_of. cbn. case_decide as E.
  - subst s'. by rewrite get_put by done.
  - by rewrite get_put_ne by done.
Qed.

(** The state in which a frame is queued. *)
Definition ready (v : view) (s : nat) (f : frame) (a : aligner) : aligner := make_room v s (setdefault s (see s f a)).

Lemma ready_spec v s f a : wf a -> wf (ready v s f a) /\ is_Some (get s (fifos (ready v s f a))).
Proof.
  intros Hwf. destruct (setdefault_spec s (see s f a) Hwf) as (H1 & H2 & _).
  destruct (make_room_keeps (fun a => is_Some (get s (fifos a))) v s (setdefault s (see s f a))) as [? ?]; try done.
  intros l a1 a2 _ H Ht. by eapply takes_key.
Qed.

Definition is_late (f : frame) (a : aligner) : bool := match last_released_ts a with Some t => ts f <? t | None => false end.

Lemma push_cases v s f a :
  push v s f a = if is_late f a then late f (see s f a) else _release v None (enqueue s f (now v) (ready v s f a)).
Proof. done. Qed.

Lemma push_bounded v s f a : (0 < max_frames)%nat -> wf a -> bounded max_frames a -> wf (push v s f a) /\ bounded max_frames (push v s f a).
Proof.
  intros Hm Hwf Hb. rewrite push_cases. destruct (is_late f a); [done|]. destruct (ready_spec v s f a Hwf) as [Hw Hk].
  destruct (setdefault_spec s (see s f a) Hwf) as (H1 & _ & H3).
  destruct (make_room_room v s (setdefault s (see s f a)) Hm H1) as (_ & Hb1 & Hl); [intros s'; rewrite H3; apply Hb|].
  destruct (enqueue_spec s f (now v) _ Hw Hk) as [Hw2 Hq]. split; [by apply (release_keeps (fun _ => True))|].
  apply release_shrinks; [done|]. intros s'. rewrite Hq. case_decide; [|apply Hb1]. rewrite length_app. unfold ready. cbn [length]. lia.
Qed.

(** However many frames come, no source has more than [align_max_frames] of them
    waiting in the aligner. *)
Lemma queues_bounded evs s : (0 < max_frames)%nat -> (length (queue_of s (run evs)) <= max_frames)%nat.
Proof.
  intros Hm. assert (wf (run evs) /\ bounded max_frames (run evs)) as [_ H]; [|apply H].
  unfold run. assert (wf init /\ bounded max_frames init) as H0 by (split; [constructor|intros s'; cbn; lia]).
  revert H0. generalize init. induction evs as [|ev evs IH]; intros a [Hwf Hb]; [done|]. cbn [foldl]. apply IH.
  destruct ev as [v s' f|v]; cbn [step]; [by apply push_bounded|]. split; [by apply (release_keeps (fun _ => True))|by apply release_shrinks].
Qed.

(** *** Frames leave in order *)
Definition of_source (s : nat) (l : list frame) : list frame := List.filter (fun f => Nat.eqb (source f) s) l.
(** The time stamps of each source do not decrease. *)
Definition rising (l : list frame) : Prop := forall s, StronglySorted (fun f g => ts f <= ts g) (of_source s l).

Definition top (m : option Z) (f : frame) : option Z := Some (match m with Some t => Z.max t (ts f) | None => ts f end).
Definition below (m : option Z) (f : frame) : Z := match m with Some t => if ts f <? t then 1 else 0 | None => 0 end.
(** The latest time stamp of a list of frames, and how many of them come after a later one. *)
Definition peak (l : list frame) : option Z := foldl top None l.
Fixpoint overtaken_from (m : option Z) (l : list frame) : Z :=
  match l with [] => 0 | f :: l => below m f + overtaken_from (top m f) l end.
Definition overtaken (l : list frame) : Z := overtaken_from None l.

Lemma overtaken_snoc l f : overtaken (l ++ [f]) = overtaken l + below (peak l) f.
Proof.
  unfold overtaken, peak. generalize (@None Z) as m. induction l as [|g l IH]; intros m; cbn [app overtaken_from foldl]; [cbn; lia|].
  rewrite IH. lia.
Qed.

Lemma peak_snoc l f : peak (l ++ [f]) = top (peak l) f.
Proof. unfold peak. by rewrite foldl_app. Qed.

Lemma of_source_app s l l' : of_source s (l ++ l') = of_source s l ++ of_source s l'.
Proof. apply filter_app. Qed.

Lemma of_source_in s l f : f ∈ of_source s l -> source f = s /\ f ∈ l.
Proof. unfold of_source. rewrite list_elem_of_In, filter_In, Nat.eqb_eq, <- list_elem_of_In. tauto. Qed.

Record order (P : list frame) (a : aligner) : Prop := {
  order_wf : wf a;
  order_split : forall s, of_source s (forwarded a) ++ map fst (queue_of s a) = of_source s P;
  order_low : forall s f enq t, (f, enq) ∈ queue_of s a -> last_released_ts a = Some t -> t <= ts f;
  order_peak : last_released_ts a = peak (forwarded a);
  order_late : late_frames a = overtaken (forwarded a) }.

Lemma order_queue P a s f enq : order P a -> (f, enq) ∈ queue_of s a -> f ∈ of_source s P.
Proof.
  intros H Hin. rewrite <- (order_split _ _ H s). apply elem_of_app. right. by apply (list_elem_of_fmap_2 fst _ _ Hin).
Qed.

Lemma sorted_app_r {A} (R : A -> A -> Prop) l l' : StronglySorted R (l ++ l') -> StronglySorted R l'.
Proof. induction l as [|x l IH]; [done|]. cbn. intros [H _]%StronglySorted_inv. by apply IH. Qed.

Lemma sorted_app_l {A} (R : A -> A -> Prop) l l' x y : StronglySorted R (l ++ l') -> x ∈ l -> y ∈ l' -> R x y.
Proof.
  induction l as [|z l IH]; cbn; [by intros _ ?%not_elem_of_nil|]. intros [Hs Hf]%StronglySorted_inv [->|Hx]%elem_of_cons Hy.
  - rewrite list.Forall_forall in Hf. apply Hf. apply elem_of_app. by right.
  - by apply IH.
Qed.

Lemma head_first P a s f enq q g e : order P a -> rising P -> queue_of s a = (f, enq) :: q -> (g, e) ∈ queue_of s a -> ts f <= ts g.
Proof.
  intros Ho Hr Hq Hin. specialize (Hr s). rewrite <- (order_split _ _ Ho s), Hq in Hr. apply sorted_app_r in Hr. cbn in Hr.
  apply StronglySorted_inv in Hr as [_ Hf]. rewrite Hq in Hin. apply elem_of_cons in Hin as [[= -> ->]|Hin]; [lia|].
  rewrite list.Forall_forall in Hf. by apply (Hf g), (list_elem_of_fmap_2 fst _ _ Hin).
Qed.

Lemma takes_order P l a a' : rising P -> order P a -> takes l a a' -> order P a'.
Proof.
  intros Hr Ho Ht. pose proof Ht as (s & f & enq & q & Hg & _ & Hmin & Ef & Em & El & Ea & _ & Eo).
  assert (queue_of s a = (f, enq) :: q) as Hq by (unfold queue_of; by rewrite Hg).
  assert (forall s' g e, (g, e) ∈ queue_of s' a -> ts f <= ts g) as Hleast.
  { intros s' g e Hin. destruct (queue_of s' a) as [|[h eh] q'] eqn:Hq'; [by apply not_elem_of_nil in Hin|].
    pose proof (Hmin s' h (queue_heads _ _ _ _ _ Hq')). rewrite <- Hq' in Hin. pose proof (head_first _ _ _ _ _ _ _ _ Ho Hr Hq' Hin). lia. }
  assert (forall s', queue_of s' a' = if decide (s' = s) then q else queue_of s' a) as Hqs.
  { intros s'. unfold queue_of. rewrite Ef. case_decide as E; [subst; by rewrite get_put by done|by rewrite get_put_ne by done]. }
  assert (source f = s) as Hs by (eapply of_source_in, (order_queue P a s f enq Ho); rewrite Hq; by left).
  assert (last_released_ts a' = top (last_released_ts a) f) as El' by done.
  constructor.
  - by eapply takes_wf, Ho.
  - intros s'. rewrite Eo, of_source_app, Hqs, <- (order_split _ _ Ho s'), <- app_assoc. f_equal. unfold of_source. cbn. rewrite Hs.
    case_decide as E; [subst; by rewrite Nat.eqb_refl, Hq|]. by destruct (Nat.eqb_spec s s').
  - intros s' g e t Hin. rewrite El'. intros [= <-].
    assert ((g, e) ∈ queue_of s' a) as Hin'.
    { rewrite Hqs in Hin. case_decide as E; [subst; rewrite Hq; by right|done]. }
    pose proof (Hleast _ _ _ Hin'). destruct (last_released_ts a) as [t0|] eqn:E0; [|done]. pose proof (order_low _ _ Ho _ _ _ _ Hin' E0). lia.
  - by rewrite El', Eo, peak_snoc, (order_peak _ _ Ho).
  - rewrite Ea, Eo, overtaken_snoc, (order_late _ _ Ho), <- (order_peak _ _ Ho). unfold below.
    destruct (last_released_ts a) as [t0|] eqn:E0; [|lia].
    assert (t0 <= ts f) by (eapply (order_low _ _ Ho s f enq); [rewrite Hq; by left|done]). destruct (Z.ltb_spec (ts f) t0); lia.
Qed.

(** The highest time stamp noted for a source is that of one of its frames. *)
Definition noted (P : list frame) (a : aligner) : Prop := forall s m, max_seen a !! s = Some m -> exists f, f ∈ of_source s P /\ ts f = m.

Lemma rising_last P f g : rising (P ++ [f]) -> g ∈ of_source (source f) P -> ts g <= ts f.
Proof.
  intros Hr Hg. specialize (Hr (source f)). rewrite of_source_app in Hr. eapply (sorted_app_l _ _ _ _ _ Hr Hg). unfold of_source. cbn.
  rewrite Nat.eqb_refl. by left.
Qed.

Lemma rising_prefix P l : rising (P ++ l) -> rising P.
Proof.
  intros Hr s. specialize (Hr s). rewrite of_source_app in Hr. revert Hr. generalize (of_source s P), (of_source s l).
  intros l1 l2. induction l1 as [|g l1 IH]; [constructor|]. cbn. intros [H1 H2]%StronglySorted_inv. constructor; [by apply IH|].
  by apply list.Forall_app in H2 as [? _].
Qed.

Lemma see_noted P f a : noted P a -> rising (P ++ [f]) -> noted (P ++ [f]) (see (source f) f a) /\ max_seen (see (source f) f a) !! source f = Some (ts f).
Proof.
  intros Hn Hr. assert (max_seen (see (source f) f a) !! source f = Some (ts f)) as Es.
  { cbn. rewrite lookup_insert_eq. f_equal. destruct (max_seen a !! source f) as [p|] eqn:E; [|done].
    destruct (Hn _ _ E) as (g & Hg & <-). pose proof (rising_last _ _ _ Hr Hg). lia. }
  split; [|done]. intros s m Hm. destruct (decide (s = source f)) as [->|N].
  - rewrite Es in Hm. injection Hm as <-. exists f. split; [|done]. rewrite of_source_app. apply elem_of_app. right. unfold of_source. cbn.
    rewrite Nat.eqb_refl. by left.
  - cbn in Hm. rewrite lookup_insert_ne in Hm by done. destruct (Hn _ _ Hm) as (g & Hg & <-). exists g. split; [|done].
    rewrite of_source_app. apply elem_of_app. by left.
Qed.

(** Levels below a time stamp release no later frame. *)
Definition capped (z : Z) (l : level) : Prop := match l with NegInf => True | At t => t <= z | PosInf => False end.

Lemma capped_reached z x l : capped z l -> reached x l = true -> x <= z.
Proof. destruct l; cbn; try done. intros ? ?%Z.leb_le. lia. Qed.

Lemma capped_raise z x l : capped z l -> x <= z -> capped z (raise_to x l).
Proof. destruct l; cbn; try done. lia. Qed.

Lemma foldl_min_le l t : foldl Z.min t l <= t /\ forall x, x ∈ l -> foldl Z.min t l <= x.
Proof.
  revert t. induction l as [|y l IH]; intros t; cbn; [split; [lia|by intros x ?%not_elem_of_nil]|].
  destruct (IH (Z.min t y)) as [H1 H2]. split; [lia|]. intros x [->|Hx]%elem_of_cons; [lia|by apply H2].
Qed.

Lemma capped_watermark v a s z : s ∈ streaming v -> max_seen a !! s = Some z -> capped z (watermark v a).
Proof.
  intros Hs Hz. unfold watermark. destruct (streaming v) as [|x l] eqn:E; [by apply not_elem_of_nil in Hs|].
  destruct (mapM _ (x :: l)) as [[|t r]|] eqn:Em; cbn; [done| |done]. rewrite <- E in Em, Hs. clear E.
  apply list_elem_of_lookup in Hs as [i Hi]. apply mapM_Some_1 in Em. destruct (Forall2_lookup_l _ _ _ _ _ Em Hi) as (y & Hy & Hy').
  rewrite Hz in Hy'. injection Hy' as <-. destruct (foldl_min_le r t) as [H1 H2]. destruct i as [|i]; cbn in Hy; [injection Hy as ->; lia|].
  apply H2. by eapply list_elem_of_lookup_2.
Qed.

Lemma capped_overdue z t q l : capped z l -> (forall g e, (g, e) ∈ q -> Qltb (t - e) window_sec = false -> ts g <= z) -> capped z (overdue t q l).
Proof.
  revert l. induction q as [|[g e] q IH]; intros l Hl Hq; cbn; [done|]. destruct (Qltb _ _) eqn:E; [done|]. apply IH.
  - apply capped_raise; [done|]. eapply (Hq g e); [by left|done].
  - intros g' e' Hin. apply Hq. by right.
Qed.

(** Frames of other sources that waited too long and are later than [z]. *)
Definition patient (v : view) (z : Z) (a : aligner) : Prop :=
  forall s g e, (g, e) ∈ queue_of s a -> Qltb (now v - e) window_sec = false -> ts g <= z.

Lemma capped_threshold v forced a s z : wf a -> s ∈ streaming v -> max_seen a !! s = Some z -> (forall t, forced = Some t -> t <= z) ->
  patient v z a -> capped z (threshold v forced a).
Proof.
  intros Hwf Hs Hz Hf Hp. unfold threshold.
  assert (capped z (match forced with Some t => raise_to t (watermark v a) | None => watermark v a end)) as H0.
  { pose proof (capped_watermark _ _ _ _ Hs Hz). destruct forced; [|done]. apply capped_raise; auto. }
  assert (forall s' q g e, (s', q) ∈ fifos a -> (g, e) ∈ q -> Qltb (now v - e) window_sec = false -> ts g <= z) as Hall.
  { intros s' q g e Hin Hg. eapply (Hp s' g e). unfold queue_of. by rewrite (in_get _ _ _ Hwf Hin). }
  revert H0 Hall. generalize (match forced with Some t => raise_to t (watermark v a) | None => watermark v a end). generalize (fifos a).
  induction l as [|[s' q] fs IH]; intros l0 H0 Hall; cbn [foldl]; [done|]. apply IH.
  - apply capped_overdue; [done|]. intros g e. apply (Hall s' q). by left.
  - intros s'' q' g e Hin. apply (Hall s'' q'). by right.
Qed.

Lemma release_last v forced a z : wf a -> capped z (threshold v forced a) -> (forall t, last_released_ts a = Some t -> t <= z) ->
  forall t, last_released_ts (_release v forced a) = Some t -> t <= z.
Proof.
  intros Hwf Hc. destruct (release_spec v forced a Hwf) as [Hr _]. revert Hc Hr. generalize (threshold v forced a) as l, (_release v forced a) as a'.
  clear Hwf. intros l a' Hc Hr. induction Hr as [b|b b1 b2 Ht _ IH]; [done|]. intros Hb. apply IH.
  destruct Ht as (s & f & enq & q & _ & Hf & _ & _ & _ & El & _). intros t. rewrite El. intros [= <-].
  pose proof (capped_reached _ _ _ Hc Hf). destruct (last_released_ts b) as [t0|]; [specialize (Hb _ eq_refl); lia|done].
Qed.

Lemma patient_release v z forced a v' : wf a -> patient v z a -> patient v z (_release v' forced a).
Proof.
  intros Hwf Hp s g e Hin. apply (Hp s g e). destruct (release_queue v' forced a s Hwf) as [pre ->]. apply elem_of_app. by right.
Qed.

(** A push finds room in its queue, or the source is streaming and no frame of
    the others that has waited too long is later than its own. *)
Definition orderly (ev : event) (a : aligner) : Prop :=
  match ev with
  | Push v s f => source f = s /\ ((length (queue_of s a) < max_frames)%nat \/ (s ∈ streaming v /\ patient v (ts f) a))
  | Look _ => True
  end.

Lemma order_view P a a' : order P a -> wf a' -> (forall s, queue_of s a' = queue_of s a) -> last_released_ts a' = last_released_ts a ->
  late_frames a' = late_frames a -> forwarded a' = forwarded a -> order P a'.
Proof.
  intros [H1 H2 H3 H4 H5] Hw Hq El Ea Ef. constructor; rewrite ?El, ?Ea, ?Ef; try done.
  - intros s. by rewrite Hq.
  - intros s f enq t. rewrite Hq. apply H3.
Qed.

Lemma ready_order v s f a P : rising P -> order P a -> order P (ready v s f a).
Proof.
  intros Hr Ho. destruct (setdefault_spec s (see s f a) (order_wf _ _ Ho)) as (H1 & _ & H3).
  apply (make_room_keeps (order P)); [|by intros b Hb; eapply order_view; [exact Hb|apply Hb|done..]|done|].
  - intros l b b' _ Hb Ht. by eapply takes_order.
  - eapply order_view; [exact Ho|done|apply H3|..]; unfold setdefault; by case_match.
Qed.

Lemma ready_last v f a P :
  let s := source f in
  rising (P ++ [f]) -> order P a -> noted P a -> is_late f a = false -> orderly (Push v s f) a ->
  forall t, last_released_ts (ready v s f a) = Some t -> t <= ts f.
Proof.
  cbv zeta. intros Hr Ho Hn Hl [_ Hor]. destruct (setdefault_spec (source f) (see (source f) f a) (order_wf _ _ Ho)) as (H1 & _ & H3).
  set (b := setdefault (source f) (see (source f) f a)) in *.
  assert (forall t, last_released_ts b = Some t -> t <= ts f) as Hb.
  { intros t Ht. assert (last_released_ts b = last_released_ts a) as E by (unfold b, setdefault; by case_match). rewrite E in Ht.
    unfold is_late in Hl. rewrite Ht in Hl. apply Z.ltb_ge in Hl. done. }
  unfold ready, make_room. fold b. destruct Hor as [Hroom|[Hs Hp]].
  { rewrite (H3 (source f)). change (queue_of (source f) (see (source f) f a)) with (queue_of (source f) a).
    destruct (Nat.leb_spec max_frames (length (queue_of (source f) a))); [lia|]. rewrite (H3 (source f)).
    change (queue_of (source f) (see (source f) f a)) with (queue_of (source f) a).
    destruct (Nat.leb_spec max_frames (length (queue_of (source f) a))); [lia|done]. }
  assert (max_seen b !! source f = Some (ts f)) as Hsb.
  { destruct (see_noted P f a Hn Hr) as [_ E]. unfold b, setdefault. by case_match. }
  assert (patient v (ts f) b) as Hpb by (intros s' g e; rewrite (H3 s'); apply Hp).
  set (b1 := if (max_frames <=? length (queue_of (source f) b))%nat then _ else b).
  assert (wf b1 /\ patient v (ts f) b1 /\ max_seen b1 !! source f = Some (ts f) /\ (forall t, last_released_ts b1 = Some t -> t <= ts f) /\
          exists pre, queue_of (source f) b = pre ++ queue_of (source f) b1) as (W1 & P1 & S1 & L1 & [pre Epre]).
  { unfold b1. case_match; [|split_and!; try done; by exists []].
    destruct (release_keeps (fun x => max_seen x !! source f = Some (ts f)) v None b) as [Hms Hw]; try done.
    { intros l x x' _ Hx (? & ? & ? & ? & _ & _ & _ & _ & Em & _). by rewrite Em. }
    split_and!; [done|by apply patient_release|done| |by apply release_queue].
    apply release_last; [done| |done]. by eapply capped_threshold. }
  clearbody b1. case_match; [|done]. apply release_last; [done| |done].
  eapply capped_threshold; [done|exact Hs|done| |done]. intros t. destruct (queue_of (source f) b1) as [|[g e] q] eqn:Eq; [done|].
  intros [= <-]. apply (rising_last P); [done|]. eapply (order_queue P a); [done|].
  change (queue_of (source f) a) with (queue_of (source f) (see (source f) f a)). rewrite <- (H3 (source f)), Epre.
  apply elem_of_app. right. by left.
Qed.

Lemma push_order v f a P :
  let s := source f in
  rising (P ++ [f]) -> order P a -> noted P a -> orderly (Push v s f) a ->
  order (P ++ [f]) (push v s f a) /\ noted (P ++ [f]) (push v s f a).
Proof.
  cbv zeta. intros Hr Ho Hn Hor. rewrite push_cases. destruct (see_noted P f a Hn Hr) as [Hn' _].
  assert (forall s', of_source s' [f] = if decide (s' = source f) then [f] else []) as Hof.
  { intros s'. unfold of_source. cbn. case_decide as E; [subst; by rewrite Nat.eqb_refl|]. by destruct (Nat.eqb_spec (source f) s'). }
  destruct (is_late f a) eqn:Hl.
  - unfold is_late in Hl. destruct (last_released_ts a) as [t|] eqn:Et; [|done]. apply Z.ltb_lt in Hl. split; [|done].
    assert (queue_of (source f) a = []) as Hq.
    { destruct (queue_of (source f) a) as [|[g e] q] eqn:Eq; [done|]. exfalso.
      assert ((g, e) ∈ queue_of (source f) a) as Hin by (rewrite Eq; by left).
      pose proof (order_low _ _ Ho _ _ _ _ Hin Et). pose proof (rising_last _ _ _ Hr (order_queue _ _ _ _ _ Ho Hin)). lia. }
    destruct Ho as [W S L K A]. rewrite Et in K. constructor; cbn [late see last_released_ts late_frames forwarded]; try done.
    + intros s'. rewrite !of_source_app, <- (S s'), Hof. change (queue_of s' _) with (queue_of s' a).
      case_decide as E; [subst; by rewrite Hq, !app_nil_r|by rewrite !app_nil_r].
    + rewrite Et, peak_snoc, <- K. unfold top. f_equal. lia.
    + rewrite overtaken_snoc, A, <- K. unfold below. destruct (Z.ltb_spec (ts f) t); lia.
  - pose proof (ready_last v f a P Hr Ho Hn Hl Hor) as Hlast. destruct (ready_spec v (source f) f a (order_wf _ _ Ho)) as [W Hk].
    pose proof (ready_order v (source f) f a P (rising_prefix _ _ Hr) Ho) as Ho'.
    destruct (enqueue_spec (source f) f (now v) _ W Hk) as [W2 Hq].
    assert (noted (P ++ [f]) (ready v (source f) f a)) as Hn2.
    { apply (make_room_keeps (noted (P ++ [f]))); [|done|by apply setdefault_spec, Ho|unfold setdefault; by case_match].
      intros l b b' _ Hb (? & ? & ? & ? & _ & _ & _ & _ & Em & _). unfold noted. by rewrite Em. }
    split.
    2:{ apply release_keeps; [|done|done]. intros l b b' _ Hb (? & ? & ? & ? & _ & _ & _ & _ & Em & _). unfold noted. by rewrite Em. }
    apply release_keeps; [intros l b b' _ Hb Ht; by eapply takes_order|done|].
    destruct Ho' as [_ S L K A]. constructor; cbn [enqueue last_released_ts late_frames forwarded]; try done.
    + intros s'. rewrite Hq, of_source_app, <- (S s'), Hof. case_decide as E; [subst|by rewrite app_nil_r].
      by rewrite map_app, app_assoc.
    + intros s' g e t. rewrite Hq. case_decide as E; [subst|apply L]. intros [Hin|[= -> ->]%list_elem_of_singleton]%elem_of_app; [by eapply L|apply Hlast].
Qed.

Definition arrival (ev : event) : list frame := match ev with Push _ _ f => [f] | Look _ => [] end.
Definition arrivals (evs : list event) : list frame := concat (map arrival evs).

(** A condition on each event and the state it meets. *)
Fixpoint along (C : event -> aligner -> Prop) (a : aligner) (evs : list event) : Prop :=
  match evs with [] => True | ev :: evs => C ev a /\ along C (step a ev) evs end.

Lemma run_order evs : forall P a, rising (P ++ arrivals evs) -> order P a -> noted P a -> along orderly a evs ->
  order (P ++ arrivals evs) (foldl step a evs) /\ noted (P ++ arrivals evs) (foldl step a evs).
Proof.
  induction evs as [|ev evs IH]; intros P a Hr Ho Hn Ha; cbn [foldl arrivals map concat along] in *; [by rewrite app_nil_r|].
  destruct Ha as [Hev Ha]. rewrite app_assoc in *. apply IH; [done|..|done].
  - destruct ev as [v s f|v]; cbn [step arrival] in *.
    + pose proof Hev as [Es _]. subst s. apply push_order; try done. by eapply rising_prefix.
    + rewrite app_nil_r in *. apply release_keeps; [|apply Ho|done]. intros l b b' _ Hb Ht. eapply takes_order; [|done..].
      by eapply rising_prefix.
  - destruct ev as [v s f|v]; cbn [step arrival] in *.
    + pose proof Hev as [Es _]. subst s. apply push_order; try done. by eapply rising_prefix.
    + rewrite app_nil_r in *. apply (release_keeps (noted P)); [|apply Ho|done].
      intros l b b' _ Hb (? & ? & ? & ? & _ & _ & _ & _ & Em & _). unfold noted. by rewrite Em.
Qed.

Lemma init_order : order [] init /\ noted [] init.
Proof.
  split; [|by intros s m; cbn; rewrite lookup_empty]. constructor; try done. constructor.
Qed.

(** The aligner loses, repeats and reorders nothing: where the time stamps of
    each source rise and a frame that finds its queue full is not overtaken
    by one that has waited too long, the frames of every source leave in the
    order in which they came, those that have not left wait in its queue, and
    [late_frames] counts exactly the frames that left after one with a later
    time stamp. *)
Theorem aligner_keeps_order evs : rising (arrivals evs) -> along orderly init evs ->
  (forall s, of_source s (forwarded (run evs)) ++ map fst (queue_of s (run evs)) = of_source s (arrivals evs)) /\
  late_frames (run evs) = overtaken (forwarded (run evs)).
Proof.
  intros Hr Ha. destruct init_order as [Ho Hn]. destruct (run_order evs [] init Hr Ho Hn Ha) as [[_ S _ _ L] _]. done.
Qed.

(** *** No frame waits longer than the window *)
Definition clocked (t : Q) (a : aligner) : Prop :=
  forall s, StronglySorted (fun x y : frame * Q => snd x <= snd y)%Q (queue_of s a) /\ Forall (fun x => (snd x <= t)%Q) (queue_of s a).

Lemma takes_clocked t l a a' : takes l a a' -> clocked t a -> clocked t a'.
Proof.
  intros Ht Hc s. destruct (takes_queue _ _ _ s Ht) as [pre E]. destruct (Hc s) as [H1 H2]. rewrite E in H1, H2.
  split; [by eapply sorted_app_r|]. by apply list.Forall_app in H2 as [_ ?].
Qed.

Lemma clocked_later t t' a : (t <= t')%Q -> clocked t a -> clocked t' a.
Proof. intros Hle Hc s. destruct (Hc s) as [H1 H2]. split; [done|]. eapply list.Forall_impl; [exact H2|]. cbn. intros x Hx. by eapply Qle_trans. Qed.

Lemma sorted_snoc (q : fifo) x : StronglySorted (fun x y : frame * Q => snd x <= snd y)%Q q -> Forall (fun y => (snd y <= snd x)%Q) q ->
  StronglySorted (fun x y : frame * Q => snd x <= snd y)%Q (q ++ [x]).
Proof.
  induction 1 as [|y q Hs IH Hf]; intros Hx; cbn; [repeat constructor|]. apply list.Forall_cons in Hx as [Hy Hx].
  constructor; [by apply IH|]. apply list.Forall_app. split; [done|]. by constructor.
Qed.

Lemma push_clocked t v s f a : wf a -> clocked t a -> (t <= now v)%Q -> wf (push v s f a) /\ clocked (now v) (push v s f a).
Proof.
  intros Hwf Hc Ht. pose proof (clocked_later _ _ _ Ht Hc) as Hc1. rewrite push_cases. destruct (is_late f a); [done|].
  destruct (ready_spec v s f a Hwf) as [W Hk]. destruct (setdefault_spec s (see s f a) Hwf) as (H1 & _ & H3).
  assert (clocked (now v) (ready v s f a)) as Hr.
  { apply (make_room_keeps (clocked (now v))); try done; [intros l b b' _ Hb Ht'; by eapply takes_clocked|]. intros s'. rewrite H3. apply Hc1. }
  destruct (enqueue_spec s f (now v) _ W Hk) as [W2 Hq].
  apply and_comm. apply release_keeps; [intros l b b' _ Hb Ht'; by eapply takes_clocked|done|]. intros s'. rewrite Hq. case_decide; [|apply Hr].
  destruct (Hr s) as [S F]. split; [by apply sorted_snoc|]. apply list.Forall_app. split; [done|]. constructor; [apply Qle_refl|constructor].
Qed.

Lemma overdue_takes t pre f enq q l : Forall (fun x => Qltb (t - snd x) window_sec = false) (pre ++ [(f, enq)]) ->
  reached (ts f) (overdue t (pre ++ (f, enq) :: q) l) = true.
Proof.
  revert l. induction pre as [|[g e] pre IH]; intros l H; cbn in *; apply list.Forall_cons in H as [H1 H2]; cbn in H1; rewrite H1.
  - apply overdue_reached. destruct l; cbn; rewrite ?Z.leb_le; lia.
  - by apply IH.
Qed.

Lemma threshold_takes v forced a s pre f enq q : wf a -> queue_of s a = pre ++ (f, enq) :: q ->
  Forall (fun x => Qltb (now v - snd x) window_sec = false) (pre ++ [(f, enq)]) -> reached (ts f) (threshold v forced a) = true.
Proof.
  intros Hwf Hq Hf. assert (get s (fifos a) = Some (pre ++ (f, enq) :: q)) as Hg.
  { unfold queue_of in Hq. destruct (get s (fifos a)); cbn in Hq; [by subst|]. by destruct pre. }
  apply get_in in Hg. unfold threshold. revert Hg. generalize (fifos a). generalize (match forced with Some t => raise_to t (watermark v a) | None => watermark v a end).
  intros l fs. revert l. induction fs as [|[s' q'] fs IH]; intros l Hin; [by apply not_elem_of_nil in Hin|]. cbn [foldl].
  apply elem_of_cons in Hin as [[= <- <-]|Hin]; [|by apply IH]. apply overdues_reached. by apply overdue_takes.
Qed.

Lemma release_young v forced t a s g e : wf a -> clocked t a -> (g, e) ∈ queue_of s (_release v forced a) -> (now v - e < window_sec)%Q.
Proof.
  intros Hwf Hc Hin. destruct (Qltb (now v - e) window_sec) eqn:Ey; [by apply Qltb_lt|]. exfalso.
  destruct (release_queue v forced a s Hwf) as [pre E]. destruct (release_spec v forced a Hwf) as [_ Hstop].
  destruct (queue_of s (_release v forced a)) as [|[h eh] q] eqn:Eq; [by apply not_elem_of_nil in Hin|].
  pose proof (Hstop s h (queue_heads _ _ _ _ _ Eq)) as Hs. rewrite (threshold_takes v forced a s pre h eh q) in Hs; [done|done|done|].
  destruct (Hc s) as [Hsort _]. rewrite E in Hsort. apply Qltb_ge in Ey. 
  assert (forall x, x ∈ pre ++ [(h, eh)] -> (snd x <= e)%Q) as Hle.
  { intros x Hx. apply elem_of_app in Hx as [Hx|Hx].
    - by apply (sorted_app_l _ _ _ x (g, e) Hsort Hx).
    - apply list_elem_of_singleton in Hx as ->. apply elem_of_cons in Hin as [[= -> ->]|Hin]; [apply Qle_refl|].
      apply sorted_app_r, StronglySorted_inv in Hsort as [_ Hf]. rewrite list.Forall_forall in Hf. by apply (Hf (g, e)). }
  apply list.Forall_forall. intros x Hx. apply Qltb_ge. specialize (Hle x Hx). lra.
Qed.

Definition clock (ev : event) : Q := match ev with Push v _ _ => now v | Look v => now v end.
(** The clock does not go back. *)
Fixpoint ticking (t : Q) (evs : list event) : Prop :=
  match evs with [] => True | ev :: evs => (t <= clock ev)%Q /\ ticking (clock ev) evs end.

Lemma run_clocked evs : forall t a, wf a -> clocked t a -> ticking t evs ->
  wf (foldl step a evs) /\ exists t', clocked t' (foldl step a evs).
Proof.
  induction evs as [|ev evs IH]; intros t a Hwf Hc Ht; cbn [foldl ticking] in *; [by eauto|]. destruct Ht as [H1 H2].
  destruct ev as [v s f|v]; cbn [step clock] in *.
  - destruct (push_clocked t v s f a Hwf Hc H1). by eapply IH.
  - destruct (release_keeps (clocked (now v)) v None a) as [H3 H4]; [intros l b b' _ Hb Hk; by eapply takes_clocked|done|by eapply clocked_later|].
    by eapply IH.
Qed.

(** No frame waits longer than the alignment window: when the aligner's thread
    has looked, every frame that still waits came less than [align_window_ms] ago. *)
Theorem no_frame_waits_too_long t evs v s f enq :
  ticking t (evs ++ [Look v]) -> (f, enq) ∈ queue_of s (run (evs ++ [Look v])) -> (now v - enq < window_sec)%Q.
Proof.
  intros Ht. unfold run. rewrite foldl_app. cbn [foldl step]. intros Hin.
  assert (ticking t evs) as Ht'.
  { clear Hin. revert t Ht. induction evs as [|ev evs IH]; intros t Ht; [done|]. destruct Ht as [H1 H2]. split; [done|by apply IH]. }
  destruct (run_clocked evs t init) as [Hwf [t' Hc]]; [constructor|intros s'; repeat constructor|done|]. by eapply release_young.
Qed.

(** *** Frames are late only when the aligner stops waiting *)

(** All sources stream, queues have room, and no frame waits too long. *)
Definition waiting (S : list nat) (ev : event) (a : aligner) : Prop :=
  match ev with
  | Push v s f => source f = s /\ s ∈ S /\ streaming v = S /\ (length (queue_of s a) < max_frames)%nat /\ (0 < window_sec)%Q /\
      (forall s' g e, (g, e) ∈ queue_of s' a -> (now v - e < window_sec)%Q)
  | Look v => streaming v = S /\ (forall s' g e, (g, e) ∈ queue_of s' a -> (now v - e < window_sec)%Q)
  end.

(** What was released, every source has reached. *)
Definition reached_by_all (S : list nat) (a : aligner) : Prop :=
  forall t s, last_released_ts a = Some t -> s ∈ S -> exists m, max_seen a !! s = Some m /\ t <= m.

Lemma young_overdue t q l : (forall g e, (g, e) ∈ q -> (t - e < window_sec)%Q) -> overdue t q l = l.
Proof.
  destruct q as [|[g e] q]; [done|]. intros H. cbn. assert (Qltb (t - e) window_sec = true) as ->; [|done]. apply Qltb_lt, (H g). by left.
Qed.

Lemma young_threshold v a : wf a -> (forall s g e, (g, e) ∈ queue_of s a -> (now v - e < window_sec)%Q) -> threshold v None a = watermark v a.
Proof.
  intros Hwf Hy. unfold threshold.
  assert (forall s q g e, (s, q) ∈ fifos a -> (g, e) ∈ q -> (now v - e < window_sec)%Q) as Hall.
  { intros s q g e Hin Hg. apply (Hy s g). unfold queue_of. by rewrite (in_get _ _ _ Hwf Hin). }
  revert Hall. generalize (fifos a), (watermark v a). induction l as [|[s q] fs IH]; intros l Hall; cbn [foldl]; [done|].
  rewrite young_overdue by (intros g e; apply (Hall s); by left). apply IH. intros s' q' g e Hin. apply (Hall s' q'). by right.
Qed.

Lemma watermark_reached v a z s : s ∈ streaming v -> reached z (watermark v a) = true -> exists m, max_seen a !! s = Some m /\ z <= m.
Proof.
  intros Hs. destruct (max_seen a !! s) as [m|] eqn:E.
  - intros Hz. exists m. split; [done|]. eapply capped_reached; [|exact Hz]. by eapply capped_watermark.
  - unfold watermark. destruct (streaming v) as [|x l] eqn:El; [by apply not_elem_of_nil in Hs|].
    destruct (mapM _ (x :: l)) as [[|t r]|] eqn:Em; try done. intros _. exfalso. apply list_elem_of_lookup in Hs as [i Hi].
    apply mapM_Some_1 in Em. destruct (Forall2_lookup_l _ _ _ _ _ Em Hi) as (y & _ & Hy). congruence.
Qed.

Lemma release_reached S v a : wf a -> streaming v = S -> (forall s g e, (g, e) ∈ queue_of s a -> (now v - e < window_sec)%Q) ->
  reached_by_all S a -> reached_by_all S (_release v None a) /\ late_frames (_release v None a) = late_frames a.
Proof.
  intros Hwf HS Hy Hr. destruct (release_spec v None a Hwf) as [Hrel _]. rewrite (young_threshold v a Hwf Hy) in Hrel.
  assert (forall z, reached z (watermark v a) = true -> forall s, s ∈ S -> exists m, max_seen a !! s = Some m /\ z <= m) as Hw.
  { intros z Hz s Hs. apply (watermark_reached v); [by rewrite HS|done]. }
  revert Hrel Hw. generalize (watermark v a) as l, (_release v None a) as a'. clear -Hr. intros l a' Hrel.
  induction Hrel as [b|b b1 b2 Ht _ IH]; intros Hw; [done|].
  destruct Ht as (s & f & enq & q & _ & Hf & _ & _ & Em & El & Ea & _). rewrite <- Ea. apply IH; [|by rewrite Em].
  intros t s' Ht Hs'. rewrite Em. rewrite El in Ht. injection Ht as <-. destruct (Hw _ Hf s' Hs') as (m & Hm & Hle).
  exists m. split; [done|]. destruct (last_released_ts b) as [t0|] eqn:E0; [|done]. destruct (Hr t0 s' E0 Hs') as (m' & Hm' & Hle').
  rewrite Hm in Hm'. injection Hm' as <-. lia.
Qed.

Lemma push_punctual S P v f a : rising (P ++ [f]) -> order P a -> noted P a -> reached_by_all S a -> waiting S (Push v (source f) f) a ->
  reached_by_all S (push v (source f) f a) /\ late_frames (push v (source f) f a) = late_frames a.
Proof.
  intros Hr Ho Hn Hall (_ & Hs & HS & Hroom & Hpos & Hy). rewrite push_cases.
  assert (is_late f a = false) as ->.
  { unfold is_late. destruct (last_released_ts a) as [t|] eqn:Et; [|done]. apply Z.ltb_ge. destruct (Hall t _ Et Hs) as (m & Hm & Hle).
    destruct (Hn _ _ Hm) as (g & Hg & <-). pose proof (rising_last _ _ _ Hr Hg). lia. }
  destruct (setdefault_spec (source f) (see (source f) f a) (order_wf _ _ Ho)) as (W & Hk & Hq).
  assert (ready v (source f) f a = setdefault (source f) (see (source f) f a)) as Er.
  { unfold ready, make_room. rewrite (Hq (source f)). change (queue_of (source f) (see (source f) f a)) with (queue_of (source f) a).
    destruct (Nat.leb_spec max_frames (length (queue_of (source f) a))); [lia|]. rewrite (Hq (source f)).
    change (queue_of (source f) (see (source f) f a)) with (queue_of (source f) a). by destruct (Nat.leb_spec max_frames (length (queue_of (source f) a))); [lia|]. }
  rewrite Er. destruct (enqueue_spec (source f) f (now v) _ W Hk) as [W2 Hq2].
  assert (last_released_ts (setdefault (source f) (see (source f) f a)) = last_released_ts a /\ max_seen (setdefault (source f) (see (source f) f a)) = max_seen (see (source f) f a) /\
          late_frames (setdefault (source f) (see (source f) f a)) = late_frames a) as (E1 & E2 & E3) by (unfold setdefault; by case_match).
  rewrite <- E3. apply (release_reached S v (enqueue (source f) f (now v) (setdefault (source f) (see (source f) f a)))); [done|done|..].
  - intros s' g e. rewrite Hq2. change (queue_of (source f) (setdefault _ _)) with (queue_of (source f) (setdefault (source f) (see (source f) f a))).
    rewrite !Hq. case_decide; [subst|apply Hy]. intros [Hin|[= -> ->]%list_elem_of_singleton]%elem_of_app; [by eapply Hy|lra].
  - intros t s' Ht Hs'. cbn [enqueue last_released_ts max_seen] in *. rewrite E1 in Ht. rewrite E2. destruct (Hall t s' Ht Hs') as (m & Hm & Hle).
    destruct (decide (s' = source f)) as [->|N].
    + cbn. rewrite lookup_insert_eq, Hm. eexists. split; [done|]. lia.
    + cbn. rewrite lookup_insert_ne by done. eauto.
Qed.


End Aligner.
(** ** A small system *)
Definition ex_frame (s : nat) (t : Z) : frame := Frame [] [] t s.
Definition ex_view (t : Q) (l : list nat) : view := View t l (fun _ => []).
Definition ex_push (t : Q) (l : list nat) (s : nat) (z : Z) : event := Push (ex_view t l) s (ex_frame s z).
Definition stamps (a : aligner) : list (nat * Z) := map (fun f => (source f, ts f)) (forwarded a).

(** Two sources whose frames come in turn. *)
Definition ex_events : list event :=
  [ex_push 0 [0; 1]%nat 0 10; ex_push 1 [0; 1]%nat 0 20; ex_push 2 [0; 1]%nat 1 12; ex_push 3 [0; 1]%nat 1 22; Look (ex_view 4 [0; 1]%nat)].

Lemma ex_stamps : stamps (run 10 4 ex_events) = [(0%nat, 10); (1%nat, 12); (0%nat, 20)].
Proof. vm_compute. reflexivity. Qed.

Lemma ex_rising : rising (arrivals ex_events).
Proof.
  intros s. destruct s as [|[|s]]; [| |by constructor]; repeat constructor; cbn; lia.
Qed.

Lemma aligner_keeps_order_witness : of_source 0 (forwarded (run 10 4 ex_events)) ++ map fst (queue_of 0 (run 10 4 ex_events)) = [ex_frame 0 10; ex_frame 0 20].
Proof.
  rewrite (proj1 (aligner_keeps_order 10 4 ex_events ex_rising ltac:(repeat (split; [first [split; [reflexivity|left; vm_compute; lia]|exact I]|]); exact I)) 0%nat).
  vm_compute. reflexivity.
Defined.

Lemma no_frame_waits_too_long_witness : (5 - 3 < 10)%Q.
Proof.
  refine (no_frame_waits_too_long 10 4 0 ex_events (ex_view 5 [0; 1]%nat) 1 (ex_frame 1 22) 3 _ _).
  - repeat split; apply Qle_bool_iff; reflexivity.
  - vm_compute. left.
Defined.


(** A frame that finds its queue full is checked for lateness before the frames
    that have waited too long are released, and queued after them.  Here the
    third source has sent nothing yet and queues hold one frame: frame 5 of source 0
    is queued behind frame 9 of source 1, and frame 7, which is late, overtakes it. *)
Lemma full_queue_reorders :
  let evs := [ex_push 0 [0; 1; 2]%nat 1 9; ex_push (1 # 2) [0; 1; 2]%nat 0 3; ex_push (6 # 5) [0; 1; 2]%nat 0 5;
              ex_push (13 # 10) [0; 1; 2]%nat 0 7; Look (ex_view 3 [0; 1; 2]%nat)] in
  stamps (run 1 1 evs) = [(0%nat, 3); (1%nat, 9); (0%nat, 7); (0%nat, 5)] /\ late_frames (run 1 1 evs) = 1 /\
  overtaken (forwarded (run 1 1 evs)) = 2.
Proof. vm_compute. done. Qed.


End Align.

(** ** The queue of a client *)
Module Sink.

Inductive policy := oldest | newest | disconnect.
#[export] Instance policy_eq_dec : EqDecision policy.
Proof. solve_decision. Defined.
Inductive reason := slow_consumer | partial_frame | send_timeout | queue_full.

Definition frame_bytes (f : frame) : bytes := header f ++ payload f.

(** [current] is the frame the sender thread writes and how many of its bytes are
    written; [wire] is what the socket took. *)
Record sink := Sink {
  queue : list frame; sent_frames : Z; sent_bytes : Z; dropped_frames : Z; overflows : Z; consecutive_drops : Z;
  closed : bool; evict_reason : option reason;
  current : option (frame * nat); running : bool; wire : bytes }.

Definition init : sink := Sink [] 0 0 0 0 0 false None None true [].

Section Sink.
Context (queue_frames : nat) (drop_policy : policy) (stall_limit : Z).

Definition set_queue (q : list frame) (s : sink) : sink :=
  Sink q (sent_frames s) (sent_bytes s) (dropped_frames s) (overflows s) (consecutive_drops s) (closed s) (evict_reason s) (current s) (running s) (wire s).
Definition set_current (c : option (frame * nat)) (s : sink) : sink :=
  Sink (queue s) (sent_frames s) (sent_bytes s) (dropped_frames s) (overflows s) (consecutive_drops s) (closed s) (evict_reason s) c (running s) (wire s).
Definition set_closed (s : sink) : sink :=
  Sink (queue s) (sent_frames s) (sent_bytes s) (dropped_frames s) (overflows s) (consecutive_drops s) true (evict_reason s) (current s) (running s) (wire s).
(** The sender thread ends: it closes the socket and removes the sink. *)
Definition finish (s : sink) : sink :=
  Sink (queue s) (sent_frames s) (sent_bytes s) (dropped_frames s) (overflows s) (consecutive_drops s) (closed s) (evict_reason s) (current s) false (wire s).

Definition _evict_locked (r : reason) (s : sink) : sink :=
  if closed s then s
  else Sink [] (sent_frames s) (sent_bytes s) (dropped_frames s + Z.of_nat (length (queue s))) (overflows s) (consecutive_drops s) true (Some r)
         (current s) (running s) (wire s).

Definition offer (f : frame) (s : sink) : sink :=
  if closed s then s
  else if (queue_frames <=? length (queue s))%nat then
    let s1 := Sink (queue s) (sent_frames s) (sent_bytes s) (dropped_frames s) (overflows s + 1) (consecutive_drops s) (closed s)
                (evict_reason s) (current s) (running s) (wire s) in
    match drop_policy with
    | disconnect => _evict_locked queue_full s1
    | _ =>
        let q := match drop_policy with oldest => tail (queue s1) ++ [f] | _ => queue s1 end in
        let s2 := Sink q (sent_frames s1) (sent_bytes s1) (dropped_frames s1 + 1) (overflows s1) (consecutive_drops s1 + 1) (closed s1)
                    (evict_reason s1) (current s1) (running s1) (wire s1) in
        if (0 <? stall_limit) && (stall_limit <=? consecutive_drops s2) then _evict_locked slow_consumer s2 else s2
    end
  else set_queue (queue s ++ [f]) s.

Definition stop (s : sink) : sink := set_queue [] (set_closed s).

(** [_fail] and the end of the thread; [r] is [None] for a socket error. *)
Definition _fail (r : option reason) (sent : nat) (s : sink) : sink :=
  finish (if closed s then s
          else if (0 <? sent)%nat then _evict_locked partial_frame s
          else match r with Some r => _evict_locked r s | None => set_closed s end).

(** What the sender thread meets at its next look at the queue or the socket. *)
Inductive outcome :=
  | Idle (alive : bool)        (** an empty queue, and whether the peer is still there *)
  | Accepted (n : nat)         (** the socket took [n] more bytes *)
  | Blocked (expired : bool)   (** it took none, perhaps for [send_timeout_sec] *)
  | Broken.                    (** an error of the socket *)

(** Bytes left of the part, header or payload, that is being written. *)
Definition part_left (f : frame) (off : nat) : nat :=
  if (off <? length (header f))%nat then length (header f) - off else length (header f) + length (payload f) - off.

Definition complete (f : frame) (s : sink) : sink :=
  Sink (queue s) (sent_frames s + 1) (sent_bytes s + nbytes f) (dropped_frames s) (overflows s) 0 (closed s) (evict_reason s) None (running s) (wire s).

(** One step of [_run] and [_send_frame]. *)
Definition sender (o : outcome) (s : sink) : option sink :=
  if running s then
    match current s with
    | None =>
        if closed s then Some (finish s)
        else match queue s with
             | f :: q => Some (set_current (Some (f, 0%nat)) (set_queue q s))
             | [] => match o with
                     | Idle true => Some s
                     | Idle false => Some (finish (set_closed s))
                     | _ => None
                     end
             end
    | Some (f, off) =>
        if (off =? length (frame_bytes f))%nat then Some (complete f s)
        else if closed s then Some (finish s)
        else match o with
             | Accepted n =>
                 if (0 <? n)%nat && (n <=? part_left f off)%nat then
                   let s1 := set_current (Some (f, (off + n)%nat)) s in
                   Some (Sink (queue s1) (sent_frames s1) (sent_bytes s1) (dropped_frames s1) (overflows s1) (consecutive_drops s1) (closed s1)
                     (evict_reason s1) (current s1) (running s1) (wire s ++ take n (drop off (frame_bytes f))))
                 else None
             | Blocked false => Some s
             | Blocked true => Some (_fail (Some send_timeout) off s)
             | Broken => Some (_fail None off s)
             | Idle _ => None
             end
    end
  else None.

Inductive event := Offer (f : frame) | Stop | Sender (o : outcome).
Definition step (s : sink) (ev : event) : option sink :=
  match ev with Offer f => Some (offer f s) | Stop => Some (stop s) | Sender o => sender o s end.
Fixpoint run (evs : list event) (s : sink) : option sink :=
  match evs with [] => Some s | ev :: evs => s1 ← step s ev; run evs s1 end.

(** *** Whole frames, in order *)

(** The frames offered while the client was served. *)
Fixpoint offered (evs : list event) (s : sink) : list frame :=
  match evs with
  | [] => []
  | ev :: evs => (match ev with Offer f => if closed s then [] else [f] | _ => [] end) ++
                 match step s ev with Some s1 => offered evs s1 | None => [] end
  end.

Definition in_flight (s : sink) : list frame := match current s with Some (f, _) => [f] | None => [] end.
Definition written (s : sink) : bytes := match current s with Some (f, off) => take off (frame_bytes f) | None => [] end.

(** [sent] are the frames that were written in full, [all] those offered. *)
Record served (all sent : list frame) (s : sink) : Prop := {
  served_wire : wire s = concat (map frame_bytes sent) ++ written s;
  served_order : (sent ++ in_flight s ++ queue s) `sublist_of` all;
  served_count : sent_frames s = Z.of_nat (length sent);
  served_bytes : sent_bytes s = Z.of_nat (length (concat (map frame_bytes sent)));
  served_off : forall f off, current s = Some (f, off) -> (off <= length (frame_bytes f))%nat;
  served_room : (length (queue s) <= queue_frames)%nat;
  served_sum : closed s = false ->
    Z.of_nat (length all) = sent_frames s + dropped_frames s + Z.of_nat (length (in_flight s) + length (queue s));
  served_stall : closed s = false -> 0 < stall_limit -> consecutive_drops s < stall_limit }.

Lemma served_init : served [] [] init.
Proof. constructor; try done; cbn; lia. Qed.
(** Whole frames are not shortened by what is dropped from the queue. *)
Lemma served_cut all sent s s' :
  served all sent s -> closed s' = true -> (queue s' = [] \/ queue s' = queue s) -> current s' = current s -> wire s' = wire s ->
  sent_frames s' = sent_frames s -> sent_bytes s' = sent_bytes s -> served all sent s'.
Proof.
  intros [H1 H2 H3 H4 H5 H6 _ _] Hc Hq Ec Ew Es Eb. constructor; unfold written, in_flight in *; rewrite ?Ec, ?Ew, ?Es, ?Eb; try done; try (by rewrite Hc).
  - destruct Hq as [-> | ->]; [|done]. rewrite app_nil_r. etransitivity; [|exact H2]. rewrite app_assoc. by apply sublist_inserts_r.
  - destruct Hq as [-> | ->]; [cbn; lia|done].
Qed.

Lemma evict_served all sent r s : served all sent s -> served all sent (_evict_locked r s).
Proof. intros H. unfold _evict_locked. destruct (closed s) eqn:E; [done|]. eapply served_cut; [exact H|try done..]. by left. Qed.

Lemma served_more all sent s f : closed s = true -> served all sent s -> served (all ++ [f]) sent s.
Proof.
  intros Hc [H1 H2 H3 H4 H5 H6 _ _]. constructor; try done; try (by rewrite Hc). by apply sublist_inserts_r.
Qed.

Lemma offer_served all sent f s : (0 < queue_frames)%nat -> served all sent s ->
  served (all ++ (if closed s then [] else [f])) sent (offer f s).
Proof.
  intros Hpos H. unfold offer. destruct (closed s) eqn:Hc; [by rewrite app_nil_r|].
  destruct (Nat.leb_spec queue_frames (length (queue s))) as [Hfull|Hroom].
  2:{ destruct H as [H1 H2 H3 H4 H5 H6 H7 H8]. constructor; try done; cbn.
      - rewrite !app_assoc. apply sublist_app; [|done]. by rewrite <- app_assoc.
      - rewrite length_app. cbn. lia.
      - intros _. specialize (H7 Hc). rewrite !length_app. cbn. unfold in_flight in *. cbn. lia. }
  destruct (decide (drop_policy = disconnect)) as [->|Hd].
  { apply served_more; [done|]. eapply served_cut; [exact H|done|by left|done..]. }
  set (q := match drop_policy with oldest => tail (queue s) ++ [f] | _ => queue s end).
  set (s2 := Sink q (sent_frames s) (sent_bytes s) (dropped_frames s + 1) (overflows s + 1) (consecutive_drops s + 1) false
               (evict_reason s) (current s) (running s) (wire s)).
  assert (length q = length (queue s) /\ (in_flight s ++ q) `sublist_of` (in_flight s ++ queue s) ++ [f]) as [Hl Hsub].
  { unfold q. destruct drop_policy; [|split; [done|by apply sublist_inserts_r]|done]. destruct (queue s) as [|g qs] eqn:Eq; [cbn in *; lia|].
    cbn [tail]. split; [rewrite length_app; cbn; lia|]. rewrite <- app_assoc. apply sublist_app; [done|]. cbn. by apply sublist_cons. }
  destruct H as [H1 H2 H3 H4 H5 H6 H7 H8].
  assert (served (all ++ [f]) sent (set_closed s2)) as Hclosed.
  { constructor; try done; cbn; [|lia]. etransitivity; [|apply sublist_app; [exact H2|reflexivity]]. rewrite <- (app_assoc sent).
    apply sublist_app; [done|exact Hsub]. }
  assert ((0 <? stall_limit) && (stall_limit <=? consecutive_drops s + 1) = false -> served (all ++ [f]) sent s2) as Hopen.
  { intros Hst. destruct Hclosed as [C1 C2 C3 C4 C5 C6 _ _]. constructor; try done; cbn; intros _.
    - specialize (H7 Hc). rewrite length_app. change (in_flight s2) with (in_flight s). cbn. lia.
    - intros Hp. apply andb_false_iff in Hst as [?%Z.ltb_ge|?%Z.leb_gt]; lia. }
  assert (forall x, _evict_locked slow_consumer s2 = x -> served (all ++ [f]) sent x) as Hev.
  { intros x <-. eapply served_cut; [exact Hclosed|done|by left|done..]. }
  destruct drop_policy; [| |done]; cbn [consecutive_drops]; destruct ((0 <? stall_limit) && _) eqn:Hst; first [by apply Hev|by apply Hopen].
Qed.

Lemma finish_served all sent s : served all sent s -> served all sent (finish s).
Proof. intros []. by constructor. Qed.

Lemma closing_served all sent s : served all sent s -> served all sent (set_closed s).
Proof. intros H. eapply served_cut; [exact H|done|by right|done..]. Qed.

Lemma fail_served all sent r n s : served all sent s -> served all sent (_fail r n s).
Proof.
  intros H. apply finish_served. destruct (closed s); [done|]. case_match; [by apply evict_served|]. destruct r; [by apply evict_served|by apply closing_served].
Qed.

Lemma part_left_le f off : (off <= length (frame_bytes f))%nat -> (part_left f off <= length (frame_bytes f) - off)%nat.
Proof. unfold part_left, frame_bytes. rewrite length_app. intros. case_match; lia. Qed.

Lemma sender_served all sent o s s' : served all sent s -> sender o s = Some s' -> exists sent', served all sent' s'.
Proof.
  intros H. unfold sender. destruct (running s); [|done]. destruct (current s) as [[f off]|] eqn:Ec.
  - pose proof (served_off _ _ _ H f off Ec) as Hoff. destruct (Nat.eqb_spec off (length (frame_bytes f))) as [E|E].
    { intros [= <-]. exists (sent ++ [f]). destruct H as [H1 H2 H3 H4 H5 H6 H7 H8]. unfold written, in_flight in *. rewrite Ec in *.
      constructor; cbn; try done.
      - rewrite H1, map_app, concat_app. cbn. rewrite !app_nil_r, E. by rewrite take_ge by lia.
      - rewrite <- app_assoc. done.
      - rewrite length_app. cbn. lia.
      - rewrite map_app, concat_app. cbn. rewrite app_nil_r, !length_app, H4. unfold nbytes, frame_bytes. rewrite length_app. lia.
      - intros Hc. specialize (H7 Hc). cbn in H7. lia. }
    destruct (closed s) eqn:Hc; [intros [= <-]; exists sent; by apply finish_served|].
    destruct o as [| n|[]|]; [done|..]; [|intros [= <-]; exists sent; by apply fail_served|intros [= <-]; by exists sent|intros [= <-]; exists sent; by apply fail_served].
    destruct ((0 <? n)%nat && _) eqn:En; [|done]. apply andb_true_iff in En as [_ En%Nat.leb_le]. intros [= <-]. exists sent.
    pose proof (part_left_le f off Hoff). destruct H as [H1 H2 H3 H4 H5 H6 H7 H8]. unfold written, in_flight in *. rewrite Ec in *.
    constructor; cbn; try done.
    + rewrite H1, <- app_assoc. f_equal. rewrite <- take_take_drop. done.
    + intros f' off' [= <- <-]. lia.
  - destruct (closed s) eqn:Hc; [intros [= <-]; exists sent; by apply finish_served|].
    destruct (queue s) as [|f q] eqn:Eq.
    + destruct o as [[]| | |]; try done; intros [= <-]; exists sent; [done|]. by apply finish_served, closing_served.
    + intros [= <-]. exists sent. destruct H as [H1 H2 H3 H4 H5 H6 H7 H8]. unfold written, in_flight in *. rewrite Ec, Eq in *.
      constructor; cbn in *; try done; [intros f' off' [= <- <-]; lia|lia].
Qed.

Lemma run_served evs : forall all sent s s', (0 < queue_frames)%nat -> served all sent s -> run evs s = Some s' ->
  exists sent', served (all ++ offered evs s) sent' s'.
Proof.
  induction evs as [|ev evs IH]; intros all sent s s' Hpos H; cbn [run offered].
  - intros [= <-]. rewrite app_nil_r. by exists sent.
  - destruct (step s ev) as [s1|] eqn:Hs; [|done]. cbn [mbind option_bind]. rewrite app_assoc. intros Hr.
    assert (exists sent1, served (all ++ match ev with Offer f => if closed s then [] else [f] | _ => [] end) sent1 s1) as [sent1 H1]; [|by eapply IH].
    destruct ev as [f| |o]; cbn in Hs; rewrite ?app_nil_r.
    + injection Hs as <-. exists sent. by apply offer_served.
    + injection Hs as <-. exists sent. eapply served_cut; [exact H|done|by left|done..].
    + by eapply sender_served.
Qed.

(** A client is served whole frames: in every interleaving of the readers with its
    sender thread, the bytes its socket took are frames it was offered, in the
    order of the offers and each in full, and then at most a beginning of the
    one being written.  While it is served every frame offered is accounted
    for as sent, dropped, queued or being written, the queue stays within
    [queue_frames] and the drops in a row below [client_stall_limit]. *)
Theorem clients_get_whole_frames evs s :
  (0 < queue_frames)%nat -> run evs init = Some s ->
  exists sent, wire s = concat (map frame_bytes sent) ++ written s /\ (sent ++ in_flight s ++ queue s) `sublist_of` offered evs init /\
    sent_frames s = Z.of_nat (length sent) /\ (length (queue s) <= queue_frames)%nat /\
    (closed s = false ->
     Z.of_nat (length (offered evs init)) = sent_frames s + dropped_frames s + Z.of_nat (length (in_flight s) + length (queue s)) /\
     (0 < stall_limit -> consecutive_drops s < stall_limit)).
Proof.
  intros Hpos Hr. destruct (run_served evs [] [] init s Hpos served_init Hr) as (sent & [H1 H2 H3 H4 H5 H6 H7 H8]).
  exists sent. split_and!; try done. intros Hc. split; [by apply H7|by apply H8].
Qed.

End Sink.
End Sink.

(** ** From the sources to a client *)
Module Route.

(** The router with its aligner and one of its clients, which is served from the
    moment it connects.  [_forward_frame] runs under the aligner's lock; clients
    do not affect each other. *)
Record sys := Sys { aligner : Align.aligner; client : option Sink.sink }.
Definition init : sys := Sys Align.init None.

Inductive event := Arrive (ev : Align.event) | Connect | Disconnect | Sender (o : Sink.outcome).

Section Route.
Context (window_sec : Q) (max_frames queue_frames : nat) (drop_policy : Sink.policy) (stall_limit : Z).

(** [_forward_frame] for the frames that one call of the aligner releases. *)
Definition forward (fs : list frame) (c : Sink.sink) : Sink.sink := foldl (fun c f => Sink.offer queue_frames drop_policy stall_limit f c) c fs.

Definition step (y : sys) (ev : event) : option sys :=
  match ev with
  | Arrive e =>
      let a := Align.step window_sec max_frames (aligner y) e in
      Some (Sys a (forward (drop (length (Align.forwarded (aligner y))) (Align.forwarded a)) <$> client y))
  | Connect => match client y with None => Some (Sys (aligner y) (Some Sink.init)) | Some _ => None end
  | Disconnect => c ← client y; Some (Sys (aligner y) (Some (Sink.stop c)))
  | Sender o => c ← client y; c1 ← Sink.sender o c; Some (Sys (aligner y) (Some c1))
  end.

Fixpoint run (evs : list event) (y : sys) : option sys :=
  match evs with [] => Some y | ev :: evs => y1 ← step y ev; run evs y1 end.

(** What arrives of the sources. *)
Definition arrived (evs : list event) : list Align.event := concat (map (fun ev => match ev with Arrive e => [e] | _ => [] end) evs).

Lemma forward_served all sent fs c : (0 < queue_frames)%nat -> Sink.served queue_frames stall_limit all sent c ->
  exists all', Sink.served queue_frames stall_limit all' sent (forward fs c) /\ all' `sublist_of` all ++ fs.
Proof.
  intros Hpos. revert all c. induction fs as [|f fs IH]; intros all c Hc; cbn [forward foldl].
  - exists all. by rewrite app_nil_r.
  - destruct (IH _ _ (Sink.offer_served _ drop_policy _ all sent f c Hpos Hc)) as (all' & H1 & H2). exists all'. split; [done|].
    etransitivity; [exact H2|]. rewrite <- app_assoc. apply sublist_app; [done|]. destruct (Sink.closed c); cbn; [by apply sublist_cons|done].
Qed.

(** The client was offered frames the aligner forwarded, in their order. *)
Definition follows (y : sys) : Prop :=
  match client y with
  | None => True
  | Some c => exists all sent, Sink.served queue_frames stall_limit all sent c /\ all `sublist_of` Align.forwarded (aligner y)
  end.

Lemma step_forwards e a : Align.wf a ->
  Align.wf (Align.step window_sec max_frames a e) /\ exists fs, Align.forwarded (Align.step window_sec max_frames a e) = Align.forwarded a ++ fs.
Proof.
  intros Hwf. set (P := fun b => exists fs, Align.forwarded b = Align.forwarded a ++ fs).
  assert (forall l b b', Align.wf b -> P b -> Align.takes l b b' -> P b') as Ht.
  { intros l b b' _ [fs Hb] (s & f & enq & q & _ & _ & _ & _ & _ & _ & _ & _ & Ef). exists (fs ++ [f]). by rewrite Ef, Hb, app_assoc. }
  assert (P a) as Ha by (exists []; by rewrite app_nil_r). apply and_comm. destruct e as [v s f|v]; cbn [Align.step].
  - rewrite Align.push_cases. destruct (Align.is_late f a); [split; [by exists [f]|done]|].
    destruct (Align.ready_spec window_sec max_frames v s f a Hwf) as [W Hk]. apply (Align.release_keeps window_sec P); [done|by apply Align.enqueue_spec|].
    destruct (Align.setdefault_spec s (Align.see s f a) Hwf) as (W1 & _).
    destruct (Align.make_room_keeps window_sec max_frames P v s (Align.setdefault s (Align.see s f a))) as [Hp _]; try done.
    unfold Align.setdefault. by case_match.
  - by apply (Align.release_keeps window_sec P).
Qed.

Lemma step_follows y ev y' : (0 < queue_frames)%nat -> Align.wf (aligner y) -> follows y -> step y ev = Some y' ->
  Align.wf (aligner y') /\ follows y' /\ aligner y' = foldl (Align.step window_sec max_frames) (aligner y) (match ev with Arrive e => [e] | _ => [] end).
Proof.
  intros Hpos Hwf Hy. unfold follows in *. destruct ev as [e| | |o]; cbn [step foldl].
  - intros [= <-]. cbn [aligner client]. destruct (step_forwards e (aligner y) Hwf) as [W [fs Ef]]. split_and!; [done| |done].
    destruct (client y) as [c|]; [|done]. cbn. destruct Hy as (all & sent & Hs & Hsub). rewrite Ef, drop_app_length.
    destruct (forward_served all sent fs c Hpos Hs) as (all' & Hs' & Hsub'). exists all', sent. split; [done|]. etransitivity; [exact Hsub'|].
    by apply sublist_app.
  - destruct (client y); [done|]. intros [= <-]. split_and!; [done| |done]. exists [], []. split; [apply Sink.served_init|apply sublist_nil_l].
  - destruct (client y) as [c|]; [|done]. intros [= <-]. split_and!; [done| |done]. destruct Hy as (all & sent & Hs & Hsub).
    exists all, sent. split; [|done]. eapply Sink.served_cut; [exact Hs|done|by left|done..].
  - destruct (client y) as [c|]; [|done]. cbn [mbind option_bind]. destruct (Sink.sender o c) as [c1|] eqn:Ho; [|done]. intros [= <-].
    split_and!; [done| |done]. destruct Hy as (all & sent & Hs & Hsub). destruct (Sink.sender_served _ _ _ _ _ _ _ Hs Ho) as [sent' Hs'].
    by exists all, sent'.
Qed.

Lemma run_follows evs : forall y y', (0 < queue_frames)%nat -> Align.wf (aligner y) -> follows y -> run evs y = Some y' ->
  follows y' /\ aligner y' = foldl (Align.step window_sec max_frames) (aligner y) (arrived evs).
Proof.
  induction evs as [|ev evs IH]; intros y y' Hpos Hwf Hy; cbn [run]; [by intros [= <-]|].
  destruct (step y ev) as [y1|] eqn:Hs; [|done]. cbn [mbind option_bind]. destruct (step_follows _ _ _ Hpos Hwf Hy Hs) as (W & Hy1 & Ea).
  intros Hr. destruct (IH _ _ Hpos W Hy1 Hr) as [H1 H2]. split; [done|]. rewrite H2, Ea, <- foldl_app. done.
Qed.

Lemma sublist_source s l l' : l `sublist_of` l' -> Align.of_source s l `sublist_of` Align.of_source s l'.
Proof.
  induction 1 as [|x l l' _ IH|x l l' _ IH]; cbn; [done|..]; destruct (Nat.eqb (source x) s); [by apply sublist_skip|done|by apply sublist_cons|done].
Qed.


End Route.

(** A client that connects after the first frame; its queue holds one frame. *)
Definition ex_frame (s : nat) (t : Z) : frame := Frame [t] [t; t] t s.
Definition ex_push (s : nat) (z : Z) : event := Arrive (Align.Push (Align.ex_view 0 [0]%nat) s (ex_frame s z)).
Definition ex_events : list event :=
  [ex_push 0 1; Connect; ex_push 0 2; ex_push 0 3; Sender (Sink.Idle true); ex_push 0 4; Sender (Sink.Accepted 1); ex_push 0 5; Sender (Sink.Accepted 2);
   Sender (Sink.Idle true); Sender (Sink.Idle true); Sender (Sink.Accepted 1)].
Definition ex_client : Sink.sink :=
  match run 10 4 1 Sink.oldest 0 ex_events init with Some (Sys _ (Some c)) => c | _ => Sink.init end.

Lemma ex_wire : Sink.wire ex_client = [3; 3; 3; 5] /\ Sink.dropped_frames ex_client = 2 /\ Sink.sent_frames ex_client = 1.
Proof. vm_compute. done. Qed.


End Route.
