(* ===== verification/IqSource.v ===== *)
(** * The sources of the IQ router ([_daq_core/federation_iq_router.py])

    What the router does with each frame it reads from a source before the aligner
    sees it ([_run_connection], [_handle_frame], [_account]): it cuts the byte
    stream into frames, counts lost frames and restarts from the 32-bit
    [cpi_index], and writes its tags into the header bytes. *)
From S2P Require Import Prelude PyStruct PyText IQHeader.
From Stdlib Require Import Qminmax.

(** ** Tags *)
Module Tag.

Definition _UNIT_ID_OFFSET : nat := 24.
Definition _RESERVED_OFFSET : nat := 252.
Definition slot_offset (slot : nat) : nat := _RESERVED_OFFSET + 4 * slot.

(** [struct.pack_into("=I", buf, offset, value & 0xFFFFFFFF)] *)
Definition _put_u32 (buf : bytes) (offset : nat) (value : Z) : bytes :=
  take offset buf ++ le_bytes 4 (mask32 value) ++ drop (offset + 4) buf.

Inductive mode := instance | unit | node.

(** What the tags depend on: the configuration, and of the source whether it
    is read from an iq server, its instance (unknown for an untagged frame of an
    upstream router), the checksum of its node key and its sequence number. *)
Record config := Config { tag_mode : mode; stamp_seq : bool; stamp_rx_ts : bool }.
Record source := Source { direct : bool; instance_id : option Z; node_key_crc32 : Z; fwd_seq : Z }.

(** The tags of [_handle_frame]: the header bytes and the next sequence number. *)
Definition tag (c : config) (s : source) (rx_wall_ms : Z) (header : bytes) : bytes * Z :=
  if direct s then
    let iid := default 0 (instance_id s) in
    let h1 := match tag_mode c with
              | instance => _put_u32 header _UNIT_ID_OFFSET iid
              | node => _put_u32 (_put_u32 header (slot_offset Hdr.RSV_SOURCE_INSTANCE) (iid + 1))
                          (slot_offset Hdr.RSV_SOURCE_KEY_CRC32) (node_key_crc32 s)
              | unit => header
              end in
    let seq := mask32 (fwd_seq s + 1) in
    let h2 := if stamp_seq c then _put_u32 h1 (slot_offset Hdr.RSV_ROUTER_SEQ) seq else h1 in
    let ts := Z.land rx_wall_ms 18446744073709551615 in
    let h3 := if stamp_rx_ts c
              then _put_u32 (_put_u32 h2 (slot_offset Hdr.RSV_ROUTER_RX_TS_LO) (Z.land ts 4294967295))
                     (slot_offset Hdr.RSV_ROUTER_RX_TS_HI) (Z.shiftr ts 32)
              else h2 in
    (h3, if stamp_seq c then seq else fwd_seq s)
  else
    (match tag_mode c, instance_id s with instance, Some iid => _put_u32 header _UNIT_ID_OFFSET iid | _, _ => header end, fwd_seq s).

(** *** A patch of packed bytes is a changed field *)

(** Where the [i]-th field begins. *)
Fixpoint offset_of (off : nat) (fmt : list field) (i : nat) : nat :=
  match fmt, i with
  | [], _ => off
  | f :: _, O => off + pad off (align_of f)
  | f :: fmt, S i => offset_of (off + pad off (align_of f) + size_of f) fmt i
  end.

Lemma offset_of_ge off fmt i : (off <= offset_of off fmt i)%nat.
Proof.
  revert off i. induction fmt as [|f fmt IH]; intros off [|i]; cbn; try lia. etransitivity; [|apply IH]. lia.
Qed.

Lemma put_app (a b : bytes) n v : (length a <= n)%nat -> _put_u32 (a ++ b) n v = a ++ _put_u32 b (n - length a) v.
Proof.
  intros H. unfold _put_u32. rewrite take_app_ge, drop_app_ge by lia. rewrite <- app_assoc. repeat f_equal. lia.
Qed.

Lemma pack_put off fmt vs bs i v :
  pack_at off fmt vs = Ok bs -> fmt !! i = Some FI ->
  pack_at off fmt (<[i := VInt (mask32 v)]> vs) = Ok (_put_u32 bs (offset_of off fmt i - off) v).
Proof.
  revert off vs bs i. induction fmt as [|f fmt IH]; intros off [|x vs] bs i; cbn [pack_at]; try done.
  intros (b & Hb & (r & Hr & [= <-])%res_bind_ok)%res_bind_ok Hi. pose proof (enc_length _ _ _ Hb) as Hl.
  destruct i as [|i]; cbn [lookup list_lookup] in Hi.
  - injection Hi as ->. change (<[0%nat := VInt (mask32 v)]> (x :: vs)) with (VInt (mask32 v) :: vs). cbn [pack_at offset_of].
    assert (enc FI (VInt (mask32 v)) = Ok (le_bytes 4 (mask32 v))) as ->.
    { pose proof (mask32_range v) as Hm. cbn [enc]. destruct (Z.leb_spec 0 (mask32 v)); [|lia]. by destruct (Z.ltb_spec (mask32 v) (2 ^ 32)); [|lia]. }
    rewrite Hr. cbn [mbind res_bind]. f_equal. rewrite put_app by (rewrite length_replicate; lia). f_equal. rewrite length_replicate.
    replace (off + pad off (align_of FI) - off - pad off (align_of FI))%nat with 0%nat by lia. unfold _put_u32. rewrite take_0. cbn [app]. f_equal.
    cbn [size_of] in Hl. by rewrite drop_app_length' by done.
  - change (<[S i := VInt (mask32 v)]> (x :: vs)) with (x :: <[i := VInt (mask32 v)]> vs). cbn [pack_at offset_of]. rewrite Hb.
    pose proof (offset_of_ge (off + pad off (align_of f) + size_of f) fmt i) as Hge. rewrite (IH _ _ _ _ Hr Hi). cbn [mbind res_bind]. f_equal.
    rewrite put_app by (rewrite length_replicate; lia). f_equal. rewrite put_app by (rewrite length_replicate, Hl; lia). f_equal.
    rewrite length_replicate, Hl. f_equal. lia.
Qed.

Lemma unit_offset : offset_of 0 Hdr.HEADER_FORMAT 3 = _UNIT_ID_OFFSET /\ Hdr.HEADER_FORMAT !! 3%nat = Some FI.
Proof. by vm_compute. Qed.

Lemma reserved_offset k : (k < Hdr.reserved_words)%nat ->
  offset_of 0 Hdr.HEADER_FORMAT (53 + k) = slot_offset k /\ Hdr.HEADER_FORMAT !! (53 + k)%nat = Some FI.
Proof.
  intros Hk.
  assert (forallb (fun k => Nat.eqb (offset_of 0 Hdr.HEADER_FORMAT (53 + k)) (slot_offset k) &&
    match Hdr.HEADER_FORMAT !! (53 + k)%nat with Some FI => true | _ => false end) (seq 0 192) = true) as Hall by (vm_compute; reflexivity).
  rewrite forallb_forall in Hall. specialize (Hall k). rewrite in_seq in Hall. unfold Hdr.reserved_words in Hk.
  specialize (Hall ltac:(lia)). apply andb_true_iff in Hall as [?%Nat.eqb_eq Hf]. split; [done|]. by destruct (Hdr.HEADER_FORMAT !! _) as [[]|].
Qed.

Definition with_unit (h : Hdr.t) (u : Z) : Hdr.t :=
  Hdr.mk (Hdr.sync_word h) (Hdr.frame_type h) (Hdr.hardware_id h) u (Hdr.active_ant_chs h) (Hdr.ioo_type h)
    (Hdr.rf_center_freq h) (Hdr.adc_sampling_freq h) (Hdr.sampling_freq h) (Hdr.cpi_length h) (Hdr.time_stamp h)
    (Hdr.daq_block_index h) (Hdr.cpi_index h) (Hdr.ext_integration_cntr h) (Hdr.data_type h) (Hdr.sample_bit_depth h)
    (Hdr.adc_overdrive_flags h) (Hdr.if_gains h) (Hdr.delay_sync_flag h) (Hdr.iq_sync_flag h) (Hdr.sync_state h)
    (Hdr.noise_source_state h) (Hdr.reserved h) (Hdr.header_version h).

Lemma encode_put_unit h bs u : Hdr.encode_header h = Ok bs -> Hdr.encode_header (with_unit h (mask32 u)) = Ok (_put_u32 bs _UNIT_ID_OFFSET u).
Proof.
  intros (hid & g & H1 & H2 & H3)%Hdr.encode_unfold. apply Hdr.encode_unfold. exists hid, g. split_and!; [done|done|].
  destruct unit_offset as [Eo Ef]. pose proof (pack_put 0 _ _ _ 3 u H3 Ef) as Hp. rewrite Eo in Hp. exact Hp.
Qed.

Lemma reserved192_insert h k v : (k < length (Hdr.reserved h))%nat ->
  Hdr.reserved192 (Hdr.with_reserved h (<[k := mask32 v]> (Hdr.reserved h))) = <[k := mask32 v]> (Hdr.reserved192 h).
Proof.
  intros Hk. apply list_eq. intros i. destruct (decide (i < 192)%nat) as [Hi|Hi].
  - rewrite Hdr.reserved192_lookup by done. cbn [Hdr.reserved Hdr.with_reserved]. destruct (decide (i = k)) as [->|N].
    + rewrite list_lookup_insert_eq by done. rewrite list_lookup_insert_eq by (by rewrite Hdr.reserved192_length). f_equal.
      apply mask32_id. apply mask32_range.
    + rewrite !list_lookup_insert_ne by done. by rewrite Hdr.reserved192_lookup.
  - rewrite !lookup_ge_None_2; [done|rewrite length_insert|]; rewrite Hdr.reserved192_length; lia.
Qed.

Lemma insert_fields (a b c d : list value) k x : (length a + length b = 49)%nat -> length c = 4%nat -> (k < length d)%nat ->
  forall e, <[(53 + k)%nat := x]> (a ++ b ++ c ++ d ++ e) = a ++ b ++ c ++ <[k := x]> d ++ e.
Proof.
  intros H1 H2 H3 e. rewrite insert_app_r_alt by lia. f_equal. rewrite insert_app_r_alt by lia. f_equal. rewrite insert_app_r_alt by lia. f_equal.
  replace (53 + k - length a - length b - length c)%nat with k by lia. by rewrite insert_app_l.
Qed.

Lemma all_fields_insert h k v hid g : length g = 32%nat -> (k < length (Hdr.reserved h))%nat -> (k < 192)%nat ->
  Hdr.all_fields (Hdr.with_reserved h (<[k := mask32 v]> (Hdr.reserved h))) hid g = <[(53 + k)%nat := VInt (mask32 v)]> (Hdr.all_fields h hid g).
Proof.
  intros Hg Hk Hk2. unfold Hdr.all_fields. rewrite reserved192_insert by done.
  rewrite insert_fields; [|by rewrite length_map, Hg|done|by rewrite length_map, Hdr.reserved192_length]. by rewrite list_fmap_insert.
Qed.

Lemma encode_put_slot h h' bs k v : (k < Hdr.reserved_words)%nat -> Hdr.encode_header h = Ok bs -> Hdr._set_u32 k v h = Ok h' ->
  Hdr.encode_header h' = Ok (_put_u32 bs (slot_offset k) v).
Proof.
  intros Hk (hid & g & H1 & H2 & H3)%Hdr.encode_unfold [Hl ->]%Hdr.set_u32_spec. apply Hdr.encode_unfold. exists hid, g. split; [exact H1|]. split; [exact H2|].
  destruct (reserved_offset k Hk) as [Eo Ef]. pose proof (pack_put 0 _ _ _ (53 + k) v H3 Ef) as Hp. rewrite Eo, Nat.sub_0_r in Hp.
  apply Hdr.gains32_length in H2. rewrite (all_fields_insert h k v hid g H2 Hl Hk). exact Hp.
Qed.

(** The same tags through the accessors of [iq_header.py]. *)
Definition tagged (c : config) (s : source) (rx_wall_ms : Z) (h : Hdr.t) : res Hdr.t :=
  if direct s then
    let iid := default 0 (instance_id s) in
    h1 ← match tag_mode c with
         | instance => Ok (with_unit h (mask32 iid))
         | node => h ← Hdr.set_source_instance (iid + 1) h; Hdr.set_source_key_crc32 (node_key_crc32 s) h
         | unit => Ok h
         end;
    h2 ← (if stamp_seq c then Hdr.set_router_seq (fwd_seq s + 1) h1 else Ok h1);
    if stamp_rx_ts c then Hdr.set_router_rx_ts_ms rx_wall_ms h2 else Ok h2
  else Ok (match tag_mode c, instance_id s with instance, Some iid => with_unit h (mask32 iid) | _, _ => h end).

Lemma set_slot_ok h k v : length (Hdr.reserved h) = Hdr.reserved_words -> (k < Hdr.reserved_words)%nat ->
  exists h', Hdr._set_u32 k v h = Ok h' /\ length (Hdr.reserved h') = Hdr.reserved_words.
Proof.
  intros Hl Hk. exists (Hdr.with_reserved h (<[k := mask32 v]> (Hdr.reserved h))). split; [apply Hdr.set_u32_spec; split; [lia|done]|].
  cbn [Hdr.reserved Hdr.with_reserved]. by rewrite length_insert.
Qed.

(** Setting a slot on bytes and on the decoded header. *)
Lemma put_slot h bs k v : Hdr.encode_header h = Ok bs -> length (Hdr.reserved h) = Hdr.reserved_words -> (k < Hdr.reserved_words)%nat ->
  exists h', Hdr._set_u32 k v h = Ok h' /\ Hdr.encode_header h' = Ok (_put_u32 bs (slot_offset k) v) /\ length (Hdr.reserved h') = Hdr.reserved_words.
Proof. intros He Hl Hk. destruct (set_slot_ok h k v Hl Hk) as (h' & E & Hl'). exists h'. split_and!; [done| |done]. by eapply encode_put_slot. Qed.

Lemma set_rx_ts ts h : Hdr.set_router_rx_ts_ms ts h =
  (let t := Z.land ts 18446744073709551615 in
   h1 ← Hdr._set_u32 Hdr.RSV_ROUTER_RX_TS_LO (Z.land t 4294967295) h; Hdr._set_u32 Hdr.RSV_ROUTER_RX_TS_HI (Z.shiftr t 32) h1).
Proof.
  cbv zeta. unfold Hdr.set_router_rx_ts_ms, Hdr._set_u32. set (t := Z.land ts 18446744073709551615).
  assert (0 <= t < 2 ^ 64) as Ht by (unfold t; rewrite Hdr.land_u64; by apply Z.mod_pos_bound).
  assert (mask32 (Z.shiftr t 32) = Z.shiftr t 32) as ->.
  { apply mask32_id. rewrite Z.shiftr_div_pow2 by lia. split; [apply Z.div_pos; lia|]. apply Z.div_lt_upper_bound; lia. }
  change (Z.land t 4294967295) with (mask32 t). rewrite (mask32_id (mask32 t)) by apply mask32_range.
  unfold py_set. destruct (bool_decide (Hdr.RSV_ROUTER_RX_TS_LO < length (Hdr.reserved h))%nat); cbn [mbind res_bind]; [|done].
  cbn [Hdr.reserved Hdr.with_reserved]. by destruct (bool_decide (_ < _)%nat).
Qed.

Lemma tag_encodes c s rx h bs : Hdr.encode_header h = Ok bs -> length (Hdr.reserved h) = Hdr.reserved_words ->
  exists h', tagged c s rx h = Ok h' /\ Hdr.encode_header h' = Ok (tag c s rx bs).1.
Proof.
  intros He Hl. unfold tagged, tag. destruct (direct s).
  2:{ destruct (tag_mode c), (instance_id s); eexists; (split; [done|]); try done. by apply encode_put_unit. }
  assert (exists h1, match tag_mode c with
      | instance => Ok (with_unit h (mask32 (default 0 (instance_id s))))
      | unit => Ok h
      | node => h0 ← Hdr.set_source_instance (default 0 (instance_id s) + 1) h; Hdr.set_source_key_crc32 (node_key_crc32 s) h0 end = Ok h1 /\
      Hdr.encode_header h1 = Ok (match tag_mode c with
        | instance => _put_u32 bs _UNIT_ID_OFFSET (default 0 (instance_id s))
        | unit => bs
        | node => _put_u32 (_put_u32 bs (slot_offset Hdr.RSV_SOURCE_INSTANCE) (default 0 (instance_id s) + 1)) (slot_offset Hdr.RSV_SOURCE_KEY_CRC32) (node_key_crc32 s) end) /\
      length (Hdr.reserved h1) = Hdr.reserved_words) as (h1 & -> & He1 & Hl1).
  { destruct (tag_mode c); [eexists; split_and!; [done|by apply encode_put_unit|done]|by exists h|].
    destruct (put_slot h bs Hdr.RSV_SOURCE_INSTANCE (default 0 (instance_id s) + 1) He Hl) as (ha & Ea & Hea & Hla); [by apply Nat.ltb_lt|].
    unfold Hdr.set_source_instance. rewrite Ea. cbn [mbind res_bind]. apply put_slot; [done|done|by apply Nat.ltb_lt]. }
  cbn [mbind res_bind fst]. set (b1 := match tag_mode c with instance => _ | unit => _ | node => _ end) in *. clearbody b1.
  assert (exists h2, (if stamp_seq c then Hdr.set_router_seq (fwd_seq s + 1) h1 else Ok h1) = Ok h2 /\
    Hdr.encode_header h2 = Ok (if stamp_seq c then _put_u32 b1 (slot_offset Hdr.RSV_ROUTER_SEQ) (mask32 (fwd_seq s + 1)) else b1) /\
    length (Hdr.reserved h2) = Hdr.reserved_words) as (h2 & -> & He2 & Hl2).
  { destruct (stamp_seq c); [|by exists h1].
    destruct (put_slot h1 b1 Hdr.RSV_ROUTER_SEQ (fwd_seq s + 1) He1 Hl1) as (ha & Ea & Hea & Hla); [by apply Nat.ltb_lt|]. exists ha. split_and!; [done| |done].
    rewrite Hea. unfold _put_u32. by rewrite (mask32_id (mask32 _)) by apply mask32_range. }
  cbn [mbind res_bind]. set (b2 := if stamp_seq c then _ else b1) in *. clearbody b2. destruct (stamp_rx_ts c); [|by exists h2].
  rewrite set_rx_ts. cbv zeta. set (t := Z.land rx 18446744073709551615).
  destruct (put_slot h2 b2 Hdr.RSV_ROUTER_RX_TS_LO (Z.land t 4294967295) He2 Hl2) as (ha & Ea & Hea & Hla); [by apply Nat.ltb_lt|].
  rewrite Ea. cbn [mbind res_bind]. destruct (put_slot ha _ Hdr.RSV_ROUTER_RX_TS_HI (Z.shiftr t 32) Hea Hla) as (hb & Eb & Heb & _); [by apply Nat.ltb_lt|].
  by exists hb.
Qed.

(** Tagging is confined to its fields: the patches the router writes into the bytes
    of a header are those of decoding it, setting the unit id or the tag slots
    through the accessors of [iq_header.py], and encoding it again; every
    other byte is passed on. *)
Theorem tags_only_its_fields c s rx h0 h bs :
  Forall byte_ok bs -> pad_zero_at 0 Hdr.HEADER_FORMAT bs = true -> Hdr.decode_header h0 bs = (h, None) ->
  exists h', tagged c s rx h = Ok h' /\ Hdr.encode_header h' = Ok (tag c s rx bs).1.
Proof.
  intros Hb Hz Hd. apply tag_encodes; [by apply (Hdr.header_reencode h0)|]. unfold Hdr.decode_header in Hd.
  destruct (unpack _ bs); [|done]. destruct (utf8_decode _); [|done]. apply (f_equal fst) in Hd. cbn [fst] in Hd. subst h. cbn [Hdr.reserved].
  by rewrite length_map, length_seq.
Qed.

Definition ex_source : source := Source true (Some 4) 99 4294967295.

Lemma tags_only_its_fields_witness :
  exists h', tagged (Config node true true) ex_source 1234567890123 (Hdr.padded Hdr.sample_header 14) = Ok h' /\
             Hdr.encode_header h' = Ok (tag (Config node true true) ex_source 1234567890123 Hdr.sample_bytes).1.
Proof.
  apply (tags_only_its_fields (Config node true true) ex_source 1234567890123 Hdr.init).
  - apply (bool_decide_unpack (Forall (fun b => 0 <= b < 256) Hdr.sample_bytes)). vm_compute. exact I.
  - vm_compute. reflexivity.
  - vm_compute. reflexivity.
Defined.

End Tag.

(** ** Lost frames *)
Module Account.

Record counters := Counters {
  frames_received : Z; bytes_received : Z; frames_lost : Z; cpi_gaps : Z; restarts : Z; overruns : Z;
  last_cpi_index : option Z; gap_baseline_valid : bool; last_overrun_cnt : option Z; last_gap_log : option Q }.

Definition fresh : counters := Counters 0 0 0 0 0 0 None false None None.

Definition GAP_LOG_INTERVAL_SEC : Q := 10.

(** [_account] without the skew of the clocks; [tracks] is [tracks_continuity].
    The result has the gap that is to be logged. *)
Definition _account (tracks : bool) (cpi_index overrun_cnt nbytes : Z) (rx_mono : Q) (s : counters) : counters * option (Z * Z) :=
  let cpi := mask32 cpi_index in
  if tracks then
    let delta := match last_cpi_index s with Some l => mask32 (cpi - l) | None => 0 end in
    let back := match last_cpi_index s with Some _ => 2147483648 <=? delta | None => false end in
    let gap := match last_cpi_index s with Some _ => negb back && (1 <? delta) && gap_baseline_valid s | None => false end in
    let log := gap && match last_gap_log s with Some t => Qle_bool GAP_LOG_INTERVAL_SEC (rx_mono - t) | None => true end in
    let overrun := mask32 overrun_cnt in
    (Counters (frames_received s + 1) (bytes_received s + nbytes) (if gap then frames_lost s + (delta - 1) else frames_lost s)
       (if gap then cpi_gaps s + 1 else cpi_gaps s) (if back then restarts s + 1 else restarts s)
       (match last_overrun_cnt s with Some l => if l <? overrun then overruns s + (overrun - l) else overruns s | None => overruns s end)
       (Some cpi) true (Some overrun) (if log then Some rx_mono else last_gap_log s),
     match last_cpi_index s with Some l => if log then Some (l, cpi) else None | None => None end)
  else
    (Counters (frames_received s + 1) (bytes_received s + nbytes) (frames_lost s) (cpi_gaps s) (restarts s) (overruns s)
       (Some cpi) (gap_baseline_valid s) (last_overrun_cnt s) (last_gap_log s), None).

(** The reader closed its connection because no client was there. *)
Definition idle (s : counters) : counters :=
  Counters (frames_received s) (bytes_received s) (frames_lost s) (cpi_gaps s) (restarts s) (overruns s) (last_cpi_index s) false
    (last_overrun_cnt s) (last_gap_log s).

(** A frame with the true, unbounded index [i], of which the header carries the
    low 32 bits. *)
Inductive event := Got (i overrun_cnt nbytes : Z) (rx_mono : Q) | Idle.
Definition step (s : counters) (ev : event) : counters :=
  match ev with Got i o n t => (_account true (mask32 i) o n t s).1 | Idle => idle s end.
Definition run (evs : list event) : counters := foldl step fresh evs.

(** The same count on true indices: the last index, whether frames since then
    count as lost, and the three counters. *)
Record tally := Tally { prev : option Z; valid : bool; lost : Z; gaps : Z; back : Z }.
Definition count (t : tally) (ev : event) : tally :=
  match ev with
  | Idle => Tally (prev t) false (lost t) (gaps t) (back t)
  | Got i _ _ _ =>
      match prev t with
      | None => Tally (Some i) true (lost t) (gaps t) (back t)
      | Some p =>
          if i <? p then Tally (Some i) true (lost t) (gaps t) (back t + 1)
          else if (p + 1 <? i) && valid t then Tally (Some i) true (lost t + (i - p - 1)) (gaps t + 1) (back t)
          else Tally (Some i) true (lost t) (gaps t) (back t)
      end
  end.
Definition counted (evs : list event) : tally := foldl count (Tally None false 0 0 0) evs.

(** Consecutive frames are less than half the range of the counter apart. *)
Fixpoint close (p : option Z) (evs : list event) : Prop :=
  match evs with
  | [] => True
  | Got i _ _ _ :: evs => (match p with Some p => - 2 ^ 31 <= i - p < 2 ^ 31 | None => True end) /\ close (Some i) evs
  | Idle :: evs => close p evs
  end.

Record agrees (t : tally) (s : counters) : Prop := {
  agrees_last : last_cpi_index s = mask32 <$> prev t;
  agrees_valid : gap_baseline_valid s = valid t;
  agrees_lost : frames_lost s = lost t;
  agrees_gaps : cpi_gaps s = gaps t;
  agrees_back : restarts s = back t }.

Lemma delta_true p i : mask32 (mask32 (mask32 i) - mask32 p) = (i - p) mod 2 ^ 32.
Proof. rewrite !mask32_mod. rewrite Z.mod_mod by lia. by rewrite Zminus_mod_idemp_l, Zminus_mod_idemp_r. Qed.

Lemma step_agrees t s ev evs : agrees t s -> close (prev t) (ev :: evs) -> agrees (count t ev) (step s ev) /\ close (prev (count t ev)) evs.
Proof.
  intros [H1 H2 H3 H4 H5] Hc. destruct ev as [i o n rx|]; cbn [step count] in *.
  2:{ split; [|done]. by constructor. }
  cbn in Hc. destruct Hc as [Hn Hc]. unfold _account. rewrite H1, H2. cbn [fst]. destruct (prev t) as [p|]; cbn [fmap option_fmap option_map] in *.
  2:{ split; [|done]. constructor; cbn; try done. f_equal. rewrite !mask32_mod. by rewrite Z.mod_mod by lia. }
  rewrite delta_true.
  assert (Some (mask32 (mask32 i)) = Some (mask32 i)) as Ei by (f_equal; apply mask32_id, mask32_range).
  destruct (Z.ltb_spec i p) as [Hlt|Hge].
  - assert ((i - p) mod 2 ^ 32 = i - p + 2 ^ 32) as -> by (symmetry; apply (Z.mod_unique_pos _ _ (-1)); lia).
    destruct (Z.leb_spec 2147483648 (i - p + 2 ^ 32)); [|lia]. cbn [negb andb]. split; [|done]. constructor; cbn; try done. by f_equal.
  - rewrite Z.mod_small by lia. destruct (Z.leb_spec 2147483648 (i - p)); [lia|]. cbn [negb andb].
    assert ((1 <? i - p) = (p + 1 <? i)) as -> by (destruct (Z.ltb_spec 1 (i - p)), (Z.ltb_spec (p + 1) i); try done; lia).
    destruct ((p + 1 <? i) && valid t); (split; [|done]); constructor; cbn; try done; try congruence; lia.
Qed.


Definition ex_events : list event :=
  [Got 4294967290 0 1024 0; Got 4294967294 0 1024 1; Got 4294967297 0 1024 2; Idle; Got 4294967399 0 1024 3; Got 4294967389 0 1024 4].


End Account.

(** ** The connection to a source *)
Module Conn.

Definition IQ_HEADER_LENGTH : nat := 1024.
Definition MAX_PAYLOAD_BYTES : Z := 32 * 2 ^ 23 * 8.

Definition frame_payload_bytes (h : Hdr.t) : Z :=
  let d := Hdr.sample_bit_depth h in
  let depth := if (d =? 8) || (d =? 16) || (d =? 32) || (d =? 64) then d else 32 in
  (Hdr.active_ant_chs h * Hdr.cpi_length h * 2 * depth) / 8.

(** What one turn of [_recv_into] meets: data, no data (perhaps for as long as the
    timeout), an error, the end of the stream, the router stopping, or no client
    left to read for. *)
Inductive input := Data (bs : bytes) | Quiet (expired : bool) | Error | Closed | Stopping | NoClients.
(** [_SourceDone]; [Waiting] where the inputs end and the call still blocks. *)
Inductive done := failure | idle | stop | Waiting.

Fixpoint _recv_into (need : nat) (got : bytes) (ins : list input) : (bytes * list input) + done :=
  match need with
  | O => inl (got, ins)
  | S _ =>
      match ins with
      | [] => inr Waiting
      | Stopping :: _ => inr stop
      | NoClients :: _ => inr idle
      | Quiet false :: ins => _recv_into need got ins
      | Quiet true :: _ | Error :: _ | Closed :: _ | Data [] :: _ => inr failure
      | Data bs :: ins =>
          if (need <? length bs)%nat then inl (got ++ take need bs, Data (drop need bs) :: ins)
          else _recv_into (need - length bs) (got ++ bs) ins
      end
  end.

(** [_run_connection]: the frames it hands to [_handle_frame], and how it ends.
    Each frame takes a header from the inputs, so that their bytes bound the
    number of rounds. *)
Fixpoint _run_connection (n : nat) (hdr : Hdr.t) (ins : list input) : list (bytes * bytes) * done :=
  match n with
  | O => ([], Waiting)
  | S n =>
      match _recv_into IQ_HEADER_LENGTH [] ins with
      | inr d => ([], d)
      | inl (header, ins) =>
          match Hdr.decode_header hdr header with
          | (_, Some _) => ([], failure)
          | (h, None) =>
              if negb (Hdr.check_sync_word h =? 0) then ([], failure)
              else if MAX_PAYLOAD_BYTES <? frame_payload_bytes h then ([], failure)
              else match _recv_into (Z.to_nat (frame_payload_bytes h)) [] ins with
                   | inr d => ([], d)
                   | inl (payload, ins) => let '(fs, d) := _run_connection n h ins in ((header, payload) :: fs, d)
                   end
          end
      end
  end.

(** The bytes that come before the connection ends. *)
Fixpoint stream (ins : list input) : bytes :=
  match ins with
  | Data (b :: bs) :: ins => (b :: bs) ++ stream ins
  | Quiet false :: ins => stream ins
  | _ => []
  end.

Definition run_connection (ins : list input) : list (bytes * bytes) * done := _run_connection (S (length (stream ins))) Hdr.init ins.

(** The frames of a byte stream. *)
Fixpoint cut (n : nat) (bs : bytes) : list (bytes * bytes) :=
  match n with
  | O => []
  | S n =>
      let header := take IQ_HEADER_LENGTH bs in
      if (length bs <? IQ_HEADER_LENGTH)%nat then []
      else match Hdr.decode_header Hdr.init header with
           | (_, Some _) => []
           | (h, None) =>
               let size := Z.to_nat (frame_payload_bytes h) in
               let rest := drop IQ_HEADER_LENGTH bs in
               if negb (Hdr.check_sync_word h =? 0) || (MAX_PAYLOAD_BYTES <? frame_payload_bytes h) || (length rest <? size)%nat then []
               else (header, take size rest) :: cut n (drop size rest)
           end
  end.
Definition frames_of (bs : bytes) : list (bytes * bytes) := cut (S (length bs)) bs.

(** A call takes the next bytes of the stream, whatever the pieces they come in. *)
Lemma recv_stream ins : forall need got,
  match _recv_into need got ins with
  | inl (bs, rest) => bs = got ++ take need (stream ins) /\ (need <= length (stream ins))%nat /\ stream rest = drop need (stream ins)
  | inr _ => (length (stream ins) < need)%nat
  end.
Proof.
  induction ins as [|i ins IH]; intros need got; (destruct need as [|need]; [cbn [_recv_into]; rewrite take_0, drop_0, app_nil_r; split_and!; [done|lia|done]|]).
  - cbn. lia.
  - destruct i as [[|b bs]|[]| | | |]; cbn [_recv_into stream]; try (cbn; lia); [|apply IH].
    destruct (Nat.ltb_spec (S need) (length (b :: bs))) as [Hlt|Hge].
    + split_and!.
      * by rewrite take_app_le by lia.
      * rewrite length_app. lia.
      * rewrite drop_app_le by lia. destruct (drop (S need) (b :: bs)) as [|x l] eqn:E; [|done]. apply (f_equal length) in E. rewrite length_drop in E. cbn in *. lia.
    + specialize (IH (S need - length (b :: bs))%nat (got ++ b :: bs)). destruct (_recv_into _ _ ins) as [[r rest]|d].
      * destruct IH as (H1 & H2 & H3). rewrite take_app_ge, drop_app_ge, length_app by lia. split_and!; [by rewrite H1, <- app_assoc|lia|done].
      * rewrite length_app. lia.
Qed.

Lemma decode_any h bs : match Hdr.decode_header h bs with (_, Some e) => exists h', Hdr.decode_header Hdr.init bs = (h', Some e) | (x, None) => Hdr.decode_header Hdr.init bs = (x, None) end.
Proof. unfold Hdr.decode_header. destruct (unpack _ bs) as [l|]; [|by eexists]. destruct (utf8_decode _); [done|by eexists]. Qed.

Lemma run_cut n : forall hdr ins, (_run_connection n hdr ins).1 = cut n (stream ins).
Proof.
  induction n as [|n IH]; intros hdr ins; [done|]. cbn [_run_connection cut].
  pose proof (recv_stream ins IQ_HEADER_LENGTH []) as Hr. destruct (_recv_into IQ_HEADER_LENGTH [] ins) as [[header rest]|d].
  2:{ by destruct (Nat.ltb_spec (length (stream ins)) IQ_HEADER_LENGTH); [|lia]. }
  destruct Hr as (Eh & Hl & Er). cbn [app] in Eh. rewrite <- Eh, <- Er. destruct (Nat.ltb_spec (length (stream ins)) IQ_HEADER_LENGTH); [lia|].
  pose proof (decode_any hdr header) as Hd. destruct (Hdr.decode_header hdr header) as [h [e|]]; [by destruct Hd as [h' ->]|]. rewrite Hd.
  destruct (negb (Hdr.check_sync_word h =? 0)); cbn [orb]; [done|]. destruct (MAX_PAYLOAD_BYTES <? frame_payload_bytes h); cbn [orb]; [done|].
  pose proof (recv_stream rest (Z.to_nat (frame_payload_bytes h)) []) as Hp. destruct (_recv_into _ [] rest) as [[payload rest']|d].
  - destruct Hp as (Ep & Hlp & Er'). cbn [app] in Ep. destruct (Nat.ltb_spec (length (stream rest)) (Z.to_nat (frame_payload_bytes h))); [lia|].
    specialize (IH h rest'). destruct (_run_connection n h rest') as [fs d]. cbn [fst] in *. by rewrite IH, Er', Ep.
  - by destruct (Nat.ltb_spec (length (stream rest)) (Z.to_nat (frame_payload_bytes h))); [|lia].
Qed.

(** [C34] How the network cuts the stream does not matter: whatever pieces arrive and
    however long they take within the timeout, the frames handed on are the
    frames of the bytes that came before the connection ended, in order and
    unchanged, up to the first header that is not one. *)
Theorem chunks_do_not_matter ins : (run_connection ins).1 = frames_of (stream ins).
Proof. apply run_cut. Qed.

(** More rounds change nothing: the ones given suffice. *)
Lemma cut_enough n m bs : (length bs < n)%nat -> (length bs < m)%nat -> cut n bs = cut m bs.
Proof.
  revert m bs. induction n as [|n IH]; intros [|m] bs Hn Hm; try lia. cbn [cut].
  destruct (Nat.ltb_spec (length bs) IQ_HEADER_LENGTH) as [|Hl]; [done|]. destruct (Hdr.decode_header Hdr.init (take IQ_HEADER_LENGTH bs)) as [h [e|]]; [done|].
  destruct (_ || _ || _); [done|]. f_equal. apply IH; rewrite !length_drop; unfold IQ_HEADER_LENGTH in *; lia.
Qed.

(** Frames in a stream are found. *)
Lemma cut_frame h header payload rest :
  length header = IQ_HEADER_LENGTH -> Hdr.decode_header Hdr.init header = (h, None) ->
  Hdr.check_sync_word h = 0 -> frame_payload_bytes h = Z.of_nat (length payload) -> Z.of_nat (length payload) <= MAX_PAYLOAD_BYTES ->
  frames_of (header ++ payload ++ rest) = (header, payload) :: frames_of rest.
Proof.
  intros Hl Hd Hs Hp Hm. unfold frames_of at 1. cbn [cut].
  rewrite (take_app_length' header) by done. rewrite (drop_app_length' header) by done. rewrite Hd, Hs, Hp, Nat2Z.id.
  destruct (Nat.ltb_spec (length (header ++ payload ++ rest)) IQ_HEADER_LENGTH) as [H|_]; [rewrite length_app in H; lia|]. cbn [Z.eqb negb orb].
  destruct (Z.ltb_spec MAX_PAYLOAD_BYTES (Z.of_nat (length payload))); [lia|]. cbn [orb].
  destruct (Nat.ltb_spec (length (payload ++ rest)) (length payload)) as [H0|_]; [rewrite length_app in H0; lia|].
  rewrite take_app_length, drop_app_length. f_equal. unfold frames_of. apply cut_enough; rewrite ?length_app; unfold IQ_HEADER_LENGTH in *; lia.
Qed.

(** ** Reconnecting *)
Definition MAX_BACKOFF_SEC : Q := 30.
Definition MIN_BACKOFF_SEC : Q := 1 # 10.

(** [base * (2 ** (n - 1))] converts the integer to a float, which raises from
    [2 ** 1024] on. *)
Definition backoff (reconnect_sec : Q) (n : Z) : res Q :=
  if 2 ^ 1024 <=? 2 ^ (n - 1) then Raise OverflowError
  else let base := Qmax reconnect_sec MIN_BACKOFF_SEC in Ok (Qmin (base * inject_Z (2 ^ (n - 1))) (Qmax MAX_BACKOFF_SEC base)).

(** The failures of a reader in a row, its delay, and whether its thread runs. *)
Record reader := Reader { consecutive_failures : Z; backoff_sec : Q; alive : bool }.

(** [_source_failed]; nothing catches an exception it raises, so that it ends the
    thread of the reader. *)
Definition _source_failed (reconnect_sec : Q) (r : reader) : reader :=
  let n := consecutive_failures r + 1 in
  match backoff reconnect_sec n with Ok d => Reader n d true | Raise _ => Reader n (backoff_sec r) false end.

(** A frame was handled. *)
Definition _source_works (r : reader) : reader := Reader 0 0 (alive r).

(** The delays do not shrink while failures go on, start at the configured one and
    stay within half a minute, or the configured one where that is longer. *)
Lemma backoff_grows r n d d' : 1 <= n -> backoff r n = Ok d -> backoff r (n + 1) = Ok d' ->
  (d <= d')%Q /\ (d' <= Qmax MAX_BACKOFF_SEC (Qmax r MIN_BACKOFF_SEC))%Q.
Proof.
  intros Hn. unfold backoff. destruct (2 ^ 1024 <=? 2 ^ (n - 1)); [done|]. destruct (2 ^ 1024 <=? 2 ^ (n + 1 - 1)); [done|].
  set (b := Qmax r MIN_BACKOFF_SEC). intros [= <-] [= <-]. split; [|apply Q.le_min_r].
  assert (0 < b)%Q as Hb by (eapply Qlt_le_trans; [|apply Q.le_max_r]; reflexivity).
  apply Q.min_le_compat_r. apply Qmult_le_l; [done|]. rewrite <- Zle_Qle. apply Z.pow_le_mono_r; lia.
Qed.

Lemma failures_count r n : (n <= 1024)%nat ->
  let x := Nat.iter n (_source_failed r) (Reader 0 0 true) in consecutive_failures x = Z.of_nat n /\ alive x = true.
Proof.
  induction n as [|n IH]; intros Hn; [done|]. destruct (IH ltac:(lia)) as [H1 H2]. cbv zeta. rewrite Nat.iter_succ.
  revert H1 H2. generalize (Nat.iter n (_source_failed r) (Reader 0 0 true)). intros x H1 _. unfold _source_failed. rewrite H1.
  assert (backoff r (Z.of_nat n + 1) = Ok (Qmin (Qmax r MIN_BACKOFF_SEC * inject_Z (2 ^ (Z.of_nat n + 1 - 1))) (Qmax MAX_BACKOFF_SEC (Qmax r MIN_BACKOFF_SEC)))) as ->.
  { unfold backoff. destruct (Z.leb_spec (2 ^ 1024) (2 ^ (Z.of_nat n + 1 - 1))) as [H|H]; [|done]. apply Z.pow_le_mono_r_iff in H; lia. }
  split; [cbn; lia|done].
Qed.

(** A source that is down for 1025 attempts, some eight hours, is not tried
    again: the delay of the last one overflows, and the thread of the reader
    ends. *)
Lemma reader_gives_up r : alive (Nat.iter 1025 (_source_failed r) (Reader 0 0 true)) = false.
Proof.
  destruct (failures_count r 1024) as [H1 _]; [lia|]. rewrite Nat.iter_succ.
  revert H1. generalize (Nat.iter 1024 (_source_failed r) (Reader 0 0 true)). intros x H1. unfold _source_failed. rewrite H1.
  assert (backoff r (Z.of_nat 1024 + 1) = Raise OverflowError) as ->; [|done]. unfold backoff.
  by replace (2 ^ 1024 <=? 2 ^ (Z.of_nat 1024 + 1 - 1)) with true by (symmetry; apply Z.leb_le; apply Z.pow_le_mono_r; lia).
Qed.

End Conn.
