(* ===== verification/FedHealth.v ===== *)
(** * The health monitor of the federation

    [federation_health.py]: what [FederationHealth] makes of the answers of its
    peers (alive, degraded, stale, flapping, down), the events it emits, and the
    advisory election.  An answer is what [_fetch_status] returned or raised,
    with the readings of the two clocks; a locked section ([_on_success],
    [_on_busy], [_on_failure]) is one step, in which an exception keeps the
    assignments made before it and loses the events. *)
From Stdlib Require Import Sorted.
From S2P Require Import Prelude StateErr PyText PyJson.
#[local] Set Default Goal Selector "!".

Module Health.

Inductive pstate := STATE_UNKNOWN | STATE_UP | STATE_DEGRADED | STATE_DOWN | STATE_FLAPPING | STATE_STALE.
#[export] Instance pstate_eq_dec : EqDecision pstate.
Proof. solve_decision. Defined.

Definition STALL_AUTO_FLOOR_SEC : Q := 60.
Definition STALL_AUTO_HISTORY : nat := 5.
Definition _DEGRADED_HEALTH : list string := ["degraded"; "error"; "stale"].

(** What [classify_error] distinguishes of an exception: its [error_kind] if it
    has one that is not empty, or the first class of the list it belongs to. *)
Inductive error := Kind (k : string) | Timeout | ConnectionRefused | BadValue | GaiError | ConnectionReset | Other.
Definition classify_error (e : error) : string :=
  match e with
  | Kind k => k
  | Timeout => "timeout"
  | ConnectionRefused => "refused"
  | BadValue => "bad_json"
  | GaiError => "dns"
  | ConnectionReset => "reset"
  | Other => "refused"
  end.

Inductive stall := Auto | Seconds (q : Q).
Record config := Config {
  instance_id : Z; poll_interval : Q; up_successes : Z; down_misses : option Z; flap_window_sec : Q; flap_threshold : Z;
  emit_health_events : bool; stall_after_sec : stall }.

(** The arguments as [__init__] stores them. *)
Definition init_config (c : config) : config :=
  Config (instance_id c) (poll_interval c) (Z.max 1 (up_successes c)) (Z.max 1 <$> down_misses c) (flap_window_sec c) (flap_threshold c)
    (emit_health_events c) (stall_after_sec c).

(** ** The row of a peer, in groups *)
Record link := Link {
  reachable : bool; error_kind : string; consecutive_successes : Z; consecutive_failures : Z; busy_streak : Z;
  seen_mono : option Q; poll_mono : option Q }.
Record report := Report {
  sync_state : json; frequency_hz : json; health : json; peer_id : json; node_id : json; snapshot_age_sec : json;
  last_status : option (dict * Q) }.
Record progress := Progress {
  frame_count : json; fc_change_mono : option Q; fc_intervals : list Q; fc_changes : Z; stalled : bool }.
Record life := Life {
  alive : bool; last_seen : Q; base_state : pstate; flapping : bool; transitions : list Q; last_transition_mono : option Q }.
Record derived := Derived {
  state : pstate; stale : bool; transitions_in_window : Z; seen_age_sec : option Q; frame_count_changed_age_sec : option Q }.
Record row := Row { node_key : string; lk : link; rp : report; pg : progress; lf : life; dv : derived }.

Record member := Member { m_key : string; m_node_id : json; m_instance_id : Z }.

Definition _new_row (m : member) : row :=
  Row (m_key m) (Link false "none" 0 0 0 None None)
    (Report (JInt 0) (JInt 0) (JStr "unknown") (JInt (m_instance_id m)) (m_node_id m) JNull None)
    (Progress JNull None [] 0 false)
    (Life false 0 STATE_UNKNOWN false [] None)
    (Derived STATE_UNKNOWN false 0 None None).

Definition set_lk (l : link) (r : row) : row := Row (node_key r) l (rp r) (pg r) (lf r) (dv r).
Definition set_rp (x : report) (r : row) : row := Row (node_key r) (lk r) x (pg r) (lf r) (dv r).
Definition set_pg (x : progress) (r : row) : row := Row (node_key r) (lk r) (rp r) x (lf r) (dv r).
Definition set_lf (x : life) (r : row) : row := Row (node_key r) (lk r) (rp r) (pg r) x (dv r).
Definition set_dv (x : derived) (r : row) : row := Row (node_key r) (lk r) (rp r) (pg r) (lf r) x.

Inductive event :=
  | peer_up | peer_down | peer_degraded (s : pstate) | peer_recovered (s : pstate) | peer_flapping (n : nat).

(** ** Helpers of the state machine *)

(** [except (TypeError, ValueError)] *)
Definition conversion_error (e : exc) : bool := match e with TypeError => true | e => is_value_error e end.

Definition _reported_stale (d : dict) : res bool :=
  let age := get_null "snapshot_age_sec" d in
  let limit := get_null "stale_after_sec" d in
  if is_null age || is_null limit then Ok false
  else Prelude.catch (a ← py_float age; l ← py_float limit; Ok (num_lt l a)) conversion_error (fun _ => Ok false).

(** [max(x, *l)] keeps the first of values none of which is greater. *)
Definition py_max (x : pynum) (l : list pynum) : pynum := foldl (fun m y => if num_lt m y then y else m) x l.
Definition times3 (x : pynum) : pynum := match x with Fin q => Fin (3 * q)%Q | _ => x end.

Fixpoint insert_q (x : Q) (l : list Q) : list Q :=
  match l with [] => [x] | y :: l' => if Qle_bool x y then x :: l else y :: insert_q x l' end.
(** [statistics.median] of a list that is not empty *)
Definition median (l : list Q) : Q :=
  let s := foldr insert_q [] l in
  let n := length s in
  if Nat.even n then ((nth (n / 2 - 1)%nat s 0 + nth (n / 2)%nat s 0) / 2)%Q else nth (n / 2) s 0%Q.

(** [float(response.get("stale_after_sec") or 0.0)], 0 where it does not convert *)
Definition reported (d : dict) : res pynum :=
  let v := get_null "stale_after_sec" d in
  if truthy v then Prelude.catch (py_float v) conversion_error (fun _ => Ok (Fin 0)) else Ok (Fin 0).

(** [deque(maxlen=n).append] *)
Definition append_max {A} (n : nat) (l : list A) (x : A) : list A := drop (S (length l) - n) (l ++ [x]).

(** [x < 0] of a reported value *)
Definition negative (j : json) : res bool :=
  match num_of j with Some x => Ok (num_lt x (Fin 0)) | None => Raise TypeError end.

(** [round(x, 3)] *)
Definition round3 (q : Q) : Q := (inject_Z (Qround_even (q * 1000)) / 1000)%Q.

(** Elements of a [frozenset] are hashed. *)
Definition hashable (j : json) : bool := match j with JArr _ | JObj _ => false | _ => true end.
Definition in_degraded (j : json) : bool := match j with JStr s => bool_decide (s ∈ _DEGRADED_HEALTH) | _ => false end.

Definition impaired (s : pstate) : bool := match s with STATE_DEGRADED | STATE_STALE => true | _ => false end.

Notation M := (SE row exc).
Definition lift {A} (x : res A) : M A := match x with Ok a => mret a | Raise e => throw e end.

Section Config.
Context (c : config).

Definition stall_threshold (p : progress) (d : dict) : res (option pynum) :=
  match stall_after_sec c with
  | Seconds q =>
      if Qeq_bool q 0 then Ok None
      else r ← reported d; Ok (Some (py_max (Fin q) [times3 r]))
  | Auto =>
      r ← reported d;
      if fc_changes p <? 2 then Ok None
      else let m := match fc_intervals p with [] => 0%Q | l => median l end in
           Ok (Some (py_max (Fin STALL_AUTO_FLOOR_SEC) [Fin (3 * m)%Q; times3 r]))
  end.

(** The count of [_track_frame_count]. *)
Definition count_frames (fc : json) (now : Q) (p : progress) : progress :=
  if is_null (frame_count p) then Progress fc (Some now) (fc_intervals p) (fc_changes p) (stalled p)
  else if negb (py_eqb fc (frame_count p)) then
    Progress fc (Some now)
      (match fc_change_mono p with
       | Some t => if 0 <? fc_changes p then append_max STALL_AUTO_HISTORY (fc_intervals p) (now - t)%Q else fc_intervals p
       | None => fc_intervals p
       end) (fc_changes p + 1) (stalled p)
  else Progress fc (fc_change_mono p) (fc_intervals p) (fc_changes p) (stalled p).

Definition set_stalled (b : bool) (p : progress) : progress :=
  Progress (frame_count p) (fc_change_mono p) (fc_intervals p) (fc_changes p) b.

Definition _track_frame_count (d : dict) (now : Q) : M unit :=
  let fc := get_null "frame_count" d in
  if is_null fc then modify (fun r => set_pg (set_stalled false (pg r)) r)
  else
    modify (fun r => set_pg (count_frames fc now (pg r)) r);;
    r ← get;
    threshold ← lift (stall_threshold (pg r) d);
    modify (set_pg (set_stalled (match threshold, fc_change_mono (pg r) with
                                 | Some th, Some t => num_lt th (Fin (now - t)%Q)
                                 | _, _ => false
                                 end) (pg r))).

Definition busy_limit : Z := default 3 (down_misses c).

Definition _alive_state (r : row) (reported_stale : bool) : res pstate :=
  if stalled (pg r) || reported_stale then Ok STATE_STALE
  else if negb (hashable (health (rp r))) then Raise TypeError
  else if in_degraded (health (rp r)) || (busy_limit <=? busy_streak (lk r)) then Ok STATE_DEGRADED
  else if (0 <? busy_streak (lk r)) && impaired (base_state (lf r)) then Ok (base_state (lf r))
  else Ok STATE_UP.

Definition flap_on : bool := (0 <? flap_threshold c) && Qltb 0 (flap_window_sec c).

Fixpoint prune (start : Q) (l : list Q) : list Q :=
  match l with t :: l' => if Qltb t start then prune start l' else l | [] => [] end.

(** No change of state for [flap_window_sec]. *)
Definition quiet (now : Q) (last : option Q) : bool :=
  match last with Some t => Qle_bool (flap_window_sec c) (now - t)%Q | None => false end.

Definition shown (l : life) : pstate := if flapping l then STATE_FLAPPING else base_state l.

(** The base state moves. *)
Definition move (new : pstate) (now : Q) (l : life) : life :=
  if bool_decide (new = base_state l) then l
  else Life (alive l) (last_seen l) new (flapping l) (if flap_on then transitions l ++ [now] else transitions l) (Some now).
Definition move_events (old new : pstate) : list event :=
  if emit_health_events c then
    if bool_decide (old = STATE_UP) && impaired new then [peer_degraded new]
    else if impaired old && bool_decide (new = STATE_UP) then [peer_recovered new] else []
  else [].

(** Whether the peer flaps after a move. *)
Definition judge (now : Q) (l : life) : life :=
  if flap_on then
    let ts := prune (now - flap_window_sec c)%Q (transitions l) in
    Life (alive l) (last_seen l) (base_state l)
      (if flap_threshold c <? Z.of_nat (length ts) then true
       else if flapping l && quiet now (last_transition_mono l) then false else flapping l) ts (last_transition_mono l)
  else l.

Definition set_state (s : pstate) (d : derived) : derived :=
  Derived s (stale d) (transitions_in_window d) (seen_age_sec d) (frame_count_changed_age_sec d).

Definition _transition (new : pstate) (now : Q) (r : row) : row * list event :=
  let old := base_state (lf r) in
  let l := judge now (move new now (lf r)) in
  (set_dv (set_state (shown l) (dv r)) (set_lf l r),
   (if bool_decide (new = old) then [] else move_events old new) ++
   (if flapping l && negb (flapping (lf r)) && emit_health_events c then [peer_flapping (length (transitions l))] else [])).

(** Old transitions leave the window, and a quiet peer no longer flaps. *)
Definition settle (now : Q) (l : life) : life :=
  if flap_on then
    Life (alive l) (last_seen l) (base_state l) (if flapping l && quiet now (last_transition_mono l) then false else flapping l)
      (prune (now - flap_window_sec c)%Q (transitions l)) (last_transition_mono l)
  else l.

Definition _refresh_derived (now : Q) (r : row) : row :=
  let l := settle now (lf r) in
  set_dv (Derived (shown l) (bool_decide (base_state l = STATE_STALE)) (Z.of_nat (length (transitions l)))
            ((fun t => round3 (now - t)%Q) <$> seen_mono (lk r)) ((fun t => round3 (now - t)%Q) <$> fc_change_mono (pg r)))
    (set_lf l r).

(** ** One poll *)
Definition set_alive (b : bool) (l : life) : life := Life b (last_seen l) (base_state l) (flapping l) (transitions l) (last_transition_mono l).
Definition set_last_seen (t : Q) (l : life) : life := Life (alive l) t (base_state l) (flapping l) (transitions l) (last_transition_mono l).

Definition transition (new : pstate) (now : Q) : M (list event) := fun r => let '(r1, ev) := _transition new now r in (r1, inl ev).

(** The values a reply reports, except the age of the snapshot. *)
Definition note_reply (d : dict) (iid : json) (now : Q) (x : report) : report :=
  let nid := get_null "node_id" d in
  Report (get_or "sync_state" (JInt 0) d) (get_or "current_frequency_hz" (JInt 0) d) (get_or "pipeline_health" (JStr "unknown") d) iid
    (if truthy nid && negb (truthy (node_id x)) then nid else node_id x) (snapshot_age_sec x) (Some (d, now)).
Definition set_snapshot_age (j : json) (x : report) : report :=
  Report (sync_state x) (frequency_hz x) (health x) (peer_id x) (node_id x) j (last_status x).
Definition set_health (j : json) (x : report) : report :=
  Report (sync_state x) (frequency_hz x) j (peer_id x) (node_id x) (snapshot_age_sec x) (last_status x).

Definition _on_success (d : dict) (now wall : Q) : M (list event) :=
  r ← get;
  let was_alive := alive (lf r) in
  neg ← lift (negative (peer_id (rp r)));
  let iid := if neg : bool then get_or "instance_id" (JInt (-1)) d else peer_id (rp r) in
  modify (fun r => set_rp (note_reply d iid now (rp r))
    (set_lk (Link true "none" (consecutive_successes (lk r) + 1) 0 0 (Some now) (Some now)) r));;
  _track_frame_count d now;;
  modify (fun r => set_rp (set_snapshot_age (get_null "snapshot_age_sec" d) (rp r)) r);;
  reported_stale ← lift (_reported_stale d);
  modify (fun r => if was_alive || (up_successes c <=? consecutive_successes (lk r))
                   then set_lf (set_last_seen wall (set_alive true (lf r))) r else r);;
  r ← get;
  evs ← (if alive (lf r) then new ← lift (_alive_state r reported_stale); transition new now else mret []);
  modify (_refresh_derived now);;
  mret ((if negb was_alive && alive (lf r) then [peer_up] else []) ++ evs).

Definition _on_busy (now wall : Q) : M (list event) :=
  modify (fun r => set_lk (Link true "busy" (consecutive_successes (lk r)) (consecutive_failures (lk r)) (busy_streak (lk r) + 1)
                             (Some now) (Some now)) r);;
  r ← get;
  evs ← (if alive (lf r) then
           modify (set_lf (set_last_seen wall (lf r)));;
           r ← get;
           new ← lift (_alive_state r false); transition new now
         else mret []);
  modify (_refresh_derived now);;
  mret evs.

Definition is_down (now wall : Q) (r : row) : bool :=
  match down_misses c with
  | None => Qltb (3 * poll_interval c)%Q (wall - last_seen (lf r))%Q
  | Some k => (k <=? consecutive_failures (lk r)) &&
              match seen_mono (lk r) with Some t => Qltb (inject_Z k * poll_interval c)%Q (now - t)%Q | None => true end
  end.

Definition _on_failure (e : error) (now wall : Q) : M (list event) :=
  modify (fun r => set_lk (Link false (classify_error e) 0 (consecutive_failures (lk r) + 1) (busy_streak (lk r))
                             (seen_mono (lk r)) (Some now)) r);;
  r ← get;
  evs ← (if is_down now wall r && alive (lf r) then
           modify (fun r => set_rp (set_health (JStr "error") (rp r)) (set_lf (set_alive false (lf r)) r));;
           evs ← transition STATE_DOWN now; mret (peer_down :: evs)
         else mret []);
  modify (_refresh_derived now);;
  mret evs.

(** What a poll of a peer meets, and when its row is updated. *)
Inductive outcome := Reply (d : dict) | Failed (e : error).
Record answer := Answer { out : outcome; mono : Q; wall : Q }.

(** [set(response) == {"error"} and response.get("error") == "busy"] *)
Definition is_busy (d : dict) : bool :=
  match d with [(k, JStr v)] => bool_decide (k = "error") && bool_decide (v = "busy") | _ => false end.

Definition poll_row (a : answer) : M (list event) :=
  match out a with
  | Failed e => _on_failure e (mono a) (wall a)
  | Reply d => if is_busy d then _on_busy (mono a) (wall a) else _on_success d (mono a) (wall a)
  end.

(** ** The monitor *)
Record monitor := Monitor {
  peer_addresses : list string; peer_table : list (string * row); coordinator_id : json; rounds : Z }.

Inductive note := Peer (addr : string) (e : event) | coordinator_elected (id : json).

Fixpoint row_of (k : string) (t : list (string * row)) : option row :=
  match t with (k', r) :: t => if bool_decide (k = k') then Some r else row_of k t | [] => None end.
Fixpoint update (k : string) (r : row) (t : list (string * row)) : list (string * row) :=
  match t with (k', r') :: t => if bool_decide (k = k') then (k', r) :: t else (k', r') :: update k r t | [] => [] end.

Definition set_table (t : list (string * row)) (m : monitor) : monitor := Monitor (peer_addresses m) t (coordinator_id m) (rounds m).

(** The monitor of [peer_addresses]: an address that is listed twice is polled twice
    but has one row. *)
Definition init (peers : list (string * member)) : monitor :=
  Monitor (map fst peers)
    (foldl (fun t am => match row_of am.1 t with Some _ => t | None => t ++ [(am.1, _new_row am.2)] end) [] peers)
    (JInt (instance_id c)) 0.

Definition keep_row (m : member) (r : row) : row :=
  set_rp (Report (sync_state (rp r)) (frequency_hz (rp r)) (health (rp r)) (JInt (m_instance_id m))
            (if truthy (m_node_id m) then m_node_id m else node_id (rp r)) (snapshot_age_sec (rp r)) (last_status (rp r))) r.
Definition set_members (ms : list member) (m : monitor) : monitor :=
  let t := foldl (fun t x => match row_of (m_key x) t with
                             | Some _ => t
                             | None => t ++ [(m_key x, match row_of (m_key x) (peer_table m) with
                                                       | None => _new_row x
                                                       | Some r => keep_row x r
                                                       end)]
                             end) [] ms in
  Monitor (map fst t) t (coordinator_id m) (rounds m).

(** [_poll_peer] with the answer it meets: the table, the events, and what it
    raises. *)
Definition _poll_peer (addr : string) (a : answer) (m : monitor) : monitor * list note * option exc :=
  match row_of addr (peer_table m) with
  | None => (m, [], None)
  | Some r =>
      match poll_row a r with
      | (r1, inl evs) => (set_table (update addr r1 (peer_table m)) m, map (Peer addr) evs, None)
      | (r1, inr e) => (set_table (update addr r1 (peer_table m)) m, [], Some e)
      end
  end.

Definition healthy (r : row) : bool := alive (lf r) && negb (py_eqb (health (rp r)) (JStr "error")).

Fixpoint candidates (t : list (string * row)) : res (list json) :=
  match t with
  | [] => Ok []
  | (_, r) :: t =>
      if healthy r then
        neg ← negative (peer_id (rp r));
        (** [>= 0] is false for NaN *)
        let nan := match peer_id (rp r) with JFloat NaN => true | _ => false end in
        l ← candidates t;
        Ok (if neg || nan then l else peer_id (rp r) :: l)
      else candidates t
  end.

Definition json_lt (a b : json) : bool := match num_of a, num_of b with Some x, Some y => num_lt x y | _, _ => false end.
Definition py_min (x : json) (l : list json) : json := foldl (fun m y => if json_lt y m then y else m) x l.

Definition _check_coordinator (m : monitor) : monitor * list note * option exc :=
  match candidates (peer_table m) with
  | Raise e => (m, [], Some e)
  | Ok l =>
      let new := py_min (JInt (instance_id c)) l in
      if py_eqb new (coordinator_id m) then (m, [], None)
      else (Monitor (peer_addresses m) (peer_table m) new (rounds m), [coordinator_elected new], None)
  end.

(** The sequential loop of [poll_round]: it ends with the answers when the monitor
    is stopped, or with an exception. *)
Fixpoint poll_all (addrs : list string) (ans : list answer) (m : monitor) : monitor * list note * option exc :=
  match addrs, ans with
  | addr :: addrs, a :: ans =>
      match _poll_peer addr a m with
      | (m1, n1, None) => let '(m2, n2, x) := poll_all addrs ans m1 in (m2, n1 ++ n2, x)
      | raised => raised
      end
  | _, _ => (m, [], None)
  end.

Definition poll_round (ans : list answer) (m : monitor) : monitor * list note * option exc :=
  match poll_all (peer_addresses m) ans m with
  | (m1, n1, None) =>
      match _check_coordinator m1 with
      | (m2, n2, None) => (Monitor (peer_addresses m2) (peer_table m2) (coordinator_id m2) (rounds m2 + 1), n1 ++ n2, None)
      | (m2, n2, x) => (m2, n1 ++ n2, x)
      end
  | raised => raised
  end.

(** [_poll_loop]: the rounds until the monitor is stopped; an exception ends the
    thread. *)
Fixpoint _poll_loop (rs : list (list answer)) (m : monitor) : monitor * list note * option exc :=
  match rs with
  | [] => (m, [], None)
  | ans :: rs =>
      match poll_round ans m with
      | (m1, n1, None) => let '(m2, n2, x) := _poll_loop rs m1 in (m2, n1 ++ n2, x)
      | raised => raised
      end
  end.

(** With [max_workers > 1] the polls of a round end in any order, and an exception
    of one of them stays in its future. *)
Inductive action := Polled (addr : string) (a : answer) | Elect.
Definition act (m : monitor) (x : action) : monitor * list note :=
  (match x with Polled addr a => _poll_peer addr a m | Elect => _check_coordinator m end).1.
Fixpoint run (xs : list action) (m : monitor) : monitor * list note :=
  match xs with
  | [] => (m, [])
  | x :: xs => let '(m1, n1) := act m x in let '(m2, n2) := run xs m1 in (m2, n1 ++ n2)
  end.

Definition polled_since (t : Q) (m : monitor) : bool :=
  forallb (fun kr => match poll_mono (lk kr.2) with Some u => Qle_bool t u | None => false end) (peer_table m).
Definition get_healthy_peers (exclude_degraded : bool) (m : monitor) : list string :=
  map fst (List.filter (fun kr => healthy kr.2 && (negb exclude_degraded || bool_decide (state (dv kr.2) = STATE_UP))) (peer_table m)).

End Config.

(** ** Replies that do not raise *)

Definition converts (j : json) : bool := match py_float j with Raise OverflowError => false | _ => true end.
Definition plain (d : dict) : bool :=
  converts (get_null "snapshot_age_sec" d) && converts (get_null "stale_after_sec" d) &&
  hashable (get_or "pipeline_health" (JStr "unknown") d) &&
  match num_of (get_or "instance_id" (JInt (-1)) d) with Some _ => true | None => false end.
Definition plain_answer (a : answer) : bool := match out a with Reply d => plain d | Failed _ => true end.
Definition plain_row (r : row) : Prop := hashable (health (rp r)) = true /\ is_Some (num_of (peer_id (rp r))).

Lemma converts_catch {A} j (f : pynum -> res A) (dflt : A) :
  converts j = true -> (forall x, exists y, Prelude.catch (f x) conversion_error (fun _ => Ok dflt) = Ok y) ->
  exists y, Prelude.catch (x ← py_float j; f x) conversion_error (fun _ => Ok dflt) = Ok y.
Proof.
  unfold converts. intros H Hf. destruct (py_float j) as [x|e] eqn:E; [apply Hf|].
  assert (conversion_error e = true) as He.
  { destruct j; cbn in E; repeat case_match; simplify_eq; done. }
  cbn. rewrite He. by eexists.
Qed.

Lemma reported_ok d : plain d = true -> exists x, reported d = Ok x.
Proof.
  unfold plain, reported. intros H. bool_prop. destruct (truthy _); [|by eexists].
  destruct (converts_catch (get_null "stale_after_sec" d) Ok (Fin 0)) as [y Hy]; [done | by eexists |].
  exists y. rewrite <-Hy. by destruct (py_float _).
Qed.

Lemma reported_stale_ok d : plain d = true -> exists b, _reported_stale d = Ok b.
Proof.
  unfold plain, _reported_stale. intros H. bool_prop. destruct (_ || _); [by eexists|].
  apply converts_catch; [done|]. intros x. apply converts_catch; [done | by eexists].
Qed.

(** ** Since: [P] held at some time, and [Q] at every time after it *)
Definition since {A} (P Q : list A -> Prop) (h : list A) : Prop :=
  exists h1 h2, h = h1 ++ h2 /\ P h1 /\ forall h3 h4, h2 = h3 ++ h4 -> h3 <> [] -> Q (h1 ++ h3).

Lemma since_nil {A} (P Q : list A -> Prop) : since P Q [] <-> P [].
Proof.
  split.
  - intros (h1 & h2 & He & Hp & _). symmetry in He. apply app_nil in He as [-> ->]. done.
  - intros H. exists [], []. split; [done|]. split; [done|]. intros h3 h4 He. symmetry in He. by apply app_nil in He as [-> _].
Qed.

Lemma since_snoc {A} (P Q : list A -> Prop) h a : since P Q (h ++ [a]) <-> P (h ++ [a]) \/ (since P Q h /\ Q (h ++ [a])).
Proof.
  split.
  - intros (h1 & h2 & He & Hp & Hq). destruct h2 as [|x h2 _] using rev_ind.
    { rewrite app_nil_r in He. subst. by left. }
    rewrite app_assoc in He. apply app_inj_tail in He as [-> ->]. right. split.
    + exists h1, h2. split; [done|]. split; [done|]. intros h3 h4 -> Hn. apply (Hq h3 (h4 ++ [x])); [by rewrite app_assoc | done].
    + rewrite <-app_assoc. apply (Hq (h2 ++ [x]) []); [by rewrite app_nil_r | by destruct h2].
  - intros [Hp|[(h1 & h2 & -> & Hp & Hq) Ha]].
    + exists (h ++ [a]), []. split; [by rewrite app_nil_r|]. split; [done|].
      intros h3 h4 He. symmetry in He. by apply app_nil in He as [-> _].
    + exists h1, (h2 ++ [a]). split; [by rewrite app_assoc|]. split; [done|]. intros h3 h4 He Hn.
      destruct h4 as [|x h4 _] using rev_ind.
      * rewrite app_nil_r in He. subst. by rewrite app_assoc.
      * rewrite app_assoc in He. apply app_inj_tail in He as [-> ->]. by apply (Hq h3 h4).
Qed.

Section Steps.
Context (c : config).

Lemma threshold_ok p d : plain d = true -> exists t, stall_threshold c p d = Ok t.
Proof.
  intros [x H]%reported_ok. unfold stall_threshold. destruct (stall_after_sec c).
  - rewrite H. cbn. destruct (_ <? _); by eexists.
  - destruct (Qeq_bool _ _); [by eexists|]. rewrite H. by eexists.
Qed.

(** *** A poll as a change of the groups of a row *)
Inductive verdict := Stay | Live | Die.

Definition good (a : answer) : bool := match out a with Reply d => negb (is_busy d) | Failed _ => false end.
Definition failed (a : answer) : bool := match out a with Failed _ => true | Reply _ => false end.

Definition next_lk (a : answer) (k : link) : link :=
  match out a with
  | Failed e => Link false (classify_error e) 0 (consecutive_failures k + 1) (busy_streak k) (seen_mono k) (Some (mono a))
  | Reply d =>
      if is_busy d then Link true "busy" (consecutive_successes k) (consecutive_failures k) (busy_streak k + 1) (Some (mono a)) (Some (mono a))
      else Link true "none" (consecutive_successes k + 1) 0 0 (Some (mono a)) (Some (mono a))
  end.

Definition judged (a : answer) (r : row) : verdict :=
  if failed a then if is_down c (mono a) (wall a) (set_lk (next_lk a (lk r)) r) && alive (lf r) then Die else Stay
  else if alive (lf r) || (good a && (up_successes c <=? consecutive_successes (next_lk a (lk r)))) then Live else Stay.

Definition next_lf (st : pstate) (a : answer) (r : row) : life :=
  match judged a r with
  | Stay => lf r
  | Live => judge c (mono a) (move c st (mono a) (set_last_seen (wall a) (set_alive true (lf r))))
  | Die => judge c (mono a) (move c STATE_DOWN (mono a) (set_alive false (lf r)))
  end.

(** States of a peer that is alive. *)
Definition working (s : pstate) : bool := match s with STATE_UP | STATE_DEGRADED | STATE_STALE => true | _ => false end.
Definition minor (e : event) : bool := match e with peer_up | peer_down => false | _ => true end.

Definition next_events (a : answer) (r : row) (minors : list event) : list event :=
  match judged a r with
  | Stay => []
  | Live => (if alive (lf r) then [] else [peer_up]) ++ minors
  | Die => peer_down :: minors
  end.

Record polled (a : answer) (r r' : row) (evs : list event) : Prop := {
  polled_plain : plain_row r';
  polled_lk : lk r' = next_lk a (lk r);
  polled_lf : exists st, working st = true /\ lf r' = settle c (mono a) (next_lf st a r);
  polled_state : state (dv r') = shown (lf r') /\ stale (dv r') = bool_decide (base_state (lf r') = STATE_STALE) /\
                 transitions_in_window (dv r') = Z.of_nat (length (transitions (lf r')));
  polled_events : exists minors, Forall (fun e => minor e = true) minors /\ evs = next_events a r minors }.

Lemma alive_state_ok r b : hashable (health (rp r)) = true -> exists s, _alive_state c r b = Ok s /\ working s = true.
Proof.
  intros H. unfold _alive_state. rewrite H. destruct (_ || _); [by eexists|]. cbn. destruct (_ || _); [by eexists|].
  destruct (_ && impaired _) eqn:E; [|by eexists]. bool_prop. eexists; split; [done|]. by destruct (base_state (lf r)).
Qed.

Lemma transition_minor new now r : Forall (fun e => minor e = true) (_transition c new now r).2.
Proof.
  unfold _transition, move_events. cbn. apply list.Forall_app. split; repeat case_match; repeat constructor.
Qed.

Lemma failure_polled e now w r : plain_row r -> exists r' evs,
  poll_row c (Answer (Failed e) now w) r = (r', inl evs) /\ polled (Answer (Failed e) now w) r r' evs.
Proof.
  intros [Hh Hi]. unfold poll_row. cbn. unfold _on_failure, mbind, SE_bind, modify, get, mret, SE_ret. cbn.
  set (r1 := set_lk _ r).
  assert (judged (Answer (Failed e) now w) r = if is_down c now w r1 && alive (lf r) then Die else Stay) as Hj by done.
  destruct (is_down c now w r1 && alive (lf r)) eqn:E.
  - pose proof (transition_minor STATE_DOWN now (set_rp (set_health (JStr "error") (rp r)) (set_lf (set_alive false (lf r)) r1))) as Hm.
    unfold transition. destruct (_transition c STATE_DOWN now _) as [r2 evs] eqn:Et. cbn in Hm.
    eexists _, _. split; [done|].
    unfold _transition in Et. cbn in Et. simplify_eq/=. split; try done.
    + exists STATE_UP. split; [done|]. unfold next_lf. by rewrite Hj.
    + eexists. unfold next_events. rewrite Hj. by split.
  - eexists _, _. split; [done|]. split; try done.
    + exists STATE_UP. split; [done|]. unfold next_lf. by rewrite Hj.
    + exists []. unfold next_events. by rewrite Hj.
Qed.

(** The state of a peer that is alive is evaluated. *)
Lemma transition_polled now r b : hashable (health (rp r)) = true -> exists st r' evs,
  working st = true /\ (new ← lift (_alive_state c r b); transition c new now) r = (r', inl evs) /\
  r' = set_dv (set_state (shown (lf r')) (dv r)) (set_lf (judge c now (move c st now (lf r))) r) /\ Forall (fun e => minor e = true) evs.
Proof.
  intros (st & Hs & Hw)%(alive_state_ok r b). exists st, (_transition c st now r).1, (_transition c st now r).2.
  split; [done|]. rewrite Hs. split; [|split; [done | apply transition_minor]].
  unfold mbind, SE_bind, lift, mret, SE_ret, transition. by destruct (_transition c st now r).
Qed.

Lemma alive_eta l : alive l = true -> set_alive true l = l.
Proof. destruct l. cbn. by intros ->. Qed.

Lemma busy_polled d now w r : plain_row r -> is_busy d = true -> exists r' evs,
  poll_row c (Answer (Reply d) now w) r = (r', inl evs) /\ polled (Answer (Reply d) now w) r r' evs.
Proof.
  intros [Hh Hi] Hb. unfold poll_row. cbn [out mono wall]. rewrite Hb.
  unfold _on_busy. unfold mbind at 1, SE_bind at 1, modify at 1. cbn beta iota.
  unfold mbind at 1, SE_bind at 1, get at 1. cbn beta iota.
  set (r1 := set_lk _ r).
  assert (lk r1 = next_lk (Answer (Reply d) now w) (lk r)) as Hk by (unfold next_lk; cbn; by rewrite Hb).
  assert (judged (Answer (Reply d) now w) r = if alive (lf r) then Live else Stay) as Hj.
  { unfold judged, good, failed. cbn [out]. rewrite Hb. cbn. by rewrite orb_false_r. }
  change (alive (lf r1)) with (alive (lf r)). destruct (alive (lf r)) eqn:E.
  - destruct (transition_polled now (set_lf (set_last_seen w (lf r1)) r1) false Hh) as (st & r2 & evs & Hw & Ht & Hr2 & Hm).
    eexists _, _. unfold mbind at 1, SE_bind at 1. unfold mbind at 1, SE_bind at 1, modify at 1. cbn beta iota.
    unfold mbind at 1, SE_bind at 1, get at 1. cbn beta iota. rewrite Ht. cbn beta iota.
    split; [reflexivity|]. rewrite Hr2. split; try done.
    + exists st. split; [done|]. unfold next_lf. rewrite Hj. cbn. by rewrite alive_eta.
    + exists evs. unfold next_events. by rewrite Hj, E.
  - eexists _, _. split; [reflexivity|]. split; try done.
    + exists STATE_UP. split; [done|]. unfold next_lf. by rewrite Hj.
    + exists []. unfold next_events. by rewrite Hj.
Qed.

Lemma track_ok d now r : plain d = true -> exists p, _track_frame_count c d now r = (set_pg p r, inl tt).
Proof.
  intros Hd. unfold _track_frame_count, mbind, SE_bind, modify, get. destruct (is_null _); [by eexists|].
  destruct (threshold_ok (pg (set_pg (count_frames (get_null "frame_count" d) now (pg r)) r)) d Hd) as [t Ht].
  rewrite Ht. by eexists.
Qed.

Lemma negative_ok j : is_Some (num_of j) -> exists b, negative j = Ok b.
Proof. unfold negative. intros [x ->]. by eexists. Qed.

Lemma success_polled d now w r : plain_row r -> plain d = true -> is_busy d = false -> exists r' evs,
  poll_row c (Answer (Reply d) now w) r = (r', inl evs) /\ polled (Answer (Reply d) now w) r r' evs.
Proof.
  intros [Hh Hi] Hd Hb. unfold poll_row. cbn [out mono wall]. rewrite Hb.
  destruct (negative_ok _ Hi) as [neg Hn], (reported_stale_ok d Hd) as [st Hst].
  unfold _on_success. unfold mbind at 1, SE_bind at 1, get at 1. cbn beta iota.
  rewrite Hn. unfold mbind at 1, SE_bind at 1, lift at 1, mret at 1, SE_ret at 1. cbn beta iota zeta.
  unfold mbind at 1, SE_bind at 1, modify at 1. cbn beta iota. set (r1 := set_rp _ (set_lk _ r)).
  destruct (track_ok d now r1 Hd) as [p Hp]. unfold mbind at 1, SE_bind at 1. rewrite Hp. cbn beta iota.
  unfold mbind at 1, SE_bind at 1, modify at 1. cbn beta iota. set (r2 := set_rp _ _).
  rewrite Hst. unfold mbind at 1, SE_bind at 1, lift at 1, mret at 1, SE_ret at 1. cbn beta iota.
  unfold mbind at 1, SE_bind at 1, modify at 1. cbn beta iota.
  unfold mbind at 1, SE_bind at 1, get at 1. cbn beta iota.
  assert (plain_row r2) as [Hh2 Hi2].
  { unfold plain in Hd. bool_prop. split; [done|]. subst r2 r1. cbn. destruct neg; [|done]. by destruct (num_of (get_or _ _ d)). }
  assert (lk r2 = next_lk (Answer (Reply d) now w) (lk r)) as Hk by (unfold next_lk; cbn; by rewrite Hb).
  assert (judged (Answer (Reply d) now w) r = if alive (lf r) || (up_successes c <=? consecutive_successes (lk r2)) then Live else Stay) as Hj.
  { unfold judged, good, failed. cbn [out]. by rewrite Hk, Hb. }
  destruct (alive (lf r) || _) eqn:E.
  - cbn [alive lf set_lf set_last_seen set_alive].
    destruct (transition_polled now (set_lf (set_last_seen w (set_alive true (lf r2))) r2) st Hh2) as (s & r3 & evs & Hw & Ht & Hr3 & Hm).
    eexists _, _. unfold mbind at 1, SE_bind at 1. rewrite Ht. cbn beta iota. split; [reflexivity|]. rewrite Hr3. split; try done.
    + exists s. split; [done|]. unfold next_lf. by rewrite Hj.
    + exists evs. unfold next_events. rewrite Hj. by destruct (alive (lf r)).
  - bool_prop. change (alive (lf r2)) with (alive (lf r)). rewrite H. eexists _, _. split; [reflexivity|]. split; try done.
    + exists STATE_UP. split; [done|]. unfold next_lf. by rewrite Hj.
    + exists []. unfold next_events. by rewrite Hj.
Qed.

Lemma poll_polled a r : plain_row r -> plain_answer a = true -> exists r' evs, poll_row c a r = (r', inl evs) /\ polled a r r' evs.
Proof.
  destruct a as [[d|e] now w]; unfold plain_answer; cbn [out]; intros Hr Hd; [|by apply failure_polled].
  destruct (is_busy d) eqn:E; [by apply busy_polled | by apply success_polled].
Qed.

(** *** Histories of a peer *)
Definition poll (r : row) (a : answer) : row := (poll_row c a r).1.
Definition history (r : row) (h : list answer) : row := foldl poll r h.

Definition plain_history (h : list answer) : Prop := Forall (fun a => plain_answer a = true) h.

Lemma history_snoc r h a : history r (h ++ [a]) = poll (history r h) a.
Proof. unfold history. by rewrite foldl_snoc. Qed.

Lemma new_plain m : plain_row (_new_row m).
Proof. by split. Qed.

Lemma poll_spec r a : plain_row r -> plain_answer a = true -> exists evs, polled a r (poll r a) evs.
Proof. intros Hr Ha. destruct (poll_polled a r Hr Ha) as (r' & evs & Hp & H). exists evs. unfold poll. by rewrite Hp. Qed.

Lemma plain_snoc h a : plain_history (h ++ [a]) -> plain_history h /\ plain_answer a = true.
Proof. intros [Hh Ha]%list.Forall_app. split; [done|]. by inversion Ha. Qed.

Lemma history_plain r h : plain_row r -> plain_history h -> plain_row (history r h).
Proof.
  intros Hr. induction h as [|a h IH] using rev_ind; [done|]. intros [Hh Ha]%plain_snoc. rewrite history_snoc.
  destruct (poll_spec (history r h) a) as [evs H]; [auto | done | apply H].
Qed.

(** Failed polls since the last good one, good polls since the last failed one,
    and the last answer, busy or good. *)
Definition misses (h : list answer) : Z := foldl (fun n a => if failed a then n + 1 else if good a then 0 else n) 0 h.
Definition goods (h : list answer) : Z := foldl (fun n a => if failed a then 0 else if good a then n + 1 else n) 0 h.
Definition last_answer (h : list answer) : option answer := foldl (fun l a => if failed a then l else Some a) None h.

Lemma misses_snoc h a : misses (h ++ [a]) = if failed a then misses h + 1 else if good a then 0 else misses h.
Proof. unfold misses. by rewrite foldl_snoc. Qed.
Lemma goods_snoc h a : goods (h ++ [a]) = if failed a then 0 else if good a then goods h + 1 else goods h.
Proof. unfold goods. by rewrite foldl_snoc. Qed.
Lemma last_answer_snoc h a : last_answer (h ++ [a]) = if failed a then last_answer h else Some a.
Proof. unfold last_answer. by rewrite foldl_snoc. Qed.

(** The peer counts as down when poll [a] fails after [h]. *)
Definition down_rule (h : list answer) (a : answer) : Prop :=
  match down_misses c with
  | None => forall b, last_answer h = Some b -> (3 * poll_interval c < wall a - wall b)%Q
  | Some k => k <= misses (h ++ [a]) /\ forall b, last_answer h = Some b -> (inject_Z k * poll_interval c < mono a - mono b)%Q
  end.

Record recalls (h : list answer) (r : row) : Prop := {
  recalls_misses : consecutive_failures (lk r) = misses h;
  recalls_goods : consecutive_successes (lk r) = goods h;
  recalls_seen : seen_mono (lk r) = mono <$> last_answer h;
  recalls_wall : alive (lf r) = true -> exists b, last_answer h = Some b /\ last_seen (lf r) = wall b }.

Lemma judge_alive now l : alive (judge c now l) = alive l /\ last_seen (judge c now l) = last_seen l.
Proof. unfold judge. by destruct (flap_on c). Qed.
Lemma move_alive st now l : alive (move c st now l) = alive l /\ last_seen (move c st now l) = last_seen l.
Proof. unfold move. by case_bool_decide. Qed.
Lemma settle_alive now l : alive (settle c now l) = alive l /\ last_seen (settle c now l) = last_seen l.
Proof. unfold settle. by destruct (flap_on c). Qed.

Lemma next_alive st a r : alive (settle c (mono a) (next_lf st a r)) = match judged a r with Stay => alive (lf r) | Live => true | Die => false end /\
  last_seen (settle c (mono a) (next_lf st a r)) = match judged a r with Live => wall a | _ => last_seen (lf r) end.
Proof.
  destruct (settle_alive (mono a) (next_lf st a r)) as [-> ->]. unfold next_lf.
  destruct (judged a r); [done | |]; rewrite !(proj1 (judge_alive _ _)), !(proj2 (judge_alive _ _)), !(proj1 (move_alive _ _ _)), !(proj2 (move_alive _ _ _)); done.
Qed.

Lemma down_iff h r a : recalls h r -> failed a = true -> alive (lf r) = true ->
  (is_down c (mono a) (wall a) (set_lk (next_lk a (lk r)) r) = true <-> down_rule h a).
Proof.
  intros [Hm Hg Hs Hw] Ha Hl. destruct (Hw Hl) as (b & Hb & Hsw). unfold is_down, down_rule.
  assert (consecutive_failures (next_lk a (lk r)) = misses (h ++ [a]) /\ seen_mono (next_lk a (lk r)) = seen_mono (lk r)) as [H1 H2].
  { rewrite misses_snoc, Ha, <-Hm. unfold next_lk, failed in *. by destruct (out a). }
  cbn. rewrite H1, H2, Hs, Hb, Hsw. cbn. destruct (down_misses c) as [k|].
  - rewrite andb_true_iff, Z.leb_le, Qltb_lt. split; intros [? H]; (split; [done|]); [|by apply H]. intros ? [= <-]. done.
  - rewrite Qltb_lt. split; [intros H ? [= <-]; done | intros H; by apply H].
Qed.

Lemma poll_recalls h r a : plain_row r -> plain_answer a = true -> recalls h r -> recalls (h ++ [a]) (poll r a).
Proof.
  intros Hr Ha [Hm Hg Hs Hw]. destruct (poll_spec r a Hr Ha) as [evs [_ Hk (st & _ & Hl) _ _]].
  split.
  - rewrite Hk, misses_snoc, <-Hm. unfold next_lk, failed, good. by destruct (out a); [destruct (is_busy d)|].
  - rewrite Hk, goods_snoc, <-Hg. unfold next_lk, failed, good. by destruct (out a); [destruct (is_busy d)|].
  - rewrite Hk, last_answer_snoc. unfold next_lk, failed. by destruct (out a); [destruct (is_busy d)|].
  - rewrite Hl. destruct (next_alive st a r) as [-> ->]. rewrite last_answer_snoc.
    unfold judged. destruct (failed a); [by destruct (_ && _); auto|].
    destruct (alive (lf r) || _) eqn:E; [by eexists|]. bool_prop. congruence.
Qed.

Lemma history_recalls m h : plain_history h -> recalls h (history (_new_row m) h).
Proof.
  induction h as [|a h IH] using rev_ind; [by split|]. intros [Hh Ha]%plain_snoc. rewrite history_snoc.
  apply poll_recalls; [by apply history_plain; [apply new_plain|] | done | auto].
Qed.

(** The peer has just answered often enough in a row; its last poll did not count
    as down. *)
Definition came_up (h : list answer) : Prop := (exists g, list.last h = Some g /\ good g = true) /\ up_successes c <= goods h.
Definition stays_up (h : list answer) : Prop := forall h' a, h = h' ++ [a] -> failed a = true -> ~ down_rule h' a.


(** *** Flapping *)

(** When the state of the peer changed. *)
Fixpoint changes (r : row) (h : list answer) : list Q :=
  match h with
  | [] => []
  | a :: h => let r1 := poll r a in (if bool_decide (base_state (lf r1) = base_state (lf r)) then [] else [mono a]) ++ changes r1 h
  end.
Definition in_window (now : Q) (l : list Q) : list Q := List.filter (fun t => Qle_bool (now - flap_window_sec c) t) l.
Definition clock (h : list answer) : Q := match list.last h with Some a => mono a | None => 0 end.
Definition ticking (h : list answer) : Prop := StronglySorted Qlt (map mono h).

Lemma changes_snoc r h a : changes r (h ++ [a]) =
  changes r h ++ (if bool_decide (base_state (lf (history r (h ++ [a]))) = base_state (lf (history r h))) then [] else [mono a]).
Proof.
  revert r. induction h as [|b h IH]; intros r; cbn; [by rewrite app_nil_r|]. rewrite IH. by rewrite <-app_assoc.
Qed.

Lemma increasing_snoc l x : StronglySorted Qlt (l ++ [x]) <-> StronglySorted Qlt l /\ Forall (fun y => (y < x)%Q) l.
Proof.
  induction l as [|y l IH]; cbn.
  - split; intros _; repeat constructor.
  - split.
    + intros H. inversion H as [|?? H1 H2]; subst. apply IH in H1 as [? ?]. apply list.Forall_app in H2 as [? H2]. inversion H2; subst.
      split; [by constructor | by constructor].
    + intros [H1 H2]. inversion H1; inversion H2; subst. constructor; [by apply IH | apply list.Forall_app; split; [done | by constructor]].
Qed.

Lemma filter_keep {A} (f : A -> bool) l : Forall (fun x => f x = true) l -> List.filter f l = l.
Proof. induction 1 as [|x l H _ IH]; [done|]. cbn. by rewrite H, IH. Qed.

Lemma prune_filter start l : StronglySorted Qlt l -> prune start l = List.filter (fun t => Qle_bool start t) l.
Proof.
  induction l as [|t l IH]; [done|]. intros H. inversion H as [|?? H1 H2]; subst. cbn. unfold Qltb.
  destruct (Qle_bool start t) eqn:E; cbn; [|auto]. f_equal. symmetry. apply filter_keep. rewrite list.Forall_forall in *.
  intros x Hx. q_prop. apply Qle_bool_iff. specialize (H2 x Hx). lra.
Qed.

Lemma filter_sorted (f : Q -> bool) l : StronglySorted Qlt l -> StronglySorted Qlt (List.filter f l).
Proof.
  induction 1 as [|x l _ IH Hx]; [constructor|]. cbn. destruct (f x); [|done]. constructor; [done|]. rewrite list.Forall_forall in *.
  intros y Hy. apply Hx. apply list_elem_of_In, filter_In in Hy as [Hy _]. by apply list_elem_of_In.
Qed.

Lemma sorted_last l x y : StronglySorted Qlt l -> list.last l = Some y -> x ∈ l -> (x <= y)%Q.
Proof.
  destruct l as [|z l _] using rev_ind; [done|]. rewrite last_snoc. intros [_ H]%increasing_snoc [= <-] [Hx|Hx]%elem_of_app.
  - rewrite list.Forall_forall in H. specialize (H x Hx). lra.
  - apply list_elem_of_singleton in Hx as ->. lra.
Qed.

(** The window of a later time in the window of an earlier one. *)
Lemma in_window_later t now l l' : (t <= now)%Q -> in_window now (in_window t l ++ l') = in_window now (l ++ l').
Proof.
  intros Ht. unfold in_window. rewrite !List.filter_app. f_equal. induction l as [|x l IH]; [done|]. cbn.
  destruct (Qle_bool (t - _) x) eqn:E; cbn; rewrite IH; [done|]. destruct (Qle_bool (now - _) x) eqn:E2; [|done]. q_prop. lra.
Qed.

Lemma in_window_fewer t now l : (t <= now)%Q -> (length (in_window now l) <= length (in_window t l))%nat.
Proof.
  intros Ht. unfold in_window. induction l as [|x l IH]; [done|]. cbn.
  destruct (Qle_bool (t - _) x) eqn:E, (Qle_bool (now - _) x) eqn:E2; cbn; [lia | lia | q_prop; lra | done].
Qed.

Lemma burst_restless now l : StronglySorted Qlt l -> (2 <= length (in_window now l))%nat -> quiet c now (list.last l) = false.
Proof.
  intros Hs Hl. pose proof (filter_sorted (fun t => Qle_bool (now - flap_window_sec c) t) l Hs) as Hf. fold (in_window now l) in Hf.
  assert (forall x, x ∈ in_window now l -> x ∈ l /\ (now - flap_window_sec c <= x)%Q) as Hin.
  { intros x Hx. apply list_elem_of_In, filter_In in Hx as [Hx Hq]. by rewrite <-Qle_bool_iff, list_elem_of_In. }
  destruct (in_window now l) as [|x [|y w]]; cbn in Hl; [lia | lia |].
  inversion Hf as [|?? _ Hx]; subst. inversion Hx; subst. destruct (list.last l) as [z|] eqn:E; [|done]. cbn.
  apply Qleb_gt. destruct (Hin x) as [_ ?], (Hin y) as [Hy ?]; [set_solver.. |].
  pose proof (sorted_last l y z Hs E Hy). lra.
Qed.

Lemma prune_window now l : StronglySorted Qlt l -> prune (now - flap_window_sec c) l = in_window now l.
Proof. apply prune_filter. Qed.

(** A life that knows the changes [ch] until [t]. *)
Record knows (t : Q) (ch : list Q) (l : life) : Prop := {
  knows_window : transitions l = in_window t ch;
  knows_last : last_transition_mono l = list.last ch;
  knows_sorted : StronglySorted Qlt ch;
  knows_flaps : flap_threshold c < Z.of_nat (length (transitions l)) -> flapping l = true }.

Definition flaps_next (now : Q) (ch : list Q) (was flaps : bool) : Prop :=
  flaps = true <-> flap_threshold c < Z.of_nat (length (in_window now ch)) \/ (was = true /\ quiet c now (list.last ch) = false).

Lemma flap_on_true : flap_on c = true -> 0 < flap_threshold c /\ (0 < flap_window_sec c)%Q.
Proof. unfold flap_on. intros H. bool_prop. by q_prop. Qed.

Lemma settle_knows t now ch l : flap_on c = true -> (t <= now)%Q -> knows t ch l ->
  knows now ch (settle c now l) /\ flaps_next now ch (flapping l) (flapping (settle c now l)).
Proof.
  intros Hon Ht [Hw Hl Hs Hf]. destruct (flap_on_true Hon) as [Hth _]. pose proof (in_window_fewer t now ch Ht) as Hle.
  assert (prune (now - flap_window_sec c) (transitions l) = in_window now ch) as Hp.
  { rewrite Hw, prune_window by by apply filter_sorted. pose proof (in_window_later t now ch [] Ht) as H. by rewrite !app_nil_r in H. }
  assert (flaps_next now ch (flapping l) (if flapping l && quiet c now (list.last ch) then false else flapping l)) as Hn.
  { unfold flaps_next. split.
    - intros H. right. by destruct (flapping l), (quiet c now _).
    - intros [H|[-> ->]]; [|done]. rewrite (Hf ltac:(rewrite Hw; lia)), (burst_restless now ch Hs ltac:(lia)). done. }
  unfold settle. rewrite Hon, Hl. split; [|done]. split; cbn; [done | done | done |].
  intros H. apply Hn. left. by rewrite <-Hp.
Qed.
Definition moved (st : pstate) (now : Q) (l : life) : list Q := if bool_decide (st = base_state l) then [] else [now].

Lemma judge_knows st t now ch l : flap_on c = true -> (t <= now)%Q -> Forall (fun x => (x < now)%Q) ch -> knows t ch l ->
  let l' := judge c now (move c st now l) in
  knows now (ch ++ moved st now l) l' /\ flaps_next now (ch ++ moved st now l) (flapping l) (flapping l') /\ base_state l' = st.
Proof.
  intros Hon Ht Hc [Hw Hl Hs Hf]. set (ch' := ch ++ moved st now l).
  assert (StronglySorted Qlt ch') as Hs'.
  { subst ch'. unfold moved. case_bool_decide; [by rewrite app_nil_r | by apply increasing_snoc]. }
  assert (transitions (move c st now l) = in_window t ch ++ moved st now l) as Hm.
  { unfold move, moved. rewrite Hon. case_bool_decide; cbn; by rewrite ?app_nil_r, Hw. }
  assert (prune (now - flap_window_sec c) (transitions (move c st now l)) = in_window now ch') as Hp.
  { rewrite Hm, prune_window; [by apply in_window_later|]. unfold moved. case_bool_decide.
    - rewrite app_nil_r. by apply filter_sorted.
    - apply increasing_snoc. split; [by apply filter_sorted|]. rewrite list.Forall_forall in *. intros x Hx. apply Hc.
      apply list_elem_of_In, filter_In in Hx as [Hx _]. by apply list_elem_of_In. }
  assert (last_transition_mono (move c st now l) = list.last ch') as Hlast.
  { subst ch'. unfold move, moved. case_bool_decide; cbn; [by rewrite app_nil_r | by rewrite last_snoc]. }
  assert (flapping (move c st now l) = flapping l /\ base_state (move c st now l) = st) as [Hfl Hb] by (unfold move; by case_bool_decide).
  unfold judge. rewrite Hon, Hp, Hlast, Hfl. cbn.
  destruct (Z.ltb_spec (flap_threshold c) (Z.of_nat (length (in_window now ch')))) as [E|E].
  - split; [by split|]. split; [|done]. split; [by left | done].
  - split; [split; cbn; [done.. | lia]|]. split; [|done]. unfold flaps_next. destruct (flapping l), (quiet c now _); cbn; intuition (lia || done).
Qed.

Lemma step_knows a r st t ch : flap_on c = true -> (t <= mono a)%Q -> Forall (fun x => (x < mono a)%Q) ch -> knows t ch (lf r) ->
  let l := settle c (mono a) (next_lf st a r) in
  let ch' := ch ++ moved (base_state l) (mono a) (lf r) in
  knows (mono a) ch' l /\ flaps_next (mono a) ch' (flapping (lf r)) (flapping l).
Proof.
  intros Hon Ht Hc Hk. assert (forall l, base_state (settle c (mono a) l) = base_state l) as Hb.
  { intros l. unfold settle. by rewrite Hon. }
  cbn zeta. rewrite Hb.
  assert (forall s l0, knows t ch l0 -> base_state l0 = base_state (lf r) -> flapping l0 = flapping (lf r) ->
    let l := judge c (mono a) (move c s (mono a) l0) in
    knows (mono a) (ch ++ moved (base_state l) (mono a) (lf r)) (settle c (mono a) l) /\
    flaps_next (mono a) (ch ++ moved (base_state l) (mono a) (lf r)) (flapping (lf r)) (flapping (settle c (mono a) l))) as Hj.
  { intros s l0 Hk0 Hb0 Hf0. destruct (judge_knows s t (mono a) ch l0 Hon Ht Hc Hk0) as (H1 & H2 & H3). cbn zeta. rewrite H3.
    unfold moved in *. rewrite <-Hb0, <-Hf0. destruct (settle_knows (mono a) (mono a) _ _ Hon (Qle_refl _) H1) as [H4 H5].
    split; [done|]. unfold flaps_next in *. tauto. }
  unfold next_lf. destruct (judged a r).
  - unfold moved. rewrite bool_decide_true, app_nil_r by done. by apply (settle_knows t).
  - apply Hj; [by destruct Hk; split | done | done].
  - apply Hj; [by destruct Hk; split | done | done].
Qed.

(** More changes in the window than the threshold; the last change is a window ago. *)
Definition bursts (m : member) (h : list answer) : Prop :=
  flap_threshold c < Z.of_nat (length (in_window (clock h) (changes (_new_row m) h))).
Definition restless (m : member) (h : list answer) : Prop := quiet c (clock h) (list.last (changes (_new_row m) h)) = false.

Lemma clock_snoc h a : clock (h ++ [a]) = mono a.
Proof. unfold clock. by rewrite last_snoc. Qed.

Lemma changes_past r h : Forall (fun t => t ∈ map mono h) (changes r h).
Proof.
  revert r. induction h as [|a h IH]; intros r; cbn; [constructor|]. apply list.Forall_app. split.
  - case_bool_decide; repeat constructor.
  - eapply list.Forall_impl; [apply IH|]. cbn. intros t H. by constructor.
Qed.

Lemma ticking_snoc h a : ticking (h ++ [a]) -> ticking h /\ Forall (fun t => (t < mono a)%Q) (map mono h).
Proof. unfold ticking. rewrite map_app. apply increasing_snoc. Qed.

(** The transitions a row keeps are exactly the changes of its state within the
    window, and a peer flaps exactly when at some time more of them than the
    threshold were in the window, and since then no poll found the state
    unchanged for a whole window. *)
Theorem flapping_iff m h : flap_on c = true -> plain_history h -> ticking h ->
  let r := history (_new_row m) h in
  transitions (lf r) = in_window (clock h) (changes (_new_row m) h) /\
  (flapping (lf r) = true <-> since (bursts m) (restless m) h).
Proof.
  intros Hon Hp Ht. cbn zeta. destruct (flap_on_true Hon) as [Hth _].
  enough (knows (clock h) (changes (_new_row m) h) (lf (history (_new_row m) h)) /\
          (flapping (lf (history (_new_row m) h)) = true <-> since (bursts m) (restless m) h)) as [[] ?] by done.
  induction h as [|a h IH] using rev_ind.
  { rewrite since_nil. split; [split; cbn; (done || lia || constructor)|]. unfold bursts. cbn. split; [done | lia]. }
  apply plain_snoc in Hp as [Hp Ha]. apply ticking_snoc in Ht as [Ht Hlt]. destruct (IH Hp Ht) as [Hk Hf].
  rewrite since_snoc, <-Hf. unfold bursts, restless. rewrite clock_snoc, changes_snoc, history_snoc.
  set (r := history (_new_row m) h) in *. assert (plain_row r) as Hr by (apply history_plain; [apply new_plain | done]).
  destruct (poll_spec r a Hr Ha) as [evs [_ _ (st & _ & Hl) _ _]]. rewrite Hl.
  assert (Forall (fun x => (x < mono a)%Q) (changes (_new_row m) h)) as Hc.
  { rewrite list.Forall_forall in *. pose proof (changes_past (_new_row m) h) as Hpast. rewrite list.Forall_forall in Hpast. auto. }
  assert (exists t, (t <= mono a)%Q /\ knows t (changes (_new_row m) h) (lf r)) as (t & Hle & Hk').
  { subst r. destruct h as [|b h _] using rev_ind.
    - exists (mono a). split; [lra|]. by destruct Hk; split.
    - exists (clock (h ++ [b])). split; [|done]. rewrite clock_snoc. rewrite map_app, list.Forall_app in Hlt.
      destruct Hlt as [_ Hb]. inversion Hb; subst. lra. }
  by apply (step_knows a r st t).
Qed.

(** *** States *)
Record row_ok (r : row) : Prop := {
  ok_alive : alive (lf r) = working (base_state (lf r));
  ok_base : base_state (lf r) <> STATE_FLAPPING;
  ok_state : state (dv r) = shown (lf r);
  ok_stale : stale (dv r) = bool_decide (base_state (lf r) = STATE_STALE);
  ok_count : transitions_in_window (dv r) = Z.of_nat (length (transitions (lf r))) }.

Lemma next_base st a r : base_state (settle c (mono a) (next_lf st a r)) =
  match judged a r with Stay => base_state (lf r) | Live => st | Die => STATE_DOWN end.
Proof.
  assert (forall now l, base_state (settle c now l) = base_state l) as -> by (intros; unfold settle; by destruct (flap_on c)).
  assert (forall s now l, base_state (judge c now (move c s now l)) = s) as Hj.
  { intros. unfold judge, move. by destruct (flap_on c); case_bool_decide. }
  unfold next_lf. destruct (judged a r); [done | apply Hj | apply Hj].
Qed.

Lemma polled_ok a r r' evs : row_ok r -> polled a r r' evs -> row_ok r'.
Proof.
  intros [Ha Hb _ _ _] [_ _ (st & Hw & Hl) (H1 & H2 & H3) _]. split; [| |done..]; rewrite Hl.
  - rewrite (proj1 (next_alive st a r)), next_base. by destruct (judged a r).
  - rewrite next_base. destruct (judged a r); [done | by destruct st | done].
Qed.

Lemma new_ok m : row_ok (_new_row m).
Proof. by split. Qed.

(** ** The table *)
Definition all_rows (P : row -> Prop) (m : monitor) : Prop := Forall (fun kr => P kr.2) (peer_table m).

Lemma row_of_in k t r : row_of k t = Some r -> (k, r) ∈ t.
Proof.
  induction t as [|[k' r'] t IH]; [done|]. cbn. case_bool_decide; [intros [= ->]; subst; constructor | intros H'; constructor; auto].
Qed.

Lemma update_rows (P : row -> Prop) k r t : P r -> Forall (fun kr : string * row => P kr.2) t -> Forall (fun kr => P kr.2) (update k r t).
Proof. intros Hr. induction 1 as [|[k' r'] t H Ht IH]; [constructor|]. cbn. case_bool_decide; by constructor. Qed.

Lemma row_of_update k k' r t : is_Some (row_of k t) -> row_of k' (update k r t) = if bool_decide (k' = k) then Some r else row_of k' t.
Proof.
  intros [r0 H]. revert H. induction t as [|[k1 r1] t IH]; [done|]. cbn. destruct (decide (k = k1)) as [<-|E].
  - intros _. rewrite (bool_decide_true (k = k)) by done. cbn. by case_bool_decide.
  - rewrite (bool_decide_false (k = k1)) by done. intros H. cbn. rewrite IH by done. destruct (decide (k' = k1)) as [->|Hn].
    + rewrite bool_decide_true by done. by rewrite bool_decide_false by congruence.
    + by rewrite (bool_decide_false (k' = k1)) by done.
Qed.

Lemma poll_peer_plain addr a m : all_rows plain_row m -> plain_answer a = true ->
  match row_of addr (peer_table m) with
  | None => _poll_peer c addr a m = (m, [], None)
  | Some r => exists r' evs, _poll_peer c addr a m = (set_table (update addr r' (peer_table m)) m, map (Peer addr) evs, None) /\
                             polled a r r' evs
  end.
Proof.
  intros Hm Ha. unfold _poll_peer. destruct (row_of addr (peer_table m)) as [r|] eqn:E; [|done].
  assert (plain_row r) as Hr. { unfold all_rows in Hm. rewrite list.Forall_forall in Hm. apply (Hm _ (row_of_in _ _ _ E)). }
  destruct (poll_polled a r Hr Ha) as (r' & evs & Hp & H). rewrite Hp. by eexists _, _.
Qed.

Lemma poll_peer_keeps (P : row -> Prop) addr a m : (forall r r' evs, P r -> polled a r r' evs -> P r') ->
  all_rows plain_row m -> plain_answer a = true -> all_rows P m -> all_rows P (_poll_peer c addr a m).1.1 /\ (_poll_peer c addr a m).2 = None.
Proof.
  intros Hk Hm Ha HP. pose proof (poll_peer_plain addr a m Hm Ha) as H. destruct (row_of addr (peer_table m)) as [r|] eqn:E.
  - destruct H as (r' & evs & -> & Hp). split; [|done]. apply update_rows; [|done]. apply (Hk r r' evs); [|done].
    unfold all_rows in HP. rewrite list.Forall_forall in HP. apply (HP _ (row_of_in _ _ _ E)).
  - by rewrite H.
Qed.

Lemma candidates_ok t : Forall (fun kr : string * row => plain_row kr.2) t -> exists l, candidates t = Ok l.
Proof.
  induction 1 as [|[k r] t [_ Hi] _ [l IH]]; [by eexists|]. cbn in *. destruct (healthy r); [|by eexists].
  destruct (negative_ok _ Hi) as [b ->]. cbn. rewrite IH. by eexists.
Qed.

Lemma check_plain m : all_rows plain_row m -> exists n, _check_coordinator c m = (Monitor (peer_addresses m) (peer_table m)
    (coordinator_id (_check_coordinator c m).1.1) (rounds m), n, None).
Proof.
  intros [l H]%candidates_ok. unfold _check_coordinator. rewrite H. destruct (py_eqb _ _); eexists; [|done]. by destruct m.
Qed.

Lemma poll_all_plain addrs ans : forall m, all_rows plain_row m -> Forall (fun a => plain_answer a = true) ans ->
  all_rows plain_row (poll_all c addrs ans m).1.1 /\ (poll_all c addrs ans m).2 = None /\
  rounds (poll_all c addrs ans m).1.1 = rounds m /\ peer_addresses (poll_all c addrs ans m).1.1 = peer_addresses m.
Proof.
  revert ans. induction addrs as [|k addrs IH]; intros [|a ans] m Hm Ha; try done. cbn. inversion Ha as [|?? Ha1 Ha2]; subst.
  destruct (poll_peer_keeps plain_row k a m) as [H1 H2]; [by intros ???? []|done..|].
  assert (rounds (_poll_peer c k a m).1.1 = rounds m /\ peer_addresses (_poll_peer c k a m).1.1 = peer_addresses m) as [H3 H4].
  { unfold _poll_peer. repeat case_match; done. }
  destruct (_poll_peer c k a m) as [[m1 n1] x]. cbn in *. subst x. destruct (IH ans m1 H1 Ha2) as (? & ? & ? & ?).
  destruct (poll_all c addrs ans m1) as [[m2 n2] x]. cbn in *. split_and!; congruence.
Qed.

(** The monitor goes on: with replies of the documented types no round raises, so
    that the polling thread does not end, and every round is counted. *)
Theorem monitor_survives rs m : all_rows plain_row m -> Forall plain_history rs ->
  let '(m', _, raised) := _poll_loop c rs m in
  raised = None /\ rounds m' = rounds m + Z.of_nat (length rs) /\ all_rows plain_row m'.
Proof.
  revert m. induction rs as [|ans rs IH]; intros m Hm Hr; [cbn; split_and!; [done | lia | done]|].
  inversion Hr as [|?? H1 H2]; subst. cbn [_poll_loop]. unfold poll_round.
  destruct (poll_all_plain (peer_addresses m) ans m Hm H1) as (Hm1 & Hx & Hn & _).
  destruct (poll_all c (peer_addresses m) ans m) as [[m1 n1] x]. cbn in Hm1, Hx, Hn. subst x.
  destruct (check_plain m1 Hm1) as [n2 ->]. cbn [peer_addresses peer_table coordinator_id rounds].
  specialize (IH (Monitor (peer_addresses m1) (peer_table m1) (coordinator_id (_check_coordinator c m1).1.1) (rounds m1 + 1)) Hm1 H2).
  destruct (_poll_loop c rs _) as [[m3 n3] x]. cbn [rounds] in IH. cbn [length]. destruct IH as (? & ? & ?). split_and!; [done | lia | done].
Qed.

(** *** Changes of the membership *)
Lemma row_of_snoc k k' r t : row_of k (t ++ [(k', r)]) = match row_of k t with Some x => Some x | None => if bool_decide (k = k') then Some r else None end.
Proof. induction t as [|[k1 r1] t IH]; [done|]. cbn. by destruct (bool_decide (k = k1)). Qed.

(** Members that stay keep the state of their row, new ones start unknown, and the
    others are gone. *)
Lemma set_members_rows ms m k :
  match row_of k (peer_table (set_members ms m)) with
  | None => k ∉ map m_key ms
  | Some r' => k ∈ map m_key ms /\
      match row_of k (peer_table m) with
      | Some r => lk r' = lk r /\ pg r' = pg r /\ lf r' = lf r /\ dv r' = dv r /\ health (rp r') = health (rp r)
      | None => exists x, x ∈ ms /\ m_key x = k /\ r' = _new_row x
      end
  end.
Proof.
  unfold set_members. cbn [peer_table]. induction ms as [|x ms IH] using rev_ind; [apply not_elem_of_nil|].
  rewrite foldl_snoc, map_app. set (t := foldl _ [] ms) in *. destruct (row_of (m_key x) t) as [r0|] eqn:Ex.
  - destruct (row_of k t) as [r'|] eqn:E.
    + destruct IH as [H1 H2]. split; [set_solver|]. destruct (row_of k (peer_table m)); [done|]. set_solver.
    + intros [?|Hk%list_elem_of_singleton]%elem_of_app; [done|]. cbn in Hk. congruence.
  - rewrite row_of_snoc. destruct (row_of k t) as [r'|] eqn:E.
    + destruct IH as [H1 H2]. split; [set_solver|]. destruct (row_of k (peer_table m)); [done|]. set_solver.
    + case_bool_decide as Hk; [subst k|set_solver]. split; [set_solver|].
      destruct (row_of (m_key x) (peer_table m)); [done|]. exists x. set_solver.
Qed.

(** ** What the events tell *)

(** A subscriber keeps the peers it heard to be up, and the coordinator. *)
Definition hear (v : gset string * json) (n : note) : gset string * json :=
  match n with
  | Peer k peer_up => ({[k]} ∪ v.1, v.2)
  | Peer k peer_down => (v.1 ∖ {[k]}, v.2)
  | Peer _ _ => v
  | coordinator_elected id => (v.1, id)
  end.

Definition is_alive (m : monitor) (k : string) : Prop := exists r, row_of k (peer_table m) = Some r /\ alive (lf r) = true.
Definition agrees (v : gset string * json) (m : monitor) : Prop := (forall k, k ∈ v.1 <-> is_alive m k) /\ v.2 = coordinator_id m.

Definition plain_action (x : action) : Prop := match x with Polled _ a => plain_answer a = true | Elect => True end.

Lemma hear_minors k minors v : Forall (fun e => minor e = true) minors -> foldl hear v (map (Peer k) minors) = v.
Proof. induction 1 as [|e l He _ IH]; [done|]. cbn. by destruct e. Qed.

Lemma is_alive_update m k r' k' : is_Some (row_of k (peer_table m)) ->
  (is_alive (set_table (update k r' (peer_table m)) m) k' <-> if bool_decide (k' = k) then alive (lf r') = true else is_alive m k').
Proof. intros H. unfold is_alive. cbn. rewrite row_of_update by done. case_bool_decide; naive_solver. Qed.

Lemma poll_agrees v k a m : all_rows plain_row m -> plain_answer a = true -> agrees v m ->
  agrees (foldl hear v (_poll_peer c k a m).1.2) (_poll_peer c k a m).1.1.
Proof.
  intros Hm Ha [Hv Hc]. pose proof (poll_peer_plain k a m Hm Ha) as H. destruct (row_of k (peer_table m)) as [r|] eqn:E; [|by rewrite H].
  destruct H as (r' & evs & -> & [_ _ (st & _ & Hl) _ (minors & Hmin & ->)]). cbn [fst snd].
  assert (is_alive m k <-> alive (lf r) = true) as Hk. { unfold is_alive. rewrite E. naive_solver. }
  assert (foldl hear v (map (Peer k) (next_events a r minors)) =
    (match judged a r with Stay => v.1 | Live => if alive (lf r) then v.1 else {[k]} ∪ v.1 | Die => v.1 ∖ {[k]} end, v.2)) as ->.
  { unfold next_events. destruct (judged a r); [by destruct v | |].
    - rewrite map_app, foldl_app, hear_minors by done. destruct (alive (lf r)); [by destruct v | done].
    - cbn. by rewrite hear_minors. }
  split; [|done]. intros k'. rewrite is_alive_update by done. rewrite Hl, (proj1 (next_alive st a r)). cbn [fst].
  assert (judged a r = Die -> alive (lf r) = true) as Hd.
  { unfold judged. repeat case_match; try done. bool_prop. done. }
  specialize (Hv k'). case_bool_decide as Ek; [subst k'|]; destruct (judged a r); try destruct (alive (lf r)); set_solver.
Qed.

Lemma check_agrees v m : agrees v m -> agrees (foldl hear v (_check_coordinator c m).1.2) (_check_coordinator c m).1.1.
Proof. intros [Hv Hc]. unfold _check_coordinator. destruct (candidates _) as [l|]; [|done]. by destruct (py_eqb _ _). Qed.


(** A round of the sequential monitor is such a run. *)
Lemma poll_all_run addrs ans : forall m m' notes,
  poll_all c addrs ans m = (m', notes, None) -> run c (zip_with Polled addrs ans) m = (m', notes).
Proof.
  revert ans. induction addrs as [|k addrs IH]; intros [|a ans] m m' notes; cbn; try congruence.
  unfold act. destruct (_poll_peer c k a m) as [[m1 n1] [e|]]; [done|]. cbn.
  destruct (poll_all c addrs ans m1) as [[m2 n2] x] eqn:E. intros [= -> <- ->]. by rewrite (IH ans m1 m' n2 E).
Qed.

(** ** The advisory election *)
Definition int_ids (m : monitor) : Prop := all_rows (fun r => exists z, peer_id (rp r) = JInt z) m /\ exists z, coordinator_id m = JInt z.

(** The stations a monitor takes for healthy, its own included. *)
Definition electorate (m : monitor) (z : Z) : Prop :=
  z = instance_id c \/ (0 <= z /\ exists k r, (k, r) ∈ peer_table m /\ healthy r = true /\ peer_id (rp r) = JInt z).

Lemma candidates_ints t : Forall (fun kr : string * row => exists z, peer_id (rp kr.2) = JInt z) t -> exists l,
  candidates t = Ok (map JInt l) /\
  forall z, z ∈ l <-> 0 <= z /\ exists k r, (k, r) ∈ t /\ healthy r = true /\ peer_id (rp r) = JInt z.
Proof.
  induction 1 as [|[k r] t [z Hz] _ (l & Hl & Hin)]; [exists []; split; [done | set_solver]|]. cbn in *.
  destruct (healthy r) eqn:E.
  - rewrite Hz. cbn. rewrite Hl. cbn. exists (if z <? 0 then l else z :: l). split.
    { rewrite orb_false_r. change (Qltb (inject_Z z) 0) with (Qltb (inject_Z z) (inject_Z 0)).
      assert (Qltb (inject_Z z) (inject_Z 0) = (z <? 0)) as ->; [|by destruct (z <? 0)].
      apply eq_true_iff_eq. by rewrite Qltb_lt, <-Zlt_Qlt, Z.ltb_lt. }
    intros y. destruct (Z.ltb_spec z 0); [rewrite Hin | rewrite elem_of_cons, Hin]; split.
    + naive_solver set_solver.
    + intros (? & k' & r' & [[= -> ->]|?]%elem_of_cons & ? & ?); [assert (y = z) by congruence; lia | naive_solver].
    + intros [->|?]; [|naive_solver set_solver]. split; [done|]. exists k, r. split; [constructor | done].
    + intros (? & k' & r' & [[= -> ->]|?]%elem_of_cons & ? & ?); [left; congruence | right; naive_solver].
  - exists l. split; [done|]. intros y. rewrite Hin. split; [naive_solver set_solver|].
    intros (? & k' & r' & [[= -> ->]|?]%elem_of_cons & ? & ?); [congruence | naive_solver].
Qed.

Lemma py_min_ints l : forall z, exists y, py_min (JInt z) (map JInt l) = JInt y /\ (y = z \/ y ∈ l) /\ y <= z /\ forall x, x ∈ l -> y <= x.
Proof.
  induction l as [|x l IH]; intros z; [exists z; split_and!; [done | by left | lia | set_solver]|].
  unfold py_min. cbn. assert (Qltb (inject_Z x) (inject_Z z) = (x <? z)) as ->.
  { apply eq_true_iff_eq. by rewrite Qltb_lt, <-Zlt_Qlt, Z.ltb_lt. }
  destruct (Z.ltb_spec x z) as [H|H]; [destruct (IH x) as (y & ? & Hy & ? & Hm) | destruct (IH z) as (y & ? & Hy & ? & Hm)];
    exists y; (split; [done|]); (split; [set_solver|]); (split; [lia|]); intros w [->|?]%elem_of_cons; auto; lia.
Qed.

Lemma check_elects m : int_ids m -> exists z, coordinator_id (_check_coordinator c m).1.1 = JInt z /\ electorate m z /\ forall y, electorate m y -> z <= y.
Proof.
  intros [Hr [z0 Hz0]]. destruct (candidates_ints _ Hr) as (l & Hl & Hin). unfold _check_coordinator. rewrite Hl.
  destruct (py_min_ints l (instance_id c)) as (y & -> & Hy & Hle & Hmin). exists y. split.
  - destruct (py_eqb _ _) eqn:E; [|done]. cbn. rewrite Hz0 in E |- *. cbn in E. apply Qeq_bool_eq, (inject_Z_injective y z0) in E. by subst.
  - split; [unfold electorate; rewrite <-Hin; naive_solver|]. intros x [->|H]; [done|]. apply Hmin. by apply Hin.
Qed.
End Steps.

(** Stations that see the same healthy stations name the same coordinator: the
    lowest of their ids. *)
Theorem coordinators_agree c c' m m' : int_ids m -> int_ids m' -> (forall z, electorate c m z <-> electorate c' m' z) ->
  exists z, coordinator_id (_check_coordinator c m).1.1 = JInt z /\ coordinator_id (_check_coordinator c' m').1.1 = JInt z /\
            electorate c m z /\ forall y, electorate c m y -> z <= y.
Proof.
  intros H H' He. destruct (check_elects c m H) as (z & Hz & Hi & Hm), (check_elects c' m' H') as (z' & Hz' & Hi' & Hm').
  assert (z' = z) as ->; [|by exists z]. apply Z.le_antisymm; [apply Hm'; by apply He | apply Hm; by apply He].
Qed.

(** ** Examples *)
Definition ex_config : config := Config 0 5 1 (Some 3) 60 2 true (Seconds 0).
Definition ex_member : member := Member "b:1" JNull 1.
Definition up_at (t : Q) : answer := Answer (Reply [("pipeline_health", JStr "ok")]) t t.
Definition degraded_at (t : Q) : answer := Answer (Reply [("pipeline_health", JStr "degraded")]) t t.
Definition busy_at (t : Q) : answer := Answer (Reply [("error", JStr "busy")]) t t.
Definition lost_at (t : Q) : answer := Answer (Failed Timeout) t t.
Definition ex_peer (h : list answer) : row := history ex_config (_new_row ex_member) h.

(** Three failures in a row and fifteen seconds make a peer down. *)
Definition ex_history : list answer := [up_at 0; lost_at 5; lost_at 10; lost_at 15; lost_at 20].


(** Three changes within a minute are flapping, until a minute without one. *)
Definition ex_flaps : list answer := [up_at 0; degraded_at 5; up_at 10; up_at 65; up_at 70].

Lemma flapping_iff_witness : since (bursts ex_config ex_member) (restless ex_config ex_member) (take 4 ex_flaps) /\
  ~ since (bursts ex_config ex_member) (restless ex_config ex_member) ex_flaps.
Proof.
  assert (ticking (take 4 ex_flaps) /\ ticking ex_flaps) as [T1 T2] by (split; repeat constructor).
  assert (plain_history (take 4 ex_flaps) /\ plain_history ex_flaps) as [H1 H2] by (split; repeat constructor).
  split; [apply (flapping_iff ex_config ex_member _ eq_refl H1 T1) | rewrite <-(proj2 (flapping_iff ex_config ex_member _ eq_refl H2 T2))];
    vm_compute; done.
Defined.

Definition ex_monitor : monitor := init ex_config [("b:1", ex_member); ("c:2", Member "c:2" JNull 2)].

Lemma ex_plain : all_rows plain_row ex_monitor.
Proof. repeat constructor; by eexists. Qed.

Lemma ex_silent : all_rows (fun r => alive (lf r) = false) ex_monitor.
Proof. repeat constructor. Qed.

Definition ex_actions : list action :=
  [Polled "c:2" (up_at 0); Polled "b:1" (up_at 1); Elect; Polled "b:1" (lost_at 6); Polled "c:2" (degraded_at 6); Elect].


Lemma monitor_survives_witness : rounds (_poll_loop ex_config [[up_at 0; up_at 0]; [lost_at 5; busy_at 5]] ex_monitor).1.1 = 2.
Proof.
  pose proof (monitor_survives ex_config [[up_at 0; up_at 0]; [lost_at 5; busy_at 5]] ex_monitor ex_plain ltac:(repeat constructor)) as H.
  destruct (_poll_loop _ _ _) as [[m' notes] x]. destruct H as (_ & H & _). exact H.
Defined.

(** Stations 0 and 1 see each other and agree on 0. *)
Definition ex_config1 : config := Config 1 5 1 (Some 3) 60 2 true (Seconds 0).
Definition ex_station0 : monitor := (run ex_config [Polled "b:1" (up_at 0)] (init ex_config [("b:1", ex_member)])).1.
Definition ex_station1 : monitor := (run ex_config1 [Polled "a:0" (up_at 0)] (init ex_config1 [("a:0", Member "a:0" JNull 0)])).1.

Lemma coordinators_agree_witness : exists z,
  coordinator_id (_check_coordinator ex_config ex_station0).1.1 = JInt z /\ coordinator_id (_check_coordinator ex_config1 ex_station1).1.1 = JInt z.
Proof.
  assert (exists r0 r1, peer_table ex_station0 = [("b:1", r0)] /\ peer_table ex_station1 = [("a:0", r1)] /\
    healthy r0 = true /\ healthy r1 = true /\ peer_id (rp r0) = JInt 1 /\ peer_id (rp r1) = JInt 0) as (r0 & r1 & T0 & T1 & H0 & H1 & P0 & P1).
  { vm_compute. eexists _, _. split_and!; reflexivity. }
  assert (int_ids ex_station0 /\ int_ids ex_station1) as [I0 I1].
  { unfold int_ids, all_rows. rewrite T0, T1. repeat split; [repeat constructor; by eexists | by eexists | repeat constructor; by eexists | by eexists]. }
  destruct (coordinators_agree ex_config ex_config1 ex_station0 ex_station1 I0 I1) as (z & Hz & Hz' & _); [|by exists z].
  intros z. unfold electorate. rewrite T0, T1. cbn. split.
  - intros [->|(_ & k & r & [= -> ->]%list_elem_of_singleton & _ & Hz)]; [right | left; congruence]. split; [done|].
    exists "a:0", r1. split; [by apply list_elem_of_singleton | done].
  - intros [->|(_ & k & r & [= -> ->]%list_elem_of_singleton & _ & Hz)]; [right | left; congruence]. split; [done|].
    exists "b:1", r0. split; [by apply list_elem_of_singleton | done].
Defined.

(** *** Departures *)

(** A reply with a number that [float] cannot represent, or with a list where the
    health is expected, ends the polling thread; after the latter the peer is alive
    although no event said so. *)
Lemma odd_reply_ends_monitor :
  let bad_age := Answer (Reply [("snapshot_age_sec", JInt (10 ^ 400)); ("stale_after_sec", JInt 1)]) 0 0 in
  let bad_health := Answer (Reply [("pipeline_health", JArr [])]) 0 0 in
  (_poll_loop ex_config [[bad_age; up_at 0]; [up_at 5; up_at 5]] ex_monitor).2 = Some OverflowError /\
  let '(m, notes, raised) := _poll_loop ex_config [[bad_health; up_at 0]; [up_at 5; up_at 5]] ex_monitor in
  raised = Some TypeError /\ notes = [] /\ is_alive m "b:1".
Proof. split; [by vm_compute|]. vm_compute. split_and!; [done | done |]. by eexists. Qed.

(** An answer that says busy does not end a series of failures: after a busy answer
    one failed poll makes the peer down, where three in a row are asked for. *)
Lemma busy_counts_on : alive (lf (ex_peer [up_at 0; lost_at 5; lost_at 10; busy_at 15; lost_at 31])) = false /\
  alive (lf (ex_peer [up_at 0; up_at 5; up_at 10; busy_at 15; lost_at 31])) = true.
Proof. by vm_compute. Qed.
End Health.
