(* ===== verification/SignalScheduler.v ===== *)
(** * The signal scheduler ([_daq_core/signal_scheduler.py])

    The frequency-hopping state machine that [hw_controller] ticks once per
    frame, schedule-state persistence, and the INI and JSON parsers.  The
    database is an interface ([ScheduleStore]); a Python float duration is
    exact. *)
From S2P Require Import Prelude PyStruct PyText PyJson IQHeader.
From Stdlib Require Import Ascii.

Module Sig.

(** What the optional database offers: [put] may raise, [get] returns the raw
    value, which may or may not hold a JSON document. *)
Inductive raw := RawJson (j : json) | RawGarbage.

Class ScheduleStore (D : Type) := {
  put_schedule_state : D -> json -> res D;
  get_schedule_state : D -> res (option raw) }.

(** The law the scheduler relies on when it resumes after a restart. *)
Class ScheduleStoreOk (D : Type) `{ScheduleStore D} :=
  get_put : forall d j d',
    put_schedule_state d j = Ok d' -> get_schedule_state d' = Ok (Some (RawJson j)).

(** ** Data *)
Record entry := Entry {
  frequency : Z;
  gains : json;                     (* list of tenths of dB, or None *)
  dwell_frames : Z;
  require_cal : json;
  dwell_time_sec : option pynum }.

Record schedule := Schedule {
  name : json;
  entries : list entry;
  repeat_mode : json;
  active : bool;
  current_index : nat;
  frames_at_current : Z }.

Inductive sstate := STATE_IDLE | STATE_DWELLING | STATE_WAITING_CAL.

#[export] Instance sstate_eq_dec : EqDecision sstate.
Proof. solve_decision. Defined.

Inductive command := FREQ (hz : Z) | GAIN (g : json).

Section Scheduler.
Context {D : Type} `{ScheduleStore D}.

Record t := mk {
  sample_rate : Z;
  cpi_size : Z;
  decimation_ratio : Z;
  db : option D;
  sched : option schedule;
  state : sstate;
  max_cal_wait_frames : Z;
  cal_wait_counter : Z;
  _pingpong_forward : bool;
  _pending_retune : bool }.

Definition init (sample_rate cpi_size decimation_ratio : Z) (db : option D) : t :=
  mk sample_rate cpi_size decimation_ratio db None STATE_IDLE 500 0 true false.

(** ** Record updates *)
Definition set_db (d : option D) (s : t) : t :=
  mk (sample_rate s) (cpi_size s) (decimation_ratio s) d (sched s) (state s)
     (max_cal_wait_frames s) (cal_wait_counter s) (_pingpong_forward s) (_pending_retune s).
Definition set_sched (c : option schedule) (s : t) : t :=
  mk (sample_rate s) (cpi_size s) (decimation_ratio s) (db s) c (state s)
     (max_cal_wait_frames s) (cal_wait_counter s) (_pingpong_forward s) (_pending_retune s).
Definition set_state (x : sstate) (s : t) : t :=
  mk (sample_rate s) (cpi_size s) (decimation_ratio s) (db s) (sched s) x
     (max_cal_wait_frames s) (cal_wait_counter s) (_pingpong_forward s) (_pending_retune s).
Definition set_cal_wait (n : Z) (s : t) : t :=
  mk (sample_rate s) (cpi_size s) (decimation_ratio s) (db s) (sched s) (state s)
     (max_cal_wait_frames s) n (_pingpong_forward s) (_pending_retune s).
Definition set_forward (b : bool) (s : t) : t :=
  mk (sample_rate s) (cpi_size s) (decimation_ratio s) (db s) (sched s) (state s)
     (max_cal_wait_frames s) (cal_wait_counter s) b (_pending_retune s).
Definition set_retune (b : bool) (s : t) : t :=
  mk (sample_rate s) (cpi_size s) (decimation_ratio s) (db s) (sched s) (state s)
     (max_cal_wait_frames s) (cal_wait_counter s) (_pingpong_forward s) b.

Definition set_active (b : bool) (c : schedule) : schedule :=
  Schedule (name c) (entries c) (repeat_mode c) b (current_index c) (frames_at_current c).
Definition set_index (i : nat) (c : schedule) : schedule :=
  Schedule (name c) (entries c) (repeat_mode c) (active c) i (frames_at_current c).
Definition set_frames (n : Z) (c : schedule) : schedule :=
  Schedule (name c) (entries c) (repeat_mode c) (active c) (current_index c) n.
Definition set_dwell (n : Z) (e : entry) : entry :=
  Entry (frequency e) (gains e) n (require_cal e) (dwell_time_sec e).

(** ** Operations *)

(** [max(1, int(round(float(seconds) / frame_time)))] *)
Definition frames_for_seconds (s : t) (seconds : pynum) : res Z :=
  if sample_rate s =? 0 then Raise ZeroDivisionError
  else if cpi_size s * decimation_ratio s =? 0 then Raise ZeroDivisionError
  else
    let frame_time := (inject_Z (cpi_size s * decimation_ratio s) / inject_Z (sample_rate s))%Q in
    match seconds with
    | NaN => Raise ValueError
    | PInf | NInf => Raise OverflowError
    | Fin q => Ok (Z.max 1 (Qround_even (q / frame_time)))
    end.

Definition _persist_state (s : t) : t :=
  match db s with
  | None => s
  | Some d =>
      let doc := match sched s with
        | None => JObj [("name", JNull); ("current_index", JInt 0); ("active", JBool false)]
        | Some c => JObj [("name", name c); ("current_index", JInt (Z.of_nat (current_index c)));
                          ("active", JBool (active c))]
        end in
      match put_schedule_state d doc with
      | Ok d' => set_db (Some d') s
      | Raise _ => s                       (* logged *)
      end
  end.

(** [isinstance(idx, int) and 0 <= idx < n] ([True] and [False] are ints). *)
Definition index_in (idx : json) (n : nat) : option nat :=
  match match idx with JInt z => Some z | JBool b => Some (if b then 1 else 0) | _ => None end with
  | Some z => if (0 <=? z) && (z <? Z.of_nat n) then Some (Z.to_nat z) else None
  | None => None
  end.

Definition _restore_state (s : t) : t :=
  match db s, sched s with
  | Some d, Some c =>
      match get_schedule_state d with
      | Ok (Some (RawJson (JObj doc))) =>
          let idx := get_or "current_index" (JInt 0) doc in
          if py_eqb (get_null "name" doc) (name c) && truthy (get_or "active" (JBool false) doc)
          then match index_in idx (length (entries c)) with
               | Some i => set_retune true (set_sched (Some (set_index i c)) s)
               | None => s
               end
          else s
      | _ => s                             (* absent, or logged *)
      end
  | _, _ => s
  end.

(** [load_schedule]: an empty schedule is ignored; a conversion that raises
    leaves the scheduler as it was; a name that is not a string raises after
    the schedule was installed. *)
Definition load_schedule (s : t) (c : schedule) : t * option exc :=
  match entries c with
  | [] => (s, None)
  | _ =>
      match res_mapM (fun e => match dwell_time_sec e with
                               | Some sec => n ← frames_for_seconds s sec; Ok (set_dwell n e)
                               | None => Ok e
                               end) (entries c) with
      | Raise x => (s, Some x)
      | Ok es =>
          let c := Schedule (name c) es (repeat_mode c) true 0 0 in
          let s := set_retune false (set_forward true (set_cal_wait 0
                     (set_state STATE_WAITING_CAL (set_sched (Some c) s)))) in
          let s := _restore_state s in
          match fmt_s (name c) with
          | Raise x => (s, Some x)
          | Ok _ => (_persist_state s, None)
          end
      end
  end.

Definition clear_schedule (s : t) : t :=
  _persist_state (set_retune false (set_cal_wait 0 (set_state STATE_IDLE (set_sched None s)))).

(** [_advance_index]: the schedule and the pingpong direction. *)
Definition _advance_index (c : schedule) (forward : bool) : schedule * bool :=
  let i := current_index c in
  let n := length (entries c) in
  match repeat_mode c with
  | JStr "loop" => (set_index ((i + 1) mod n) c, forward)
  | JStr "once" =>
      if bool_decide (i < n - 1)%nat then (set_index (i + 1) c, forward)
      else (set_active false c, forward)
  | JStr "pingpong" =>
      if forward then
        if bool_decide (i < n - 1)%nat then (set_index (i + 1) c, forward)
        else if bool_decide (0 < i)%nat then (set_index (i - 1) c, false)
        else (set_active false c, false)
      else
        if bool_decide (0 < i)%nat then (set_index (i - 1) c, forward)
        else if bool_decide (i < n - 1)%nat then (set_index (i + 1) c, true)
        else (set_active false c, true)
  | _ => (c, forward)
  end.

Definition skip_to_next (s : t) : t :=
  match sched s with
  | None => s
  | Some c =>
      if negb (active c) then s
      else
        let '(c', f) := _advance_index c (_pingpong_forward s) in
        _persist_state (set_cal_wait 0 (set_state STATE_WAITING_CAL
          (set_forward f (set_sched (Some (set_frames 0 c')) s))))
  end.

Definition _do_transition (c : schedule) (s : t) : t * res (option command) :=
  let '(c', f) := _advance_index c (_pingpong_forward s) in
  let s := set_forward f s in
  if negb (active c') then
    let s := set_state STATE_IDLE (set_sched (Some c') s) in
    match fmt_s (name c') with
    | Raise x => (s, Raise x)
    | Ok _ => (_persist_state s, Ok None)
    end
  else
    match entries c' !! current_index c' with
    | None => (set_sched (Some c') s, Raise IndexError)
    | Some e =>
        (_persist_state (set_cal_wait 0 (set_state STATE_WAITING_CAL
           (set_sched (Some (set_frames 0 c')) s))), Ok (Some (FREQ (frequency e))))
    end.

Definition tick (s : t) (iq_header : Hdr.t) : t * res (option command) :=
  match sched s with
  | None => (s, Ok None)
  | Some c =>
      if negb (active c) then (s, Ok None)
      else if bool_decide (state s = STATE_IDLE) then (s, Ok None)
      else if Hdr.noise_source_state iq_header =? 1 then (s, Ok None)
      else
        match entries c !! current_index c with
        | None => (s, Raise IndexError)
        | Some e =>
            if _pending_retune s then
              (set_cal_wait 0 (set_state STATE_WAITING_CAL
                 (set_sched (Some (set_frames 0 c)) (set_retune false s))),
               Ok (Some (FREQ (frequency e))))
            else match state s with
            | STATE_WAITING_CAL =>
                let s := set_cal_wait (cal_wait_counter s + 1) s in
                if negb (truthy (require_cal e)) || (6 <=? Hdr.sync_state iq_header) then
                  (set_cal_wait 0 (set_sched (Some (set_frames 0 c))
                     (set_state STATE_DWELLING s)), Ok None)
                else if max_cal_wait_frames s <=? cal_wait_counter s then _do_transition c s
                else (s, Ok None)
            | STATE_DWELLING =>
                let c := if Hdr.frame_type iq_header =? 0
                         then set_frames (frames_at_current c + 1) c else c in
                let s := set_sched (Some c) s in
                if dwell_frames e <=? frames_at_current c then _do_transition c s
                else (s, Ok None)
            | STATE_IDLE => (s, Ok None)
            end
        end
  end.

Definition get_pending_gain (s : t) : res (option command) :=
  match sched s with
  | None => Ok None
  | Some c =>
      if negb (active c) then Ok None
      else match entries c !! current_index c with
           | None => Raise IndexError
           | Some e => Ok (if is_null (gains e) then None else Some (GAIN (gains e)))
           end
  end.

(** [get_status]: state, active flag and, with a schedule, the current entry. *)
Definition get_status (s : t) : res (sstate * bool * option (schedule * entry * Z)) :=
  match sched s with
  | None => Ok (state s, false, None)
  | Some c =>
      match entries c !! current_index c with
      | None => Raise IndexError
      | Some e => Ok (state s, active c, Some (c, e, cal_wait_counter s))
      end
  end.

End Scheduler.
Arguments t D : clear implicits.

(** ** Parsers *)
Module ScheduleParser.

(** The value of one JSON entry. *)
Definition entry_of_json (entry_data : json) : res entry :=
  match entry_data with
  | JObj d =>
      let dwell_sec := get_null "dwell_time_sec" d in
      match dict_get "frequency" d with
      | None => Raise KeyError
      | Some f =>
          freq ← py_int f;
          dwell ← py_int (get_or "dwell_frames" (JInt 100) d);
          sec ← (if is_null dwell_sec then Ok None else x ← py_float dwell_sec; Ok (Some x));
          Ok (Entry freq (get_null "gains" d) dwell (get_or "require_cal" (JBool true) d) sec)
      end
  | _ => Raise AttributeError
  end.

(** [ScheduleParser.from_json] after [json.loads]. *)
Definition from_json (data : json) : res schedule :=
  match data with
  | JObj d =>
      match get_or "entries" (JArr []) d with
      | JArr l =>
          es ← res_mapM entry_of_json l;
          Ok (Schedule (get_or "name" (JStr "json_schedule") d) es
                (get_or "repeat_mode" (JStr "loop") d) true 0 0)
      | JObj [] => Ok (Schedule (get_or "name" (JStr "json_schedule") d) []
                (get_or "repeat_mode" (JStr "loop") d) true 0 0)
      | JStr s => if bool_decide (s = "")
                  then Ok (Schedule (get_or "name" (JStr "json_schedule") d) []
                             (get_or "repeat_mode" (JStr "loop") d) true 0 0)
                  else Raise AttributeError
      | JObj _ => Raise AttributeError
      | _ => Raise TypeError
      end
  | _ => Raise AttributeError
  end.

(** One INI section: option name to text. *)
Abbreviation section := (gmap string string).

Definition opt (sec : section) (key fallback : string) : string := default fallback (sec !! key).

Definition ints (l : list chars) : res (list Z) :=
  res_mapM (fun x => match int_of_chars (strip x) with Some z => Ok z | None => Raise ValueError end) l.

Definition floats (l : list chars) : res (list pynum) :=
  res_mapM (fun x => match float_of_chars (strip x) with Some f => Ok f | None => Raise ValueError end) l.

(** [while len(l) < n: l.append(l[-1] if l else dflt)] *)
Definition pad_last {A} (n : nat) (dflt : A) (l : list A) : list A :=
  l ++ replicate (n - length l) (default dflt (head (reverse l))).

(** ['g0,g1;g0,g1;...']: an empty group is [None]. *)
Definition gain_groups (l : list chars) : res (list json) :=
  res_mapM (fun g => match strip g with
                     | [] => Ok JNull
                     | g => zs ← ints (split_on ","%char g); Ok (JArr (map JInt zs))
                     end) l.

(** [ConfigParser.getboolean] *)
Definition getboolean (text : string) : res bool :=
  let w := of_chars (map lower (to_chars text)) in
  if bool_decide (w = "1" \/ w = "yes" \/ w = "true" \/ w = "on") then Ok true
  else if bool_decide (w = "0" \/ w = "no" \/ w = "false" \/ w = "off") then Ok false
  else Raise ValueError.

Definition blank (s : string) : bool := match strip (to_chars s) with [] => true | _ => false end.

Definition from_ini_section (parser : option section) : res (option schedule) :=
  match parser with
  | None => Ok None
  | Some sec =>
      let freq_str := opt sec "frequencies" "" in
      if blank freq_str then Ok None
      else
        frequencies ← ints (split_on ","%char (to_chars freq_str));
        let n := length frequencies in
        let dwell_str := opt sec "dwell_frames" "" in
        dwell ← (if blank dwell_str then Ok (replicate n 100)
                 else ints (split_on ","%char (to_chars dwell_str)));
        let dwell := pad_last n 100 dwell in
        let dwell_sec_str := opt sec "dwell_time_sec" "" in
        times ← (if blank dwell_sec_str then Ok []
                 else l ← floats (split_on ","%char (to_chars dwell_sec_str));
                      Ok (pad_last n NaN l));
        let gains_str := opt sec "gains" "" in
        gains_list ← (if blank gains_str then Ok []
                      else gain_groups (split_on ";"%char (to_chars gains_str)));
        require_cal ← getboolean (opt sec "require_cal_on_hop" "true");
        let es := imap (fun i f =>
                    Entry f (default JNull (gains_list !! i)) (default 100 (dwell !! i))
                      (JBool require_cal) (times !! i)) frequencies in
        Ok (Some (Schedule (JStr (opt sec "schedule_name" "ini_schedule")) es
                    (JStr (opt sec "repeat_mode" "loop")) true 0 0))
  end.

End ScheduleParser.

(** ** Lemmas on the pieces *)

(** Closed form of the positions a repeat mode visits: [n] entries, [k] hops
    from entry 0. *)
Definition loop_pos (n k : nat) : nat := (k mod n)%nat.
Definition pingpong_pos (n k : nat) : nat :=
  let m := (k mod (2 * (n - 1)))%nat in
  if bool_decide (m < n)%nat then m else (2 * (n - 1) - m)%nat.

Fixpoint advance_n (k : nat) (c : schedule) (forward : bool) : schedule * bool :=
  match k with
  | O => (c, forward)
  | S k => let '(c', f') := advance_n k c forward in _advance_index c' f'
  end.

(** The schedule part of the invariant. *)
Definition sched_ok (c : schedule) : Prop :=
  (current_index c < length (entries c))%nat /\ 0 <= frames_at_current c.

Lemma advance_index_frame c f c' f' :
  _advance_index c f = (c', f') ->
  entries c' = entries c /\ name c' = name c /\ repeat_mode c' = repeat_mode c /\
  frames_at_current c' = frames_at_current c.
Proof.
  unfold _advance_index. intros H. repeat case_hyp H; by injection H as <- <-.
Qed.

Lemma advance_index_range c f c' f' :
  sched_ok c -> _advance_index c f = (c', f') -> sched_ok c'.
Proof.
  intros [Hi Hf] H. pose proof (advance_index_frame _ _ _ _ H) as (He & _ & _ & Hfr).
  split; [|by rewrite Hfr]. rewrite He. clear He Hfr.
  unfold _advance_index in H.
  repeat case_hyp H; bool_prop; injection H as <- <-; cbn [current_index set_index set_active];
    try lia. apply Nat.mod_upper_bound. lia.
Qed.

Lemma index_in_range idx n i : index_in idx n = Some i -> (i < n)%nat.
Proof.
  unfold index_in. intros Hi.
  assert (forall z, (if (0 <=? z) && (z <? Z.of_nat n) then Some (Z.to_nat z) else None) = Some i ->
            (i < n)%nat) as Hz.
  { intros z Hz. case_hyp Hz; simplify_eq. bool_prop. lia. }
  destruct idx; eauto; try done.
Qed.

Section Props.
Context {D : Type} `{ScheduleStore D}.
Implicit Types s : t D.

Lemma persist_frame s :
  sched (_persist_state s) = sched s /\ state (_persist_state s) = state s /\
  cal_wait_counter (_persist_state s) = cal_wait_counter s /\
  max_cal_wait_frames (_persist_state s) = max_cal_wait_frames s /\
  _pingpong_forward (_persist_state s) = _pingpong_forward s /\
  _pending_retune (_persist_state s) = _pending_retune s.
Proof. unfold _persist_state. repeat case_goal; auto 10. Qed.

Lemma restore_frame s c :
  sched s = Some c ->
  state (_restore_state s) = state s /\ cal_wait_counter (_restore_state s) = cal_wait_counter s /\
  max_cal_wait_frames (_restore_state s) = max_cal_wait_frames s /\
  exists i, sched (_restore_state s) = Some (set_index i c) /\
            (i = current_index c \/ (i < length (entries c))%nat).
Proof.
  intros Hs. unfold _restore_state. rewrite Hs.
  assert (exists i, Some c = Some (set_index i c) /\
                    (i = current_index c \/ (i < length (entries c))%nat)) as Hid
    by (exists (current_index c); split; [by destruct c|auto]).
  repeat case_goal; rewrite ?Hs; split_and!; auto.
  cbn [sched set_retune set_sched]. eexists. split; [done|]. right.
  by eapply index_in_range.
Qed.
(** ** The invariant and the operations as steps *)
Record inv s : Prop := {
  inv_sched : match sched s with
              | None => state s = STATE_IDLE
              | Some c => sched_ok c /\ (active c = true -> state s <> STATE_IDLE)
              end;
  inv_wait : 0 <= cal_wait_counter s /\
             (state s <> STATE_IDLE -> cal_wait_counter s < max_cal_wait_frames s);
  inv_max : 0 < max_cal_wait_frames s }.

Inductive op := OLoad (c : schedule) | OClear | OSkip | OTick (h : Hdr.t).

Definition step (s : t D) (o : op) : t D * res (option command) :=
  match o with
  | OLoad c => let '(s', e) := load_schedule s c in
               (s', match e with Some x => Raise x | None => Ok None end)
  | OClear => (clear_schedule s, Ok None)
  | OSkip => (skip_to_next s, Ok None)
  | OTick h => tick s h
  end.

Definition run (s : t D) (os : list op) : t D := foldl (fun s o => (step s o).1) s os.

Lemma persist_inv s : inv s -> inv (_persist_state s).
Proof.
  intros [Hs Hw Hm]. pose proof (persist_frame s) as (E1 & E2 & E3 & E4 & _).
  by constructor; rewrite ?E1, ?E2, ?E3, ?E4.
Qed.

Lemma do_transition_inv c s :
  sched_ok c -> 0 <= cal_wait_counter s -> 0 < max_cal_wait_frames s ->
  inv (_do_transition c s).1.
Proof.
  intros Hc Hw Hm. unfold _do_transition.
  destruct (_advance_index c (_pingpong_forward s)) as [c' f] eqn:Ha.
  pose proof (advance_index_range _ _ _ _ Hc Ha) as Hc'.
  destruct (active c') eqn:Hact; cbn [negb].
  - destruct (lookup_lt_is_Some_2 (entries c') (current_index c')) as [e He]; [apply Hc'|].
    rewrite He. apply persist_inv. constructor; cbn; [|lia|done].
    split; [|done]. destruct Hc'. split; cbn; [done|lia].
  - assert (inv (set_state STATE_IDLE (set_sched (Some c') (set_forward f s)))) as Hi.
    { constructor; cbn; [split; [done|congruence]|split; [lia|done]|done]. }
    destruct (fmt_s (name c')); [by apply persist_inv|done].
Qed.

Lemma tick_inv s h : inv s -> inv (tick s h).1.
Proof.
  intros Hinv. pose proof Hinv as [Hs [Hw Hw'] Hm]. unfold tick.
  destruct (sched s) as [c|] eqn:Hc; [|done]. destruct Hs as [Hok Hact].
  destruct (active c) eqn:Ha; cbn [negb]; [|done]. specialize (Hact eq_refl).
  case_bool_decide; [done|]. case_goal; [done|].
  destruct (lookup_lt_is_Some_2 (entries c) (current_index c)) as [e ->]; [apply Hok|].
  assert (forall n, 0 <= n -> sched_ok (set_frames n c)) as Hfr
    by (intros n Hn; destruct Hok; by split).
  specialize (Hw' Hact). destruct Hok as [Hi Hf].
  destruct (_pending_retune s).
  { constructor; cbn; [|lia|done]. split; [by apply Hfr|done]. }
  destruct (state s) eqn:Hst; [done| |].
  - set (c' := if Hdr.frame_type h =? 0 then set_frames (frames_at_current c + 1) c else c).
    assert (sched_ok c') as Hok' by (unfold c'; case_goal; [apply Hfr; lia|done]).
    case_goal; [by apply do_transition_inv; cbn; auto|].
    constructor; cbn; [|rewrite Hst; lia|done]. rewrite Hst. done.
  - case_goal; [constructor; cbn; [split; [by apply Hfr|done]|lia|done]|].
    case_goal; [apply do_transition_inv; cbn; [by split|lia|done]|]. cbn in *. bool_prop.
    constructor; cbn; rewrite ?Hc, ?Hst; [done|lia|done].
Qed.

Lemma load_inv s c : inv s -> inv (load_schedule s c).1.
Proof.
  intros Hinv. unfold load_schedule. destruct (entries c) as [|e es] eqn:He; [done|].
  destruct (res_mapM _ _) as [es'|x] eqn:Hm; [|done].
  apply res_mapM_length in Hm.
  set (s1 := set_retune false (set_forward true (set_cal_wait 0 (set_state STATE_WAITING_CAL
    (set_sched (Some (Schedule (name c) es' (repeat_mode c) true 0 0)) s))))).
  assert (inv (_restore_state s1)) as Hi.
  { destruct (restore_frame s1 _ eq_refl) as (E1 & E2 & E3 & i & E4 & Hi).
    destruct Hinv as [_ _ Hmax].
    constructor; rewrite ?E1, ?E2, ?E3, ?E4; cbn; [|lia|done].
    split; [|done]. split; cbn in *; lia. }
  cbn [name]. destruct (fmt_s (name c)); [by apply persist_inv|done].
Qed.

Lemma skip_inv s : inv s -> inv (skip_to_next s).
Proof.
  intros Hinv. pose proof Hinv as [Hs [Hw Hw'] Hm]. unfold skip_to_next.
  destruct (sched s) as [c|] eqn:Hc; [|done]. destruct Hs as [Hok Hact].
  case_goal; [done|]. destruct (_advance_index c (_pingpong_forward s)) as [c' f] eqn:Ha.
  pose proof (advance_index_range _ _ _ _ Hok Ha) as [Hi Hf].
  apply persist_inv. constructor; cbn; [split; [by split|done]|lia|done].
Qed.

Lemma step_inv s o : inv s -> inv (step s o).1.
Proof.
  intros Hinv. destruct o; cbn [step].
  - pose proof (load_inv s c Hinv) as Hl. by destruct (load_schedule s c).
  - apply persist_inv. destruct Hinv as [_ _ Hm]. constructor; cbn; [done|lia|done].
  - by apply skip_inv.
  - by apply tick_inv.
Qed.

Lemma do_transition_raise c s x :
  sched_ok c -> (_do_transition c s).2 = Raise x -> fmt_s (name c) = Raise x.
Proof.
  intros Hok. unfold _do_transition. destruct (_advance_index c _) as [c' f] eqn:Ha.
  pose proof (advance_index_range _ _ _ _ Hok Ha) as [Hi' _].
  apply advance_index_frame in Ha as (_ & Hn' & _).
  case_goal; [rewrite Hn'; destruct (fmt_s (name c)); by intros [= ->]|].
  by destruct (lookup_lt_is_Some_2 _ _ Hi') as [e' ->].
Qed.

Lemma tick_raise s h x :
  inv s -> (tick s h).2 = Raise x -> exists c, sched s = Some c /\ fmt_s (name c) = Raise x.
Proof.
  intros [Hs _ _]. unfold tick. destruct (sched s) as [c|]; [|done]. destruct Hs as [Hok _].
  case_goal; [done|]. case_bool_decide; [done|]. case_goal; [done|].
  destruct (lookup_lt_is_Some_2 (entries c) (current_index c)) as [e ->]; [apply Hok|].
  destruct (_pending_retune s); [done|]. intros Hx. exists c. split; [done|]. revert Hx.
  destruct (state s); [done| |].
  - set (c' := if Hdr.frame_type h =? 0 then _ else c).
    assert (sched_ok c' /\ name c' = name c) as [Hok' Hn].
    { unfold c'. destruct Hok. case_goal; split; try done. split; cbn; [done|lia]. }
    case_goal; [|done]. rewrite <-Hn. by apply do_transition_raise.
  - case_goal; [done|]. case_goal; [|done]. by apply do_transition_raise.
Qed.

Lemma run_inv s os : inv s -> inv (run s os).
Proof.
  revert s; induction os as [|o os IH]; intros s Hs; [done|]. apply IH. by apply step_inv.
Qed.

Lemma init_inv sr cpi dec d : inv (init sr cpi dec d).
Proof. by constructor; cbn; [|lia|]. Qed.

(** Whatever sequence of loads, clears, skips and ticks the controller
    performs on a fresh scheduler, the current index stays inside the entry
    list, an active schedule is never idle and the calibration wait stays below
    its limit; so the status and pending-gain queries never raise, and a tick
    can raise only when the schedule's name is not a string. *)
Theorem scheduler_invariant sr cpi dec d os :
  let s := run (init sr cpi dec d) os in
  inv s /\ is_ok (get_status s) = true /\ is_ok (get_pending_gain s) = true /\
  forall h, match (tick s h).2 with
            | Ok _ => True
            | Raise x => exists c, sched s = Some c /\ fmt_s (name c) = Raise x
            end.
Proof.
  cbv zeta. pose proof (run_inv _ os (init_inv sr cpi dec d)) as Hinv.
  set (s := run _ _) in *. split; [done|]. split_and!.
  - destruct Hinv as [Hs _ _]. unfold get_status. destruct (sched s) as [c|]; [|done].
    destruct Hs as [[Hi _] _]. by destruct (lookup_lt_is_Some_2 _ _ Hi) as [e ->].
  - destruct Hinv as [Hs _ _]. unfold get_pending_gain. destruct (sched s) as [c|]; [|done].
    destruct Hs as [[Hi _] _]. destruct (lookup_lt_is_Some_2 _ _ Hi) as [e ->]. by case_goal.
  - intros h. case_goal; [done|]. by eapply tick_raise.
Qed.

(** ** Hop order *)
Lemma advance_n_frame k c f c' f' :
  advance_n k c f = (c', f') ->
  entries c' = entries c /\ repeat_mode c' = repeat_mode c /\ name c' = name c /\
  frames_at_current c' = frames_at_current c.
Proof.
  revert c' f'; induction k as [|k IH]; intros c' f'; cbn; [by intros [= <- <-]|].
  destruct (advance_n k c f) as [c1 f1] eqn:E. intros Ha.
  destruct (IH c1 f1 eq_refl) as (E1 & E2 & E3 & E4).
  apply advance_index_frame in Ha as (A1 & A2 & A3 & A4). split_and!; congruence.
Qed.

Lemma advance_index_frames n c f :
  _advance_index (set_frames n c) f =
  (set_frames n (_advance_index c f).1, (_advance_index c f).2).
Proof. unfold _advance_index. cbn. by repeat case_goal. Qed.

Lemma loop_pos_succ n k : (0 < n)%nat -> ((loop_pos n k + 1) mod n)%nat = loop_pos n (S k).
Proof.
  intros Hn. unfold loop_pos. rewrite Nat.Div0.add_mod_idemp_l. f_equal. lia.
Qed.

Lemma succ_mod_cases k p : (0 < p)%nat ->
  (S k mod p = if bool_decide (k mod p = p - 1) then 0 else S (k mod p))%nat.
Proof.
  intros Hp. pose proof (Nat.mod_upper_bound k p ltac:(lia)) as Hb.
  replace (S k) with (1 + k)%nat by lia. rewrite <-Nat.Div0.add_mod_idemp_r.
  case_bool_decide as E.
  - rewrite E. replace (1 + (p - 1))%nat with p by lia. apply Nat.Div0.mod_same.
  - rewrite Nat.mod_small by lia. lia.
Qed.

Lemma advance_pingpong c f n m :
  repeat_mode c = JStr "pingpong" -> length (entries c) = n -> (2 <= n)%nat ->
  (m < 2 * (n - 1))%nat -> active c = true ->
  current_index c = (if bool_decide (m < n) then m else 2 * (n - 1) - m)%nat ->
  ((1 <= m < n)%nat -> f = true) -> ((n <= m)%nat -> f = false) ->
  let m' := (if bool_decide (m = 2 * (n - 1) - 1) then 0 else S m)%nat in
  let '(c', f') := _advance_index c f in
  active c' = true /\
  current_index c' = (if bool_decide (m' < n) then m' else 2 * (n - 1) - m')%nat /\
  ((1 <= m' < n)%nat -> f' = true) /\ ((n <= m')%nat -> f' = false).
Proof.
  intros Hr Hn H2 Hm Ha Hi Hup Hdn. cbv zeta. unfold _advance_index. rewrite Hr, Hn, Hi.
  destruct f; repeat case_bool_decide; cbn [set_index set_active active current_index];
    split_and?; try done; try lia;
    try (specialize (Hup ltac:(lia)); done); try (specialize (Hdn ltac:(lia)); done).
Qed.

(** Hop order: starting at entry 0, after [k] hops the scheduler is at
    entry [k mod n] in loop mode, at entry [min k (n-1)] and finished after [n]
    hops in once mode, and at the triangle-wave position in pingpong mode
    (at least two entries), without ever becoming inactive there. *)
Theorem hop_order c k :
  let n := length (entries c) in
  let c' := (advance_n k c true).1 in
  (0 < n)%nat -> current_index c = 0%nat -> active c = true ->
  (repeat_mode c = JStr "loop" -> current_index c' = loop_pos n k /\ active c' = true) /\
  (repeat_mode c = JStr "once" ->
     current_index c' = Nat.min k (n - 1) /\ active c' = bool_decide (k < n)%nat) /\
  (repeat_mode c = JStr "pingpong" -> (2 <= n)%nat ->
     current_index c' = pingpong_pos n k /\ active c' = true).
Proof.
  cbv zeta. set (n := length (entries c)). intros Hn Hi Ha. split_and!.
  - intros Hr. induction k as [|k [IHi IHa]]; cbn [advance_n].
    { cbn. rewrite Hi. unfold loop_pos. by rewrite Nat.Div0.mod_0_l. }
    destruct (advance_n k c true) as [c1 f1] eqn:E. cbn [fst] in *.
    destruct (advance_n_frame _ _ _ _ _ E) as (He & Hm & _). unfold _advance_index.
    rewrite Hm, Hr. cbn. by rewrite He, IHi, loop_pos_succ.
  - intros Hr. induction k as [|k [IHi IHa]]; cbn [advance_n].
    { cbn. rewrite Hi, Ha. split; [lia|]. by rewrite bool_decide_eq_true_2. }
    destruct (advance_n k c true) as [c1 f1] eqn:E. cbn [fst] in *.
    destruct (advance_n_frame _ _ _ _ _ E) as (He & Hm & _). unfold _advance_index.
    rewrite Hm, Hr, He, IHi. fold n.
    destruct (bool_decide (Nat.min k (n - 1) < n - 1)%nat) eqn:Eb;
      [apply bool_decide_eq_true in Eb|apply bool_decide_eq_false in Eb];
      cbn [fst active current_index set_index set_active].
    + rewrite IHa. split; [lia|]. by rewrite !bool_decide_eq_true_2 by lia.
    + rewrite IHi. split; [lia|]. by rewrite bool_decide_eq_false_2 by lia.
  - intros Hr H2.
    assert (let '(c', f') := advance_n k c true in active c' = true /\
      current_index c' = pingpong_pos n k /\
      ((1 <= k mod (2 * (n - 1)) < n)%nat -> f' = true) /\
      ((n <= k mod (2 * (n - 1)))%nat -> f' = false)) as Hk.
    { induction k as [|k IH]; cbn [advance_n].
      - rewrite Nat.Div0.mod_0_l. unfold pingpong_pos. cbv zeta. rewrite Nat.Div0.mod_0_l, Hi, Ha.
        rewrite bool_decide_eq_true_2 by lia. split_and!; auto; lia.
      - destruct (advance_n k c true) as [c1 f1] eqn:E. destruct IH as (Ha1 & Hi1 & Hu & Hd).
        destruct (advance_n_frame _ _ _ _ _ E) as (He & Hm & _).
        pose proof (advance_pingpong c1 f1 n (k mod (2 * (n - 1)))) as Hstep.
        rewrite He, Hm in Hstep. specialize (Hstep Hr eq_refl H2).
        specialize (Hstep (Nat.mod_upper_bound k (2 * (n - 1)) ltac:(lia)) Ha1 Hi1 Hu Hd). cbv zeta in Hstep.
        unfold pingpong_pos. by rewrite succ_mod_cases by lia. }
    destruct (advance_n k c true) as [c' f']. cbn. tauto.
Qed.

(** ** The commands a run of ticks emits *)
Fixpoint ticks (s : t D) (hs : list Hdr.t) : t D * list Z :=
  match hs with
  | [] => (s, [])
  | h :: hs =>
      let '(s1, r) := tick s h in
      let '(s2, fs) := ticks s1 hs in
      (s2, match r with Ok (Some (FREQ f)) => f :: fs | _ => fs end)
  end.

(** The frequency of the [k]-th position of a schedule's hop sequence. *)
Definition freq_at (c0 : schedule) (k : nat) : Z :=
  match entries c0 !! current_index (advance_n k c0 true).1 with
  | Some e => frequency e
  | None => 0
  end.

(** The scheduler is [k] hops into [c0]. *)
Definition at_hop (c0 : schedule) (k : nat) (s : t D) : Prop :=
  _pending_retune s = false /\ _pingpong_forward s = (advance_n k c0 true).2 /\
  exists fr, sched s = Some (set_frames fr (advance_n k c0 true).1).

Lemma persist_at_hop c0 k s : at_hop c0 k s -> at_hop c0 k (_persist_state s).
Proof.
  unfold at_hop. pose proof (persist_frame s) as (E1 & _ & _ & _ & E2 & E3).
  by rewrite E1, E2, E3.
Qed.

Definition inactive (s : t D) : Prop := exists c, sched s = Some c /\ active c = false.

Lemma do_transition_hop c0 k fr s :
  _pending_retune s = false -> _pingpong_forward s = (advance_n k c0 true).2 ->
  sched_ok (set_frames fr (advance_n k c0 true).1) ->
  let '(s', r) := _do_transition (set_frames fr (advance_n k c0 true).1) s in
  match r with
  | Ok (Some (FREQ f)) =>
      at_hop c0 (S k) s' /\ f = freq_at c0 (S k) /\ active (advance_n (S k) c0 true).1 = true
  | Ok (Some (GAIN _)) => False
  | _ => inactive s'
  end.
Proof.
  intros Hp Hf Hok. unfold _do_transition. rewrite Hf.
  destruct (_advance_index (set_frames fr _) _) as [c2 f2] eqn:E2.
  pose proof (advance_index_range _ _ _ _ Hok E2) as [Hi _].
  rewrite advance_index_frames in E2.
  assert (_advance_index (advance_n k c0 true).1 (advance_n k c0 true).2
          = advance_n (S k) c0 true) as E3 by (cbn; by destruct (advance_n k c0 true)).
  rewrite E3 in E2. unfold freq_at, at_hop.
  destruct (advance_n (S k) c0 true) as [c1 f1] eqn:E. cbn [fst snd] in *. injection E2 as <- <-.
  pose proof (advance_n_frame _ _ _ _ _ E) as (He & _).
  assert (forall s0, inactive s0 -> inactive (_persist_state s0)) as Hper.
  { intros s0. unfold inactive. by rewrite (proj1 (persist_frame s0)). }
  cbn [active set_frames name entries current_index]. destruct (active c1) eqn:Ha; cbn [negb].
  - cbn in Hi. rewrite He in Hi |- *. destruct (lookup_lt_is_Some_2 _ _ Hi) as [e Hl]. rewrite Hl.
    split; [|done]. destruct (persist_frame (set_cal_wait 0 (set_state STATE_WAITING_CAL
       (set_sched (Some (set_frames 0 (set_frames fr c1))) (set_forward f1 s)))))
      as (E1 & _ & _ & _ & E4 & E5). rewrite E1, E4, E5. cbn. eauto.
  - assert (inactive (set_state STATE_IDLE (set_sched (Some (set_frames fr c1)) (set_forward f1 s))))
      by (eexists; by split).
    destruct (fmt_s (name c1)); auto.
Qed.

Lemma tick_hop c0 k s h :
  inv s -> at_hop c0 k s ->
  let '(s', r) := tick s h in
  match r with
  | Ok (Some (FREQ f)) =>
      at_hop c0 (S k) s' /\ f = freq_at c0 (S k) /\ active (advance_n (S k) c0 true).1 = true
  | Ok (Some (GAIN _)) => False
  | _ => at_hop c0 k s' \/ inactive s'
  end.
Proof.
  intros Hinv Hat. pose proof Hat as (Hp & Hf & fr & Hs). destruct Hinv as [Hi _ _].
  unfold tick. rewrite Hs, Hp in *. destruct Hi as [Hok _].
  assert (forall n c', at_hop c0 k c' -> at_hop c0 k (set_cal_wait n c')) as Hcw by done.
  case_goal; [by left|]. case_bool_decide; [by left|]. case_goal; [by left|].
  destruct (lookup_lt_is_Some_2 _ _ (proj1 Hok)) as [e ->].
  destruct (state s); [by left| |].
  - set (c' := if Hdr.frame_type h =? 0 then _ else _).
    assert (exists n, c' = set_frames n (advance_n k c0 true).1 /\ sched_ok c') as (n & -> & Hok').
    { unfold c'. destruct Hok as [? ?]. case_goal.
      - exists (fr + 1). split; [done|]. split; cbn in *; [done|lia].
      - exists fr. by split. }
    case_goal; [|left; unfold at_hop; cbn; eauto].
    pose proof (do_transition_hop c0 k n (set_sched (Some (set_frames n (advance_n k c0 true).1)) s)
      Hp Hf Hok') as Ht.
    destruct (_do_transition _ _) as [s' [[[]|]|]]; auto.
  - case_goal; [left; unfold at_hop; cbn; eauto|].
    case_goal; [|left; unfold at_hop; cbn; eauto].
    pose proof (do_transition_hop c0 k fr (set_cal_wait (cal_wait_counter s + 1) s) Hp Hf Hok) as Ht.
    destruct (_do_transition _ _) as [s' [[[]|]|]]; auto.
Qed.

Lemma tick_inactive s h : inactive s -> tick s h = (s, Ok None).
Proof. intros (c & Hs & Ha). unfold tick. by rewrite Hs, Ha. Qed.

Lemma ticks_inactive s hs : inactive s -> (ticks s hs).2 = [].
Proof.
  intros Hi. induction hs as [|h hs IH]; cbn; [done|].
  rewrite tick_inactive by done. by destruct (ticks s hs).
Qed.

Lemma ticks_hops c0 k s hs :
  inv s -> at_hop c0 k s ->
  let fs := (ticks s hs).2 in
  fs = map (freq_at c0) (seq (S k) (length fs)) /\
  Forall (fun i => active (advance_n i c0 true).1 = true) (seq (S k) (length fs)).
Proof.
  revert k s; induction hs as [|h hs IH]; intros k s Hinv Hat; cbn [ticks]; [by split; [|constructor]|].
  pose proof (tick_hop c0 k s h Hinv Hat) as Ht. pose proof (tick_inv s h Hinv) as Hinv'.
  destruct (tick s h) as [s1 r] eqn:Etick. cbn [fst] in Hinv'.
  assert (forall r', at_hop c0 k s1 \/ inactive s1 -> (ticks s1 hs).2 = r' ->
    r' = map (freq_at c0) (seq (S k) (length r')) /\
    Forall (fun i => active (advance_n i c0 true).1 = true) (seq (S k) (length r'))) as Hskip.
  { intros r' [Hat1|Hin] <-; [by apply IH|]. rewrite ticks_inactive by done. by split; [|constructor]. }
  destruct r as [[[f|g]|]|x]; [|done| |].
  - destruct Ht as (Hat1 & -> & Ha). destruct (IH (S k) s1 Hinv' Hat1) as [IH1 IH2].
    destruct (ticks s1 hs) as [s2 fs]. cbn [snd] in *. cbn [length seq map].
    split; [by f_equal|by constructor].
  - destruct (ticks s1 hs) as [s2 fs] eqn:E2. cbn [snd]. apply Hskip; [done|done].
  - destruct (ticks s1 hs) as [s2 fs] eqn:E2. cbn [snd]. apply Hskip; [done|done].
Qed.

Lemma load_at_hop s0 c s c0 :
  db s0 = None -> entries c <> [] -> load_schedule s0 c = (s, None) -> sched s = Some c0 ->
  at_hop c0 0 s /\ current_index c0 = 0%nat /\ active c0 = true /\ state s = STATE_WAITING_CAL /\
  length (entries c0) = length (entries c) /\ repeat_mode c0 = repeat_mode c.
Proof.
  intros Hdb Hne. unfold load_schedule. destruct (entries c) as [|e0 es0] eqn:Ee; [done|].
  destruct (res_mapM _ _) as [es|] eqn:Hm; [|done]. apply res_mapM_length in Hm.
  set (s1 := set_retune false _). assert (_restore_state s1 = s1) as -> by (unfold _restore_state; cbn; by rewrite Hdb).
  assert (_persist_state s1 = s1) as -> by (unfold _persist_state; cbn; by rewrite Hdb).
  cbn [name]. destruct (fmt_s (name c)); [|done]. intros [= <-] [= <-].
  split_and!; try done. unfold at_hop. cbn. split_and!; [done|done|]. by exists 0.
Qed.


(** ** Dwell time *)
Definition is_data (h : Hdr.t) : bool := Hdr.frame_type h =? 0.
Definition count_data (hs : list Hdr.t) : Z := Z.of_nat (length (filter (fun h => is_data h = true) hs)).
Definition quiet (h : Hdr.t) : Prop := Hdr.noise_source_state h <> 1.

Lemma count_data_cons h hs : count_data (h :: hs) = (if is_data h then 1 else 0) + count_data hs.
Proof.
  unfold count_data. rewrite filter_cons. destruct (is_data h); case_decide; try done; cbn [length]; lia.
Qed.

Lemma tick_dwelling s c e h :
  sched s = Some c -> active c = true -> state s = STATE_DWELLING -> _pending_retune s = false ->
  entries c !! current_index c = Some e -> quiet h ->
  let n := frames_at_current c + (if is_data h then 1 else 0) in
  tick s h = if dwell_frames e <=? n
             then _do_transition (set_frames n c) (set_sched (Some (set_frames n c)) s)
             else (set_sched (Some (set_frames n c)) s, Ok None).
Proof.
  intros Hs Ha Hst Hp He Hq. cbv zeta. unfold tick, is_data. rewrite Hs, Ha, Hst, He, Hp.
  rewrite bool_decide_eq_false_2 by done. rewrite (proj2 (Z.eqb_neq _ _)) by exact Hq. cbn [negb].
  destruct (Hdr.frame_type h =? 0); [done|].
  replace (frames_at_current c + 0) with (frames_at_current c) by lia. by destruct c.
Qed.

Lemma ticks_dwelling s c e hs :
  sched s = Some c -> active c = true -> state s = STATE_DWELLING -> _pending_retune s = false ->
  entries c !! current_index c = Some e -> Forall quiet hs ->
  frames_at_current c + count_data hs < dwell_frames e ->
  ticks s hs = (set_sched (Some (set_frames (frames_at_current c + count_data hs) c)) s, []).
Proof.
  intros Hs Ha Hst Hp He Hq. revert s c Hs Ha Hst Hp He; induction Hq as [|h hs Hh _ IH];
    intros s c Hs Ha Hst Hp He Hn; cbn [ticks].
  { change (count_data []) with 0. rewrite Z.add_0_r.
    f_equal. destruct s, c. cbn in *. by simplify_eq. }
  rewrite count_data_cons in Hn |- *. rewrite (tick_dwelling s c e h) by done.
  assert (0 <= count_data hs) by (unfold count_data; lia).
  rewrite (proj2 (Z.leb_gt _ _)) by lia.
  rewrite (IH _ (set_frames (frames_at_current c + (if is_data h then 1 else 0)) c)); try done;
    cbn [frames_at_current set_frames]; [|lia].
  f_equal. by rewrite Z.add_assoc.
Qed.

(** Dwell time: once dwelling on an entry, and with the noise source off,
    the scheduler issues no command until exactly [dwell_frames] DATA frames
    (frames of other types do not count) have arrived; the tick of that frame
    commands the next entry of the loop. *)
Theorem dwell_is_exact s c e e' hs h :
  sched s = Some c -> active c = true -> state s = STATE_DWELLING -> _pending_retune s = false ->
  repeat_mode c = JStr "loop" ->
  entries c !! current_index c = Some e ->
  entries c !! ((current_index c + 1) mod length (entries c))%nat = Some e' ->
  Forall quiet hs -> quiet h -> is_data h = true ->
  frames_at_current c + count_data hs + 1 = dwell_frames e ->
  (ticks s hs).2 = [] /\ (tick (ticks s hs).1 h).2 = Ok (Some (FREQ (frequency e'))).
Proof.
  intros Hs Ha Hst Hp Hr He He' Hq Hqh Hd Hn.
  rewrite (ticks_dwelling s c e hs) by (done || lia). split; [done|]. cbn [fst].
  erewrite tick_dwelling; [|reflexivity|done|done|done|exact He|done].
  cbn [frames_at_current set_frames]. rewrite Hd, (proj2 (Z.leb_le _ _)) by lia.
  unfold _do_transition, _advance_index. cbn [repeat_mode set_frames set_index active entries current_index].
  rewrite Hr. cbn [negb active set_index set_frames]. rewrite Ha. cbn [negb entries set_index set_frames current_index].
  by rewrite He'.
Qed.

(** ** Progress *)
Definition keeps_hopping (c : schedule) : Prop :=
  repeat_mode c = JStr "loop" \/ (repeat_mode c = JStr "pingpong" /\ (2 <= length (entries c))%nat).

(** Ticks left before the next hop at the latest. *)
Definition budget (s : t D) (e : entry) (c : schedule) : Z :=
  match state s with
  | STATE_WAITING_CAL => (max_cal_wait_frames s - cal_wait_counter s) + Z.max 1 (dwell_frames e)
  | _ => Z.max 1 (dwell_frames e - frames_at_current c)
  end.

Lemma keeps_hopping_active c f c' f' :
  keeps_hopping c -> sched_ok c -> active c = true -> _advance_index c f = (c', f') -> active c' = true.
Proof.
  intros [Hr|[Hr Hn]] [Hi _] Ha; unfold _advance_index; rewrite Hr.
  - by intros [= <- <-].
  - intros Hadv. repeat case_hyp Hadv; bool_prop; injection Hadv as <- <-; try done; lia.
Qed.

Lemma do_transition_emits c s :
  keeps_hopping c -> sched_ok c -> active c = true ->
  exists f, (_do_transition c s).2 = Ok (Some (FREQ f)).
Proof.
  intros Hk Hok Ha. unfold _do_transition. destruct (_advance_index c _) as [c' f'] eqn:E.
  rewrite (keeps_hopping_active _ _ _ _ Hk Hok Ha E). cbn [negb].
  destruct (advance_index_range _ _ _ _ Hok E) as [Hi _].
  destruct (lookup_lt_is_Some_2 _ _ Hi) as [e ->]. eauto.
Qed.

Lemma tick_progress s c e h :
  inv s -> sched s = Some c -> active c = true -> keeps_hopping c ->
  entries c !! current_index c = Some e -> quiet h -> is_data h = true ->
  let '(s', r) := tick s h in
  (exists f, r = Ok (Some (FREQ f))) \/
  (exists n, sched s' = Some (set_frames n c) /\ r = Ok None /\
             0 < budget s' e (set_frames n c) < budget s e c).
Proof.
  intros Hinv Hs Ha Hk He Hq Hd. destruct Hinv as [Hi [Hw Hw'] Hm]. rewrite Hs in Hi.
  destruct Hi as [Hok Hact]. specialize (Hact Ha). specialize (Hw' Hact).
  unfold budget, tick. rewrite Hs, Ha, He. rewrite bool_decide_eq_false_2 by done.
  rewrite (proj2 (Z.eqb_neq _ _)) by exact Hq. cbn [negb].
  destruct (_pending_retune s); [eauto|]. destruct (state s) eqn:Hst; [done| |].
  - unfold is_data in Hd. rewrite Hd. cbn [frames_at_current set_frames].
    destruct (Z.leb_spec (dwell_frames e) (frames_at_current c + 1)).
    + destruct (do_transition_emits (set_frames (frames_at_current c + 1) c)
        (set_sched (Some (set_frames (frames_at_current c + 1) c)) s)) as [f Hf]; try done.
      { destruct Hok. split; cbn; [done|lia]. }
      destruct (_do_transition _ _) as [s' r]. left. by exists f.
    + right. exists (frames_at_current c + 1). split_and!; [done|done| |];
        cbn; rewrite Hst; lia.
  - destruct (negb _ || _)%bool.
    + right. exists 0. split_and!; [done|done| |]; cbn; lia.
    + cbn [max_cal_wait_frames cal_wait_counter set_cal_wait].
      destruct (Z.leb_spec (max_cal_wait_frames s) (cal_wait_counter s + 1)).
      * destruct (do_transition_emits c (set_cal_wait (cal_wait_counter s + 1) s)) as [f Hf]; try done.
        destruct (_do_transition _ _) as [s' r]. left. by exists f.
      * right. exists (frames_at_current c). split_and!; [by destruct c|done| |];
          cbn; rewrite Hst; lia.
Qed.

(** Progress: an active loop schedule, or a pingpong schedule with at
    least two entries, always hops: whatever the calibration state reported,
    at the latest after the remaining calibration-wait budget plus the dwell of
    the current entry, counted in quiet DATA frames, a FREQ command is
    issued. *)
Theorem scheduler_progress s c e hs :
  inv s -> sched s = Some c -> active c = true -> keeps_hopping c ->
  entries c !! current_index c = Some e ->
  Forall quiet hs -> Forall (fun h => is_data h = true) hs ->
  budget s e c <= Z.of_nat (length hs) ->
  (ticks s hs).2 <> [].
Proof.
  intros Hinv Hs Ha Hk He Hq Hd. revert s c Hinv Hs Ha Hk He;
    induction hs as [|h hs IH]; intros s c Hinv Hs Ha Hk He Hb; cbn [ticks].
  { unfold budget in Hb. destruct Hinv as [_ [? Hw] Hm]. cbn in Hb.
    destruct (state s) eqn:E; try lia. specialize (Hw ltac:(done)). lia. }
  pose proof (Forall_inv Hq) as Hqh. pose proof (Forall_inv Hd) as Hdh.
  apply Forall_inv_tail in Hq, Hd.
  pose proof (tick_progress s c e h Hinv Hs Ha Hk He Hqh Hdh) as Ht.
  pose proof (tick_inv s h Hinv) as Hinv'. destruct (tick s h) as [s1 r]. cbn [fst] in Hinv'.
  destruct Ht as [[f ->]|(n & Hs1 & -> & Hlt)]; [by destruct (ticks s1 hs)|].
  specialize (IH Hq Hd s1 (set_frames n c) Hinv' Hs1 Ha Hk He ltac:(cbn in Hb; lia)).
  by destruct (ticks s1 hs).
Qed.

(** A skip moves the position but commands no retune: with calibration already
    in TRACK, the whole dwell of the new entry elapses without any command. *)
Lemma skip_dwells_without_retune s c c' f e h hs :
  sched s = Some c -> active c = true -> _pending_retune s = false ->
  _advance_index c (_pingpong_forward s) = (c', f) -> active c' = true ->
  entries c' !! current_index c' = Some e ->
  quiet h -> 6 <= Hdr.sync_state h -> Forall quiet hs -> count_data hs < dwell_frames e ->
  (ticks (skip_to_next s) (h :: hs)).2 = [].
Proof.
  intros Hs Ha Hp Hadv Ha' He Hq Hsync Hqs Hn. unfold skip_to_next. rewrite Hs, Ha. cbn [negb]. rewrite Hadv.
  match goal with |- context [_persist_state ?x] =>
    set (s1 := x); pose proof (persist_frame s1) as (E1 & E2 & _ & _ & _ & E6) end.
  cbn [ticks]. unfold tick at 1. rewrite E1, E2, E6. unfold s1 at 1. cbn [sched set_cal_wait set_state set_forward set_sched].
  cbn [active set_frames]. rewrite Ha'. cbn [negb state s1 set_cal_wait set_state]. rewrite bool_decide_eq_false_2 by done.
  rewrite (proj2 (Z.eqb_neq _ _)) by exact Hq. cbn [entries set_frames current_index]. rewrite He.
  unfold s1 at 1. cbn [_pending_retune set_cal_wait set_state set_forward set_sched]. rewrite Hp.
  rewrite (proj2 (Z.leb_le _ _)) by lia. rewrite orb_true_r.
  rewrite (ticks_dwelling _ (set_frames 0 (set_frames 0 c')) e hs); try done; [].
  cbn. by rewrite E6.
Qed.

(** ** Resuming after a restart *)
Section Restart.
Context `{!ScheduleStoreOk D}.
Hypothesis put_total : forall d j, exists d', put_schedule_state d j = Ok d'.

Definition state_doc (c : schedule) : json :=
  JObj [("name", name c); ("current_index", JInt (Z.of_nat (current_index c)));
        ("active", JBool (active c))].

(** The store holds the position of the active schedule. *)
Definition stored (s : t D) : Prop :=
  forall d c, db s = Some d -> sched s = Some c -> active c = true ->
    (exists n, name c = JStr n) /\ get_schedule_state d = Ok (Some (RawJson (state_doc c))).

Definition named (o : op) : Prop :=
  match o with OLoad c => exists n, name c = JStr n | _ => True end.

Lemma persist_stored s :
  (forall c, sched s = Some c -> active c = true -> exists n, name c = JStr n) -> stored (_persist_state s).
Proof.
  intros Hn d c Hd Hs Ha. pose proof (persist_frame s) as (E & _). rewrite E in Hs.
  split; [eauto|]. unfold _persist_state in Hd. destruct (db s) as [d0|] eqn:Hdb; [|congruence].
  rewrite Hs in Hd. fold (state_doc c) in Hd.
  destruct (put_total d0 (state_doc c)) as [d1 Hput]. rewrite Hput in Hd. cbn in Hd. simplify_eq.
  by eapply get_put.
Qed.

Lemma stored_frames s c n s' :
  stored s -> sched s = Some c -> db s' = db s -> sched s' = Some (set_frames n c) -> stored s'.
Proof.
  intros Hst Hs Hd Hs' d c' Hd' Hc' Ha. rewrite Hs' in Hc'. simplify_eq. rewrite Hd in Hd'.
  exact (Hst d c Hd' Hs Ha).
Qed.

Lemma do_transition_stored c s :
  (exists n, name c = JStr n) -> sched_ok c -> stored (_do_transition c s).1.
Proof.
  intros [n Hn] Hok. unfold _do_transition. destruct (_advance_index c _) as [c' f] eqn:Ha.
  destruct (advance_index_frame _ _ _ _ Ha) as (_ & Hn' & _). rewrite Hn in Hn'.
  destruct (advance_index_range _ _ _ _ Hok Ha) as [Hi _].
  destruct (lookup_lt_is_Some_2 _ _ Hi) as [e ->]. rewrite Hn'. cbn [fmt_s].
  destruct (negb (active c')); apply persist_stored; intros c0 [= <-] _; eauto.
Qed.

Lemma tick_stored s h : inv s -> stored s -> stored (tick s h).1.
Proof.
  intros Hinv Hst. pose proof Hinv as [Hs _ _]. unfold tick.
  destruct (sched s) as [c|] eqn:Hc; [|done]. destruct Hs as [Hok Hact].
  destruct (active c) eqn:Ha; cbn [negb]; [|done].
  case_bool_decide; [done|]. case_goal; [done|].
  destruct (lookup_lt_is_Some_2 (entries c) (current_index c)) as [e ->]; [apply Hok|].
  destruct (_pending_retune s); [by eapply stored_frames|].
  assert (db s = None \/ exists n, name c = JStr n) as Hn.
  { destruct (db s) as [d|] eqn:Hd; [right|by left]. by destruct (Hst d c Hd Hc Ha). }
  assert (forall c1 s1, sched_ok c1 -> name c1 = name c -> db s1 = db s -> stored (_do_transition c1 s1).1) as Ht.
  { intros c1 s1 Hok1 Hn1 Hd1. destruct Hn as [Hn|Hn]; [|apply do_transition_stored; [by rewrite Hn1|done]].
    intros d c2 Hd2. exfalso. revert Hd2. unfold _do_transition, _persist_state.
    destruct (_advance_index _ _). repeat case_goal; cbn in *; congruence. }
  destruct (state s) eqn:Hst'; [done| |].
  - destruct Hok as [Hi Hf]. case_goal.
    + case_goal; [apply Ht; [split; cbn; [done|lia]|done|done]|by eapply stored_frames].
    + case_goal; [apply Ht; [done|done|done]|].
      intros d c' Hd Hs'. cbn in Hs', Hd. rewrite <- Hc in Hs'. by apply Hst.
  - case_goal; [by eapply stored_frames|]. case_goal; [by apply Ht|].
    intros d c' Hd Hs'. by apply Hst.
Qed.

Lemma step_stored s o : named o -> inv s -> stored s -> stored (step s o).1.
Proof.
  intros Hn Hinv Hst. destruct o as [c| | |h]; cbn [step fst].
  - destruct Hn as [n Hn]. unfold load_schedule. destruct (entries c); [done|].
    destruct (res_mapM _ _) as [es|]; [|done]. cbn [name]. rewrite Hn. cbn [fmt_s fst].
    apply persist_stored. intros c' Hc' _.
    match type of Hc' with sched (_restore_state ?x) = _ =>
      destruct (restore_frame x _ eq_refl) as (_ & _ & _ & i & E & _) end.
    rewrite E in Hc'. simplify_eq. by exists n.
  - by apply persist_stored.
  - unfold skip_to_next. destruct (sched s) as [c|] eqn:Hc; [|done].
    destruct (active c) eqn:Ha; cbn [negb]; [|done].
    destruct (_advance_index c _) as [c' f] eqn:Hadv.
    destruct (advance_index_frame _ _ _ _ Hadv) as (_ & Hn' & _).
    destruct (db s) as [d|] eqn:Hd.
    + destruct (Hst d c Hd Hc Ha) as [[n Hn0] _].
      apply persist_stored. intros c0 [= <-] _. exists n. cbn. congruence.
    + intros d c0 Hd0. exfalso. revert Hd0. unfold _persist_state. cbn. rewrite Hd. cbn. congruence.
  - by apply tick_stored.
Qed.

Lemma run_stored s os : Forall named os -> inv s -> stored s -> stored (run s os).
Proof.
  intros Hos. revert s. induction Hos as [|o os Ho _ IH]; intros s Hi Hst; [done|].
  apply IH; [by apply step_inv|by apply step_stored].
Qed.

Lemma restore_resumes s c c2 d :
  stored s -> db s = Some d -> sched s = Some c -> active c = true ->
  name c2 = name c -> (current_index c < length (entries c2))%nat ->
  forall s2, db s2 = Some d -> sched s2 = Some c2 ->
  _restore_state s2 = set_retune true (set_sched (Some (set_index (current_index c) c2)) s2).
Proof.
  intros Hst Hd Hs Ha Hn Hi s2 Hd2 Hs2. destruct (Hst d c Hd Hs Ha) as [[n Hname] Hg].
  unfold _restore_state. rewrite Hd2, Hs2, Hg, Hn, Hname. unfold state_doc. rewrite Ha, Hname.
  change (get_or "current_index" (JInt 0) _) with (JInt (Z.of_nat (current_index c))).
  assert (index_in (JInt (Z.of_nat (current_index c))) (length (entries c2)) = Some (current_index c)) as ->.
  { unfold index_in. rewrite (proj2 (Z.leb_le _ _)), (proj2 (Z.ltb_lt _ _)) by lia. cbn. by rewrite Nat2Z.id. }
  replace (py_eqb _ _) with true; [done|]. symmetry. by apply (bool_decide_eq_true_2 (n = n)).
Qed.

Lemma load_resumes s c d c2 s1 s2 :
  stored s -> db s = Some d -> sched s = Some c -> active c = true ->
  name c2 = name c -> (current_index c < length (entries c2))%nat -> db s1 = Some d ->
  load_schedule s1 c2 = (s2, None) ->
  exists c3, sched s2 = Some c3 /\ current_index c3 = current_index c /\ active c3 = true /\
    length (entries c3) = length (entries c2) /\
    state s2 = STATE_WAITING_CAL /\ _pending_retune s2 = true.
Proof.
  intros Hst Hd Hs Ha Hn Hi Hd1. unfold load_schedule.
  destruct (entries c2) as [|e0 es0] eqn:Ee; [cbn in Hi; lia|]. rewrite <- Ee in *. clear Ee.
  destruct (res_mapM _ _) as [es|] eqn:Hm; [|done]. apply res_mapM_length in Hm.
  set (c3 := Schedule (name c2) es (repeat_mode c2) true 0 0).
  set (s3 := set_retune false _).
  rewrite (restore_resumes s c c3 d Hst Hd Hs Ha Hn) by (done || (cbn; lia)).
  destruct (fmt_s (name c3)); [|done]. intros Hl. apply (f_equal fst) in Hl. cbn [fst] in Hl. subst s2.
  match goal with |- context [_persist_state ?x] =>
    pose proof (persist_frame x) as (E1 & E2 & _ & _ & _ & E6) end.
  rewrite E1, E2, E6. exists (set_index (current_index c) c3). by split_and!.
Qed.

Lemma tick_retunes s c e h :
  sched s = Some c -> active c = true -> state s = STATE_WAITING_CAL -> _pending_retune s = true ->
  entries c !! current_index c = Some e -> quiet h ->
  (tick s h).2 = Ok (Some (FREQ (frequency e))).
Proof.
  intros Hs Ha Hst Hp He Hq. unfold tick. rewrite Hs, Ha, Hst, Hp, He. cbn [negb].
  rewrite bool_decide_eq_false_2 by done. by rewrite (proj2 (Z.eqb_neq _ _)) by exact Hq.
Qed.

(** Resume after a restart: after any history of loads, clears, skips
    and ticks with a working database, a new scheduler that loads the same
    schedule (same name, as many entries) starts at the entry the old one was
    on, and its first tick outside a calibration burst commands that entry's
    frequency. *)
Theorem restart_resumes sr cpi dec d0 os c d sr' cpi' dec' c2 s2 :
  Forall named os ->
  let s := run (init sr cpi dec (Some d0)) os in
  sched s = Some c -> active c = true -> db s = Some d ->
  name c2 = name c -> length (entries c2) = length (entries c) ->
  load_schedule (init sr' cpi' dec' (Some d)) c2 = (s2, None) ->
  exists c3 e, sched s2 = Some c3 /\ current_index c3 = current_index c /\
    entries c3 !! current_index c = Some e /\
    forall h, quiet h -> (tick s2 h).2 = Ok (Some (FREQ (frequency e))).
Proof.
  intros Hos s Hs Ha Hd Hn Hlen Hl.
  assert (stored s) as Hst by (apply run_stored; [done|apply init_inv|done]).
  assert (inv s) as [Hok _ _] by apply run_inv, init_inv.
  rewrite Hs in Hok. destruct Hok as [[Hi _] _]. clearbody s.
  destruct (load_resumes s c d c2 (init sr' cpi' dec' (Some d)) s2 Hst Hd Hs Ha Hn ltac:(lia) eq_refl Hl)
    as (c3 & E1 & E2 & E3 & E4 & E5 & E6).
  destruct (lookup_lt_is_Some_2 (entries c3) (current_index c)) as [e He]; [lia|].
  exists c3, e. split_and!; try done. intros h Hq.
  apply (tick_retunes s2 c3); try done. by rewrite E2.
Qed.

End Restart.

Definition three_entries (mode : string) : schedule :=
  Schedule (JStr "demo")
    [Entry 100000000 JNull 2 (JBool true) None; Entry 200000000 JNull 2 (JBool true) None;
     Entry 300000000 JNull 2 (JBool true) None] (JStr mode) true 0 0.

End Props.

Lemma hop_order_witness :
  current_index (advance_n 5 (three_entries "pingpong") true).1 = pingpong_pos 3 5.
Proof.
  apply (hop_order (three_entries "pingpong") 5).
  - cbn. lia.
  - reflexivity.
  - reflexivity.
  - reflexivity.
  - cbn. lia.
Defined.

(** ** Examples *)

(** A store that keeps the last document. *)
#[export] Instance cell_store : ScheduleStore (option json) := {|
  put_schedule_state _ j := Ok (Some j);
  get_schedule_state d := Ok (RawJson <$> d) |}.

#[export] Instance cell_store_ok : ScheduleStoreOk (option json).
Proof. intros d j d' [= <-]. reflexivity. Qed.

Lemma cell_put_total (d : option json) (j : json) : exists d', put_schedule_state d j = Ok d'.
Proof. by exists (Some j). Qed.

Definition fresh (d : option (option json)) : t (option json) := init 2400000 1048576 1 d.

(** A DATA frame of a calibrated receiver, noise source off. *)
Definition data_frame : Hdr.t :=
  Hdr.mk Hdr.SYNC_WORD 0 [] 0 5 0 0 0 0 0 0 0 0 0 0 0 0 (replicate 32 0) 1 1 6 0 [] 7.

Definition loaded (mode : string) (d : option (option json)) : t (option json) :=
  (load_schedule (fresh d) (three_entries mode)).1.


Definition dwelling : t (option json) := (ticks (loaded "loop" None) [data_frame]).1.

Lemma dwell_is_exact_witness :
  (tick (ticks dwelling [data_frame]).1 data_frame).2 = Ok (Some (FREQ 200000000)).
Proof.
  apply (dwell_is_exact dwelling (three_entries "loop")
           (Entry 100000000 JNull 2 (JBool true) None) (Entry 200000000 JNull 2 (JBool true) None)
           [data_frame] data_frame); try reflexivity; try discriminate.
  constructor; [discriminate|constructor].
Defined.

Lemma scheduler_progress_witness :
  (ticks (loaded "pingpong" None) (replicate 502 data_frame)).2 <> [].
Proof.
  apply (scheduler_progress (loaded "pingpong" None) (three_entries "pingpong")
           (Entry 100000000 JNull 2 (JBool true) None)).
  - apply load_inv, init_inv.
  - reflexivity.
  - reflexivity.
  - right. split; [reflexivity|cbn; lia].
  - reflexivity.
  - apply Forall_replicate. discriminate.
  - apply Forall_replicate. reflexivity.
  - reflexivity.
Defined.

(** Three hops, then a restart: the new scheduler is back on the third entry. *)
Definition before_restart : list op :=
  OLoad (three_entries "loop") :: map OTick (replicate 6 data_frame).

Definition resumed : t (option json) :=
  Eval vm_compute in loaded "loop" (db (run (fresh (Some None)) before_restart)).

Lemma restart_resumes_witness :
  exists c3 e, sched resumed = Some c3 /\ current_index c3 = 2%nat /\ entries c3 !! 2%nat = Some e /\
    forall h, quiet h -> (tick resumed h).2 = Ok (Some (FREQ (frequency e))).
Proof.
  apply (restart_resumes cell_put_total 2400000 1048576 1 None before_restart
           (set_index 2 (three_entries "loop"))
           (Some (state_doc (set_index 2 (three_entries "loop")))) 2400000 1048576 1 (three_entries "loop")
           resumed); [|vm_compute; reflexivity..].
  repeat constructor. by exists "demo".
Defined.

End Sig.
