(* ===== verification/FedScheduler.v ===== *)
(** * The federation scheduler ([_daq_core/federation_scheduler.py])

    Validation of the canonical master schedule document, its partitioning
    among targets (round robin or contiguous frequency ranges), the per-target
    documents and the choice of transfer.  A dict is an association list in
    insertion order; [json.loads (json.dumps d)] is [d]. *)
From Stdlib Require Import Ascii Sorted.
From S2P Require Import Prelude PyStruct PyText PyJson PyJsonText IQHeader SignalScheduler.

Module Fed.

Definition INLINE_LIMIT : nat := 124.
Definition SCHB_LIMIT : Z := 262144.

Definition valid_strategy (s : json) : bool :=
  py_eqb s (JStr "round_robin") || py_eqb s (JStr "range").

(** [zlib.crc32("{}.{}.{}.{}".format(...).encode("utf-8")) & 0xFFFFFFFF]; node keys are ASCII. *)
Definition compute_gen (term version rebalance_seq : Z) (node_key : string) : Z :=
  mask32 (crc32 (map char_code (to_chars (str_of_int term +:+ "." +:+ str_of_int version +:+ "." +:+
    str_of_int rebalance_seq +:+ "." +:+ node_key)))).

(** ** Validation *)
Definition _int (value : json) : res Z :=
  match value with
  | JBool _ => Raise ValueError
  | _ => match py_int value with
         | Raise TypeError | Raise ValueError => Raise ValueError
         | r => r
         end
  end.

Definition check (b : bool) : res unit := if b then Ok tt else Raise ValueError.

Definition pos_num (f : pynum) : bool :=
  match f with Fin q => Qltb 0 q | PInf => true | NInf | NaN => false end.

Definition is_bool (j : json) : bool := match j with JBool _ => true | _ => false end.
Definition is_str (j : json) : bool := match j with JStr _ => true | _ => false end.

Definition normalize_gains (entry out : dict) : res dict :=
  match get_null "gains" entry with
  | JNull => Ok (if dict_mem "gains" entry then dict_set "gains" JNull out else out)
  | JArr (g :: gs) => zs ← res_mapM _int (g :: gs); Ok (dict_set "gains" (JArr (map JInt zs)) out)
  | _ => Raise ValueError
  end.

Definition normalize_dwell (entry out : dict) : res dict :=
  match dict_get "dwell_frames" entry with
  | None => Ok out
  | Some d => dwell ← _int d; _ ← check (1 <=? dwell); Ok (dict_set "dwell_frames" (JInt dwell) out)
  end.

Definition normalize_time (entry out : dict) : res dict :=
  match get_null "dwell_time_sec" entry with
  | JNull => Ok out
  | j => match py_float j with
         | Raise TypeError | Raise ValueError => Raise ValueError
         | Raise e => Raise e
         | Ok sec => _ ← check (pos_num sec); Ok (dict_set "dwell_time_sec" (JFloat sec) out)
         end
  end.

Definition normalize_entry (e : json) : res dict :=
  match e with
  | JObj entry =>
      match dict_get "frequency" entry with
      | None => Raise ValueError
      | Some f =>
          freq ← _int f;
          _ ← check ((0 <? freq) && (freq <? 2 ^ 32));
          out ← normalize_gains entry (dict_set "frequency" (JInt freq) entry);
          out ← normalize_dwell entry out;
          out ← normalize_time entry out;
          _ ← check (negb (dict_mem "require_cal" entry) || is_bool (get_null "require_cal" entry));
          Ok out
      end
  | _ => Raise ValueError
  end.

Definition validate_schedule_doc (doc : json) : res dict :=
  match doc with
  | JObj d =>
      match get_null "entries" d with
      | JArr (e :: es) =>
          entries ← res_mapM normalize_entry (e :: es);
          let out := dict_set "entries" (JArr (map JObj entries)) d in
          _ ← check (negb (dict_mem "name" d) || is_str (get_null "name" d));
          _ ← check (negb (dict_mem "repeat_mode" d) || is_str (get_null "repeat_mode" d));
          _ ← check (is_null (get_null "strategy" d) || valid_strategy (get_null "strategy" d));
          let out := dict_pop "gen" out in
          match Sig.ScheduleParser.from_json (JObj out) with
          | Ok _ => Ok out
          | Raise KeyError | Raise TypeError | Raise ValueError => Raise ValueError
          | Raise e => Raise e
          end
      | _ => Raise ValueError
      end
  | _ => Raise ValueError
  end.

Fixpoint _entry_out (entry : dict) : dict :=
  match entry with
  | [] => []
  | (key, value) :: entry =>
      if bool_decide (key = "require_cal") then
        match value with JBool false => (key, value) :: _entry_out entry | _ => _entry_out entry end
      else if bool_decide (key = "dwell_time_sec") && is_null value then _entry_out entry
      else if bool_decide (key = "gains") && is_null value then _entry_out entry
      else (key, value) :: _entry_out entry
  end.

(** ** State *)
Inductive key := KInt (z : Z) | KStr (s : string).

#[export] Instance key_eq_dec : EqDecision key.
Proof. solve_decision. Defined.

Record assignment := Assignment {
  entries : list dict;
  frequencies : list json;
  gains : list json;
  dwell_frames : list json }.

Record master := Master {
  name : json;
  repeat_mode : json;
  m_entries : list dict;
  m_frequencies : list json;
  m_gains : list json;
  m_dwell_frames : list json;
  strategy : json;
  extra : dict }.

Record t := mk {
  _master_schedule : option master;
  _current_assignments : list (key * assignment) }.

Definition init : t := mk None [].

(** ** Master schedule *)
Definition freq_key (e : dict) : res json :=
  match dict_get "frequency" e with Some f => Ok f | None => Raise KeyError end.

Definition reserved_keys : list string := ["name"; "repeat_mode"; "entries"; "strategy"; "gen"].

Definition _store_master (doc : dict) (es : list dict) (strat : json) (s : t) : res t :=
  freqs ← res_mapM freq_key es;
  Ok (mk (Some (Master (get_or "name" (JStr "federation") doc) (get_or "repeat_mode" (JStr "loop") doc)
            es freqs (map (get_null "gains") es) (map (get_or "dwell_frames" (JInt 100)) es) strat
            (filter (fun kv => kv.1 ∉ reserved_keys) doc)))
         (_current_assignments s)).

(** One entry of the list-based interface: [g] is a list or [None]. *)
Definition list_entry (f d : json) (g : json) : res dict :=
  freq ← py_int f;
  dwell ← py_int d;
  match g with
  | JArr vs => zs ← res_mapM py_int vs;
               Ok [("frequency", JInt freq); ("dwell_frames", JInt dwell); ("gains", JArr (map JInt zs))]
  | _ => Ok [("frequency", JInt freq); ("dwell_frames", JInt dwell)]
  end.

Definition set_master_schedule (freqs gs dwells : list json) (strat : json) (s : t) : res t :=
  if forallb (fun g => match g with JNull | JArr _ => true | _ => false end) gs then
    es ← res_mapM (fun x => list_entry x.1.1 x.2 x.1.2) (zip (zip freqs gs) dwells);
    _store_master [("name", JStr "federation"); ("entries", JArr (map JObj es))] es strat s
  else Raise ValueError.

Definition get_master_schedule_doc (s : t) : option dict :=
  m ← _master_schedule s;
  Some ([("name", name m); ("repeat_mode", repeat_mode m); ("strategy", strategy m)] ++ extra m ++
        [("entries", JArr (map JObj (m_entries m)))]).

(** The [entries] of a validated document. *)
Definition doc_entries (doc : dict) : list dict :=
  match get_null "entries" doc with
  | JArr l => omap (fun e => match e with JObj d => Some d | _ => None end) l
  | _ => []
  end.

Definition set_master_schedule_doc (doc : json) (strat : option string) (s : t) : res t :=
  canon ← validate_schedule_doc doc;
  let strat := match strat with Some x => JStr x | None => JNull end in
  let strat := if truthy strat then strat
               else if truthy (get_null "strategy" canon) then get_null "strategy" canon
               else JStr "round_robin" in
  _ ← check (valid_strategy strat);
  _store_master canon (doc_entries canon) strat s.

Definition set_strategy (strat : string) (s : t) : res t :=
  _ ← check (valid_strategy (JStr strat));
  Ok (match _master_schedule s with
      | None => s
      | Some m => mk (Some (Master (name m) (repeat_mode m) (m_entries m) (m_frequencies m) (m_gains m)
                              (m_dwell_frames m) (JStr strat) (extra m))) (_current_assignments s)
      end).

Definition clear_master_schedule (s : t) : t := mk None [].
Definition has_master_schedule (s : t) : bool := match _master_schedule s with Some _ => true | None => false end.
Definition get_assignments (s : t) : list (key * assignment) := _current_assignments s.

(** ** Partitioning *)
Section Parts.
Context {K A : Type} `{EqDecision K}.

(** [parts[k] = v] *)
Fixpoint part_set {V} (k : K) (v : V) (d : list (K * V)) : list (K * V) :=
  match d with
  | [] => [(k, v)]
  | (k', v') :: d => if bool_decide (k' = k) then (k', v) :: d else (k', v') :: part_set k v d
  end.

(** [parts[k].append(x)]: [k] is one of the keys. *)
Fixpoint part_append (k : K) (x : A) (d : list (K * list A)) : list (K * list A) :=
  match d with
  | [] => []
  | (k', v) :: d => if bool_decide (k' = k) then (k', v ++ [x]) :: d else (k', v) :: part_append k x d
  end.

(** [for i, entry in enumerate(entries): parts[keys[i % n]].append(entry)] *)
Fixpoint deal (keys : list K) (i : nat) (es : list A) (parts : list (K * list A)) : res (list (K * list A)) :=
  match es with
  | [] => Ok parts
  | e :: es =>
      k ← py_get keys (i mod length keys)%nat;
      deal keys (S i) es (part_append k e parts)
  end.

Definition empty_parts (keys : list K) : list (K * list A) :=
  foldl (fun d k => part_set k [] d) [] keys.

Definition _partition_round_robin (keys : list K) (es : list A) : res (list (K * list A)) :=
  deal keys 0 es (empty_parts keys).

(** [sorted(range(total), key=...)] is stable: insertion after equal keys. *)
Fixpoint insert_by (x : A * Z) (l : list (A * Z)) : list (A * Z) :=
  match l with
  | [] => [x]
  | y :: l => if x.2 <? y.2 then x :: y :: l else y :: insert_by x l
  end.

Definition sort_by (l : list (A * Z)) : list (A * Z) := foldl (fun acc x => insert_by x acc) [] l.

(** The loop over the targets: the first [extra] get [base + 1] entries. *)
Fixpoint slices (keys : list K) (idx base extra : nat) (l : list A) (parts : list (K * list A))
    : list (K * list A) :=
  match keys with
  | [] => parts
  | k :: keys =>
      let size := (base + if bool_decide (idx < extra)%nat then 1 else 0)%nat in
      slices keys (S idx) base extra (drop size l) (part_set k (take size l) parts)
  end.

Definition range_parts (keys : list K) (ordered : list A) : list (K * list A) :=
  let n := length keys in
  let total := length ordered in
  slices keys 0 (total / n)%nat (total mod n)%nat ordered [].

End Parts.

(** Frequencies of stored entries are integers. *)
Definition freq_num (e : dict) : res Z :=
  f ← freq_key e;
  match f with JInt z => Ok z | _ => Raise TypeError end.

Definition _partition_range {K} `{EqDecision K} (keys : list K) (es : list dict) : res (list (K * list dict)) :=
  fs ← res_mapM freq_num es;
  Ok (range_parts keys (map fst (sort_by (zip es fs)))).

Definition _assignment (es : list dict) : res assignment :=
  freqs ← res_mapM freq_key es;
  Ok (Assignment es freqs (map (get_null "gains") es) (map (get_or "dwell_frames" (JInt 100)) es)).

(** [sorted(set(ids))] *)
Fixpoint insert_id (z : Z) (l : list Z) : list Z :=
  match l with
  | [] => [z]
  | y :: l => if z <? y then z :: y :: l else if z =? y then y :: l else y :: insert_id z l
  end.

(** The keys of [partition_schedule]; [monitor] is the ids of the healthy peers
    and the monitor's own id. *)
Definition partition_keys (instance_ids : option (list Z)) (targets : option (list string))
    (monitor : option (list Z * Z)) : list key :=
  match targets, instance_ids, monitor with
  | Some ts, _, _ => map KStr ts
  | None, Some ids, _ => map KInt ids
  | None, None, Some (peers, own) =>
      map KInt (foldr insert_id [] (filter (fun i => 0 <= i) peers ++ [own]))
  | None, None, None => [KInt 0]
  end.

Definition partition_schedule (instance_ids : option (list Z)) (strat : option string)
    (targets : option (list string)) (monitor : option (list Z * Z)) (s : t) : res (t * list (key * assignment)) :=
  match _master_schedule s with
  | None => Ok (mk None [], [])
  | Some m =>
      match partition_keys instance_ids targets monitor with
      | [] => Ok (mk (Some m) [], [])
      | keys =>
          let chosen := match strat with Some x => JStr x | None => JNull end in
          let chosen := if truthy chosen then chosen else strategy m in
          parts ← (if py_eqb chosen (JStr "range") then _partition_range keys (m_entries m)
                   else _partition_round_robin keys (m_entries m));
          assignments ← res_mapM (fun kv => a ← _assignment kv.2; Ok (kv.1, a)) parts;
          Ok (mk (Some m) assignments, assignments)
      end
  end.

(** ** Per-target documents *)
Section Documents.
Variable float_repr : Q -> chars.

Definition schedule_doc (es : list dict) (nm : json) (gen : option Z) (rep : json) : json :=
  JObj ([("name", nm)] ++
        (if is_null rep || py_eqb rep (JStr "loop") then [] else [("repeat_mode", rep)]) ++
        (match gen with Some g => [("gen", JInt (mask32 g))] | None => [] end) ++
        [("entries", JArr (map (fun e => JObj (_entry_out e)) es))]).

Definition _build_schedule_json (es : list dict) (nm : json) (gen : option Z) (rep : json) : chars :=
  dumps float_repr (schedule_doc es nm gen rep).

(** ["{}@{}".format(name, key)] of a string name. *)
Definition at_name (nm : json) (suffix : string) : json :=
  match nm with JStr s => JStr (s +:+ "@" +:+ suffix) | j => j end.

Definition x64 : string := of_chars (replicate 64 "x"%char).

Definition whole_schedule_bytes (s : t) : nat :=
  match _master_schedule s with
  | None => O
  | Some m => length (_build_schedule_json (m_entries m) (at_name (name m) x64) (Some 4294967295) (repeat_mode m))
  end.

(** The document of one target, before it is serialised. *)
Definition target_doc (s : t) (a : assignment) (node_key : string) (instance_id : Z) (extended : bool) (gen : Z) : json :=
  let rep := match _master_schedule s with Some m => repeat_mode m | None => JStr "loop" end in
  let nm := match _master_schedule s with Some m => name m | None => JStr "federation" end in
  if extended then schedule_doc (entries a) (at_name nm node_key) (Some gen) rep
  else schedule_doc (entries a) (JStr ("federation_inst" +:+ str_of_int instance_id)) None rep.

Definition target_document (s : t) (a : assignment) (node_key : string) (instance_id : Z) (extended : bool)
    (gen : Z) : chars * option Z :=
  (dumps float_repr (target_doc s a node_key instance_id extended gen), if extended then Some gen else None).

(** ** Transfer *)
Inductive transfer := Inline | Chunked | ByPath.

(** [local] tells whether the target's host is this host or unknown. *)
Definition choose_transfer (text : chars) (schb local : bool) : option transfer :=
  if bool_decide (length text <= INLINE_LIMIT)%nat then Some Inline
  else if schb then Some Chunked
  else if local then Some ByPath else None.

(** What [distribute] does with one target of the library path: the command it
    sends, or why it sends none. *)
Inductive action := SendInline (text : chars) | SendSchedule (text : chars) | SendPath (text : chars)
  | TooLarge (bytes : nat) | Failed.

Definition distribute_one (s : t) (send_schedule : bool) (local : key -> bool) (ka : key * assignment) : key * action :=
  let rep := match _master_schedule s with Some m => repeat_mode m | None => JNull end in
  match ka.1 with
  | KStr _ => (ka.1, Failed)                      (* "{:d}" of a node key raises *)
  | KInt i =>
      let text := _build_schedule_json (entries ka.2) (JStr ("federation_inst" +:+ str_of_int i)) None rep in
      (ka.1, if bool_decide (length text <= INLINE_LIMIT)%nat then SendInline text
             else if send_schedule then SendSchedule text
             else if local ka.1 then SendPath text else TooLarge (length text))
  end.

Definition distribute (coordinator : option bool) (local : key -> bool) (s : t) : list (key * action) :=
  match coordinator with
  | None => []
  | Some send_schedule => map (distribute_one s send_schedule local) (_current_assignments s)
  end.

(** [rebalance]: [inl] is an error reply. *)
Definition rebalance (monitor : option (list Z * Z)) (coordinator : option bool) (local : key -> bool) (s : t)
    : res (t * (string + list (key * action))) :=
  if negb (has_master_schedule s) then Ok (s, inl "no master schedule")
  else
    r ← partition_schedule None None None monitor s;
    match r.2 with
    | [] => Ok (r.1, inl "no healthy instances")
    | _ => Ok (r.1, inr (distribute coordinator local r.1))
    end.

End Documents.

(** ** Partitioning: lemmas *)
Section PartFacts.
Context {K A : Type} `{EqDecision K}.

(** Number of entries the [j]-th of [n] targets gets out of [total]. *)
Definition share (total n j : nat) : nat := (total / n + if bool_decide (j < total mod n)%nat then 1 else 0)%nat.

Lemma share_S total n j :
  (j < n)%nat ->
  share (S total) n j = (share total n j + if bool_decide (total mod n = j)%nat then 1 else 0)%nat.
Proof.
  intros Hj. unfold share.
  assert (total = n * (total / n) + total mod n)%nat as Hd by (apply Nat.div_mod_eq).
  pose proof (Nat.mod_upper_bound total n ltac:(lia)) as Hb.
  set (q := (total / n)%nat) in *. set (r := (total mod n)%nat) in *.
  destruct (decide (S r = n)) as [Hr|Hr].
  - assert (S total / n = S q /\ S total mod n = 0)%nat as [-> ->].
    { split; [symmetry; apply (Nat.div_unique _ _ _ 0)|symmetry; apply (Nat.mod_unique _ _ (S q))]; nia. }
    repeat case_bool_decide; lia.
  - assert (S total / n = q /\ S total mod n = S r)%nat as [-> ->].
    { split; [symmetry; apply (Nat.div_unique _ _ _ (S r))|symmetry; apply (Nat.mod_unique _ _ q)]; nia. }
    repeat case_bool_decide; lia.
Qed.

(** Dealing on the list of parts alone. *)
Definition dealt (n : nat) (es : list A) (ls : list (list A)) : list (list A) :=
  foldl (fun ls ie => alter (fun l => l ++ [ie.2]) (ie.1 mod n)%nat ls) ls (imap (fun i e => (i, e)) es).

Lemma part_append_zip (keys : list K) (ls : list (list A)) i k x :
  NoDup keys -> keys !! i = Some k ->
  part_append k x (zip keys ls) = zip keys (alter (fun l => l ++ [x]) i ls).
Proof.
  intros Hn. revert i ls. induction Hn as [|k0 keys Hk Hn IH]; intros i ls Hi; [done|].
  destruct ls as [|l ls]; [reflexivity|]. destruct i as [|i]; cbn in *.
  - injection Hi as ->. by rewrite bool_decide_eq_true_2.
  - rewrite bool_decide_eq_false_2; [f_equal; by apply IH|]. intros ->. apply Hk. by eapply list_elem_of_lookup_2.
Qed.

Lemma part_set_new {V} k (v : V) (d : list (K * V)) : k ∉ map fst d -> part_set k v d = d ++ [(k, v)].
Proof.
  induction d as [|[k' v'] d IH]; cbn; intros Hk; [done|]. rewrite not_elem_of_cons in Hk.
  rewrite bool_decide_eq_false_2 by (intros ->; tauto). rewrite IH by tauto. done.
Qed.

Lemma empty_parts_nodup (keys : list K) :
  NoDup keys -> empty_parts keys = zip keys (replicate (length keys) (@nil A)).
Proof.
  intros Hn. unfold empty_parts.
  enough (forall pre, NoDup (map fst pre ++ keys) ->
            foldl (fun d k => part_set k (@nil A) d) pre keys = pre ++ zip keys (replicate (length keys) [])) as H
    by (by apply (H [])).
  clear Hn. induction keys as [|k keys IH]; intros pre Hn; cbn; [by rewrite app_nil_r|].
  apply list.NoDup_app in Hn as Hn'. destruct Hn' as (_ & Hd & _).
  rewrite part_set_new by (intros Hin; apply (Hd k Hin); by left).
  rewrite IH; [by rewrite <- app_assoc|]. by rewrite map_app, <- app_assoc.
Qed.

Lemma deal_zip (keys : list K) (es : list A) i ls :
  NoDup keys -> keys <> [] ->
  deal keys i es (zip keys ls) =
  Ok (zip keys (foldl (fun ls ie => alter (fun l => l ++ [ie.2]) (ie.1 mod length keys)%nat ls) ls
                  (imap (fun j e => ((i + j)%nat, e)) es))).
Proof.
  intros Hn Hne. revert i ls. induction es as [|e es IH]; intros i ls; cbn; [done|].
  assert ((i mod length keys) < length keys)%nat as Hlt by (apply Nat.mod_upper_bound; destruct keys; cbn; [done|lia]).
  destruct (lookup_lt_is_Some_2 _ _ Hlt) as [k Hk]. rewrite (py_get_Some _ _ _ Hk). cbn [mbind res_bind].
  rewrite (part_append_zip keys ls (i mod length keys)%nat) by done. rewrite IH. do 2 f_equal.
  rewrite Nat.add_0_r. f_equal. apply imap_ext. intros j x _. unfold compose. f_equal. lia.
Qed.

Lemma round_robin_eq (keys : list K) (es : list A) :
  NoDup keys -> keys <> [] ->
  _partition_round_robin keys es =
  Ok (zip keys (dealt (length keys) es (replicate (length keys) []))).
Proof.
  intros Hn Hne. unfold _partition_round_robin. rewrite empty_parts_nodup by done.
  by rewrite deal_zip.
Qed.

Lemma dealt_snoc n es e ls :
  dealt n (es ++ [e]) ls = alter (fun l => l ++ [e]) (length es mod n)%nat (dealt n es ls).
Proof. unfold dealt. rewrite imap_app, foldl_app. cbn. by rewrite Nat.add_0_r. Qed.

Lemma concat_alter (ls : list (list A)) i x :
  (i < length ls)%nat -> Permutation (concat (alter (fun l => l ++ [x]) i ls)) (concat ls ++ [x]).
Proof.
  revert i. induction ls as [|l ls IH]; intros i Hi; [cbn in Hi; lia|]. destruct i as [|i]; cbn.
  - rewrite <- !app_assoc. apply Permutation_app_head, Permutation_app_comm.
  - rewrite <- app_assoc. apply Permutation_app_head, IH. cbn in Hi. lia.
Qed.

(** What dealing from scratch gives: every entry once, fair shares, and the
    order of the entries kept within each part. *)
Lemma dealt_spec n es :
  (0 < n)%nat ->
  let ls := dealt n es (replicate n []) in
  length ls = n /\ Permutation (concat ls) es /\
  (forall j l, ls !! j = Some l -> length l = share (length es) n j /\ sublist l es).
Proof.
  intros Hn. cbv zeta. induction es as [|e es IH] using rev_ind.
  { cbn. split_and!; [by rewrite length_replicate| |].
    - clear Hn. by induction n.
    - intros j l [-> Hj]%lookup_replicate. unfold share. cbn. rewrite Nat.Div0.div_0_l, Nat.Div0.mod_0_l.
      rewrite bool_decide_eq_false_2 by lia. done. }
  rewrite dealt_snoc. destruct IH as (IH1 & IH2 & IH3).
  assert ((length es mod n) < n)%nat as Hlt by (apply Nat.mod_upper_bound; lia).
  split_and!.
  - by rewrite length_alter.
  - rewrite concat_alter by (by rewrite IH1). by apply Permutation_app_tail.
  - intros j l Hl. assert (j < n)%nat as Hj.
    { apply lookup_lt_Some in Hl. by rewrite length_alter, IH1 in Hl. }
    rewrite length_app, Nat.add_1_r, share_S by done.
    destruct (decide ((length es mod n)%nat = j)) as [<-|Hne].
    + rewrite list_lookup_alter, decide_True in Hl by done. rewrite bool_decide_eq_true_2 by done.
      apply fmap_Some in Hl as (l0 & Hl0 & ->). destruct (IH3 _ _ Hl0) as [<- Hs].
      rewrite length_app. split; [done|]. by apply sublist_app.
    + rewrite list_lookup_alter, decide_False in Hl by done. rewrite bool_decide_eq_false_2 by done.
      destruct (IH3 _ _ Hl) as [<- Hs]. split; [lia|]. by apply sublist_inserts_r.
Qed.

(** Stable insertion sort. *)
Definition le_key (x y : A * Z) : Prop := x.2 <= y.2.

Lemma insert_by_perm (x : A * Z) l : Permutation (insert_by x l) (x :: l).
Proof.
  induction l as [|y l IH]; cbn; [done|]. case_goal; [done|]. rewrite IH. apply Permutation_swap.
Qed.

Lemma sort_by_perm (l : list (A * Z)) : Permutation (sort_by l) l.
Proof.
  unfold sort_by. rewrite <- (app_nil_r l) at 2. generalize (@nil (A * Z)) as acc.
  induction l as [|x l IH]; intros acc; cbn; [done|]. rewrite IH, insert_by_perm.
  symmetry. apply Permutation_middle.
Qed.

Lemma insert_by_sorted (x : A * Z) l :
  StronglySorted le_key l -> StronglySorted le_key (insert_by x l).
Proof.
  induction 1 as [|y l Hs IH Hf]; cbn; [repeat constructor|].
  destruct (Z.ltb_spec x.2 y.2).
  - constructor; [by constructor|]. constructor; [unfold le_key; lia|].
    eapply list.Forall_impl; [exact Hf|]. unfold le_key. cbn. intros. lia.
  - constructor; [done|]. rewrite insert_by_perm. constructor; [unfold le_key; lia|done].
Qed.

Lemma sort_by_sorted (l : list (A * Z)) : StronglySorted le_key (sort_by l).
Proof.
  unfold sort_by. assert (StronglySorted le_key (@nil (A * Z))) as H by constructor.
  revert H. generalize (@nil (A * Z)) as acc. induction l as [|x l IH]; intros acc H; cbn; [done|].
  by apply IH, insert_by_sorted.
Qed.

(** The chunks of the range partition, without the keys. *)
Fixpoint chunks (n idx base extra : nat) (l : list A) : list (list A) :=
  match n with
  | O => []
  | S n => let size := (base + if bool_decide (idx < extra)%nat then 1 else 0)%nat in
           take size l :: chunks n (S idx) base extra (drop size l)
  end.

Lemma slices_chunks (keys : list K) idx base extra l parts :
  NoDup (map fst parts ++ keys) ->
  slices keys idx base extra l parts = parts ++ zip keys (chunks (length keys) idx base extra l).
Proof.
  revert idx l parts. induction keys as [|k keys IH]; intros idx l parts Hn; cbn; [by rewrite app_nil_r|].
  apply list.NoDup_app in Hn as Hn'. destruct Hn' as (_ & Hd & _).
  rewrite part_set_new by (intros Hin; apply (Hd k Hin); by left).
  rewrite IH; [by rewrite <- app_assoc|]. by rewrite map_app, <- app_assoc.
Qed.

Lemma chunks_length n idx base extra l : length (chunks n idx base extra l) = n.
Proof. revert idx l. induction n as [|n IH]; intros; cbn; [done|]. by rewrite IH. Qed.

(** From chunk [idx] on, [n] chunks of a list that holds exactly what they take. *)
Lemma chunks_spec n idx base extra l :
  length l = (n * base + Nat.min n (extra - idx))%nat ->
  concat (chunks n idx base extra l) = l /\
  forall j c, chunks n idx base extra l !! j = Some c ->
    length c = (base + if bool_decide (idx + j < extra)%nat then 1 else 0)%nat.
Proof.
  revert idx l. induction n as [|n IH]; intros idx l Hl; cbn.
  { split; [|done]. by destruct l. }
  set (size := (base + if bool_decide (idx < extra)%nat then 1 else 0)%nat).
  assert (size <= length l /\ length (drop size l) = n * base + Nat.min n (extra - S idx))%nat as [Hsz Hd].
  { rewrite length_drop. unfold size. case_bool_decide; lia. }
  destruct (IH _ _ Hd) as [IH1 IH2]. split; [rewrite IH1; apply take_drop|].
  intros [|j] c Hc; cbn in Hc.
  - injection Hc as <-. rewrite length_take. rewrite Nat.add_0_r. fold size. lia.
  - rewrite (IH2 j c Hc). by replace (S idx + j)%nat with (idx + S j)%nat by lia.
Qed.

Lemma range_parts_spec (keys : list K) (l : list A) :
  NoDup keys -> keys <> [] ->
  exists ls, range_parts keys l = zip keys ls /\ length ls = length keys /\ concat ls = l /\
    forall j c, ls !! j = Some c -> length c = share (length l) (length keys) j.
Proof.
  intros Hn Hne. unfold range_parts. rewrite slices_chunks by done. cbn [app].
  assert (0 < length keys)%nat as Hpos by (destruct keys; cbn; [done|lia]).
  pose proof (Nat.mod_upper_bound (length l) (length keys) ltac:(lia)) as Hb.
  destruct (chunks_spec (length keys) 0 (length l / length keys) (length l mod length keys) l) as [Hc Hs].
  { pose proof (Nat.div_mod_eq (length l) (length keys)). lia. }
  eexists. split_and!; [done|apply chunks_length|done|]. intros j c Hj. by apply Hs in Hj.
Qed.

End PartFacts.
(** ** The stored schedule *)

(** Stored entries have an integer frequency. *)
Definition entry_ok (e : dict) : Prop := exists z, dict_get "frequency" e = Some (JInt z).
Definition inv (s : t) : Prop :=
  match _master_schedule s with Some m => Forall entry_ok (m_entries m) | None => True end.

Lemma freq_key_ok es : Forall entry_ok es -> exists fs, res_mapM freq_key es = Ok fs.
Proof.
  induction 1 as [|e es [z Hz] _ [fs IH]]; [by exists []|]. exists (JInt z :: fs).
  cbn [res_mapM]. assert (freq_key e = Ok (JInt z)) as -> by (unfold freq_key; by rewrite Hz).
  rewrite IH. reflexivity.
Qed.

Lemma freq_num_ok es :
  Forall entry_ok es -> exists zs, res_mapM freq_num es = Ok zs /\ length zs = length es.
Proof.
  induction 1 as [|e es [z Hz] _ (zs & IH & Hl)]; [by exists []|]. exists (z :: zs).
  cbn [res_mapM]. assert (freq_num e = Ok z) as -> by (unfold freq_num, freq_key; by rewrite Hz).
  rewrite IH. cbn. by rewrite Hl.
Qed.

Lemma assignments_ok {K} (keys : list K) (ls : list (list dict)) :
  length ls = length keys -> Forall entry_ok (concat ls) ->
  exists asg, res_mapM (fun kv => a ← _assignment kv.2; Ok (kv.1, a)) (zip keys ls) = Ok asg /\
    map fst asg = keys /\ map (fun ka => entries ka.2) asg = ls.
Proof.
  revert ls. induction keys as [|k keys IH]; intros [|l ls] Hl Hf; try done; [by exists []|].
  cbn [concat] in Hf. apply list.Forall_app in Hf as [Hf1 Hf2].
  destruct (IH ls ltac:(cbn in Hl; lia) Hf2) as (asg & E1 & E2 & E3).
  destruct (freq_key_ok l Hf1) as [fs Hfs].
  set (a := Assignment l fs (map (get_null "gains") l) (map (get_or "dwell_frames" (JInt 100)) l)).
  exists ((k, a) :: asg). cbn [zip zip_with res_mapM].
  assert (_assignment l = Ok a) as Ha by (unfold _assignment; rewrite Hfs; reflexivity).
  cbn [fst snd]. rewrite Ha. cbn [mbind res_bind]. rewrite E1. cbn. by rewrite E2, E3.
Qed.

Lemma sorted_keys {A} (l : list (A * Z)) : StronglySorted le_key l -> StronglySorted Z.le (map snd l).
Proof. induction 1 as [|x l _ IH Hf]; constructor; [done|]. by apply Forall_map. Qed.

Lemma res_mapM_zip {A B} (f : A -> res B) l k :
  res_mapM f l = Ok k -> Forall (fun x => f x.1 = Ok x.2) (zip l k).
Proof.
  revert k. induction l as [|a l IH]; intros k H; cbn in H; [constructor|].
  apply res_bind_ok in H as (b & Hb & H). apply res_bind_ok in H as (k' & Hk & [= <-]%Ok_inj).
  constructor; [done|by apply IH].
Qed.

Lemma freq_num_map l :
  Forall (fun x => freq_num x.1 = Ok x.2) l -> res_mapM freq_num (map fst l) = Ok (map snd l).
Proof. induction 1 as [|x l Hx _ IH]; [done|]. cbn [map res_mapM]. rewrite Hx, IH. reflexivity. Qed.

(** Both strategies: every entry to exactly one target, shares differ by at most one. *)
Lemma partition_parts (range : bool) (keys : list key) es :
  Forall entry_ok es -> NoDup keys -> keys <> [] ->
  exists ls, (if range then _partition_range keys es else _partition_round_robin keys es) = Ok (zip keys ls) /\
    length ls = length keys /\ Permutation (concat ls) es /\
    (forall j l, ls !! j = Some l -> length l = share (length es) (length keys) j) /\
    (range = true -> exists zs, res_mapM freq_num es = Ok zs /\ concat ls = map fst (sort_by (zip es zs))).
Proof.
  intros Hok Hn Hne. assert (0 < length keys)%nat as Hpos by (destruct keys; cbn; [done|lia]).
  destruct range.
  - unfold _partition_range. destruct (freq_num_ok es Hok) as (zs & Hzs & Hlen). rewrite Hzs. cbn [mbind res_bind].
    set (ord := map fst (sort_by (zip es zs))).
    assert (Permutation ord es) as Hp.
    { unfold ord. rewrite sort_by_perm. change (map fst (zip es zs)) with ((zip es zs).*1).
      rewrite fst_zip; [done|lia]. }
    destruct (range_parts_spec keys ord Hn Hne) as (ls & E1 & E2 & E3 & E4).
    exists ls. rewrite E1, E3. split_and!; try done; [|by exists zs].
    intros j l Hl. rewrite (E4 j l Hl). by rewrite Hp.
  - rewrite round_robin_eq by done. eexists. split; [done|].
    destruct (dealt_spec (length keys) es Hpos) as (E1 & E2 & E3). split_and!; try done.
    intros j l Hl. by apply E3.
Qed.

Lemma partition_assigns ids strat targets monitor s m :
  inv s -> _master_schedule s = Some m ->
  let keys := partition_keys ids targets monitor in
  NoDup keys -> keys <> [] ->
  exists asg, partition_schedule ids strat targets monitor s = Ok (mk (Some m) asg, asg) /\
    map fst asg = keys /\
    Permutation (concat (map (fun ka => entries ka.2) asg)) (m_entries m) /\
    (forall j ka, asg !! j = Some ka ->
       length (entries ka.2) = share (length (m_entries m)) (length keys) j).
Proof.
  intros Hinv Hm keys Hn Hne. unfold inv in Hinv. rewrite Hm in Hinv.
  unfold partition_schedule. rewrite Hm. fold keys. destruct keys as [|k ks] eqn:Ek; [done|]. rewrite <- Ek in *.
  set (r := py_eqb _ _). destruct (partition_parts r keys (m_entries m) Hinv Hn Hne) as (ls & E1 & E2 & E3 & E4 & _).
  assert ((if r then _partition_range keys (m_entries m) else _partition_round_robin keys (m_entries m)) = Ok (zip keys ls))
    as -> by exact E1. cbn [mbind res_bind].
  destruct (assignments_ok keys ls E2) as (asg & A1 & A2 & A3); [by rewrite E3|].
  rewrite A1. exists asg. split_and!; [done|done|by rewrite A3|].
  intros j ka Hj. apply E4. rewrite <- A3. change (map ?f asg) with (f <$> asg).
  by rewrite list_lookup_fmap, Hj.
Qed.

(** The partition loses and duplicates nothing: with distinct targets,
    under either strategy, every entry of the master schedule is assigned to
    exactly one target, in the order of the targets each gets the fair share
    (sizes differ by at most one, the first targets get the extra entries),
    and the assignment is stored. *)
Theorem partition_covers ids strat targets monitor s m :
  inv s -> _master_schedule s = Some m ->
  let keys := partition_keys ids targets monitor in
  NoDup keys -> keys <> [] ->
  exists asg, partition_schedule ids strat targets monitor s = Ok (mk (Some m) asg, asg) /\
    map fst asg = keys /\
    Permutation (concat (map (fun ka => entries ka.2) asg)) (m_entries m) /\
    (forall j ka, asg !! j = Some ka ->
       length (entries ka.2) = share (length (m_entries m)) (length keys) j).
Proof. apply partition_assigns. Qed.

(** Range partitioning: read in target order, the assigned entries are
    sorted by frequency, so the targets hold consecutive frequency ranges. *)
Theorem range_is_sorted ids strat targets monitor s m asg s' :
  inv s -> _master_schedule s = Some m ->
  strat = Some "range" \/ (strat = None /\ strategy m = JStr "range") ->
  let keys := partition_keys ids targets monitor in
  NoDup keys -> keys <> [] ->
  partition_schedule ids strat targets monitor s = Ok (s', asg) ->
  exists zs, res_mapM freq_num (concat (map (fun ka => entries ka.2) asg)) = Ok zs /\ StronglySorted Z.le zs.
Proof.
  intros Hinv Hm Hstrat keys Hn Hne. unfold inv in Hinv. rewrite Hm in Hinv.
  unfold partition_schedule. rewrite Hm. fold keys. destruct keys as [|k ks] eqn:Ek; [done|]. rewrite <- Ek in *.
  assert (py_eqb (if truthy match strat with Some x => JStr x | None => JNull end
                  then match strat with Some x => JStr x | None => JNull end else strategy m) (JStr "range") = true)
    as -> by (destruct Hstrat as [->|[-> ->]]; reflexivity).
  destruct (partition_parts true keys (m_entries m) Hinv Hn Hne) as (ls & -> & E2 & E3 & E4 & E5).
  destruct (E5 eq_refl) as (zs & Hzs & Hc). cbn [mbind res_bind].
  destruct (assignments_ok keys ls E2) as (asg' & A1 & A2 & A3); [by rewrite E3|].
  rewrite A1. intros [= _ <-]. rewrite A3, Hc. exists (map snd (sort_by (zip (m_entries m) zs))).
  split; [|apply sorted_keys, sort_by_sorted].
  apply freq_num_map. rewrite sort_by_perm. by apply res_mapM_zip.
Qed.

(** ** Validated entries *)
Record valid_entry (e : dict) : Prop := {
  ve_freq : exists z, dict_get "frequency" e = Some (JInt z) /\ 0 < z < 2 ^ 32;
  ve_gains : get_null "gains" e = JNull \/
             exists g gs, get_null "gains" e = JArr (map JInt (g :: gs));
  ve_dwell : dict_get "dwell_frames" e = None \/ exists z, dict_get "dwell_frames" e = Some (JInt z) /\ 1 <= z;
  ve_time : get_null "dwell_time_sec" e = JNull \/
            exists f, get_null "dwell_time_sec" e = JFloat f /\ pos_num f = true;
  ve_cal : dict_get "require_cal" e = None \/ exists b, dict_get "require_cal" e = Some (JBool b) }.

Lemma get_null_set k k' v d : get_null k (dict_set k' v d) = if bool_decide (k = k') then v else get_null k d.
Proof. unfold get_null. rewrite dict_get_set. by destruct (bool_decide _). Qed.

Lemma check_ok b u : check b = Ok u -> b = true.
Proof. by destruct b. Qed.

Lemma int_map_ok gs : res_mapM _int (map JInt gs) = Ok gs.
Proof. induction gs as [|g gs IH]; [done|]. cbn in *. by rewrite IH. Qed.

Lemma get_null_same k d d' : dict_get k d = dict_get k d' -> get_null k d = get_null k d'.
Proof. unfold get_null. by intros ->. Qed.

Lemma get_null_some k d v : dict_get k d = Some v -> get_null k d = v.
Proof. unfold get_null. by intros ->. Qed.

(** Each normaliser sets its own key and leaves the others. *)
Lemma normalize_gains_spec e out out' :
  dict_get "gains" out = dict_get "gains" e -> normalize_gains e out = Ok out' ->
  (forall k, k <> "gains" -> dict_get k out' = dict_get k out) /\
  (get_null "gains" out' = JNull \/ exists g gs, get_null "gains" out' = JArr (map JInt (g :: gs))).
Proof.
  intros Hs. unfold normalize_gains. destruct (get_null "gains" e) as [| | | | |l|] eqn:Hg; try done.
  - destruct (dict_mem _ _); intros [= <-].
    + split; [|left; by rewrite get_null_set].
      intros k Hk. rewrite dict_get_set. by rewrite bool_decide_eq_false_2.
    + split; [done|left]. by rewrite (get_null_same _ _ _ Hs).
  - destruct l as [|g gs]; [done|]. intros (zs & Hz & [= <-]%Ok_inj)%res_bind_ok. split.
    + intros k Hk. rewrite dict_get_set. by rewrite bool_decide_eq_false_2.
    + right. apply res_mapM_length in Hz. destruct zs as [|z zs]; [done|]. exists z, zs. by rewrite get_null_set.
Qed.

Lemma normalize_dwell_spec e out out' :
  dict_get "dwell_frames" out = dict_get "dwell_frames" e -> normalize_dwell e out = Ok out' ->
  (forall k, k <> "dwell_frames" -> dict_get k out' = dict_get k out) /\
  (dict_get "dwell_frames" out' = None \/ exists z, dict_get "dwell_frames" out' = Some (JInt z) /\ 1 <= z).
Proof.
  intros Hs. unfold normalize_dwell. destruct (dict_get "dwell_frames" e) as [d|] eqn:Hd.
  - intros (z & Hz & (u & Hc%check_ok & [= <-]%Ok_inj)%res_bind_ok)%res_bind_ok. split.
    + intros k Hk. rewrite dict_get_set. by rewrite bool_decide_eq_false_2.
    + right. exists z. rewrite dict_get_set, bool_decide_eq_true_2 by done. split; [done|]. lia.
  - intros [= <-]. split; [done|by left].
Qed.

Lemma normalize_time_spec e out out' :
  dict_get "dwell_time_sec" out = dict_get "dwell_time_sec" e -> normalize_time e out = Ok out' ->
  (forall k, k <> "dwell_time_sec" -> dict_get k out' = dict_get k out) /\
  (get_null "dwell_time_sec" out' = JNull \/
   exists f, get_null "dwell_time_sec" out' = JFloat f /\ pos_num f = true).
Proof.
  intros Hs. unfold normalize_time. destruct (is_null (get_null "dwell_time_sec" e)) eqn:Hn.
  - assert (get_null "dwell_time_sec" e = JNull) as E by (by destruct (get_null _ e)).
    rewrite E. intros [= <-]. split; [done|left]. by rewrite (get_null_same _ _ _ Hs).
  - intros H. assert (exists f, pos_num f = true /\ out' = dict_set "dwell_time_sec" (JFloat f) out) as (f & Hf & ->).
    { destruct (get_null "dwell_time_sec" e) eqn:Hg; try done;
        (destruct (py_float _) as [sec|[]]; try done);
        apply res_bind_ok in H as (u & Hc%check_ok & [= <-]%Ok_inj); by exists sec. }
    split; [|right; exists f; by rewrite get_null_set].
    intros k Hk. rewrite dict_get_set. by rewrite bool_decide_eq_false_2.
Qed.

Lemma normalize_valid j e : normalize_entry j = Ok e -> valid_entry e.
Proof.
  unfold normalize_entry. destruct j as [| | | | | |d]; try done.
  destruct (dict_get "frequency" d) as [f|]; [|done].
  intros (z & _ & (u & Hz%check_ok & H)%res_bind_ok)%res_bind_ok.
  apply res_bind_ok in H as (o1 & H1 & H). apply res_bind_ok in H as (o2 & H2 & H).
  apply res_bind_ok in H as (o3 & H3 & H). apply res_bind_ok in H as (u' & Hcal%check_ok & [= <-]%Ok_inj).
  apply normalize_gains_spec in H1 as [F1 G1]; [|by rewrite dict_get_set].
  apply normalize_dwell_spec in H2 as [F2 G2]; [|by rewrite F1, dict_get_set].
  apply normalize_time_spec in H3 as [F3 G3]; [|by rewrite F2, F1, dict_get_set].
  constructor.
  - exists z. rewrite F3, F2, F1, dict_get_set by done. bool_prop. split; [done|lia].
  - unfold get_null in *. by rewrite F3, F2 by done.
  - by rewrite F3 by done.
  - done.
  - rewrite F3, F2, F1, dict_get_set by done. rewrite bool_decide_eq_false_2 by done.
    revert Hcal. unfold dict_mem, get_null. destruct (dict_get "require_cal" d) as [[]|]; cbn; try done; eauto.
Qed.

Lemma valid_normalizes e : valid_entry e -> normalize_entry (JObj e) = Ok e.
Proof.
  intros [(z & Hf & Hz) Hg Hd Ht Hc]. unfold normalize_entry. rewrite Hf. cbn [_int py_int mbind res_bind].
  rewrite (proj2 (Z.ltb_lt _ _)), (proj2 (Z.ltb_lt _ _)) by lia. cbn [andb check mbind res_bind].
  rewrite (dict_set_same _ _ _ Hf).
  assert (normalize_gains e e = Ok e) as ->.
  { unfold normalize_gains, dict_mem. unfold get_null in *. destruct (dict_get "gains" e) as [j|] eqn:Eg; [|done].
    cbn in Hg |- *. destruct Hg as [->|(g & gs & ->)]; [by rewrite dict_set_same|].
    rewrite int_map_ok. cbn [_int py_int mbind res_bind]. by rewrite dict_set_same. }
  cbn [mbind res_bind]. assert (normalize_dwell e e = Ok e) as ->.
  { unfold normalize_dwell. destruct Hd as [->|(d & Hd & Hd1)]; [done|]. rewrite Hd. cbn [_int py_int mbind res_bind].
    rewrite (proj2 (Z.leb_le _ _)) by lia. cbn. by rewrite dict_set_same. }
  cbn [mbind res_bind]. assert (normalize_time e e = Ok e) as ->.
  { unfold normalize_time. unfold get_null in *. destruct (dict_get "dwell_time_sec" e) as [j|] eqn:Et; [|done].
    cbn in Ht |- *. destruct Ht as [->|(f & -> & Hp)]; [done|]. cbn. rewrite Hp. cbn. by rewrite dict_set_same. }
  cbn [mbind res_bind]. unfold dict_mem, get_null. by destruct Hc as [->|[b ->]].
Qed.

(** ** Validated documents *)
Lemma doc_entries_ok d es : get_null "entries" d = JArr (map JObj es) -> doc_entries d = es.
Proof.
  unfold doc_entries. intros ->. induction es as [|e es IH]; [done|]. cbn. by f_equal.
Qed.

Lemma validate_shape doc out :
  validate_schedule_doc doc = Ok out ->
  exists d e es, doc = JObj d /\ Forall valid_entry (e :: es) /\
    out = dict_pop "gen" (dict_set "entries" (JArr (map JObj (e :: es))) d) /\
    (negb (dict_mem "name" d) || is_str (get_null "name" d)) = true /\
    (negb (dict_mem "repeat_mode" d) || is_str (get_null "repeat_mode" d)) = true /\
    (is_null (get_null "strategy" d) || valid_strategy (get_null "strategy" d)) = true.
Proof.
  unfold validate_schedule_doc. destruct doc as [| | | | | |d]; try done.
  destruct (get_null "entries" d) as [| | | | |l|]; try done. destruct l as [|j l]; [done|].
  intros (es & Hes & H)%res_bind_ok.
  apply res_bind_ok in H as (u1 & C1%check_ok & H). apply res_bind_ok in H as (u2 & C2%check_ok & H).
  apply res_bind_ok in H as (u3 & C3%check_ok & H).
  assert (Forall valid_entry es) as Hv.
  { clear -Hes. revert es Hes. generalize (j :: l) as js. induction js as [|a js IH]; intros es Hes; cbn in Hes.
    - injection Hes as <-. constructor.
    - apply res_bind_ok in Hes as (b & Hb%normalize_valid & Hes).
      apply res_bind_ok in Hes as (k & Hk & [= <-]%Ok_inj). constructor; auto. }
  apply res_mapM_length in Hes. destruct es as [|e es]; [done|].
  exists d, e, es. split_and!; try done.
  destruct (Sig.ScheduleParser.from_json _) as [|[]]; try done. by injection H as <-.
Qed.

Lemma pop_get k d : k <> "gen" -> dict_get k (dict_pop "gen" d) = dict_get k d.
Proof. intros. rewrite dict_get_pop. by rewrite bool_decide_eq_false_2. Qed.

Lemma out_get k v d :
  k <> "gen" -> k <> "entries" -> dict_get k (dict_pop "gen" (dict_set "entries" v d)) = dict_get k d.
Proof. intros. rewrite pop_get, dict_get_set by done. by rewrite bool_decide_eq_false_2. Qed.

(** The entries of a validated document parse, each to the entry it denotes. *)
Definition parsed (e : dict) : Sig.entry :=
  Sig.Entry
    (match dict_get "frequency" e with Some (JInt z) => z | _ => 0 end) (get_null "gains" e)
    (match dict_get "dwell_frames" e with Some (JInt z) => z | _ => 100 end)
    (get_or "require_cal" (JBool true) e)
    (match get_null "dwell_time_sec" e with JFloat f => Some f | _ => None end).

Lemma valid_parses e : valid_entry e -> Sig.ScheduleParser.entry_of_json (JObj e) = Ok (parsed e).
Proof.
  intros [(z & Hf & _) _ Hd Ht _]. unfold Sig.ScheduleParser.entry_of_json, parsed. rewrite Hf.
  cbn [py_int mbind res_bind].
  assert (py_int (get_or "dwell_frames" (JInt 100) e) =
          Ok (match dict_get "dwell_frames" e with Some (JInt z) => z | _ => 100 end)) as ->
    by (unfold get_or; by destruct Hd as [->|(d & -> & _)]).
  cbn [mbind res_bind]. by destruct Ht as [->|(f & -> & _)].
Qed.

Lemma valid_all_parse es :
  Forall valid_entry es -> res_mapM Sig.ScheduleParser.entry_of_json (map JObj es) = Ok (map parsed es).
Proof.
  induction 1 as [|e es He _ IH]; [done|]. cbn [map res_mapM]. rewrite valid_parses, IH by done. reflexivity.
Qed.

Lemma from_json_entries d es :
  get_null "entries" d = JArr (map JObj es) -> Forall valid_entry es ->
  Sig.ScheduleParser.from_json (JObj d) =
    Ok (Sig.Schedule (get_or "name" (JStr "json_schedule") d) (map parsed es)
          (get_or "repeat_mode" (JStr "loop") d) true 0 0).
Proof.
  intros He Hv. unfold Sig.ScheduleParser.from_json.
  assert (get_or "entries" (JArr []) d = JArr (map JObj es)) as ->.
  { revert He. unfold get_null, get_or. by destruct (dict_get "entries" d). }
  rewrite valid_all_parse by done. reflexivity.
Qed.

Lemma validated_entries doc out :
  validate_schedule_doc doc = Ok out ->
  exists es, get_null "entries" out = JArr (map JObj es) /\ es <> [] /\ Forall valid_entry es.
Proof.
  intros (d & e & es & -> & Hv & -> & _)%validate_shape. exists (e :: es). split_and!; [|done|done].
  unfold get_null. by rewrite pop_get, dict_get_set.
Qed.

(** Validation is a normal form: a validated document validates to
    itself, has only well-typed entries (frequency within 32 bits, positive
    dwell), and the members' parser accepts it, with one parsed entry per
    entry in the same order. *)
Theorem validate_idempotent doc out :
  validate_schedule_doc doc = Ok out ->
  validate_schedule_doc (JObj out) = Ok out /\
  Forall valid_entry (doc_entries out) /\
  exists sched, Sig.ScheduleParser.from_json (JObj out) = Ok sched /\
    Sig.entries sched = map parsed (doc_entries out).
Proof.
  intros H. destruct (validated_entries _ _ H) as (es & He & Hne & Hv).
  pose proof (from_json_entries out es He Hv) as Hp. rewrite (doc_entries_ok _ _ He).
  split_and!; [|done|by eexists].
  destruct (validate_shape _ _ H) as (d & e0 & es0 & _ & _ & Hout & C1 & C2 & C3).
  unfold validate_schedule_doc. rewrite He. destruct es as [|e es]; [done|]. cbn [map].
  change (JObj e :: map JObj es) with (map JObj (e :: es)).
  assert (res_mapM normalize_entry (map JObj (e :: es)) = Ok (e :: es)) as ->.
  { clear -Hv. induction Hv as [|x l Hx _ IH]; [done|]. cbn [map res_mapM]. by rewrite valid_normalizes, IH. }
  cbn [mbind res_bind].
  assert (dict_set "entries" (JArr (map JObj (e :: es))) out = out) as ->.
  { apply dict_set_same. revert He. unfold get_null. destruct (dict_get "entries" out); cbn; congruence. }
  assert (forall k, k <> "gen" -> k <> "entries" -> dict_get k out = dict_get k d) as Hk
    by (intros; rewrite Hout; by apply out_get).
  unfold dict_mem, get_null in *. rewrite !Hk by done. rewrite C1, C2, C3. cbn [check mbind res_bind].
  assert (dict_pop "gen" out = out) as ->.
  { apply dict_pop_absent. rewrite Hout, dict_get_pop. done. }
  by rewrite Hp.
Qed.

(** ** Per-target documents: lemmas *)

(** What [_entry_out] leaves out. *)
Definition dropped (k : string) (v : json) : bool :=
  (bool_decide (k = "require_cal") && match v with JBool false => false | _ => true end) ||
  ((bool_decide (k = "dwell_time_sec") || bool_decide (k = "gains")) && is_null v).

Lemma entry_out_filter e : _entry_out e = filter (fun kv => dropped kv.1 kv.2 = false) e.
Proof.
  induction e as [|[k v] e IH]; [done|]. cbn [_entry_out]. rewrite filter_cons. cbn [fst snd].
  rewrite <- IH. clear IH. case_decide as Hd; unfold dropped in Hd.
  all: destruct (bool_decide (k = "require_cal")), (bool_decide (k = "dwell_time_sec")),
         (bool_decide (k = "gains")), v as [|[]| | | | |]; done.
Qed.

Lemma filter_get_none P `{!forall x, Decision (P x)} k (e : dict) :
  k ∉ map fst e -> dict_get k (filter P e) = None.
Proof.
  intros Hk. apply dict_get_not_in. intros Hin. apply Hk.
  apply (list_elem_of_fmap_1 fst) in Hin as (x & -> & Hx). apply list_elem_of_filter in Hx as [_ Hx].
  by apply (list_elem_of_fmap_2 fst).
Qed.

Lemma entry_out_get k e :
  unique_keys e -> dict_get k (_entry_out e) = v ← dict_get k e; if dropped k v then None else Some v.
Proof.
  rewrite entry_out_filter. induction e as [|[k0 v0] e IH]; intros Hn; [done|].
  inversion_clear Hn as [|? ? Hk Hn']. rewrite filter_cons. cbn [dict_get fst snd].
  destruct (bool_decide (k0 = k)) eqn:E; bool_prop.
  - subst k0. cbn [mbind option_bind]. destruct (dropped k v0); case_decide; try done.
    + by apply filter_get_none.
    + cbn. by rewrite bool_decide_eq_true_2.
  - destruct (dropped k0 v0); case_decide; try done; cbn; [by apply IH|].
    rewrite bool_decide_eq_false_2 by done. by apply IH.
Qed.

(** An emitted entry means the same to the member. *)
Lemma entry_out_parsed e : valid_entry e -> unique_keys e -> parsed (_entry_out e) = parsed e.
Proof.
  intros [(z & Hf & _) _ Hd _ Hc] Hn. unfold parsed, get_null, get_or.
  rewrite !entry_out_get by done. rewrite Hf. f_equal.
  - by destruct (dict_get "gains" e) as [[]|].
  - by destruct Hd as [->|(d & -> & _)].
  - destruct Hc as [->|[[] ->]]; done.
  - by destruct (dict_get "dwell_time_sec" e) as [[]|].
Qed.

Lemma entry_out_valid e : valid_entry e -> unique_keys e -> valid_entry (_entry_out e).
Proof.
  intros [(z & Hf & Hz) Hg Hd Ht Hc] Hn. constructor; unfold get_null in *; rewrite entry_out_get by done.
  - exists z. by rewrite Hf.
  - destruct (dict_get "gains" e) as [[]|]; cbn in *; auto.
  - destruct Hd as [->|(d & -> & ?)]; cbn; eauto.
  - destruct (dict_get "dwell_time_sec" e) as [[]|]; cbn in *; auto.
  - destruct Hc as [->|[[] ->]]; cbn; eauto.
Qed.

(** ** From the master document to the members *)

(** The documents of the coordinator are dicts, their entries too. *)
Definition wf_doc (doc : json) : Prop :=
  match doc with
  | JObj d => forall e l, get_null "entries" d = JArr l -> JObj e ∈ l -> unique_keys e
  | _ => True
  end.

Lemma normalize_unique e out : unique_keys e -> normalize_entry (JObj e) = Ok out -> unique_keys out.
Proof.
  intros Hu. unfold normalize_entry. destruct (dict_get "frequency" e) as [f|]; [|done].
  intros (z & _ & (u & _ & H)%res_bind_ok)%res_bind_ok.
  apply res_bind_ok in H as (o1 & H1 & H). apply res_bind_ok in H as (o2 & H2 & H).
  apply res_bind_ok in H as (o3 & H3 & H). apply res_bind_ok in H as (u' & _ & [= <-]%Ok_inj).
  assert (unique_keys o1) as U1.
  { revert H1. unfold normalize_gains. destruct (get_null "gains" e) as [| | | | |[|g gs]|]; try done.
    - destruct (dict_mem _ _); intros [= <-]; auto using unique_keys_set.
    - intros (zs & _ & [= <-]%Ok_inj)%res_bind_ok. auto using unique_keys_set. }
  assert (unique_keys o2) as U2.
  { revert H2. unfold normalize_dwell. destruct (dict_get "dwell_frames" e); [|by intros [= <-]].
    intros (d & _ & (v & _ & [= <-]%Ok_inj)%res_bind_ok)%res_bind_ok. by apply unique_keys_set. }
  revert H3. unfold normalize_time.
  destruct (get_null "dwell_time_sec" e); try (by intros [= <-]);
    (destruct (py_float _) as [sec|[]]; try done); intros (v & _ & [= <-]%Ok_inj)%res_bind_ok;
    by apply unique_keys_set.
Qed.

Lemma validate_unique doc out :
  wf_doc doc -> validate_schedule_doc doc = Ok out -> Forall unique_keys (doc_entries out).
Proof.
  intros Hwf H. unfold validate_schedule_doc in H. destruct doc as [| | | | | |d]; try done.
  destruct (get_null "entries" d) as [| | | | |l|] eqn:He; try done. destruct l as [|j l]; [done|].
  apply res_bind_ok in H as (es & Hes & H).
  apply res_bind_ok in H as (u1 & _ & H). apply res_bind_ok in H as (u2 & _ & H).
  apply res_bind_ok in H as (u3 & _ & H).
  assert (out = dict_pop "gen" (dict_set "entries" (JArr (map JObj es)) d)) as ->
    by (destruct (Sig.ScheduleParser.from_json _) as [|[]]; try done; by injection H as <-).
  rewrite (doc_entries_ok _ es); [|unfold get_null; by rewrite pop_get, dict_get_set].
  assert (forall e, JObj e ∈ j :: l -> unique_keys e) as Hu by (intros e Hin; by eapply Hwf).
  clear -Hes Hu. revert es Hes Hu. generalize (j :: l) as js. induction js as [|a js IH]; intros es Hes Hu; cbn in Hes.
  - injection Hes as <-. constructor.
  - apply res_bind_ok in Hes as (b & Hb & Hes). apply res_bind_ok in Hes as (k & Hk & [= <-]%Ok_inj).
    constructor; [|apply IH; [done|]; intros e He; apply Hu; by right].
    destruct a as [| | | | | |e]; try done. eapply normalize_unique; [|exact Hb]. apply Hu. by left.
Qed.

(** What [set_master_schedule_doc] stores. *)
Lemma set_doc_master doc strat s s' :
  set_master_schedule_doc doc strat s = Ok s' ->
  exists canon m, validate_schedule_doc doc = Ok canon /\ _master_schedule s' = Some m /\
    m_entries m = doc_entries canon /\ (exists r, repeat_mode m = JStr r) /\ (exists x, name m = JStr x) /\
    valid_strategy (strategy m) = true /\
    s' = mk (Some m) (_current_assignments s).
Proof.
  unfold set_master_schedule_doc. intros (canon & Hc & (u & Hv%check_ok & H)%res_bind_ok)%res_bind_ok.
  apply res_bind_ok in H as (fs & Hfs & [= <-]%Ok_inj). exists canon. eexists. split_and!; [done|done|done| | |done|done].
  - cbn. destruct (validate_shape _ _ Hc) as (d & e0 & es0 & _ & _ & -> & _ & C2 & _).
    unfold get_or. rewrite out_get by done. revert C2. unfold dict_mem, get_null.
    destruct (dict_get "repeat_mode" d) as [[]|]; cbn; try done; eauto.
  - cbn. destruct (validate_shape _ _ Hc) as (d & e0 & es0 & _ & _ & -> & C1 & _).
    unfold get_or. rewrite out_get by done. revert C1. unfold dict_mem, get_null.
    destruct (dict_get "name" d) as [[]|]; cbn; try done; eauto.
Qed.

Lemma target_doc_parses s m a nk iid ext gen r :
  _master_schedule s = Some m -> repeat_mode m = JStr r ->
  Forall valid_entry (entries a) -> Forall unique_keys (entries a) ->
  exists sched, Sig.ScheduleParser.from_json (target_doc s a nk iid ext gen) = Ok sched /\
    Sig.entries sched = map parsed (entries a) /\ Sig.repeat_mode sched = repeat_mode m.
Proof.
  intros Hm Hr Hv Hu.
  assert (map parsed (map _entry_out (entries a)) = map parsed (entries a)) as Hp.
  { rewrite map_map. apply list.list_fmap_ext.
    intros i e Hi. apply entry_out_parsed; eapply list.Forall_lookup_1; eauto. }
  assert (Forall valid_entry (map _entry_out (entries a))) as Hv'.
  { apply Forall_map, list.Forall_lookup. intros i e Hi. apply entry_out_valid; eapply list.Forall_lookup_1; eauto. }
  assert (forall nm g, exists sched,
    Sig.ScheduleParser.from_json (schedule_doc (entries a) nm g (JStr r)) = Ok sched /\
    Sig.entries sched = map parsed (entries a) /\ Sig.repeat_mode sched = JStr r) as Hdoc.
  { intros nm g. unfold schedule_doc. rewrite <- Hp. eexists. split.
    - apply from_json_entries; [|exact Hv']. unfold get_null. rewrite <- map_map.
      cbn [is_null orb]. destruct (py_eqb _ _), g; reflexivity.
    - cbn [Sig.entries Sig.repeat_mode]. split; [done|]. cbn [is_null orb].
      destruct (py_eqb (JStr r) (JStr "loop")) eqn:E, g; cbn -[bool_decide] in E |- *;
        try reflexivity; unfold get_or; cbn; bool_prop; by subst. }
  unfold target_doc. rewrite Hm, Hr. destruct ext; apply Hdoc.
Qed.

Lemma valid_entry_ok e : valid_entry e -> entry_ok e.
Proof. intros [(z & Hz & _) _ _ _ _]. by exists z. Qed.

Lemma set_doc_inv doc strat s s' : set_master_schedule_doc doc strat s = Ok s' -> inv s'.
Proof.
  intros (canon & m & Hc & Hm & Hes & _)%set_doc_master. unfold inv. rewrite Hm, Hes.
  destruct (validated_entries _ _ Hc) as (es & He & _ & Hv). rewrite (doc_entries_ok _ _ He).
  eapply list.Forall_impl; [exact Hv|apply valid_entry_ok].
Qed.

(** [C8] The members together run exactly the master schedule: after a master
    document is accepted and partitioned over distinct targets, the document
    sent to every target, extended or legacy, is accepted by the members'
    parser; the parsed entries of all targets together are the parsed entries
    of the master schedule, each exactly once, and every member repeats them
    in the master's repeat mode. *)
Theorem members_run_master_schedule doc strat0 s0 s ids strat targets monitor (nk : key -> string)
    (iid : key -> Z) (ext : key -> bool) (gen : key -> Z) :
  wf_doc doc -> set_master_schedule_doc doc strat0 s0 = Ok s ->
  let keys := partition_keys ids targets monitor in
  NoDup keys -> keys <> [] ->
  exists m asg s' scheds,
    _master_schedule s = Some m /\ partition_schedule ids strat targets monitor s = Ok (s', asg) /\
    Forall2 (fun ka sc =>
               Sig.ScheduleParser.from_json
                 (target_doc s' ka.2 (nk ka.1) (iid ka.1) (ext ka.1) (gen ka.1)) = Ok sc /\
               Sig.repeat_mode sc = repeat_mode m) asg scheds /\
    Permutation (concat (map Sig.entries scheds)) (map parsed (m_entries m)).
Proof.
  intros Hwf Hset keys Hn Hne. pose proof (set_doc_inv _ _ _ _ Hset) as Hinv.
  destruct (set_doc_master _ _ _ _ Hset) as (canon & m & Hc & Hm & Hes & [r Hr] & _).
  destruct (partition_assigns ids strat targets monitor s m Hinv Hm Hn Hne) as (asg & Hp & _ & Hperm & _).
  assert (Forall valid_entry (m_entries m)) as Hv.
  { destruct (validated_entries _ _ Hc) as (es & He & _ & Hv). by rewrite Hes, (doc_entries_ok _ _ He). }
  assert (Forall unique_keys (m_entries m)) as Hu by (rewrite Hes; by eapply validate_unique).
  exists m, asg, (mk (Some m) asg). rewrite Hp.
  assert (exists scheds, Forall2 (fun ka sc => Sig.ScheduleParser.from_json
      (target_doc (mk (Some m) asg) ka.2 (nk ka.1) (iid ka.1) (ext ka.1) (gen ka.1)) = Ok sc /\
      Sig.repeat_mode sc = repeat_mode m) asg scheds /\
      map Sig.entries scheds = map (fun ka => map parsed (entries ka.2)) asg) as (scheds & H2 & Hmap).
  { assert (Forall valid_entry (concat (map (fun ka => entries ka.2) asg)) /\
            Forall unique_keys (concat (map (fun ka => entries ka.2) asg))) as [Hv' Hu'] by (by rewrite !Hperm).
    clear Hperm Hp. generalize (mk (Some m) asg), (eq_refl : _master_schedule (mk (Some m) asg) = Some m).
    intros s' Hs'. induction asg as [|[k a] asg IH]; [by exists []|].
    cbn [map concat snd] in Hv', Hu'. apply list.Forall_app in Hv' as [V1 V2], Hu' as [U1 U2].
    destruct (IH V2 U2) as (scheds & IH1 & IH2).
    destruct (target_doc_parses s' m a (nk k) (iid k) (ext k) (gen k) r Hs' Hr V1 U1) as (sc & S1 & S2 & S3).
    exists (sc :: scheds). split; [by constructor|]. cbn [map snd]. by rewrite S2, IH2. }
  exists scheds. split_and!; try done. rewrite Hmap.
  assert (concat (map (fun ka => map parsed (entries ka.2)) asg)
          = map parsed (concat (map (fun ka => entries ka.2) asg))) as ->
    by (rewrite concat_map, map_map; done).
  by apply Permutation_map.
Qed.

(** ** Replication of the master document *)
Lemma extra_get k (d : dict) :
  k ∈ reserved_keys -> dict_get k (filter (fun kv => kv.1 ∉ reserved_keys) d) = None.
Proof.
  intros Hk. apply dict_get_not_in. intros Hin.
  apply (list_elem_of_fmap_1 fst) in Hin as (x & -> & Hx). by apply list_elem_of_filter in Hx as [Hx _].
Qed.

Lemma filter_idem (d : dict) :
  let P := fun kv : string * json => kv.1 ∉ reserved_keys in filter P (filter P d) = filter P d.
Proof. cbv zeta. rewrite list_filter_filter. apply list_filter_iff. tauto. Qed.

Definition master_doc (n r st : json) (ex : dict) (es : list dict) : dict :=
  [("name", n); ("repeat_mode", r); ("strategy", st)] ++ ex ++ [("entries", JArr (map JObj es))].

Lemma master_doc_get n r st ex es k :
  (forall k, k ∈ reserved_keys -> dict_get k ex = None) -> k ∈ reserved_keys ->
  dict_get k (master_doc n r st ex es) =
    if bool_decide (k = "name") then Some n
    else if bool_decide (k = "repeat_mode") then Some r
    else if bool_decide (k = "strategy") then Some st
    else if bool_decide (k = "entries") then Some (JArr (map JObj es)) else None.
Proof.
  intros Hex Hk. unfold master_doc. rewrite dict_get_app. cbn [dict_get].
  rewrite !(bool_decide_ext (_ = k) (k = _)) by naive_solver.
  do 3 (case_bool_decide; [done|]). rewrite dict_get_app, Hex by done. cbn [dict_get].
  rewrite (bool_decide_ext ("entries" = k) (k = "entries")) by naive_solver. done.
Qed.

Lemma master_doc_validates n r st ex es :
  (forall k, k ∈ reserved_keys -> dict_get k ex = None) ->
  Forall valid_entry es -> es <> [] -> is_str n = true -> is_str r = true -> valid_strategy st = true ->
  validate_schedule_doc (JObj (master_doc n r st ex es)) = Ok (master_doc n r st ex es).
Proof.
  intros Hex Hv Hne Hn Hr Hst. set (d := master_doc n r st ex es).
  assert (forall k, k ∈ reserved_keys -> dict_get k d = _) as Hget by (intros k; exact (master_doc_get n r st ex es k Hex)).
  assert (dict_get "entries" d = Some (JArr (map JObj es))) as He by (apply Hget; set_solver).
  assert (dict_get "name" d = Some n /\ dict_get "repeat_mode" d = Some r /\ dict_get "strategy" d = Some st /\
          dict_get "gen" d = None) as (G1 & G2 & G3 & G4) by (split_and!; apply Hget; set_solver).
  unfold validate_schedule_doc, dict_mem. rewrite (get_null_some _ _ _ He), G1, G2.
  rewrite (get_null_some _ _ _ G1), (get_null_some _ _ _ G2), (get_null_some _ _ _ G3).
  destruct es as [|e es]; [done|]. cbn [map]. change (JObj e :: map JObj es) with (map JObj (e :: es)).
  assert (res_mapM normalize_entry (map JObj (e :: es)) = Ok (e :: es)) as ->.
  { clear -Hv. induction Hv as [|x l Hx _ IH]; [done|]. cbn [map res_mapM]. by rewrite valid_normalizes, IH. }
  cbn [mbind res_bind negb orb]. rewrite Hn, Hr, Hst, orb_true_r. cbn [check mbind res_bind].
  rewrite (dict_set_same _ _ _ He), dict_pop_absent by done.
  rewrite (from_json_entries d (e :: es)); [done| |done]. unfold get_null. by rewrite He.
Qed.

Lemma strategy_str st : valid_strategy st = true -> exists x, st = JStr x /\ truthy st = true.
Proof.
  unfold valid_strategy. intros [H|H]%orb_true_iff; destruct st; try done; eexists; (split; [done|]);
    cbn in H; apply bool_decide_eq_true in H; by subst.
Qed.

(** Replication of the master schedule: the canonical document a leader
    reads back from its stored master schedule, when set on any other
    coordinator, stores an identical master schedule there (entries, derived
    lists, strategy, repeat mode and every extra key), for any document the
    leader accepted. *)
Theorem master_doc_roundtrip doc strat s0 s d s1 :
  set_master_schedule_doc doc strat s0 = Ok s -> get_master_schedule_doc s = Some d ->
  set_master_schedule_doc (JObj d) None s1 = Ok (mk (_master_schedule s) (_current_assignments s1)).
Proof.
  intros Hset Hget. destruct (set_doc_master _ _ _ _ Hset) as (canon & m & Hc & Hm & Hes & [r Hr] & [n Hn] & Hst & _).
  destruct (validated_entries _ _ Hc) as (es & He & Hne & Hv). rewrite (doc_entries_ok _ _ He) in Hes.
  revert Hset. unfold set_master_schedule_doc at 1. rewrite Hc. cbn [mbind res_bind].
  intros (u & _ & (fs & Hfs & [= <-]%Ok_inj)%res_bind_ok)%res_bind_ok.
  rewrite (doc_entries_ok _ _ He) in *. cbn in Hm. injection Hm as Hm. subst m. cbn in Hn, Hr, Hst.
  unfold get_master_schedule_doc in Hget. cbn [_master_schedule mbind option_bind name repeat_mode strategy extra m_entries] in Hget.
  injection Hget as <-. rewrite Hn, Hr in *.
  set (ex := filter (fun kv => kv.1 ∉ reserved_keys) canon).
  match type of Hst with valid_strategy ?x = true => set (st := x) in * end.
  assert (forall k, k ∈ reserved_keys -> dict_get k ex = None) as Hex by (intros k Hk; by apply extra_get).
  match goal with |- set_master_schedule_doc (JObj ?d) _ _ = _ =>
    change d with (master_doc (JStr n) (JStr r) st ex es) end.
  pose proof (master_doc_get (JStr n) (JStr r) st ex es) as Hg.
  unfold set_master_schedule_doc. rewrite master_doc_validates by done. cbn [mbind res_bind truthy].
  set (d := master_doc (JStr n) (JStr r) st ex es) in *.
  assert (dict_get "entries" d = Some (JArr (map JObj es))) as Ge by (apply Hg; [done|set_solver]).
  assert (dict_get "strategy" d = Some st) as Gs by (apply Hg; [done|set_solver]).
  rewrite (doc_entries_ok d es) by (by apply get_null_some).
  rewrite (get_null_some _ _ _ Gs). destruct (strategy_str st Hst) as (x & Hx & ->). rewrite Hst.
  cbn [check mbind res_bind]. unfold _store_master. rewrite Hfs. cbn [mbind res_bind].
  do 2 f_equal. cbn [_master_schedule]. do 2 f_equal.
  unfold d, master_doc. rewrite !list.filter_app. cbn. unfold ex. rewrite filter_idem. apply app_nil_r.
Qed.

(** ** Sizes of the per-target documents *)
Lemma digit_escape c : is_digit c = true -> length (escape c) = 1%nat.
Proof. by destruct c as [[] [] [] [] [] [] [] []]. Qed.

Section Sizes.
Variable float_repr : Q -> chars.

Lemma schedule_doc_size es nm g rep :
  length (dumps float_repr (schedule_doc es nm g rep)) =
    (2 + field_size float_repr ("name", nm) +
     (if is_null rep || py_eqb rep (JStr "loop") then 0 else 1 + field_size float_repr ("repeat_mode", rep)) +
     (match g with Some g => 1 + field_size float_repr ("gen", JInt (mask32 g)) | None => 0 end) +
     (1 + field_size float_repr ("entries", JArr (map (fun e => JObj (_entry_out e)) es))))%nat.
Proof.
  unfold schedule_doc. rewrite dumps_obj_length.
  destruct (is_null rep || py_eqb rep (JStr "loop")), g; cbn [app map sum foldr length]; lia.
Qed.

Lemma gen_field_size g :
  (field_size float_repr ("gen", JInt (mask32 g)) <= field_size float_repr ("gen", JInt (mask32 4294967295)))%nat.
Proof.
  unfold field_size. cbn [fst snd dumps]. rewrite !length_app. cbn [length].
  assert (length (to_chars (str_of_int (mask32 g))) <= 10)%nat.
  { apply str_of_int_length; [|lia]. pose proof (mask32_range g). cbn. lia. }
  change (length (to_chars (str_of_int (mask32 4294967295)))) with 10%nat. lia.
Qed.

Lemma entries_field_size es part rest :
  Permutation es (part ++ rest) ->
  (field_size float_repr ("entries", JArr (map (fun e => JObj (_entry_out e)) part)) <=
   field_size float_repr ("entries", JArr (map (fun e => JObj (_entry_out e)) es)))%nat.
Proof.
  intros H. apply (Permutation_map (fun e => JObj (_entry_out e))) in H. rewrite map_app in H.
  apply (dumps_part float_repr) in H. unfold field_size. cbn [fst snd]. rewrite !length_app. cbn [length].
  by apply Nat.add_le_mono_l, le_n_S.
Qed.

Lemma at_name_size n nk :
  (escaped nk <= 64)%nat ->
  (field_size float_repr ("name", at_name (JStr n) nk) <= field_size float_repr ("name", at_name (JStr n) x64))%nat.
Proof.
  intros Hk. unfold field_size. cbn [fst snd dumps at_name]. rewrite !length_app. cbn [length].
  rewrite !dump_str_length, !escaped_app. change (escaped x64) with 64%nat. lia.
Qed.

Lemma digits_escaped z : 0 <= z < 2 ^ 32 -> (escaped (str_of_int z) <= 10)%nat.
Proof.
  intros Hz. assert (length (to_chars (str_of_int z)) <= 10)%nat as Hl by (apply str_of_int_length; cbn; lia).
  assert (Forall (fun c => is_digit c = true) (to_chars (str_of_int z))) as Hd.
  { destruct (str_of_int_digits z ltac:(lia)) as (u & _ & -> & _). apply uint_digits. }
  enough (escaped (str_of_int z) = length (to_chars (str_of_int z))) by lia.
  unfold escaped. clear Hl. induction Hd as [|c l Hc _ IH]; [done|]. cbn [map concat length].
  rewrite length_app, IH. by rewrite (digit_escape c Hc).
Qed.

Lemma legacy_name_size n iid :
  0 <= iid < 2 ^ 32 ->
  (field_size float_repr ("name", JStr ("federation_inst" +:+ str_of_int iid)) <=
   field_size float_repr ("name", at_name (JStr n) x64))%nat.
Proof.
  intros Hi. pose proof (digits_escaped iid Hi). unfold field_size. cbn [fst snd dumps at_name].
  rewrite !length_app. cbn [length]. rewrite !dump_str_length, !escaped_app.
  change (escaped x64) with 64%nat. change (escaped "federation_inst") with 15%nat. lia.
Qed.


(** The size check at the coordinator is enough: for every target of a
    partition of an accepted master schedule, the serialised document, extended
    (with a node key of at most 64 characters once escaped) or legacy, is no
    larger than [whole_schedule_bytes]; so a master schedule within a transfer
    limit never produces a target document over it. *)
Theorem target_documents_fit doc strat0 s0 s ids strat targets monitor s' asg ka nk iid ext gen :
  set_master_schedule_doc doc strat0 s0 = Ok s ->
  NoDup (partition_keys ids targets monitor) ->
  partition_schedule ids strat targets monitor s = Ok (s', asg) -> ka ∈ asg ->
  (escaped nk <= 64)%nat -> 0 <= iid < 2 ^ 32 ->
  (length (target_document float_repr s' ka.2 nk iid ext gen).1 <= whole_schedule_bytes float_repr s)%nat.
Proof.
  intros Hset Hn Hp Hka Hnk Hiid. pose proof (set_doc_inv _ _ _ _ Hset) as Hinv.
  destruct (set_doc_master _ _ _ _ Hset) as (canon & m & Hc & Hm & Hes & _ & [n Hnm] & _ & _).
  destruct (decide (partition_keys ids targets monitor = [])) as [Hk|Hne].
  { unfold partition_schedule in Hp. rewrite Hm, Hk in Hp. injection Hp as <- <-. by apply not_elem_of_nil in Hka. }
  destruct (partition_assigns ids strat targets monitor s m Hinv Hm Hn Hne) as (asg' & Hp' & _ & Hperm & _).
  rewrite Hp' in Hp. injection Hp as <- <-.
  apply elem_of_Permutation in Hka as [rest Hrest].
  assert (Permutation (m_entries m) (entries ka.2 ++ concat (map (fun ka => entries ka.2) rest))) as Hpart.
  { rewrite <- Hperm. rewrite Hrest at 1. done. }
  unfold target_document, target_doc, whole_schedule_bytes, _build_schedule_json. cbn [_master_schedule fst].
  rewrite Hm, Hnm. pose proof (entries_field_size _ _ _ Hpart) as He.
  destruct ext; rewrite !schedule_doc_size.
  - pose proof (at_name_size n nk Hnk). pose proof (gen_field_size gen). lia.
  - pose proof (legacy_name_size n iid Hiid). lia.
Qed.

End Sizes.

(** ** Examples *)
Definition sample_entry (hz : Z) (rest : dict) : json := JObj (("frequency", JInt hz) :: rest).

(** Three entries, the middle one above the others, with values that are emitted or dropped. *)
Definition sample_doc : json :=
  JObj [("name", JStr "survey"); ("repeat_mode", JStr "pingpong"); ("strategy", JStr "range"); ("note", JInt 7);
        ("entries", JArr [sample_entry 100000000 [("dwell_frames", JInt 10)];
                          sample_entry 433000000 [("gains", JNull); ("require_cal", JBool true)];
                          sample_entry 200000000 [("dwell_time_sec", JFloat (Fin (3 # 2))); ("require_cal", JBool false)]])].

Definition sample_state : t :=
  match set_master_schedule_doc sample_doc None init with Ok s => s | Raise _ => init end.

Definition two_targets : option (list string) := Some ["a:0"; "b:0"].

Lemma sample_set : set_master_schedule_doc sample_doc None init = Ok sample_state.
Proof. reflexivity. Qed.

Lemma two_targets_distinct :
  NoDup (partition_keys None two_targets None) /\ partition_keys None two_targets None <> [].
Proof. split; [|done]. apply (bool_decide_unpack _). exact I. Qed.

Lemma sample_wf : wf_doc sample_doc.
Proof.
  intros e l [= <-] Hin.
  repeat (apply elem_of_cons in Hin as [[= ->]|Hin]); [..|by apply not_elem_of_nil in Hin];
    apply (bool_decide_unpack _); exact I.
Qed.

Definition sample_master : master :=
  match _master_schedule sample_state with
  | Some m => m
  | None => Master JNull JNull [] [] [] [] JNull []
  end.

Definition sample_asg : list (key * assignment) :=
  match partition_schedule None None two_targets None sample_state with Ok (_, a) => a | Raise _ => [] end.

Lemma partition_covers_witness :
  exists asg, partition_schedule None None two_targets None sample_state = Ok (mk (Some sample_master) asg, asg) /\
    map fst asg = [KStr "a:0"; KStr "b:0"] /\
    Permutation (concat (map (fun ka => entries ka.2) asg)) (m_entries sample_master).
Proof.
  destruct (partition_covers None None two_targets None sample_state sample_master) as (asg & H1 & H2 & H3 & _).
  - repeat constructor; by eexists.
  - reflexivity.
  - apply two_targets_distinct.
  - apply two_targets_distinct.
  - exists asg. split; [exact H1|]. split; [exact H2|exact H3].
Defined.

Lemma range_is_sorted_witness :
  exists zs, res_mapM freq_num (concat (map (fun ka => entries ka.2) sample_asg)) = Ok zs /\ StronglySorted Z.le zs.
Proof.
  apply (range_is_sorted None None two_targets None sample_state sample_master sample_asg
           (mk (Some sample_master) sample_asg)).
  - repeat constructor; by eexists.
  - reflexivity.
  - right. split; reflexivity.
  - apply two_targets_distinct.
  - apply two_targets_distinct.
  - vm_compute. reflexivity.
Defined.

Lemma validate_idempotent_witness :
  exists out, validate_schedule_doc sample_doc = Ok out /\ validate_schedule_doc (JObj out) = Ok out.
Proof.
  eexists. split; [reflexivity|]. eapply (validate_idempotent sample_doc). reflexivity.
Defined.

Lemma members_run_master_schedule_witness :
  exists m asg s' scheds,
    _master_schedule sample_state = Some m /\
    partition_schedule None (Some "round_robin") two_targets None sample_state = Ok (s', asg) /\
    Forall2 (fun ka sc =>
               Sig.ScheduleParser.from_json (target_doc s' ka.2 "host:0" 0 true 77) = Ok sc /\
               Sig.repeat_mode sc = repeat_mode m) asg scheds /\
    Permutation (concat (map Sig.entries scheds)) (map parsed (m_entries m)).
Proof.
  apply (members_run_master_schedule sample_doc None init sample_state None (Some "round_robin") two_targets None
           (fun _ => "host:0") (fun _ => 0) (fun _ => true) (fun _ => 77)).
  - exact sample_wf.
  - exact sample_set.
  - apply two_targets_distinct.
  - apply two_targets_distinct.
Defined.

Lemma master_doc_roundtrip_witness :
  exists d, get_master_schedule_doc sample_state = Some d /\
    set_master_schedule_doc (JObj d) None init = Ok (mk (_master_schedule sample_state) []).
Proof.
  eexists. split; [reflexivity|].
  apply (master_doc_roundtrip sample_doc None init sample_state _ init); [exact sample_set|reflexivity].
Defined.

(** The one finite float of the sample document prints as [1.5]. *)
Definition sample_repr (_ : Q) : chars := to_chars "1.5".

Lemma target_documents_fit_witness :
  (length (target_document sample_repr (mk (Some sample_master) sample_asg)
             (match sample_asg with ka :: _ => ka.2 | [] => Assignment [] [] [] [] end) "daq-1.local:0" 0 true 77).1
   <= whole_schedule_bytes sample_repr sample_state)%nat.
Proof.
  apply (target_documents_fit sample_repr sample_doc None init sample_state None None two_targets None
           (mk (Some sample_master) sample_asg) sample_asg
           (match sample_asg with ka :: _ => ka | [] => (KInt 0, Assignment [] [] [] []) end) "daq-1.local:0" 0 true 77).
  - exact sample_set.
  - apply two_targets_distinct.
  - vm_compute. reflexivity.
  - vm_compute. left.
  - vm_compute. lia.
  - lia.
Defined.

(** ** Two gaps in the validation *)

(** An infinite frequency (JSON [Infinity], or 1e999) is not refused with a
    [ValueError]: the [OverflowError] of [int()] escapes. *)
Lemma infinite_frequency_overflows :
  validate_schedule_doc (JObj [("entries", JArr [JObj [("frequency", JFloat PInf)]])]) = Raise OverflowError.
Proof. reflexivity. Qed.

(** An infinite dwell time is accepted, and the member that receives the
    schedule raises when it loads it. *)
Lemma infinite_dwell_accepted :
  let doc := JObj [("entries", JArr [JObj [("frequency", JInt 1); ("dwell_time_sec", JFloat PInf)]])] in
  is_ok (validate_schedule_doc doc) = true /\
  match Sig.ScheduleParser.from_json doc with
  | Ok sched => (Sig.load_schedule (H := Sig.cell_store) (Sig.fresh None) sched).2 = Some OverflowError
  | Raise _ => False
  end.
Proof. split; reflexivity. Qed.

End Fed.
