(* ===== verification/Shmem.v ===== *)
(** * The shared-memory double buffer ([_daq_core/shmemIface.py], [_daq_core/sh_mem_util.c])

    Two buffers and two FIFOs of one-byte signals between a producer and a
    consumer process.  The Python and the C implementation of both sides are
    modelled; the protocol is proved for any producer and consumer that meet
    the interfaces [OutSide] and [InSide], which all four do.  Shared memory,
    FIFO creation and logging are not modelled; a FIFO read is one of a byte,
    end of file, would-block (non-blocking descriptor) or an error. *)
From S2P Require Import Prelude PyText.

Module Shm.

Definition A_BUFF_READY : Z := 1.
Definition B_BUFF_READY : Z := 2.
Definition INIT_READY : Z := 10.
Definition TERMINATE : Z := 255.
Definition BUFFER_DROPPED : Z := 3.

Inductive read_result := Byte (b : Z) | Eof | WouldBlock | ReadError.

(** The producer's record of who owns the buffers. *)
Record out := Out {
  free0 : bool;
  free1 : bool;
  drop_mode : bool;
  dropped_frame_cntr : Z }.

Definition set_free (i : nat) (b : bool) (s : out) : out :=
  match i with
  | O => Out b (free1 s) (drop_mode s) (dropped_frame_cntr s)
  | 1%nat => Out (free0 s) b (drop_mode s) (dropped_frame_cntr s)
  | _ => s
  end.

Definition drop_one (s : out) : out :=
  Out (free0 s) (free1 s) (drop_mode s) (dropped_frame_cntr s + 1).

Definition init_out (drop : bool) : out := Out true true drop 0.

(** Whether [wait_buff_free] reads the backward FIFO. *)
Definition needs_read (s : out) : bool := negb (free0 s) && negb (free1 s).

Definition signal_of (i : Z) : list Z :=
  if i =? 0 then [A_BUFF_READY] else if i =? 1 then [B_BUFF_READY] else [].

(** ** Python *)
Definition py_out_wait_buff_free (r : read_result) (s : out) : out * Z :=
  if free0 s then (s, 0)
  else if free1 s then (s, 1)
  else match r with
       | Eof => (s, -1)
       | Byte b =>
           if b =? A_BUFF_READY then (set_free 0 true s, 0)
           else if b =? B_BUFF_READY then (set_free 1 true s, 1)
           else (s, BUFFER_DROPPED)
       | WouldBlock => (drop_one s, BUFFER_DROPPED)
       | ReadError => (s, -1)
       end.

(** [buffer_free[i] = b] on the two-element list, negative indices included. *)
Definition py_set_free (i : Z) (b : bool) (s : out) : res out :=
  if (i =? 0) || (i =? -2) then Ok (set_free 0 b s)
  else if (i =? 1) || (i =? -1) then Ok (set_free 1 b s)
  else Raise IndexError.

(** With the bytes written when the write succeeds; the flag changes either way. *)
Definition py_out_send_ctr_buff_ready (active_buffer_index : Z) (s : out) : res (out * list Z) :=
  s ← py_set_free active_buffer_index false s;
  Ok (s, signal_of active_buffer_index).

Definition send_ctr_terminate : list Z := [TERMINATE].

(** [timed_out] is the outcome of the [select] when a timeout is configured. *)
Definition py_in_wait_buff_free (read_timeout_ms : Z) (timed_out : bool) (r : read_result) : Z :=
  if (0 <? read_timeout_ms) && timed_out then -2
  else match r with
       | Byte b => if b =? A_BUFF_READY then 0 else if b =? B_BUFF_READY then 1
                   else if b =? TERMINATE then TERMINATE else -1
       | Eof | ReadError | WouldBlock => -1
       end.

Definition py_in_send_ctr_buff_ready (active_buffer_index : Z) : list Z :=
  signal_of active_buffer_index.

(** [inShmemIface.__init__]: the first byte must be [INIT_READY]. *)
Definition py_in_init_ok (r : read_result) : bool :=
  match r with Byte b => b =? INIT_READY | _ => false end.

(** ** C *)

(** [fread] returns 0 at end of file too, and leaves [errno] as it was:
    [eagain] is whether it still says [EAGAIN] from an earlier read.  The
    [case EOF] of the switch is never taken. *)
Definition c_wait_buff_free (eagain : bool) (r : read_result) (s : out) : out * Z :=
  if free0 s then (s, 0)
  else if free1 s then (s, 1)
  else match r with
       | WouldBlock => (drop_one s, 3)
       | Eof => if eagain then (drop_one s, 3) else (s, -1)
       | ReadError => (s, -1)
       | Byte b =>
           if b =? A_BUFF_READY then (set_free 0 true s, 0)
           else if b =? B_BUFF_READY then (set_free 1 true s, 1)
           else (s, -1)
       end.

(** [None] is the write outside [buffer_free], which C leaves undefined. *)
Definition c_send_ctr_buff_ready (active_buff_index : Z) (s : out) : option (out * list Z) :=
  if active_buff_index =? 0 then Some (set_free 0 false s, [A_BUFF_READY])
  else if active_buff_index =? 1 then Some (set_free 1 false s, [B_BUFF_READY])
  else None.

Definition c_wait_buff_ready (r : read_result) : Z :=
  match r with
  | Byte b => if b =? A_BUFF_READY then 0 else if b =? B_BUFF_READY then 1
              else if b =? TERMINATE then TERMINATE else -2
  | Eof | ReadError | WouldBlock => -1
  end.

Definition c_send_ctr_buff_free (active_buff_index : Z) : list Z :=
  signal_of active_buff_index.

Definition c_wait_ctr_init_ready (r : read_result) : Z :=
  match r with Byte b => if b =? INIT_READY then 0 else -2 | _ => -1 end.

(** ** Names of the segments and FIFOs *)
Definition data_control : string := "_data_control/".

Definition py_shmem_name (instance_id : Z) (name : string) : string :=
  if instance_id =? 0 then name else "inst" +:+ str_of_int instance_id +:+ "_" +:+ name.

(** [which] is ["fw_"] or ["bw_"]. *)
Definition py_fifo_path (instance_id : Z) (which name : string) : string :=
  (if instance_id =? 0 then data_control
   else data_control +:+ "inst" +:+ str_of_int instance_id +:+ "_") +:+ which +:+ name.

Definition build_shmem_name (instance_id : Z) (base_name : string) : string :=
  if instance_id =? 0 then base_name else "inst" +:+ str_of_int instance_id +:+ "_" +:+ base_name.

(** [strncmp(base_path, prefix, strlen(prefix)) == 0], and the rest. *)
Fixpoint after_prefix (prefix s : string) : option string :=
  match prefix, s with
  | EmptyString, s => Some s
  | String a prefix, String b s => if Ascii.eqb a b then after_prefix prefix s else None
  | String _ _, EmptyString => None
  end.

Definition build_fifo_path (instance_id : Z) (base_path : string) : string :=
  if instance_id =? 0 then base_path
  else match after_prefix data_control base_path with
       | Some suffix => data_control +:+ "inst" +:+ str_of_int instance_id +:+ "_" +:+ suffix
       | None => "inst" +:+ str_of_int instance_id +:+ "_" +:+ base_path
       end.

Definition compute_port (base_port instance_id stride : Z) : Z := base_port + instance_id * stride.

(** ** Interfaces *)

(** A producer side: how it finds a free buffer and hands one over. *)
Class OutSide (wait : read_result -> out -> out * Z) (ready : Z -> out -> option (out * list Z)) : Prop := {
  wait_free0 : forall r s, free0 s = true -> wait r s = (s, 0);
  wait_free1 : forall r s, free0 s = false -> free1 s = true -> wait r s = (s, 1);
  wait_a : forall s, needs_read s = true -> wait (Byte A_BUFF_READY) s = (set_free 0 true s, 0);
  wait_b : forall s, needs_read s = true -> wait (Byte B_BUFF_READY) s = (set_free 1 true s, 1);
  wait_drop : forall s, needs_read s = true -> wait WouldBlock s = (drop_one s, BUFFER_DROPPED);
  ready_a : forall s, ready 0 s = Some (set_free 0 false s, [A_BUFF_READY]);
  ready_b : forall s, ready 1 s = Some (set_free 1 false s, [B_BUFF_READY]) }.

(** A consumer side: how it starts, reads the signals and returns a buffer. *)
Class InSide (start : read_result -> bool) (wait : read_result -> Z) (free : Z -> list Z) : Prop := {
  in_init : start (Byte INIT_READY) = true;
  in_a : wait (Byte A_BUFF_READY) = 0;
  in_b : wait (Byte B_BUFF_READY) = 1;
  in_terminate : wait (Byte TERMINATE) = TERMINATE;
  free_a : free 0 = [A_BUFF_READY];
  free_b : free 1 = [B_BUFF_READY] }.

Definition py_out_ready (i : Z) (s : out) : option (out * list Z) :=
  res_to_option (py_out_send_ctr_buff_ready i s).

Definition c_in_start (r : read_result) : bool := c_wait_ctr_init_ready r =? 0.

#[export] Instance py_out : OutSide py_out_wait_buff_free py_out_ready.
Proof. split; try done; unfold needs_read, py_out_wait_buff_free; intros; repeat case_goal; done. Qed.

#[export] Instance c_out eagain : OutSide (c_wait_buff_free eagain) c_send_ctr_buff_ready.
Proof. split; try done; unfold needs_read, c_wait_buff_free; intros; repeat case_goal; done. Qed.

#[export] Instance py_in : InSide py_in_init_ok (py_in_wait_buff_free 0 false) py_in_send_ctr_buff_ready.
Proof. by split. Qed.

#[export] Instance c_in : InSide c_in_start c_wait_buff_ready c_send_ctr_buff_free.
Proof. by split. Qed.

(** ** One producer and one consumer *)
Inductive ppc := PIdle | PFill (i : Z) | PDone.
Inductive cpc := CInit | CIdle | CRead (i : Z) | CGot (i : Z) | CDone | CFailed.

(** The two processes, the bytes in the two FIFOs, and the two buffers.
    [rounds] counts the frames the producer had to offer, [sent] and [got] the
    frames handed over and the frames the consumer read. *)
Record link (F : Type) := Link {
  lout : out;
  pstate : ppc;
  cstate : cpc;
  fw : list Z;
  bw : list Z;
  mem : Z -> F;
  rounds : Z;
  sent : list F;
  got : list F }.
Arguments Link {F}.
Arguments lout {F}.
Arguments pstate {F}.
Arguments cstate {F}.
Arguments fw {F}.
Arguments bw {F}.
Arguments mem {F}.
Arguments rounds {F}.
Arguments sent {F}.
Arguments got {F}.

Inductive act (F : Type) :=
  | AWait | AWrite (f : F) | ASend | ATerm
  | AStart | ARead | ATake | AFree.
Arguments AWait {F}.
Arguments AWrite {F}.
Arguments ASend {F}.
Arguments ATerm {F}.
Arguments AStart {F}.
Arguments ARead {F}.
Arguments ATake {F}.
Arguments AFree {F}.

Section Link.
Context {F : Type}.
Context (wait : read_result -> out -> out * Z) (ready : Z -> out -> option (out * list Z)).
Context (start : read_result -> bool) (iwait : read_result -> Z) (ifree : Z -> list Z).
Implicit Types l : link F.

Definition init_link (drop : bool) (m : Z -> F) : link F :=
  Link (init_out drop) PIdle CInit [INIT_READY] [] m 0 [] [].

Definition waited (w : out * Z) (bw' : list Z) (l : link F) : link F :=
  Link w.1 (if (w.2 =? 0) || (w.2 =? 1) then PFill w.2 else PIdle)
    (cstate l) (fw l) bw' (mem l) (rounds l + 1) (sent l) (got l).

(** What [wait_buff_free] of the producer reads; [None] while it blocks. *)
Definition wait_step (l : link F) : option (link F) :=
  if needs_read (lout l) then
    match bw l with
    | b :: bw' => Some (waited (wait (Byte b) (lout l)) bw' l)
    | [] => if drop_mode (lout l) then Some (waited (wait WouldBlock (lout l)) [] l) else None
    end
  else Some (waited (wait WouldBlock (lout l)) (bw l) l).

Definition set_cons (c : cpc) (fw' bw' : list Z) (got' : list F) (l : link F) : link F :=
  Link (lout l) (pstate l) c fw' bw' (mem l) (rounds l) (sent l) got'.

Definition read_cpc (z : Z) : cpc :=
  if (z =? 0) || (z =? 1) then CRead z else if z =? TERMINATE then CDone else CFailed.

Definition exec (a : act F) (l : link F) : option (link F) :=
  match a, pstate l, cstate l with
  | AWait, PIdle, _ => wait_step l
  | AWrite f, PFill i, _ =>
      Some (Link (lout l) (PFill i) (cstate l) (fw l) (bw l)
              (fun j => if j =? i then f else mem l j) (rounds l) (sent l) (got l))
  | ASend, PFill i, _ =>
      '(o, bytes) ← ready i (lout l);
      Some (Link o PIdle (cstate l) (fw l ++ bytes) (bw l) (mem l) (rounds l)
              (sent l ++ [mem l i]) (got l))
  | ATerm, PIdle, _ =>
      Some (Link (lout l) PDone (cstate l) (fw l ++ send_ctr_terminate) (bw l) (mem l)
              (rounds l) (sent l) (got l))
  | AStart, _, CInit =>
      match fw l with
      | b :: fw' => Some (set_cons (if start (Byte b) then CIdle else CFailed) fw' (bw l) (got l) l)
      | [] => None
      end
  | ARead, _, CIdle =>
      match fw l with
      | b :: fw' => Some (set_cons (read_cpc (iwait (Byte b))) fw' (bw l) (got l) l)
      | [] => None
      end
  | ATake, _, CRead i => Some (set_cons (CGot i) (fw l) (bw l) (got l ++ [mem l i]) l)
  | AFree, _, CGot i => Some (set_cons CIdle (fw l) (bw l ++ ifree i) (got l) l)
  | _, _, _ => None
  end.

Fixpoint run (acts : list (act F)) (l : link F) : option (link F) :=
  match acts with
  | [] => Some l
  | a :: acts => l ← exec a l; run acts l
  end.

(** ** The invariant *)
Definition free_idx (s : out) : list Z :=
  (if free0 s then [0] else []) ++ (if free1 s then [1] else []).

Definition held (c : cpc) : list Z := match c with CRead i | CGot i => [i] | _ => [] end.

Definition reading (c : cpc) : list Z := match c with CRead i => [i] | _ => [] end.

Definition sig (i : Z) : Z := if i =? 0 then A_BUFF_READY else B_BUFF_READY.

Definition fw_start (c : cpc) : list Z := match c with CInit => [INIT_READY] | _ => [] end.

Definition fw_end (p : ppc) (c : cpc) : list Z :=
  match p, c with PDone, CDone => [] | PDone, _ => [TERMINATE] | _, _ => [] end.

Definition filling (p : ppc) : list Z := match p with PFill i => [i] | _ => [] end.

Context (drop : bool).

(** [q] are the buffers announced in the forward FIFO, [qb] those handed back
    in the backward one. *)
Record inv (l : link F) (q qb : list Z) : Prop := Inv {
  inv_fw : fw l = fw_start (cstate l) ++ map sig q ++ fw_end (pstate l) (cstate l);
  inv_bw : bw l = map sig qb;
  inv_tokens : free_idx (lout l) ++ q ++ held (cstate l) ++ qb ≡ₚ [0; 1];
  inv_sent : sent l = got l ++ map (mem l) (reading (cstate l) ++ q);
  inv_fill : filling (pstate l) ⊆ free_idx (lout l);
  inv_ok : cstate l <> CFailed;
  inv_done : cstate l = CDone -> pstate l = PDone /\ q = [];
  inv_mode : drop_mode (lout l) = drop;
  inv_block : drop = false -> dropped_frame_cntr (lout l) = 0;
  inv_rounds : rounds l =
    dropped_frame_cntr (lout l) + Z.of_nat (length (sent l) + length (filling (pstate l))) }.

Inductive reach : link F -> Prop :=
  | reach_init m : reach (init_link drop m)
  | reach_step a l l' : reach l -> exec a l = Some l' -> reach l'.

Context `{!OutSide wait ready} `{!InSide start iwait ifree}.

Lemma token_01 l q qb i :
  inv l q qb -> i ∈ free_idx (lout l) ++ q ++ held (cstate l) ++ qb -> i = 0 \/ i = 1.
Proof. intros H. rewrite (inv_tokens _ _ _ H). set_solver. Qed.

Lemma tokens_nodup l q qb :
  inv l q qb -> NoDup (free_idx (lout l) ++ q ++ held (cstate l) ++ qb).
Proof.
  intros H. rewrite (inv_tokens _ _ _ H). repeat constructor; set_solver.
Qed.

(** A buffer the producer owns is neither announced, nor held, nor returned. *)
Lemma free_exclusive l q qb i :
  inv l q qb -> i ∈ free_idx (lout l) -> (i ∉ q) /\ (i ∉ held (cstate l)) /\ (i ∉ qb).
Proof.
  intros (_ & Hd & _)%tokens_nodup%list.NoDup_app Hi. set_solver.
Qed.

Lemma reading_held c : reading c ⊆ held c.
Proof. destruct c; set_solver. Qed.

Lemma inv_init m : inv (init_link drop m) [] [].
Proof. split; cbn; try done; set_solver. Qed.

Lemma free_idx_drop s : free_idx (drop_one s) = free_idx s.
Proof. done. Qed.

Lemma needs_read_free s : needs_read s = true -> free_idx s = [].
Proof. destruct s as [[] [] ? ?]; done. Qed.

Ltac inv_fields :=
  split; cbn in *; try done; try lia; try congruence;
  try match goal with H : ?c = CDone -> _ |- ?c = CDone -> _ => by intros [??]%H end.

Lemma inv_wait l l' q qb :
  inv l q qb -> pstate l = PIdle -> wait_step l = Some l' -> exists qb', inv l' q qb'.
Proof.
  intros [Hfw Hbw Ht Hs Hf Hok Hd Hm Hb Hr] Hp. unfold wait_step. rewrite Hp in *.
  destruct (needs_read (lout l)) eqn:En.
  - rewrite (needs_read_free _ En) in Ht. destruct (lout l) as [[] [] d n] eqn:El; try done.
    destruct qb as [|i qb]; rewrite Hbw; cbn [map].
    + case_match eqn:Hdm; [|done]. rewrite wait_drop by done. intros [= <-]. exists []. inv_fields.
    + intros [= <-]. exists qb.
      assert (i = 0 \/ i = 1) as [-> | ->] by (assert (i ∈ [0; 1]) by (rewrite <- Ht; set_solver); set_solver);
        cbn [sig Z.eqb]; rewrite ?wait_a, ?wait_b by done;
        (inv_fields; rewrite <- Ht; solve_Permutation).
  - assert (Hw : exists i, wait WouldBlock (lout l) = (lout l, i) /\ i ∈ free_idx (lout l) /\ (i = 0 \/ i = 1)).
    { destruct (lout l) as [[] [] d n] eqn:El; try done.
      - exists 0. rewrite wait_free0 by done. set_solver.
      - exists 0. rewrite wait_free0 by done. set_solver.
      - exists 1. rewrite wait_free1 by done. set_solver. }
    destruct Hw as (i & Hw & Hi & H01). rewrite Hw. intros [= <-]. exists qb.
    unfold waited; cbn [fst snd]. replace ((i =? 0) || (i =? 1)) with true by lia.
    inv_fields. set_solver.
Qed.

Lemma inv_write l q qb i f :
  inv l q qb -> pstate l = PFill i ->
  inv (Link (lout l) (PFill i) (cstate l) (fw l) (bw l)
         (fun j => if j =? i then f else mem l j) (rounds l) (sent l) (got l)) q qb.
Proof.
  intros H Hp. assert (Hi : i ∈ free_idx (lout l)).
  { apply (inv_fill _ _ _ H). rewrite Hp. set_solver. }
  destruct (free_exclusive _ _ _ _ H Hi) as (Hq & Hh & _).
  destruct H as [Hfw Hbw Ht Hs Hf Hok Hd Hm Hb Hr]. rewrite Hp in *.
  split; cbn in *; try done. rewrite Hs. f_equal. apply map_ext_in. intros j Hj%list_elem_of_In.
  destruct (Z.eqb_spec j i) as [->|]; [|done].
  pose proof (reading_held (cstate l)). set_solver.
Qed.

Lemma free_idx_send i s :
  i ∈ free_idx s -> exists o,
    ready i s = Some (o, [sig i]) /\ i :: free_idx o ≡ₚ free_idx s /\
    drop_mode o = drop_mode s /\ dropped_frame_cntr o = dropped_frame_cntr s.
Proof.
  intros Hi. assert (i = 0 \/ i = 1) as [-> | ->] by (destruct s as [[] [] ? ?]; set_solver).
  - rewrite ready_a. exists (set_free 0 false s). by destruct s as [[] [] ? ?]; try set_solver.
  - rewrite ready_b. exists (set_free 1 false s). destruct s as [[] [] ? ?]; try set_solver; by repeat constructor.
Qed.

Lemma inv_send l l' q qb i :
  inv l q qb -> pstate l = PFill i -> exec ASend l = Some l' -> inv l' (q ++ [i]) qb.
Proof.
  intros H Hp. assert (Hi : i ∈ free_idx (lout l)).
  { apply (inv_fill _ _ _ H). rewrite Hp. set_solver. }
  destruct H as [Hfw Hbw Ht Hs Hf Hok Hd Hm Hb Hr].
  destruct (free_idx_send _ _ Hi) as (o & Ho & Hfr & Hdm & Hdc).
  assert (cstate l <> CDone) by (intros [? _]%Hd; congruence).
  unfold exec. rewrite Hp, Ho in *. cbn. intros [= <-]. split; cbn; try done.
  - rewrite Hfw, map_app, <- !app_assoc. done.
  - rewrite <- Ht, <- Hfr. solve_Permutation.
  - rewrite Hs, !map_app, <- !app_assoc. done.
  - set_solver.
  - by rewrite Hdm.
  - by rewrite Hdc.
  - rewrite Hdc, length_app. cbn in *. lia.
Qed.

Lemma inv_term l q qb :
  inv l q qb -> pstate l = PIdle ->
  inv (Link (lout l) PDone (cstate l) (fw l ++ send_ctr_terminate) (bw l) (mem l)
         (rounds l) (sent l) (got l)) q qb.
Proof.
  intros [Hfw Hbw Ht Hs Hf Hok Hd Hm Hb Hr] Hp. rewrite Hp in *.
  assert (cstate l <> CDone) by (intros [? _]%Hd; congruence).
  split; cbn in *; try done.
  rewrite Hfw, app_nil_r, <- !app_assoc. by destruct (cstate l).
Qed.

Lemma exec_start l b fw' :
  cstate l = CInit -> fw l = b :: fw' ->
  exec AStart l = Some (set_cons (if start (Byte b) then CIdle else CFailed) fw' (bw l) (got l) l).
Proof. unfold exec. intros -> ->. by destruct (pstate l). Qed.

Lemma inv_start l l' q qb : inv l q qb -> exec AStart l = Some l' -> inv l' q qb.
Proof.
  intros [Hfw Hbw Ht Hs Hf Hok Hd Hm Hb Hr] He.
  assert (Hc : cstate l = CInit) by (unfold exec in He; by destruct (pstate l), (cstate l)).
  rewrite Hc in *. rewrite (exec_start _ _ _ Hc Hfw), in_init in He. injection He as <-.
  split; cbn in *; done.
Qed.

Lemma read_sig i : i = 0 \/ i = 1 -> read_cpc (iwait (Byte (sig i))) = CRead i.
Proof. intros [-> | ->]; unfold sig; cbn [Z.eqb]; by rewrite ?in_a, ?in_b. Qed.

Lemma exec_read l b fw' :
  cstate l = CIdle -> fw l = b :: fw' ->
  exec ARead l = Some (set_cons (read_cpc (iwait (Byte b))) fw' (bw l) (got l) l).
Proof. unfold exec. intros -> ->. by destruct (pstate l). Qed.

Lemma exec_read_inv l l' :
  exec ARead l = Some l' -> exists b fw', cstate l = CIdle /\ fw l = b :: fw'.
Proof. unfold exec. destruct (pstate l), (cstate l), (fw l); naive_solver. Qed.

Lemma inv_read l l' q qb : inv l q qb -> exec ARead l = Some l' -> exists q', inv l' q' qb.
Proof.
  intros H He. destruct (exec_read_inv _ _ He) as (b & fw' & Hc & Hb).
  rewrite (exec_read _ _ _ Hc Hb) in He. injection He as <-.
  pose proof (fun i => token_01 _ _ _ i H) as H01.
  destruct H as [Hfw Hbw Ht Hs Hf Hok Hd Hm Hbl Hr]. rewrite Hc, Hb in *. cbn in Hfw.
  destruct q as [|i q]; cbn in Hfw.
  - exists []. destruct (pstate l) eqn:Hp; try done. injection Hfw as -> ->.
    rewrite in_terminate. split; cbn in *; rewrite ?Hp; try done.
  - exists q. injection Hfw as -> ->. rewrite read_sig by (apply H01; set_solver).
    split; cbn in *; try done; rewrite <- Ht; solve_Permutation.
Qed.

Lemma inv_take l l' q qb : inv l q qb -> exec ATake l = Some l' -> inv l' q qb.
Proof.
  intros [Hfw Hbw Ht Hs Hf Hok Hd Hm Hb Hr] He.
  assert (exists i, cstate l = CRead i /\
    l' = set_cons (CGot i) (fw l) (bw l) (got l ++ [mem l i]) l) as (i & Hc & ->).
  { unfold exec in He. destruct (pstate l), (cstate l); naive_solver. }
  rewrite Hc in *. split; cbn in *; try done.
  by rewrite <- app_assoc.
Qed.

Lemma inv_free l l' q qb : inv l q qb -> exec AFree l = Some l' -> exists qb', inv l' q qb'.
Proof.
  intros H He.
  assert (exists i, cstate l = CGot i /\
    l' = set_cons CIdle (fw l) (bw l ++ ifree i) (got l) l) as (i & Hc & ->).
  { unfold exec in He. destruct (pstate l), (cstate l); naive_solver. }
  assert (ifree i = [sig i]) as ->.
  { destruct (token_01 _ _ _ i H) as [-> | ->]; [rewrite Hc; set_solver | apply free_a | apply free_b]. }
  destruct H as [Hfw Hbw Ht Hs Hf Hok Hd Hm Hb Hr]. rewrite Hc in *. exists (qb ++ [i]).
  split; cbn in *; try done.
  - by rewrite Hbw, map_app.
  - rewrite <- Ht. solve_Permutation.
Qed.

(** Every action preserves the invariant. *)
Lemma inv_exec a l l' q qb :
  inv l q qb -> exec a l = Some l' -> exists q' qb', inv l' q' qb'.
Proof.
  intros H. destruct a.
  - destruct (pstate l) eqn:Hp; unfold exec; rewrite Hp; try done. intros He.
    destruct (inv_wait _ _ _ _ H Hp He) as [qb' ?]. eauto.
  - destruct (pstate l) eqn:Hp; unfold exec; rewrite Hp; try done. intros [= <-].
    eauto using inv_write.
  - destruct (pstate l) eqn:Hp; [by unfold exec; rewrite Hp | | by unfold exec; rewrite Hp].
    eauto using inv_send.
  - destruct (pstate l) eqn:Hp; unfold exec; rewrite Hp; try done. intros [= <-].
    eauto using inv_term.
  - eauto using inv_start.
  - intros He. destruct (inv_read _ _ _ _ H He). eauto.
  - eauto using inv_take.
  - intros He. destruct (inv_free _ _ _ _ H He). eauto.
Qed.

Lemma reach_inv l : reach l -> exists q qb, inv l q qb.
Proof.
  induction 1 as [m | a l l' _ (q & qb & IH) He]; [eauto using inv_init | eauto using inv_exec].
Qed.

Lemma run_reach acts l l' : reach l -> run acts l = Some l' -> reach l'.
Proof.
  revert l. induction acts as [|a acts IH]; intros l Hl; cbn; [by intros [= <-]|].
  destruct (exec a l) eqn:E; cbn; [|done]. eauto using reach.
Qed.

Lemma pending_length l q qb : inv l q qb -> (length (reading (cstate l) ++ q) <= 2)%nat.
Proof.
  intros H%inv_tokens%Permutation_length. rewrite !length_app in *. cbn in H.
  destruct (cstate l); cbn in *; lia.
Qed.

(** [C7] Between any producer and consumer that meet the interfaces, in every
    interleaving, with or without drop mode: what the consumer has read is a
    prefix of the frames handed over, in order and unaltered; at most two
    frames are under way, and none when the consumer sees [TERMINATE]; every
    frame offered is handed over, being filled or counted as dropped, and
    without drop mode none is dropped. *)
Theorem link_delivers l :
  reach l ->
  cstate l <> CFailed /\
  (exists pending, sent l = got l ++ pending /\ (length pending <= 2)%nat /\
     (cstate l = CDone -> pending = [])) /\
  rounds l = dropped_frame_cntr (lout l) + Z.of_nat (length (sent l) + length (filling (pstate l))) /\
  (drop = false -> dropped_frame_cntr (lout l) = 0).
Proof.
  intros (q & qb & H)%reach_inv. pose proof (pending_length _ _ _ H).
  destruct H as [_ _ _ Hs _ Hok Hd Hm Hb Hr]. split_and!; try done.
  eexists; split_and!; [exact Hs | by rewrite length_map |].
  intros Hc. destruct (Hd Hc) as [_ ->]. by rewrite Hc.
Qed.

(** While the producer fills a buffer the consumer does not read that
    buffer, has not been told it is ready, and has not handed it back; so no
    frame is overwritten before it was read. *)
Theorem no_shared_access l i :
  reach l -> pstate l = PFill i ->
  cstate l <> CRead i /\ cstate l <> CGot i /\ sig i ∉ fw l /\ sig i ∉ bw l.
Proof.
  intros (q & qb & H)%reach_inv Hp. assert (Hi : i ∈ free_idx (lout l)).
  { apply (inv_fill _ _ _ H). rewrite Hp. set_solver. }
  destruct (free_exclusive _ _ _ _ H Hi) as (Hq & Hh & Hqb).
  pose proof (fun i => token_01 _ _ _ i H) as H01.
  assert (Hsig : forall q', (forall j, j ∈ q' -> (j = 0 \/ j = 1)) -> (i ∉ q') -> sig i ∉ map sig q').
  { intros q' Hq' Hn (j & Hj & Hin%list_elem_of_In)%list_elem_of_In%in_map_iff.
    assert (i = 0 \/ i = 1) by (apply H01; set_solver).
    assert (j = i) by (destruct (Hq' _ Hin), H0; subst; done). by subst. }
  assert (i = 0 \/ i = 1) by (apply H01; set_solver).
  split_and!.
  - intros Hc. rewrite Hc in Hh. set_solver.
  - intros Hc. rewrite Hc in Hh. set_solver.
  - rewrite (inv_fw _ _ _ H), Hp. cbn. rewrite app_nil_r. intros [Hs|Hs]%elem_of_app.
    + destruct (cstate l); cbn in Hs; set_solver.
    + revert Hs. apply Hsig; [|done]. intros j Hj. apply H01. set_solver.
  - rewrite (inv_bw _ _ _ H). apply Hsig; [|done]. intros j Hj. apply H01. set_solver.
Qed.

(** The rest of a consumer round, from where it stands. *)
Definition to_free (c : cpc) : list (act F) :=
  match c with
  | CInit => [AStart; ARead; ATake; AFree]
  | CIdle => [ARead; ATake; AFree]
  | CRead _ => [ATake; AFree]
  | CGot _ => [AFree]
  | _ => []
  end.

Lemma exec_take l i :
  cstate l = CRead i ->
  exec ATake l = Some (set_cons (CGot i) (fw l) (bw l) (got l ++ [mem l i]) l).
Proof. unfold exec. intros ->. by destruct (pstate l). Qed.

Lemma free_runs l i :
  cstate l = CGot i -> i = 0 \/ i = 1 ->
  exists l', run [AFree] l = Some l' /\ lout l' = lout l /\ pstate l' = pstate l /\ bw l' <> [].
Proof.
  intros Hc Hi. exists (set_cons CIdle (fw l) (bw l ++ ifree i) (got l) l). split_and!; try done.
  - unfold run, exec. rewrite Hc. by destruct (pstate l).
  - cbn. destruct Hi as [-> | ->]; rewrite ?free_a, ?free_b; by destruct (bw l).
Qed.

Lemma take_runs l i :
  cstate l = CRead i -> i = 0 \/ i = 1 ->
  exists l', run [ATake; AFree] l = Some l' /\ lout l' = lout l /\ pstate l' = pstate l /\ bw l' <> [].
Proof.
  intros Hc Hi. destruct (free_runs (set_cons (CGot i) (fw l) (bw l) (got l ++ [mem l i]) l) i
                            eq_refl Hi) as (l' & Hr & ?).
  exists l'. split; [|done]. rewrite <- Hr. cbn [run]. by rewrite (exec_take _ _ Hc).
Qed.

Lemma read_runs l i fw' :
  cstate l = CIdle -> fw l = sig i :: fw' -> i = 0 \/ i = 1 ->
  exists l', run [ARead; ATake; AFree] l = Some l' /\ lout l' = lout l /\ pstate l' = pstate l /\ bw l' <> [].
Proof.
  intros Hc Hf Hi. destruct (take_runs (set_cons (CRead i) fw' (bw l) (got l) l) i eq_refl Hi)
    as (l' & Hr & ?).
  exists l'. split; [|done]. rewrite <- Hr. cbn [run]. rewrite (exec_read _ _ _ Hc Hf).
  by rewrite read_sig.
Qed.

Lemma start_runs l i fw' :
  cstate l = CInit -> fw l = INIT_READY :: sig i :: fw' -> i = 0 \/ i = 1 ->
  exists l', run [AStart; ARead; ATake; AFree] l = Some l' /\
    lout l' = lout l /\ pstate l' = pstate l /\ bw l' <> [].
Proof.
  intros Hc Hf Hi. destruct (read_runs (set_cons CIdle (sig i :: fw') (bw l) (got l) l) i fw'
                               eq_refl eq_refl Hi) as (l' & Hr & ?).
  exists l'. split; [|done]. rewrite <- Hr. cbn [run]. rewrite (exec_start _ _ _ Hc Hf).
  by rewrite in_init.
Qed.

(** A producer that waits for a buffer is never stuck: whenever its
    [wait_buff_free] blocks, the consumer can finish the round it is in (at
    most four actions, none of which waits for the producer), and after it the
    producer's wait returns. *)
Theorem producer_unblocks l :
  reach l -> pstate l = PIdle -> exec AWait l = None ->
  exists l' l'', run (to_free (cstate l)) l = Some l' /\ exec AWait l' = Some l''.
Proof.
  intros (q & qb & H)%reach_inv Hp Hw. pose proof (fun i => token_01 _ _ _ i H) as H01.
  unfold exec in Hw. rewrite Hp in Hw. unfold wait_step in Hw.
  destruct (needs_read (lout l)) eqn:En; [|done]. destruct (bw l) eqn:Eb; [|done].
  enough (exists l', run (to_free (cstate l)) l = Some l' /\ lout l' = lout l /\
            pstate l' = pstate l /\ bw l' <> []) as (l' & Hr & Hl & Hp' & Hb).
  { unfold exec, wait_step. exists l'. rewrite Hr, Hp', Hp, Hl, En. destruct (bw l'); [done|]. eauto. }
  destruct H as [Hfw Hbw Ht Hs Hf Hok Hd Hm Hb Hr].
  rewrite (needs_read_free _ En) in *. rewrite Hp in Hfw, Hd.
  rewrite Eb in Hbw. destruct qb; [|done].
  destruct (cstate l) as [| |i|i| |] eqn:Hc; cbn in Ht, Hfw.
  - destruct q as [|i q]; [by apply Permutation_length in Ht|].
    eapply start_runs; [done | exact Hfw | apply H01; set_solver].
  - destruct q as [|i q]; [by apply Permutation_length in Ht|].
    eapply read_runs; [done | exact Hfw | apply H01; set_solver].
  - apply (take_runs _ i Hc). apply H01. set_solver.
  - apply (free_runs _ i Hc). apply H01. set_solver.
  - naive_solver.
  - done.
Qed.

End Link.

(** A Python producer and a C consumer. *)
Abbreviation py_to_c := (exec py_out_wait_buff_free py_out_ready c_in_start c_wait_buff_ready c_send_ctr_buff_free).
Abbreviation run_py_to_c := (run py_out_wait_buff_free py_out_ready c_in_start c_wait_buff_ready c_send_ctr_buff_free).
Abbreviation reach_py_to_c := (reach py_out_wait_buff_free py_out_ready c_in_start c_wait_buff_ready c_send_ctr_buff_free).

Definition two_frames : list (act Z) := [AWait; AWrite 10; ASend; AWait; AWrite 20; ASend].
Definition one_read : list (act Z) := [AStart; ARead; ATake; AFree].
Definition empty_link (drop : bool) : link Z := init_link drop (fun _ => 0).

Definition after (drop : bool) (acts : list (act Z)) : link Z :=
  default (empty_link drop) (run_py_to_c acts (empty_link drop)).

Lemma after_reach drop acts : reach_py_to_c drop (after drop acts).
Proof.
  unfold after. destruct (run_py_to_c acts (empty_link drop)) eqn:E; cbn.
  - eapply run_reach; [apply reach_init | exact E].
  - apply reach_init.
Qed.

(** Three frames offered in drop mode, the third one dropped; then one read. *)
Lemma link_delivers_witness :
  let l := after true (two_frames ++ [AWait] ++ one_read) in
  (sent l, got l, dropped_frame_cntr (lout l)) = ([10; 20], [10], 1) /\
  exists pending, sent l = got l ++ pending /\ (length pending <= 2)%nat.
Proof.
  split; [vm_compute; reflexivity|].
  destruct (link_delivers _ _ _ _ _ true _ (after_reach true (two_frames ++ [AWait] ++ one_read)))
    as (_ & (pending & ? & ? & _) & _).
  exists pending. split; assumption.
Defined.

(** The producer refills buffer 0 while the consumer reads buffer 1. *)
Lemma no_shared_access_witness :
  let l := after false (two_frames ++ one_read ++ [AWait; ARead]) in
  pstate l = PFill 0 /\ cstate l = CRead 1 /\ cstate l <> CRead 0.
Proof.
  split; [vm_compute; reflexivity|]. split; [vm_compute; reflexivity|].
  apply (no_shared_access _ _ _ _ _ false _ 0
           (after_reach false (two_frames ++ one_read ++ [AWait; ARead]))).
  vm_compute. reflexivity.
Defined.

(** Both buffers announced and the consumer not yet started. *)
Lemma producer_unblocks_witness :
  let l := after false two_frames in
  py_to_c AWait l = None /\
  exists l' l'', run_py_to_c (to_free (cstate l)) l = Some l' /\ py_to_c AWait l' = Some l''.
Proof.
  split; [vm_compute; reflexivity|].
  apply (producer_unblocks _ _ _ _ _ false _ (after_reach false two_frames));
    vm_compute; reflexivity.
Defined.

(** ** Names *)
Lemma after_prefix_app p s : after_prefix p (p +:+ s) = Some s.
Proof. induction p as [|c p IH]; [done|]. simpl. by rewrite Ascii.eqb_refl. Qed.

Lemma string_app_assoc (a b c : string) : (a +:+ b) +:+ c = a +:+ (b +:+ c).
Proof. induction a as [|x a IH]; [done|]. change (String x ((a +:+ b) +:+ c) = String x (a +:+ (b +:+ c))). by f_equal. Qed.

(** The C and the Python side open the same FIFO and the same segment. *)
Lemma names_agree instance_id which name :
  build_fifo_path instance_id (data_control +:+ which +:+ name) = py_fifo_path instance_id which name /\
  build_shmem_name instance_id name = py_shmem_name instance_id name.
Proof.
  split; [|done]. unfold build_fifo_path, py_fifo_path. case_match; [done|].
  rewrite after_prefix_app. by rewrite !string_app_assoc.
Qed.

(** ** Where the two sides differ *)

(** In C a consumer that closed its end after a dropped frame is seen as one
    more dropped frame, not as an error. *)
Lemma c_eof_counts_as_drop s :
  needs_read s = true -> c_wait_buff_free true Eof s = (drop_one s, BUFFER_DROPPED).
Proof. unfold needs_read, c_wait_buff_free. by destruct (free0 s), (free1 s). Qed.

(** In Python an unknown signal is reported as a dropped frame that is not
    counted, also without drop mode; C reports an error. *)
Lemma unknown_signal_differs s :
  needs_read s = true ->
  py_out_wait_buff_free (Byte 7) s = (s, BUFFER_DROPPED) /\
  c_wait_buff_free false (Byte 7) s = (s, -1).
Proof.
  unfold needs_read, c_wait_buff_free, py_out_wait_buff_free. by destruct (free0 s), (free1 s).
Qed.

End Shm.
