(* ===== verification/Election.v ===== *)
(** * The coordinator election ([_daq_core/federation_election.py])

    The lease/term election of the coordinator candidates: endpoint parsing,
    settings validation, the term file, the state machine of one candidate with
    its message handlers and its periodic tick, and the verbs through which the
    coordinator exposes the handlers ([federation_coordinator.py]).

    A candidate runs in a state-and-exception monad, so an exception keeps what
    was assigned before it, as in Python.  The clock and the outcome of each
    term-file write are oracles: the k-th [self.clock()] call reads [clk k] and
    the k-th save succeeds when [io k] holds.  The handlers and the parts of a
    tick between two network calls hold the lock, so each is one atomic step;
    the cluster model interleaves these steps of all candidates, restarts
    included.  Times are exact rationals. *)
From Stdlib Require Import Ascii Lqa.
From S2P Require Import Prelude PyStruct PyText PyJson.

Module El.

Definition TERM_MAX : Z := 4294967280.
Definition TERM_U32_MAX : Z := 4294967295.
Definition MAX_TERM_JUMP : Z := 1000.

Inductive role_t := ROLE_FOLLOWER | ROLE_LEADER.

#[export] Instance role_eq_dec : EqDecision role_t.
Proof. solve_decision. Defined.

(** ** Settings *)

(** [int(math.ceil(lease * (1.0 + eps) / interval - 1e-9)) + 1] *)
Definition settle_polls_min (interval : Q) (missed_polls : Z) (clock_margin : Q) : Z :=
  let lease := (interval * inject_Z missed_polls)%Q in
  Qceiling (lease * (1 + clock_margin) / interval - (1 # 1000000000)) + 1.

(** [text.rpartition(":")]: [None] when there is no colon. *)
Fixpoint rpartition (sep : ascii) (l : chars) : option (chars * chars) :=
  match l with
  | [] => None
  | c :: l' =>
      match rpartition sep l' with
      | Some (a, b) => Some (c :: a, b)
      | None => if bool_decide (c = sep) then Some ([], l') else None
      end
  end.

Definition normalize_endpoint (ep : string) : res string :=
  match rpartition ":"%char (strip (to_chars ep)) with
  | None => Raise ValueError
  | Some (host, port) =>
      match host with
      | [] => Raise ValueError
      | _ =>
          if negb (isdigit port) then Raise ValueError
          else match int_of_chars port with
          | None => Raise ValueError
          | Some p =>
              if negb ((1 <=? p) && (p <=? 65535)) then Raise ValueError
              else if existsb is_space host then Raise ValueError
              else Ok (of_chars (map lower host) +:+ ":" +:+ str_of_int p)
          end
      end
  end.

Fixpoint parse_items (out : list string) (items : list string) : res (list string) :=
  match items with
  | [] => Ok out
  | item :: items =>
      match strip (to_chars item) with
      | [] => parse_items out items
      | text =>
          ep ← normalize_endpoint (of_chars text);
          if bool_decide (ep ∈ out) then Raise ValueError else parse_items (out ++ [ep]) items
      end
  end.

(** [parse_candidates]: of a list, and of the comma-separated text. *)
Definition parse_candidates (items : list string) : res (list string) := parse_items [] items.
Definition parse_candidates_text (value : string) : res (list string) :=
  parse_candidates (map of_chars (split_on ","%char (to_chars value))).

(** The warning list has one element, for quorum with fewer than 3 candidates. *)
Definition validate_election_settings (candidates : list string) (interval : Q) (missed_polls settle_polls : Z)
    (clock_margin failback_sec : Q) (require_quorum : bool) : res bool :=
  if Qle_bool interval 0 then Raise ValueError
  else if missed_polls <? 1 then Raise ValueError
  else if negb (Qle_bool 0 clock_margin && Qle_bool clock_margin (1 # 2)) then Raise ValueError
  else if Qltb failback_sec 0 then Raise ValueError
  else if settle_polls <? settle_polls_min interval missed_polls clock_margin then Raise ValueError
  else Ok (require_quorum && bool_decide (length candidates < 3)%nat).

Record cfg := Cfg {
  candidates : list string;
  self_endpoint : string;
  I : Q;                            (* poll interval *)
  K : Z;                            (* missed polls *)
  L : Q;                            (* lease duration *)
  G : Q;                            (* settle time *)
  eps : Q;                          (* clock margin *)
  F : Q;                            (* failback time *)
  require_quorum : bool;
  max_term_jump : Z;
  cluster_id : string;
  rank : nat }.

Fixpoint index_of (x : string) (l : list string) : nat :=
  match l with
  | [] => O
  | y :: l => if bool_decide (y = x) then O else S (index_of x l)
  end.

(** The configuration part of [Election.__init__]. *)
Definition configure (cands : list string) (self : string) (interval : Q) (missed_polls settle_polls : Z)
    (clock_margin failback_sec : Q) (quorum : bool) (cluster : string) (jump : Z) : res cfg :=
  cs ← parse_candidates cands;
  me ← normalize_endpoint self;
  if bool_decide (me ∈ cs) then
    _ ← validate_election_settings cs interval missed_polls settle_polls clock_margin failback_sec quorum;
    Ok (Cfg cs me interval missed_polls (interval * inject_Z missed_polls)%Q
          (inject_Z settle_polls * interval)%Q clock_margin failback_sec quorum jump cluster (index_of me cs))
  else Raise ValueError.

(** ** The term file ([TermStore]) *)
Inductive termfile := Absent | Unreadable | Doc (j : json).

(** [str(voted)] of a value that is not a string is left to the caller. *)
Definition load (str_of : json -> string) (f : termfile) : res (Z * option string) :=
  match f with
  | Absent => Ok (0, None)
  | Unreadable => Raise OSError
  | Doc (JObj doc) =>
      term ← py_int (get_or "term" (JInt 0) doc);
      let voted := get_null "voted_for" doc in
      if (term <? 0) || (TERM_U32_MAX <? term) then Raise ValueError
      else Ok (term, if truthy voted then Some (match voted with JStr v => v | j => str_of j end)
                     else None)
  | Doc _ => Raise ValueError
  end.

Definition term_doc (term : Z) (voted_for : option string) : termfile :=
  Doc (JObj [("term", JInt term); ("voted_for", match voted_for with Some v => JStr v | None => JNull end)]).

(** ** State *)
Record peer := Peer {
  endpoint : string;
  p_rank : nat;
  failures : Z;
  reachable : bool;
  reachable_since : option Q;
  p_role : json;
  p_term : json;
  p_eligible : option bool;
  p_lease_holder : json;
  last_leader_report : option Q;
  good_since : option Q;
  p_reason : json }.

Definition new_peer (ep : string) (r : nat) : peer :=
  Peer ep r 0 false None JNull (JInt 0) None JNull None None JNull.

Record t := mk {
  term : Z;
  voted_for : option string;
  state_error : bool;
  exhausted : bool;
  start_mono : Q;
  role : role_t;
  reason : option string;
  leader : option (string * json);
  lease_holder : option string;
  lease_expiry : Q;
  grants : list (string * Q);
  last_leader_seen : Q;
  leader_since : option Q;
  last_quorum_mono : Q;
  hold_until : Q;
  ticks : Z;
  peers : list peer;
  file : termfile;
  saves : nat;
  reads : nat;
  notified : list (role_t * Z) }.

Definition set_term (x : Z) (s : t) : t :=
  mk x (voted_for s) (state_error s) (exhausted s) (start_mono s) (role s) (reason s)
     (leader s) (lease_holder s) (lease_expiry s) (grants s) (last_leader_seen s)
     (leader_since s) (last_quorum_mono s) (hold_until s) (ticks s) (peers s) (file s)
     (saves s) (reads s) (notified s).
Definition set_voted_for (x : option string) (s : t) : t :=
  mk (term s) x (state_error s) (exhausted s) (start_mono s) (role s) (reason s) (leader s)
     (lease_holder s) (lease_expiry s) (grants s) (last_leader_seen s) (leader_since s)
     (last_quorum_mono s) (hold_until s) (ticks s) (peers s) (file s) (saves s) (reads s)
     (notified s).
Definition set_state_error (x : bool) (s : t) : t :=
  mk (term s) (voted_for s) x (exhausted s) (start_mono s) (role s) (reason s) (leader s)
     (lease_holder s) (lease_expiry s) (grants s) (last_leader_seen s) (leader_since s)
     (last_quorum_mono s) (hold_until s) (ticks s) (peers s) (file s) (saves s) (reads s)
     (notified s).
Definition set_exhausted (x : bool) (s : t) : t :=
  mk (term s) (voted_for s) (state_error s) x (start_mono s) (role s) (reason s) (leader s)
     (lease_holder s) (lease_expiry s) (grants s) (last_leader_seen s) (leader_since s)
     (last_quorum_mono s) (hold_until s) (ticks s) (peers s) (file s) (saves s) (reads s)
     (notified s).
Definition set_start_mono (x : Q) (s : t) : t :=
  mk (term s) (voted_for s) (state_error s) (exhausted s) x (role s) (reason s) (leader s)
     (lease_holder s) (lease_expiry s) (grants s) (last_leader_seen s) (leader_since s)
     (last_quorum_mono s) (hold_until s) (ticks s) (peers s) (file s) (saves s) (reads s)
     (notified s).
Definition set_role (x : role_t) (s : t) : t :=
  mk (term s) (voted_for s) (state_error s) (exhausted s) (start_mono s) x (reason s)
     (leader s) (lease_holder s) (lease_expiry s) (grants s) (last_leader_seen s)
     (leader_since s) (last_quorum_mono s) (hold_until s) (ticks s) (peers s) (file s)
     (saves s) (reads s) (notified s).
Definition set_reason (x : option string) (s : t) : t :=
  mk (term s) (voted_for s) (state_error s) (exhausted s) (start_mono s) (role s) x (leader
     s) (lease_holder s) (lease_expiry s) (grants s) (last_leader_seen s) (leader_since s)
     (last_quorum_mono s) (hold_until s) (ticks s) (peers s) (file s) (saves s) (reads s)
     (notified s).
Definition set_leader (x : option (string * json)) (s : t) : t :=
  mk (term s) (voted_for s) (state_error s) (exhausted s) (start_mono s) (role s) (reason s)
     x (lease_holder s) (lease_expiry s) (grants s) (last_leader_seen s) (leader_since s)
     (last_quorum_mono s) (hold_until s) (ticks s) (peers s) (file s) (saves s) (reads s)
     (notified s).
Definition set_lease_holder (x : option string) (s : t) : t :=
  mk (term s) (voted_for s) (state_error s) (exhausted s) (start_mono s) (role s) (reason s)
     (leader s) x (lease_expiry s) (grants s) (last_leader_seen s) (leader_since s)
     (last_quorum_mono s) (hold_until s) (ticks s) (peers s) (file s) (saves s) (reads s)
     (notified s).
Definition set_lease_expiry (x : Q) (s : t) : t :=
  mk (term s) (voted_for s) (state_error s) (exhausted s) (start_mono s) (role s) (reason s)
     (leader s) (lease_holder s) x (grants s) (last_leader_seen s) (leader_since s)
     (last_quorum_mono s) (hold_until s) (ticks s) (peers s) (file s) (saves s) (reads s)
     (notified s).
Definition set_grants (x : list (string * Q)) (s : t) : t :=
  mk (term s) (voted_for s) (state_error s) (exhausted s) (start_mono s) (role s) (reason s)
     (leader s) (lease_holder s) (lease_expiry s) x (last_leader_seen s) (leader_since s)
     (last_quorum_mono s) (hold_until s) (ticks s) (peers s) (file s) (saves s) (reads s)
     (notified s).
Definition set_last_leader_seen (x : Q) (s : t) : t :=
  mk (term s) (voted_for s) (state_error s) (exhausted s) (start_mono s) (role s) (reason s)
     (leader s) (lease_holder s) (lease_expiry s) (grants s) x (leader_since s)
     (last_quorum_mono s) (hold_until s) (ticks s) (peers s) (file s) (saves s) (reads s)
     (notified s).
Definition set_leader_since (x : option Q) (s : t) : t :=
  mk (term s) (voted_for s) (state_error s) (exhausted s) (start_mono s) (role s) (reason s)
     (leader s) (lease_holder s) (lease_expiry s) (grants s) (last_leader_seen s) x
     (last_quorum_mono s) (hold_until s) (ticks s) (peers s) (file s) (saves s) (reads s)
     (notified s).
Definition set_last_quorum_mono (x : Q) (s : t) : t :=
  mk (term s) (voted_for s) (state_error s) (exhausted s) (start_mono s) (role s) (reason s)
     (leader s) (lease_holder s) (lease_expiry s) (grants s) (last_leader_seen s)
     (leader_since s) x (hold_until s) (ticks s) (peers s) (file s) (saves s) (reads s)
     (notified s).
Definition set_hold_until (x : Q) (s : t) : t :=
  mk (term s) (voted_for s) (state_error s) (exhausted s) (start_mono s) (role s) (reason s)
     (leader s) (lease_holder s) (lease_expiry s) (grants s) (last_leader_seen s)
     (leader_since s) (last_quorum_mono s) x (ticks s) (peers s) (file s) (saves s) (reads
     s) (notified s).
Definition set_ticks (x : Z) (s : t) : t :=
  mk (term s) (voted_for s) (state_error s) (exhausted s) (start_mono s) (role s) (reason s)
     (leader s) (lease_holder s) (lease_expiry s) (grants s) (last_leader_seen s)
     (leader_since s) (last_quorum_mono s) (hold_until s) x (peers s) (file s) (saves s)
     (reads s) (notified s).
Definition set_peers (x : list peer) (s : t) : t :=
  mk (term s) (voted_for s) (state_error s) (exhausted s) (start_mono s) (role s) (reason s)
     (leader s) (lease_holder s) (lease_expiry s) (grants s) (last_leader_seen s)
     (leader_since s) (last_quorum_mono s) (hold_until s) (ticks s) x (file s) (saves s)
     (reads s) (notified s).
Definition set_file (x : termfile) (s : t) : t :=
  mk (term s) (voted_for s) (state_error s) (exhausted s) (start_mono s) (role s) (reason s)
     (leader s) (lease_holder s) (lease_expiry s) (grants s) (last_leader_seen s)
     (leader_since s) (last_quorum_mono s) (hold_until s) (ticks s) (peers s) x (saves s)
     (reads s) (notified s).
Definition set_saves (x : nat) (s : t) : t :=
  mk (term s) (voted_for s) (state_error s) (exhausted s) (start_mono s) (role s) (reason s)
     (leader s) (lease_holder s) (lease_expiry s) (grants s) (last_leader_seen s)
     (leader_since s) (last_quorum_mono s) (hold_until s) (ticks s) (peers s) (file s) x
     (reads s) (notified s).
Definition set_reads (x : nat) (s : t) : t :=
  mk (term s) (voted_for s) (state_error s) (exhausted s) (start_mono s) (role s) (reason s)
     (leader s) (lease_holder s) (lease_expiry s) (grants s) (last_leader_seen s)
     (leader_since s) (last_quorum_mono s) (hold_until s) (ticks s) (peers s) (file s)
     (saves s) x (notified s).
Definition set_notified (x : list (role_t * Z)) (s : t) : t :=
  mk (term s) (voted_for s) (state_error s) (exhausted s) (start_mono s) (role s) (reason s)
     (leader s) (lease_holder s) (lease_expiry s) (grants s) (last_leader_seen s)
     (leader_since s) (last_quorum_mono s) (hold_until s) (ticks s) (peers s) (file s)
     (saves s) (reads s) x.

(** ** The monad *)
Definition M (A : Type) : Type := t -> t * res A.

#[export] Instance M_ret : MRet M := fun A a s => (s, Ok a).
#[export] Instance M_bind : MBind M := fun A B f m s =>
  match m s with
  | (s', Ok a) => f a s'
  | (s', Raise e) => (s', Raise e)
  end.

Definition get : M t := fun s => (s, Ok s).
Definition modify (f : t -> t) : M unit := fun s => (f s, Ok tt).
Definition lift {A} (r : res A) : M A := fun s => (s, r).
Definition when (b : bool) (m : M unit) : M unit := if b then m else mret tt.

Fixpoint for_each {A} (l : list A) (body : A -> M unit) : M unit :=
  match l with
  | [] => mret tt
  | x :: l => body x;; for_each l body
  end.

(** ** Replies: JSON values of the peers, [JNull] for no reply *)
Abbreviation replies := (list (string * json)).

(** [isinstance(r, dict) and r.get("ok")] *)
Definition ok_reply (r : json) : option dict :=
  match r with
  | JObj d => if truthy (get_null "ok" d) then Some d else None
  | _ => None
  end.

(** [j >= z] *)
Definition py_ge (j : json) (z : Z) : res bool :=
  match num_of j with
  | Some (Fin q) => Ok (Qle_bool (inject_Z z) q)
  | Some PInf => Ok true
  | Some NInf | Some NaN => Ok false
  | None => Raise TypeError
  end.

(** [isinstance(j, int)] *)
Definition as_int (j : json) : option Z :=
  match j with JInt z => Some z | JBool b => Some (if b then 1 else 0) | _ => None end.

Definition jstr (s : option string) : json := match s with Some s => JStr s | None => JNull end.

Fixpoint grant_set (k : string) (v : Q) (l : list (string * Q)) : list (string * Q) :=
  match l with
  | [] => [(k, v)]
  | (k', v') :: l => if bool_decide (k' = k) then (k, v) :: l else (k', v') :: grant_set k v l
  end.

Section Candidate.
Variable cf : cfg.
Variable clk : nat -> Q.
Variable io : nat -> bool.

Definition n : nat := length (candidates cf).

Definition clock : M Q := fun s => (set_reads (S (reads s)) s, Ok (clk (reads s))).

(** [Election.__init__]: the state over the term file [f]. *)
Definition others_of : list (nat * string) :=
  filter (fun p => p.2 <> self_endpoint cf) (imap (fun i ep => (i, ep)) (candidates cf)).

Definition init (str_of : json -> string) (f : termfile) (saves reads : nat) : res t :=
  let start := clk reads in
  let make term voted err :=
    mk term voted err false start ROLE_FOLLOWER None None None 0 [] start None start 0 0
       (map (fun p => new_peer p.2 p.1) others_of) f saves (S reads) [] in
  match load str_of f with
  | Ok (term, voted) => Ok (make term voted false)
  | Raise OSError | Raise ValueError => Ok (make 0 None true)
  | Raise e => Raise e
  end.

(** ** Helpers *)
Definition _settling (s : t) (now : Q) : bool := Qltb (now - start_mono s) (G cf).

Definition _eligibility (s : t) (now : Q) : bool * option string :=
  if state_error s then (false, Some "state_dir_unwritable")
  else if exhausted s then (false, Some "term_exhausted")
  else if _settling s now then (false, Some "settling")
  else (true, None).

Definition _lease_valid (s : t) (now : Q) : bool :=
  match lease_holder s with Some _ => Qltb now (lease_expiry s) | None => false end.

(** [(1 + live) > n / 2.0] *)
Definition live_grants (s : t) (now : Q) : list (string * Q) :=
  filter (fun g => Qltb now (g.2 + L cf * (1 - eps cf)) = true) (grants s).

Definition _quorum (s : t) (now : Q) : bool :=
  bool_decide (n < 2 * (1 + length (live_grants s now)))%nat.

Definition _step_down (why : string) : M bool :=
  s ← get;
  now ← clock;
  modify (set_role ROLE_FOLLOWER);;
  modify (set_reason (Some why));;
  modify (set_grants []);;
  modify (set_leader_since None);;
  modify (set_last_leader_seen now);;
  when (bool_decide (why = "handover")) (modify (set_hold_until (now + 2 * L cf + 2 * I cf)%Q));;
  mret (bool_decide (role s = ROLE_LEADER)).

(** A save that fails raises before the file is replaced. *)
Definition _persist (tm : Z) (v : option string) : M bool :=
  s ← get;
  modify (set_saves (S (saves s)));;
  if io (saves s) then modify (set_file (term_doc tm v));; mret true
  else
    modify (set_state_error true);;
    (if bool_decide (role s = ROLE_LEADER) then _step_down "state_dir_unwritable" else mret false);;
    mret false.

Definition _adopt (tm : Z) (bounded : bool) : M bool :=
  s ← get;
  if tm <=? term s then mret false
  else if TERM_MAX <? tm then mret false
  else if bounded && (term s + max_term_jump cf <? tm) then mret false
  else
    saved ← _persist tm None;
    if negb saved then mret false
    else
      modify (set_term tm);;
      modify (set_voted_for None);;
      s ← get;
      (if bool_decide (role s = ROLE_LEADER) then _step_down "higher_term" else mret false);;
      mret true.

(** [on_change(role, term)]: its exceptions are swallowed. *)
Definition _notify : M unit := modify (fun s => set_notified (notified s ++ [(role s, term s)]) s).

Definition _cluster_ok (c : option string) : bool :=
  match c with
  | None => true
  | Some c => bool_decide (c = EmptyString) || bool_decide (c = cluster_id cf)
  end.

Definition cluster_mismatch : json :=
  JObj [("ok", JBool false); ("error", JStr "cluster_mismatch"); ("expected", JStr (cluster_id cf))].

(** ** Read side *)
Definition role_name (r : role_t) : string :=
  match r with ROLE_FOLLOWER => "follower" | ROLE_LEADER => "leader" end.

Definition leader_obj (ep : string) (tm : json) : json := JObj [("endpoint", JStr ep); ("term", tm)].

Definition _leader_info (s : t) (now : Q) : json :=
  if bool_decide (role s = ROLE_LEADER) then leader_obj (self_endpoint cf) (JInt (term s))
  else if _lease_valid s now then JObj [("endpoint", jstr (lease_holder s)); ("term", JInt (term s))]
  else match leader s with Some (ep, tm) => leader_obj ep tm | None => JNull end.

Definition has_quorum : M bool :=
  s ← get;
  if bool_decide (role s = ROLE_LEADER) then now ← clock; mret (_quorum s now) else mret false.

Definition leader_info : M json := now ← clock; s ← get; mret (_leader_info s now).
Definition eligible : M (bool * option string) := now ← clock; s ← get; mret (_eligibility s now).
Definition role_term : M (role_t * Z) := s ← get; mret (role s, term s).

(** ** Message handlers *)
Definition peer_obj (p : peer) : json :=
  JObj [("endpoint", JStr (endpoint p)); ("reachable", JBool (reachable p));
        ("role", p_role p); ("term", p_term p)].

Definition handle_leader (version sched_term : Z) (cluster : option string) : M json :=
  if negb (_cluster_ok cluster) then mret cluster_mismatch
  else
    now ← clock;
    s ← get;
    let '(el, why) := _eligibility s now in
    let '(holder, expires) :=
      if bool_decide (role s = ROLE_LEADER) then (Some (self_endpoint cf), Qtrunc (L cf * 1000))
      else if _lease_valid s now then (lease_holder s, Qtrunc ((lease_expiry s - now) * 1000))
      else (None, 0) in
    mret (JObj [("ok", JBool true); ("role", JStr (role_name (role s))); ("term", JInt (term s));
                ("eligible", JBool el); ("reason", jstr (if el then reason s else why));
                ("schedule_version", JInt version); ("schedule_term", JInt sched_term);
                ("leader", _leader_info s now);
                ("lease", JObj [("holder", jstr holder); ("term", JInt (term s));
                                ("expires_in_ms", JInt (Z.max 0 expires))]);
                ("candidates", JArr (map peer_obj (peers s)));
                ("quorum", JBool (bool_decide (role s = ROLE_LEADER) && _quorum s now))]).

Definition not_candidate (ep : string) : bool :=
  bool_decide (ep ∉ candidates cf) || bool_decide (ep = self_endpoint cf).

Definition current_holder (s : t) (now : Q) : option string :=
  if _lease_valid s now then lease_holder s else None.

Definition handle_prevote (tm : Z) (ep : string) (cluster : option string) : M json :=
  if negb (_cluster_ok cluster) then mret cluster_mismatch
  else
    ep ← lift (normalize_endpoint ep);
    now ← clock;
    s ← get;
    let holder := current_holder s now in
    let '(granted, why) :=
      if not_candidate ep then (false, Some "not_candidate")
      else if _settling s now then (false, Some "settling")
      else if state_error s then (false, Some "state_dir_unwritable")
      else if tm <=? term s then (false, None)
      else if negb (bool_decide (holder = None)) && negb (bool_decide (holder = Some ep)) then (false, None)
      else if bool_decide (role s = ROLE_LEADER) && _quorum s now then (false, None)
      else (true, None) in
    mret (JObj [("ok", JBool true); ("granted", JBool granted); ("term", JInt (term s));
                ("lease_holder", jstr holder); ("reason", jstr why)]).

(** The vote part of [handle_lease], once the terms agree. *)
Definition grant_vote (tm : Z) (ep : string) (now : Q) : M bool :=
  s ← get;
  if negb (bool_decide (tm = term s)) then mret false
  else if bool_decide (voted_for s = None) || bool_decide (voted_for s = Some ep) then
    saved ← (if bool_decide (voted_for s = Some ep) then mret true
             else _persist (term s) (Some ep));
    if negb saved then mret false
    else
      modify (set_voted_for (Some ep));;
      modify (set_lease_holder (Some ep));;
      modify (set_lease_expiry (now + L cf)%Q);;
      modify (set_leader (Some (ep, JInt tm)));;
      modify (set_last_leader_seen now);;
      mret true
  else mret false.

(** The adoption part: whether to proceed, and whether leadership may have changed. *)
Definition adopt_lease (tm : Z) (ep : string) (now : Q) : M (bool * bool) :=
  s ← get;
  if tm <=? term s then mret (true, false)
  else if _lease_valid s now && negb (bool_decide (lease_holder s = Some ep)) then mret (false, false)
  else
    adopted ← _adopt tm true;
    mret (adopted, bool_decide (role s = ROLE_LEADER)).

(** The decision of [handle_lease]: granted, reason, changed. *)
Definition lease_decision (tm : Z) (ep : string) (now : Q) : M (bool * option string * bool) :=
  s ← get;
  if not_candidate ep then mret (false, Some "not_candidate", false)
  else if _settling s now then mret (false, Some "settling", false)
  else if state_error s then mret (false, Some "state_dir_unwritable", false)
  else if tm <? term s then mret (false, None, false)
  else
    pc ← adopt_lease tm ep now;
    granted ← (if pc.1 : bool then grant_vote tm ep now else mret false);
    mret (granted, None, pc.2).

Definition lease_reply (s : t) (now : Q) (granted : bool) (why : option string) : json :=
  JObj [("ok", JBool true); ("granted", JBool granted); ("term", JInt (term s));
        ("lease_ms", JInt (Qtrunc (L cf * 1000)));
        ("lease_holder", jstr (current_holder s now)); ("reason", jstr why)].

Definition lease_locked (tm : Z) (ep : string) : M json :=
  now ← clock;
  r ← lease_decision tm ep now;
  s ← get;
  let '(granted, why, changed) := r in
  when changed _notify;;
  mret (lease_reply s now granted why).

Definition handle_lease (tm : Z) (ep : string) (cluster : option string) : M json :=
  if negb (_cluster_ok cluster) then mret cluster_mismatch
  else ep ← lift (normalize_endpoint ep); lease_locked tm ep.

Definition observe_term (tm : Z) (bounded : bool) : M bool :=
  s ← get;
  adopted ← _adopt tm bounded;
  when (adopted && bool_decide (role s = ROLE_LEADER)) _notify;;
  mret adopted.

(** ** The coordinator's verbs for the handlers *)
Definition usage (verb : string) : string * json := ("usage", JStr (verb +:+ " <term> <host:port> [<cluster_id>]")).

Definition _election_args (verb : string) (tokens : list string) : (Z * string * option string) + json :=
  match tokens with
  | tm :: ep :: rest =>
      match int_of_chars (to_chars tm) with
      | Some z =>
          if (z <? 0) || (TERM_U32_MAX <? z)
          then inr (JObj [("ok", JBool false); ("error", JStr "bad_request"); ("message", JStr "bad term"); usage verb])
          else inl (z, ep, head rest)
      | None =>
          inr (JObj [("ok", JBool false); ("error", JStr "bad_request"); ("message", JStr "bad term"); usage verb])
      end
  | _ => inr (JObj [("ok", JBool false); ("error", JStr "bad_request"); usage verb])
  end.

(** [except ValueError as e]: the message of [normalize_endpoint]. *)
Definition bad_endpoint (ep : string) : json :=
  JObj [("ok", JBool false); ("error", JStr "bad_request");
        ("message", JStr ("bad coordinator endpoint '" +:+ of_chars (strip (to_chars ep)) +:+
                          "' (expected host:port)"))].

Definition or_bad_endpoint (ep : string) (m : M json) : M json := fun s =>
  match m s with
  | (s', Raise ValueError) => (s', Ok (bad_endpoint ep))
  | x => x
  end.

Definition _verb_prevote (tokens : list string) : M json :=
  match _election_args "PREVOTE" tokens with
  | inr err => mret err
  | inl (tm, ep, cluster) => or_bad_endpoint ep (handle_prevote tm ep cluster)
  end.

Definition _verb_lease (tokens : list string) : M json :=
  match _election_args "LEASE" tokens with
  | inr err => mret err
  | inl (tm, ep, cluster) => or_bad_endpoint ep (handle_lease tm ep cluster)
  end.

(** ** The tick *)
Definition absorb_best (rs : replies) : Z :=
  foldl (fun best '(_, r) =>
           match ok_reply r with
           | Some d => match as_int (get_null "term" d) with
                       | Some tm => if (best <? tm) && (tm <=? TERM_MAX) then tm else best
                       | None => best
                       end
           | None => best
           end) 0 rs.

Definition _absorb_terms (rs : replies) : M bool :=
  s ← get;
  if term s <? absorb_best rs then _adopt (absorb_best rs) false else mret false.

(** One peer of [_update_peers]; a reply whose [lease] is neither absent nor an
    object raises with the fields before it already assigned. *)
Definition update_peer (rs : replies) (now : Q) (p : peer) : peer * option exc :=
  match r ← dict_get (endpoint p) rs; ok_reply r with
  | None =>
      (Peer (endpoint p) (p_rank p) (failures p + 1) false None (p_role p) (p_term p) (p_eligible p)
         (p_lease_holder p) (last_leader_report p) None (p_reason p), None)
  | Some d =>
      let since := if reachable p then reachable_since p else Some now in
      let el := truthy (get_null "eligible" d) in
      let role := get_null "role" d in
      let before holder report good :=
        Peer (endpoint p) (p_rank p) 0 true since role (get_or "term" (JInt 0) d) (Some el)
          holder report good (get_null "reason" d) in
      let lease := get_null "lease" d in
      match (if truthy lease then match lease with JObj l => Some l | _ => None end else Some []) with
      | None => (before (p_lease_holder p) (last_leader_report p) (good_since p), Some AttributeError)
      | Some l =>
          let holder := get_null "holder" l in
          let report := if py_eqb role (JStr "leader") then Some now else last_leader_report p in
          let good := el && (is_null holder || py_eqb holder (JStr (self_endpoint cf))) in
          (before holder report
             (if good then match good_since p with None => Some now | x => x end else None), None)
      end
  end.

Fixpoint update_peers (rs : replies) (now : Q) (ps : list peer) : list peer * option exc :=
  match ps with
  | [] => ([], None)
  | p :: ps =>
      match update_peer rs now p with
      | (p', Some e) => (p' :: ps, Some e)
      | (p', None) => let '(ps', e) := update_peers rs now ps in (p' :: ps', e)
      end
  end.

Definition _update_peers (rs : replies) (now : Q) : M unit := fun s =>
  let '(ps, e) := update_peers rs now (peers s) in
  (set_peers ps s, match e with Some e => Raise e | None => Ok tt end).

Definition rank_of (ep : string) (s : t) : res nat :=
  match list_find (fun p => endpoint p = ep) (peers s) with
  | Some (_, p) => Ok (p_rank p)
  | None => Raise KeyError
  end.

(** One reply of the loop over the [LEADER] replies. *)
Definition note_leader (now : Q) (epr : string * json) : M unit :=
  let '(ep, r) := epr in
  match ok_reply r with
  | None => mret tt
  | Some d =>
      if negb (py_eqb (get_null "role" d) (JStr "leader")) then mret tt
      else
        s ← get;
        ge ← lift (py_ge (get_or "term" (JInt (-1)) d) (term s));
        if negb ge then mret tt
        else
          (if bool_decide (role s = ROLE_LEADER) && py_eqb (get_null "term" d) (JInt (term s)) then
             r ← lift (rank_of ep s);
             when (bool_decide (r < rank cf)%nat) (_step_down "conflict";; mret tt)
           else mret tt);;
          s ← get;
          if bool_decide (role s = ROLE_LEADER) then mret tt
          else
            modify (set_last_leader_seen now);;
            tm ← lift (match dict_get "term" d with Some tm => Ok tm | None => Raise KeyError end);
            modify (set_leader (Some (ep, tm)))
  end.

(** First locked section of [tick]. *)
Definition poll_section (rs : replies) : M role_t :=
  modify (fun s => set_ticks (ticks s + 1) s);;
  now ← clock;
  _update_peers rs now;;
  _absorb_terms rs;;
  for_each rs (note_leader now);;
  s ← get;
  mret (role s).

Definition handover_due (s : t) (now : Q) : bool :=
  existsb (fun p => bool_decide (p_rank p < rank cf)%nat &&
             match good_since p with Some g => Qle_bool (F cf) (now - g) | None => false end) (peers s).

(** [_leader_step] before the leases are sent: the term to send them for. *)
Definition leader_check : M (option Z) :=
  s ← get;
  if negb (bool_decide (role s = ROLE_LEADER)) then mret None
  else
    now ← clock;
    if handover_due s now then _step_down "handover";; mret None
    else mret (Some (term s)).

Definition granted_reply (r : json) : bool :=
  match ok_reply r with Some d => truthy (get_null "granted" d) | None => false end.

(** [_leader_step] once the lease replies are in. *)
Definition leader_collect (tm : Z) (send_time : Q) (rs : replies) : M unit :=
  s ← get;
  if negb (bool_decide (role s = ROLE_LEADER)) || negb (bool_decide (term s = tm)) then mret tt
  else
    absorbed ← _absorb_terms rs;
    if absorbed : bool then mret tt
    else
      for_each rs (fun '(ep, r) =>
        when (granted_reply r) (modify (fun s => set_grants (grant_set ep send_time (grants s)) s)));;
      now ← clock;
      s ← get;
      if _quorum s now then modify (set_last_quorum_mono now)
      else when (require_quorum cf && Qle_bool (L cf) (now - last_quorum_mono s))
             (_step_down "no_quorum";; mret tt).

Definition blocks_campaign (window now : Q) (p : peer) : bool :=
  bool_decide (p_rank p < rank cf)%nat &&
  negb ((K cf <=? failures p) ||
        match p_eligible p with Some false => true | _ => false end ||
        match last_leader_report p with None => true | Some r => Qltb r (now - window) end).

Definition _may_campaign (now : Q) : M bool :=
  s ← get;
  if negb (_eligibility s now).1 || Qltb now (hold_until s) then mret false
  else if _lease_valid s now && negb (bool_decide (lease_holder s = Some (self_endpoint cf))) then
    modify (set_last_leader_seen now);; mret false
  else
    let window := (L cf + inject_Z (Z.of_nat (rank cf)) * I cf)%Q in
    if Qltb (now - last_leader_seen s) window then mret false
    else if existsb (blocks_campaign window now) (peers s) then mret false
    else if TERM_MAX <=? term s then modify (set_exhausted true);; mret false
    else mret true.

(** [_follower_step] before the prevotes are sent: the term the campaign starts from. *)
Definition follower_check : M (option Z) :=
  now ← clock;
  go ← _may_campaign now;
  s ← get;
  mret (if go : bool then Some (term s) else None).

(** A reply that is not granted and names another lease holder. *)
Definition blocking_reply (r : json) : bool :=
  match ok_reply r with
  | Some d =>
      let holder := get_null "lease_holder" d in
      negb (truthy (get_null "granted" d)) && negb (py_eqb (get_null "reason" d) (JStr "settling")) &&
      truthy holder && negb (py_eqb holder (JStr (self_endpoint cf)))
  | None => false
  end.

Definition granting (rs : replies) : replies := filter (fun epr => granted_reply epr.2 = true) rs.

(** [granted + 1 <= n / 2.0] under quorum, [blocked] otherwise. *)
Definition lost (rs : replies) : bool :=
  if require_quorum cf then bool_decide (2 * (length (granting rs) + 1) <= n)%nat
  else existsb (fun epr => blocking_reply epr.2) rs.

(** [_follower_step] once the prevote replies are in: the term claimed. *)
Definition prevote_collect (base : Z) (rs : replies) : M (option Z) :=
  s ← get;
  if negb (bool_decide (term s = base)) || bool_decide (role s = ROLE_LEADER) then mret None
  else
    absorbed ← _absorb_terms rs;
    s ← get;
    if (absorbed : bool) && (base + 1 <=? term s) then mret None
    else if lost rs then mret None
    else if negb (bool_decide (term s = base)) then mret None
    else
      saved ← _persist (base + 1) (Some (self_endpoint cf));
      if negb saved then mret None
      else
        modify (set_term (base + 1));;
        modify (set_voted_for (Some (self_endpoint cf)));;
        modify (set_reason None);;
        mret (Some (base + 1)).

(** [_follower_step] once the lease replies are in. *)
Definition lease_collect (t_new : Z) (send_time : Q) (rs : replies) : M unit :=
  s ← get;
  if negb (bool_decide (term s = t_new)) || bool_decide (role s = ROLE_LEADER) then mret tt
  else
    absorbed ← _absorb_terms rs;
    if absorbed : bool then mret tt
    else if lost rs then mret tt
    else
      now ← clock;
      modify (set_role ROLE_LEADER);;
      modify (set_reason None);;
      modify (set_grants (map (fun epr => (epr.1, send_time)) (granting rs)));;
      modify (fun s => set_leader (Some (self_endpoint cf, JInt (term s))) s);;
      modify (set_leader_since (Some now));;
      modify (set_last_quorum_mono now);;
      modify (set_lease_holder None).

(** [rpc(requests)] may interleave with the handlers, so it is an action of the
    same monad; [_leader_step], [_follower_step] and [tick] call it between
    their locked sections. *)
Section Tick.
Variable rpc : list (string * string) -> M replies.

Definition _suffix : string :=
  if bool_decide (cluster_id cf = EmptyString) then EmptyString else " " +:+ cluster_id cf.

Definition call (others : list string) (line : string) : M replies :=
  match others with
  | [] => mret []
  | _ => rpc (map (fun ep => (ep, line)) others)
  end.

Definition lease_line (tm : Z) : string :=
  "LEASE " +:+ str_of_int tm +:+ " " +:+ self_endpoint cf +:+ _suffix.
Definition prevote_line (tm : Z) : string :=
  "PREVOTE " +:+ str_of_int tm +:+ " " +:+ self_endpoint cf +:+ _suffix.

Definition _leader_step (others : list string) : M unit :=
  o ← leader_check;
  match o with
  | None => mret tt
  | Some tm =>
      send_time ← clock;
      rs ← call others (lease_line tm);
      leader_collect tm send_time rs
  end.

Definition _follower_step (others : list string) : M unit :=
  o ← follower_check;
  match o with
  | None => mret tt
  | Some base =>
      rs ← call others (prevote_line (base + 1));
      o ← prevote_collect base rs;
      match o with
      | None => mret tt
      | Some t_new =>
          send_time ← clock;
          rs ← call others (lease_line t_new);
          lease_collect t_new send_time rs
      end
  end.

Definition tick : M unit :=
  s ← get;
  let others := map endpoint (peers s) in
  before ← role_term;
  rs ← call others ("LEADER" +:+ _suffix);
  role ← poll_section rs;
  (if bool_decide (role = ROLE_LEADER) then _leader_step others else _follower_step others);;
  after ← role_term;
  when (negb (bool_decide (after = before))) _notify.

End Tick.

(** ** The tick as atomic sections

    Where the tick thread is between two sections, with its local variables. *)
Inductive pc :=
  | Idle
  | Polling (before : role_t * Z)
  | Leading (before : role_t * Z)
  | Renewing (before : role_t * Z) (tm : Z)
  | Renewed (before : role_t * Z) (tm : Z) (send_time : Q)
  | Following (before : role_t * Z)
  | Prevoting (before : role_t * Z) (base : Z)
  | Claimed (before : role_t * Z) (t_new : Z)
  | Leasing (before : role_t * Z) (t_new : Z) (send_time : Q)
  | Finishing (before : role_t * Z).

(** The request a section waits for, when it waits for one. *)
Definition request (p : pc) : option string :=
  match p with
  | Polling _ => Some ("LEADER" +:+ _suffix)
  | Prevoting _ base => Some (prevote_line (base + 1))
  | Renewed _ tm _ | Leasing _ tm _ => Some (lease_line tm)
  | _ => None
  end.

Definition advance (p : pc) (rs : replies) : M pc :=
  match p with
  | Idle => before ← role_term; mret (Polling before)
  | Polling b =>
      role ← poll_section rs;
      mret (if bool_decide (role = ROLE_LEADER) then Leading b else Following b)
  | Leading b =>
      o ← leader_check; mret (match o with Some tm => Renewing b tm | None => Finishing b end)
  | Renewing b tm => send_time ← clock; mret (Renewed b tm send_time)
  | Renewed b tm send_time => leader_collect tm send_time rs;; mret (Finishing b)
  | Following b =>
      o ← follower_check; mret (match o with Some base => Prevoting b base | None => Finishing b end)
  | Prevoting b base =>
      o ← prevote_collect base rs;
      mret (match o with Some t_new => Claimed b t_new | None => Finishing b end)
  | Claimed b t_new => send_time ← clock; mret (Leasing b t_new send_time)
  | Leasing b t_new send_time => lease_collect t_new send_time rs;; mret (Finishing b)
  | Finishing b =>
      after ← role_term;
      when (negb (bool_decide (after = b))) _notify;; mret Idle
  end.

(** A tick runs the sections one after the other; eight are enough. *)
Fixpoint drive (fuel : nat) (rpc : list (string * string) -> M replies) (others : list string)
    (p : pc) : M unit :=
  match fuel with
  | O => lift (Raise OSError)
  | S fuel =>
      rs ← (match request p with Some line => call rpc others line | None => mret [] end);
      p' ← advance p rs;
      match p' with Idle => mret tt | _ => drive fuel rpc others p' end
  end.

End Candidate.

(** ** The sections compose to the tick *)
(** Run the next action of both sides. *)
Ltac run_section m :=
  let s := fresh "s" in let x := fresh "x" in let e := fresh "e" in
  match goal with
  | |- context [m ?s0] => destruct (m s0) as [s [x|e]]; [|reflexivity]
  end.

Section Compose.
Variable cf : cfg.
Variable clk : nat -> Q.
Variable io : nat -> bool.
Variable rpc : list (string * string) -> M replies.
Variable others : list string.
#[local] Abbreviation drive k := (drive cf clk io k rpc others).

Definition finish (before : role_t * Z) : M unit :=
  after ← role_term; when (negb (bool_decide (after = before))) _notify.

Lemma drive_S k p s :
  drive (S k) p s =
  (rs ← (match request cf p with Some line => call rpc others line | None => mret [] end);
   p' ← advance cf clk io p rs;
   match p' with Idle => mret tt | _ => drive k p' end) s.
Proof. reflexivity. Qed.

Lemma drive_finishing k b s : drive (S k) (Finishing b) s = finish b s.
Proof.
  rewrite drive_S. cbn [request advance]. unfold finish, role_term, get, when, mbind, M_bind, mret, M_ret.
  destruct (bool_decide ((role s, term s) = b)) eqn:E; cbn; rewrite ?E; reflexivity.
Qed.

Lemma drive_leading k b s : drive (S (S (S (S k)))) (Leading b) s = (_leader_step cf clk io rpc others;; finish b) s.
Proof.
  rewrite drive_S. cbn [request advance]. unfold _leader_step, mbind, M_bind, mret, M_ret.
  run_section (leader_check cf clk). destruct x as [tm|]; [|apply drive_finishing].
  rewrite drive_S. cbn [request advance]. unfold mbind, M_bind, mret, M_ret.
  run_section (clock clk).
  rewrite drive_S. cbn [request advance]. unfold mbind, M_bind, mret, M_ret.
  run_section (call rpc others (lease_line cf tm)).
  run_section (leader_collect cf clk io tm x x0). apply drive_finishing.
Qed.

Lemma drive_following k b s :
  drive (S (S (S (S (S k))))) (Following b) s = (_follower_step cf clk io rpc others;; finish b) s.
Proof.
  rewrite drive_S. cbn [request advance]. unfold _follower_step, mbind, M_bind, mret, M_ret.
  run_section (follower_check cf clk). destruct x as [base|]; [|apply drive_finishing].
  rewrite drive_S. cbn [request advance]. unfold mbind, M_bind, mret, M_ret.
  run_section (call rpc others (prevote_line cf (base + 1))).
  run_section (prevote_collect cf clk io base x). destruct x0 as [t_new|]; [|apply drive_finishing].
  rewrite drive_S. cbn [request advance]. unfold mbind, M_bind, mret, M_ret.
  run_section (clock clk).
  rewrite drive_S. cbn [request advance]. unfold mbind, M_bind, mret, M_ret.
  run_section (call rpc others (lease_line cf t_new)).
  run_section (lease_collect cf clk io t_new x0 x1). apply drive_finishing.
Qed.

End Compose.

(** A tick is the composition of its locked sections: running the whole
    [tick], with any network layer, is running the atomic sections one after
    the other, at most eight of them, with the same result and the same
    exceptions. *)
Theorem tick_is_sections cf clk io rpc s :
  tick cf clk io rpc s = drive cf clk io 8 rpc (map endpoint (peers s)) Idle s.
Proof.
  set (others := map endpoint (peers s)).
  rewrite drive_S. cbn [request advance]. unfold tick, get. fold others.
  unfold mbind, M_bind, mret, M_ret.
  assert (forall s, role_term s = (s, Ok (role s, term s))) as Hrt by reflexivity. rewrite !Hrt. fold others.
  rewrite drive_S. cbn [request advance]. unfold mbind, M_bind, mret, M_ret.
  run_section (call rpc others ("LEADER" +:+ _suffix cf)).
  run_section (poll_section cf clk io x).
  case_bool_decide.
  - symmetry. apply (drive_leading cf clk io rpc others 2).
  - symmetry. apply (drive_following cf clk io rpc others 1).
Qed.
End El.
