(* ===== verification/ElectionCluster.v ===== *)
(** * The election of a whole cluster

    All candidates run concurrently: message handlers and tick sections of
    every candidate interleave arbitrarily, replies may be lost or delayed,
    poll and prevote replies are arbitrary JSON, requests may come from
    anywhere, saves may fail, and candidates restart from their term file.
    The only assumption on the network is that a granted [LEASE] reply was
    produced by the candidate it is attributed to, for that request. *)
From Stdlib Require Import Ascii Lqa.
From S2P Require Import Prelude PyStruct PyText PyJson Election ElectionSafety.
Import El ElSafe.

Module Cluster.

Record world := World {
  node : string -> t;
  thread : string -> pc;
  replied : list (string * Z * string * json);     (* voter, term, endpoint text, reply *)
  votes : list (string * Z * string);              (* voter, term, candidate *)
  elected : list (string * Z) }.                   (* every candidate that led, and when *)

Definition upd {A} (f : string -> A) (v : string) (x : A) : string -> A :=
  fun w => if decide (w = v) then x else f w.

Section Cluster.
Variable cands : list string.
Variable cfg_of : string -> cfg.
Variable clk : string -> nat -> Q.
Variable io : string -> nat -> bool.
Variable str_of : json -> string.

(** Every candidate has the same candidate list and requires a quorum. *)
Record member_ok (v : string) : Prop := {
  mo_cfg : cfg_ok (cfg_of v);
  mo_cands : candidates (cfg_of v) = cands;
  mo_self : self_endpoint (cfg_of v) = v;
  mo_quorum : require_quorum (cfg_of v) = true }.

Definition cluster_ok : Prop := forall v, v ∈ cands -> member_ok v.

Definition lease_votes (v : string) (tm : Z) (ep : string) (r : res json) : list (string * Z * string) :=
  match r, normalize_endpoint ep with
  | Ok j, Ok x => if granted_reply j then [(v, tm, x)] else []
  | _, _ => []
  end.

(** What a tick section can receive: one reply per other candidate, and a
    granted reply to a lease request is a reply that was given. *)
Definition received (w : world) (v : string) (rs : replies) : Prop :=
  NoDup (v :: map fst rs) /\ (forall ep, ep ∈ map fst rs -> ep ∈ cands) /\
  match thread w v with
  | Renewed _ tm _ | Leasing _ tm _ =>
      forall ep r, (ep, r) ∈ rs -> granted_reply r = true -> (ep, tm, v, r) ∈ replied w
  | _ => True
  end.

Definition claim_votes (v : string) (r : res pc) : list (string * Z * string) :=
  match r with Ok (Claimed _ t_new) => [(v, t_new, v)] | _ => [] end.

Definition led (v : string) (s : t) : list (string * Z) :=
  if bool_decide (role s = ROLE_LEADER) then [(v, term s)] else [].

Inductive step (w : world) : world -> Prop :=
  | step_lease v tm ep cluster s r :
      v ∈ cands -> handle_lease (cfg_of v) (clk v) (io v) tm ep cluster (node w v) = (s, r) ->
      step w (World (upd (node w) v s) (thread w)
                (match r with Ok j => [(v, tm, ep, j)] | Raise _ => [] end ++ replied w)
                (lease_votes v tm ep r ++ votes w) (elected w))
  | step_observe v tm bounded s r :
      v ∈ cands -> observe_term (cfg_of v) (clk v) (io v) tm bounded (node w v) = (s, r) ->
      step w (World (upd (node w) v s) (thread w) (replied w) (votes w) (elected w))
  | step_prevote v tm ep cluster s r :
      v ∈ cands -> handle_prevote (cfg_of v) (clk v) tm ep cluster (node w v) = (s, r) ->
      step w (World (upd (node w) v s) (thread w) (replied w) (votes w) (elected w))
  | step_leader v version sched_term cluster s r :
      v ∈ cands -> handle_leader (cfg_of v) (clk v) version sched_term cluster (node w v) = (s, r) ->
      step w (World (upd (node w) v s) (thread w) (replied w) (votes w) (elected w))
  | step_section v rs s r :
      v ∈ cands -> received w v rs ->
      advance (cfg_of v) (clk v) (io v) (thread w v) rs (node w v) = (s, r) ->
      step w (World (upd (node w) v s)
                (upd (thread w) v (match r with Ok p => p | Raise _ => Idle end))
                (replied w) (claim_votes v r ++ votes w) (led v s ++ elected w))
  | step_restart v s :
      v ∈ cands ->
      init (cfg_of v) (clk v) str_of (file (node w v)) (saves (node w v)) (reads (node w v)) = Ok s ->
      step w (World (upd (node w) v s) (upd (thread w) v Idle) (replied w) (votes w) (elected w)).

(** Candidates start from a readable term file (or none). *)
Definition initial (w : world) : Prop :=
  replied w = [] /\ votes w = [] /\ elected w = [] /\
  forall v, v ∈ cands -> thread w v = Idle /\ mirrored str_of (node w v) /\ role (node w v) = ROLE_FOLLOWER.

Inductive reachable : world -> Prop :=
  | reachable_initial w : initial w -> reachable w
  | reachable_step w w' : reachable w -> step w w' -> reachable w'.

(** ** The invariant *)
Definition quorum_for (vs : list (string * Z * string)) (v : string) (tm : Z) : Prop :=
  exists q, NoDup q /\ (forall x, x ∈ q -> x ∈ cands) /\ (length cands < 2 * length q)%nat /\
            forall x, x ∈ q -> (x, tm, v) ∈ vs.

Definition thread_ok (vs : list (string * Z * string)) (v : string) (p : pc) : Prop :=
  match p with
  | Claimed _ tm | Leasing _ tm _ => (v, tm, v) ∈ vs
  | Prevoting _ base => 0 <= base < TERM_MAX
  | _ => True
  end.

Record Inv (w : world) : Prop := {
  i_file : forall v, v ∈ cands -> mirrored str_of (node w v);
  i_vote : forall v tm c, (v, tm, c) ∈ votes w ->
             tm < term (node w v) \/ (tm = term (node w v) /\ voted_for (node w v) = Some c);
  i_once : forall v tm c c', (v, tm, c) ∈ votes w -> (v, tm, c') ∈ votes w -> c = c';
  i_reply : forall v tm ep r, (v, tm, ep, r) ∈ replied w -> granted_reply r = true ->
              exists x, normalize_endpoint ep = Ok x /\ (v, tm, x) ∈ votes w;
  i_thread : forall v, v ∈ cands -> thread_ok (votes w) v (thread w v);
  i_elected : forall v tm, (v, tm) ∈ elected w -> quorum_for (votes w) v tm;
  i_leader : forall v, v ∈ cands -> role (node w v) = ROLE_LEADER -> (v, term (node w v)) ∈ elected w }.

(** ** Preservation *)

(** The part of [safe] a winning step keeps too. *)
Record keeps (s s' : t) : Prop := {
  k_mono : term s <= term s';
  k_vote : forall c, term s' = term s -> voted_for s = Some c -> voted_for s' = Some c;
  k_file : mirrored str_of s -> mirrored str_of s' }.

Lemma safe_keeps s s' : safe str_of s s' -> keeps s s'.
Proof. by intros [? ? _ ?]. Qed.

Lemma upd_same {A} (f : string -> A) v x : upd f v x v = x.
Proof. unfold upd. by rewrite decide_True. Qed.
Lemma upd_other {A} (f : string -> A) v x w : w <> v -> upd f v x w = f w.
Proof. intros. unfold upd. by rewrite decide_False. Qed.

Lemma quorum_mono vs vs' v tm : (forall x, x ∈ vs -> x ∈ vs') -> quorum_for vs v tm -> quorum_for vs' v tm.
Proof. intros H (q & ? & ? & ? & ?). exists q. split_and!; auto. Qed.

Lemma thread_ok_mono vs vs' v p : (forall x, x ∈ vs -> x ∈ vs') -> thread_ok vs v p -> thread_ok vs' v p.
Proof. intros H. destruct p; cbn; auto. Qed.

(** One candidate moves; its new votes, if any, are the vote of its state. *)
Lemma inv_move w v s p rep new lead :
  Inv w -> v ∈ cands -> keeps (node w v) s ->
  (forall x, x ∈ new -> exists c, x = (v, term s, c) /\ voted_for s = Some c) ->
  (forall u tm ep r, (u, tm, ep, r) ∈ rep -> granted_reply r = true ->
     exists x, normalize_endpoint ep = Ok x /\ (u, tm, x) ∈ new) ->
  thread_ok (new ++ votes w) v p ->
  (forall u tm, (u, tm) ∈ lead -> quorum_for (new ++ votes w) u tm) ->
  (role s = ROLE_LEADER -> (v, term s) ∈ lead ++ elected w) ->
  Inv (World (upd (node w) v s) (upd (thread w) v p) (rep ++ replied w) (new ++ votes w) (lead ++ elected w)).
Proof.
  intros [Hf Hv Ho Hr Ht He Hl] Hin [Km Kv Kf] Hnew Hrep Hp Hlead Hrole.
  assert (forall x, x ∈ votes w -> x ∈ new ++ votes w) as Hsub by (intros; apply elem_of_app; auto).
  constructor; cbn.
  - intros u Hu. destruct (decide (u = v)) as [->|]; [rewrite upd_same|rewrite upd_other by done]; auto.
  - intros u tm c Hx. apply elem_of_app in Hx as [Hx|Hx].
    + destruct (Hnew _ Hx) as (c' & [= -> -> ->] & Hc). rewrite upd_same. auto.
    + specialize (Hv _ _ _ Hx). destruct (decide (u = v)) as [->|]; [|by rewrite upd_other].
      rewrite upd_same. destruct Hv as [?|[-> Hc]]; [left; lia|].
      destruct (decide (term s = term (node w v))) as [E|]; [right|left; lia]. split; [done|]. by apply Kv.
  - assert (forall tm c c', (v, tm, c) ∈ new -> (v, tm, c') ∈ votes w -> c = c') as Hmix.
    { intros tm c c' Hx Hx'. destruct (Hnew _ Hx) as (c0 & [= -> ->] & Hc).
      destruct (Hv _ _ _ Hx') as [?|[E Hc']]; [lia|]. specialize (Kv _ E Hc'). congruence. }
    intros u tm c c' Hx Hx'. apply elem_of_app in Hx as [Hx|Hx], Hx' as [Hx'|Hx'].
    + destruct (Hnew _ Hx) as (c1 & [= -> -> ->] & ?), (Hnew _ Hx') as (c2 & [= ->] & ?). congruence.
    + destruct (Hnew _ Hx) as (c1 & [= -> -> ->] & ?). eauto.
    + destruct (Hnew _ Hx') as (c1 & [= -> -> ->] & ?). symmetry. eauto.
    + eauto.
  - intros u tm ep r Hx Hg. apply elem_of_app in Hx as [Hx|Hx].
    + destruct (Hrep _ _ _ _ Hx Hg) as (x & ? & ?). exists x. split; [done|]. apply elem_of_app; auto.
    + destruct (Hr _ _ _ _ Hx Hg) as (x & ? & ?). exists x. auto.
  - intros u Hu. destruct (decide (u = v)) as [->|]; [by rewrite upd_same|rewrite upd_other by done].
    eapply thread_ok_mono; eauto.
  - intros u tm Hx. apply elem_of_app in Hx as [Hx|Hx]; [auto|]. eapply quorum_mono; eauto.
  - intros u Hu. destruct (decide (u = v)) as [->|]; [rewrite upd_same; auto|rewrite upd_other by done].
    intros. apply elem_of_app. auto.
Qed.

(** The same for a handler: the tick thread stays where it is. *)
Lemma inv_handler w v s rep new :
  Inv w -> v ∈ cands -> safe str_of (node w v) s ->
  (forall x, x ∈ new -> exists c, x = (v, term s, c) /\ voted_for s = Some c) ->
  (forall u tm ep r, (u, tm, ep, r) ∈ rep -> granted_reply r = true ->
     exists x, normalize_endpoint ep = Ok x /\ (u, tm, x) ∈ new) ->
  Inv (World (upd (node w) v s) (thread w) (rep ++ replied w) (new ++ votes w) (elected w)).
Proof.
  intros Hi Hin Hs Hnew Hrep. pose proof Hi as [_ _ _ _ Ht _ Hl].
  destruct (inv_move w v s (thread w v) rep new []) as [A1 A2 A3 A4 A5 A6 A7]; try done.
  - by apply safe_keeps.
  - eapply thread_ok_mono; [|by apply Ht]. intros. apply elem_of_app. auto.
  - by intros ? ? ?%not_elem_of_nil.
  - intros Hr. destruct (safe_lead _ _ _ Hs Hr) as [Hr' ->]. by apply Hl.
  - constructor; try done. intros u Hu. specialize (A5 u Hu). revert A5. cbn.
    destruct (decide (u = v)) as [->|]; [by rewrite upd_same|by rewrite upd_other].
Qed.

Hypothesis Hcluster : cluster_ok.

Lemma inv_lease w v tm ep cluster s r :
  Inv w -> v ∈ cands -> handle_lease (cfg_of v) (clk v) (io v) tm ep cluster (node w v) = (s, r) ->
  Inv (World (upd (node w) v s) (thread w)
         (match r with Ok j => [(v, tm, ep, j)] | Raise _ => [] end ++ replied w)
         (lease_votes v tm ep r ++ votes w) (elected w)).
Proof.
  intros Hi Hin H.
  pose proof (safe_handle_lease (cfg_of v) (clk v) (io v) str_of tm ep cluster (node w v)) as Hs.
  rewrite H in Hs. apply inv_handler; try done.
  - intros x Hx. unfold lease_votes in Hx. destruct r as [j|]; [|by apply not_elem_of_nil in Hx].
    destruct (normalize_endpoint ep) as [y|] eqn:Hy; [|by apply not_elem_of_nil in Hx].
    destruct (granted_reply j) eqn:Hg; [|by apply not_elem_of_nil in Hx].
    apply list_elem_of_singleton in Hx as ->.
    destruct (handle_lease_granted _ _ _ str_of _ _ _ _ _ _ H Hg) as (z & Hz & -> & Hv & _).
    exists z. split; congruence.
  - intros u tm' ep' j Hx Hg. destruct r as [j'|]; [|by apply not_elem_of_nil in Hx].
    apply list_elem_of_singleton in Hx as [= -> -> -> ->].
    destruct (handle_lease_granted _ _ _ str_of _ _ _ _ _ _ H Hg) as (z & Hz & _).
    exists z. split; [done|]. unfold lease_votes. rewrite Hz, Hg. by apply list_elem_of_singleton.
Qed.

Lemma member_normalized v : v ∈ cands -> normalize_endpoint v = Ok v.
Proof.
  intros Hin. destruct (Hcluster v Hin) as [[Hn _ _] Hcs _ _]. rewrite Hcs in Hn.
  rewrite Forall_forall in Hn. by apply Hn, list_elem_of_In.
Qed.

(** A won election has a quorum of votes. *)
Lemma won_quorum w v rs b tm send :
  Inv w -> v ∈ cands -> received w v rs -> thread w v = Leasing b tm send ->
  lost (cfg_of v) rs = false -> quorum_for (votes w) v tm.
Proof.
  intros [_ _ _ Hr Ht _ _] Hin (Hnd & Hsub & Hrec) Hth Hlost. rewrite Hth in Hrec.
  destruct (Hcluster v Hin) as [Hc Hcs Hself Hq].
  exists (v :: map fst (granting rs)).
  assert (sublist (map fst (granting rs)) (map fst rs)) as Hsl
    by (apply (fmap_sublist fst), sublist_filter).
  split_and!.
  - eapply sublist_NoDup; [exact Hnd|]. by apply sublist_skip.
  - intros x [->|Hx]%elem_of_cons; [done|]. apply Hsub. by eapply elem_of_sublist.
  - unfold lost, n in Hlost. rewrite Hq, Hcs in Hlost. apply bool_decide_eq_false in Hlost.
    cbn. rewrite length_map. lia.
  - intros x [->|Hx]%elem_of_cons.
    + specialize (Ht v Hin). by rewrite Hth in Ht.
    + apply (list_elem_of_fmap_1 fst) in Hx as ([ep r] & -> & Hx). cbn.
      apply list_elem_of_filter in Hx as [Hg Hx]. specialize (Hrec _ _ Hx Hg).
      destruct (Hr _ _ _ _ Hrec Hg) as (y & Hy & Hvote).
      enough (y = v) as -> by done.
      pose proof (member_normalized v Hin). congruence.
Qed.

(** Only a campaign moves the thread to a state that carries an obligation. *)
Definition plain (r : res pc) : Prop :=
  match r with Ok (Claimed _ _ | Prevoting _ _ | Leasing _ _ _) => False | _ => True end.

Lemma advance_plain cf ck iov p rs s s' r :
  match p with Following _ | Prevoting _ _ | Claimed _ _ => False | _ => True end ->
  advance cf ck iov p rs s = (s', r) -> plain r.
Proof.
  intros Hp H. destruct p; try done; cbn [advance] in H; unfold mbind, M_bind, mret, M_ret in H.
  all: repeat match type of H with
         | context [match ?x with pair _ _ => _ end] => destruct x as [? [?|?]]
         end;
       apply (f_equal (fun p => p.2)) in H; cbn in H; subst r; cbn; try done; by repeat case_goal.
Qed.

Lemma plain_ok r vs v :
  plain r -> claim_votes v r = [] /\ thread_ok vs v (match r with Ok p => p | Raise _ => Idle end).
Proof. destruct r as [p|]; [destruct p|]; done. Qed.

(** What one tick section does to its candidate. *)
Definition moves (w : world) (v : string) (rs : replies) (p : pc) (s : t) (r : res pc) : Prop :=
  keeps (node w v) s /\
  (forall x, x ∈ claim_votes v r -> exists c, x = (v, term s, c) /\ voted_for s = Some c) /\
  thread_ok (claim_votes v r ++ votes w) v (match r with Ok p => p | Raise _ => Idle end) /\
  (role s = ROLE_LEADER ->
     (role (node w v) = ROLE_LEADER /\ term s = term (node w v)) \/
     (exists b send, p = Leasing b (term s) send /\ lost (cfg_of v) rs = false)).

Lemma safe_moves w v rs p s r :
  safe str_of (node w v) s -> claim_votes v r = [] ->
  thread_ok (votes w) v (match r with Ok p => p | Raise _ => Idle end) -> moves w v rs p s r.
Proof.
  intros Hs Hc Ht. unfold moves. rewrite Hc.
  split_and!; [by apply safe_keeps|by intros ? ?%not_elem_of_nil|done|].
  intros Hl. left. by apply (safe_lead _ _ _ Hs).
Qed.

Lemma section_spec w v rs s r :
  Inv w -> v ∈ cands -> advance (cfg_of v) (clk v) (io v) (thread w v) rs (node w v) = (s, r) ->
  moves w v rs (thread w v) s r.
Proof.
  intros Hi Hin H. pose proof (i_file w Hi v Hin) as Hm. pose proof (i_thread w Hi v Hin) as Ht.
  destruct (Hcluster v Hin) as [_ _ Hself _].
  assert (self_endpoint (cfg_of v) <> EmptyString) as Hne
    by (rewrite Hself; eapply normalize_nonempty, member_normalized, Hin).
  pose proof (safe_advance (cfg_of v) (clk v) (io v) str_of (thread w v) rs) as Hsafe.
  destruct (thread w v) as [| | | | |b|b base|b tm|b tm send|] eqn:Hth;
    try (specialize (Hsafe Logic.I (node w v)); rewrite H in Hsafe; cbn [fst] in Hsafe);
    try (apply safe_moves; [done|..]; apply (plain_ok r (votes w) v); by eapply advance_plain; [|exact H]);
    cbn [advance] in H; unfold mbind, M_bind, mret, M_ret in H.
  - destruct (follower_check _ _ _) as [s1 [[base|]|e]] eqn:E; injection H as <- <-;
      (apply safe_moves; [done|done|]); try done.
    cbn. destruct (follower_check_some _ _ _ _ _ E) as [<- ?].
    pose proof (safe_file _ _ _ Hsafe Hm) as Hm'%load_range. lia.
  - pose proof (prevote_collect_spec (cfg_of v) (clk v) (io v) str_of base rs (node w v) Ht Hne) as Hp.
    destruct (prevote_collect _ _ _ _ _ _) as [s1 [[t_new|]|e]]; destruct Hp as [Hs Hp];
      injection H as <- <-; try by apply safe_moves.
    destruct Hp as (-> & _ & E1 & E2 & E3). unfold moves. cbn [claim_votes].
    split_and!; [by apply safe_keeps| |apply elem_of_app; left; by apply list_elem_of_singleton|done].
    intros x Hx%list_elem_of_singleton. exists v. by rewrite Hx, E1, E2, Hself.
  - injection H as <- <-. by apply safe_moves.
  - pose proof (lease_collect_spec (cfg_of v) (clk v) (io v) str_of tm send rs (node w v)) as Hc.
    destruct (lease_collect _ _ _ _ _ _ _) as [s1 r1].
    assert (s = s1 /\ claim_votes v r = [] /\
            thread_ok (votes w) v (match r with Ok p => p | Raise _ => Idle end)) as (-> & Hcv & Htr)
      by (destruct r1; by injection H as <- <-).
    destruct Hc as [Hs|(Hc & Htm & Hlost & _)]; [by apply safe_moves|].
    injection Hc as E1 E2 E3 E4. unfold moves. rewrite Hcv. split_and!.
    + constructor; unfold mirrored; rewrite ?E1, ?E2, ?E3, <- ?Htm; try done; lia.
    + by intros ? ?%not_elem_of_nil.
    + done.
    + intros _. right. exists b, send. by rewrite E1.
Qed.

Lemma inv_step w w' : Inv w -> step w w' -> Inv w'.
Proof.
  intros Hi Hstep. destruct Hstep as [v tm ep cluster s r Hin H|v tm bounded s r Hin H|v tm ep cluster s r Hin H
    |v version sched_term cluster s r Hin H|v rs s r Hin Hrec H|v s Hin H].
  - by eapply inv_lease.
  - apply (inv_handler w v s [] []); try done; [|by intros ? ?%not_elem_of_nil|by intros ? ? ? ? ?%not_elem_of_nil].
    pose proof (safe_observe (cfg_of v) (clk v) (io v) str_of tm bounded (node w v)) as Hs. by rewrite H in Hs.
  - apply (inv_handler w v s [] []); try done; [|by intros ? ?%not_elem_of_nil|by intros ? ? ? ? ?%not_elem_of_nil].
    pose proof (safe_handle_prevote (cfg_of v) (clk v) str_of tm ep cluster (node w v)) as Hs. by rewrite H in Hs.
  - apply (inv_handler w v s [] []); try done; [|by intros ? ?%not_elem_of_nil|by intros ? ? ? ? ?%not_elem_of_nil].
    pose proof (safe_handle_leader (cfg_of v) (clk v) str_of version sched_term cluster (node w v)) as Hs.
    by rewrite H in Hs.
  - destruct (section_spec w v rs s r Hi Hin H) as (Hk & Hnew & Ht & Hl).
    apply (inv_move w v s _ []); try done; [by intros ? ? ? ? ?%not_elem_of_nil| |].
    + intros u tm Hx. unfold led in Hx. destruct (bool_decide (role s = ROLE_LEADER)) eqn:Hr;
        [|by apply not_elem_of_nil in Hx]. apply list_elem_of_singleton in Hx as [= -> ->]. bool_prop.
      apply (quorum_mono (votes w)); [intros; apply elem_of_app; auto|].
      destruct (Hl Hr) as [[Hr' ->]|(b & send & Hth & Hlost)].
      * apply (i_elected w Hi). by apply (i_leader w Hi).
      * by eapply won_quorum.
    + intros Hr. apply elem_of_app. left. unfold led. rewrite bool_decide_eq_true_2 by done.
      by apply list_elem_of_singleton.
  - destruct (init_restores _ _ _ _ _ _ _ (i_file w Hi v Hin) H) as (E1 & E2 & E3 & E4).
    apply (inv_move w v s Idle [] [] []); try done; [|by intros ? ?%not_elem_of_nil|
      by intros ? ? ? ? ?%not_elem_of_nil|by intros ? ? ?%not_elem_of_nil|by rewrite E4].
    constructor; unfold mirrored; rewrite ?E1, ?E2, ?E3; try done; lia.
Qed.

Lemma reachable_inv w : reachable w -> Inv w.
Proof.
  induction 1 as [w (H1 & H2 & H3 & H4)|w w' _ IH Hstep]; [|by eapply inv_step].
  constructor; rewrite ?H1, ?H2, ?H3; try by intros * ?%not_elem_of_nil.
  - intros v Hv. by destruct (H4 v Hv) as (_ & ? & _).
  - intros v Hv. destruct (H4 v Hv) as (-> & _). done.
  - intros v Hv Hr. destruct (H4 v Hv) as (_ & _ & E). congruence.
Qed.

(** Two quorums share a voter. *)
Lemma quorums_meet q1 q2 :
  NoDup q1 -> NoDup q2 -> (forall x, x ∈ q1 -> x ∈ cands) -> (forall x, x ∈ q2 -> x ∈ cands) ->
  (length cands < 2 * length q1)%nat -> (length cands < 2 * length q2)%nat ->
  exists x, x ∈ q1 /\ x ∈ q2.
Proof.
  intros N1 N2 S1 S2 L1 L2.
  destruct (list_intersection q1 q2) as [|x q] eqn:E;
    [|exists x; apply list_elem_of_intersection; rewrite E; by left].
  assert (NoDup (q1 ++ q2)) as N.
  { apply list.NoDup_app. split_and!; [done| |done]. intros x H1 H2.
    assert (x ∈ list_intersection q1 q2) as Hx by by apply list_elem_of_intersection.
    rewrite E in Hx. by apply not_elem_of_nil in Hx. }
  assert (length (q1 ++ q2) <= length cands)%nat as Hlen.
  { apply submseteq_length, NoDup_submseteq; [done|]. intros x [?|?]%elem_of_app; auto. }
  rewrite length_app in Hlen. lia.
Qed.

(** [C1] At most one leader per term: with [require_quorum], over every
    interleaving of handlers, tick sections and restarts of all candidates,
    with lost or delayed replies, arbitrary poll and prevote replies, forged
    requests and failing term-file writes, two candidates that ever led in the
    same term are the same candidate; in particular two current leaders of one
    term are the same. *)
Theorem one_leader_per_term w :
  reachable w ->
  (forall v1 v2 tm, (v1, tm) ∈ elected w -> (v2, tm) ∈ elected w -> v1 = v2) /\
  (forall v1 v2, v1 ∈ cands -> v2 ∈ cands ->
     role (node w v1) = ROLE_LEADER -> role (node w v2) = ROLE_LEADER ->
     term (node w v1) = term (node w v2) -> v1 = v2).
Proof.
  intros Hi%reachable_inv.
  assert (forall v1 v2 tm, (v1, tm) ∈ elected w -> (v2, tm) ∈ elected w -> v1 = v2) as H.
  { intros v1 v2 tm (q1 & N1 & S1 & L1 & V1)%(i_elected w Hi) (q2 & N2 & S2 & L2 & V2)%(i_elected w Hi).
    destruct (quorums_meet q1 q2) as (x & X1 & X2); [done..|].
    eapply (i_once w Hi); [by apply V1|by apply V2]. }
  split; [done|]. intros v1 v2 I1 I2 R1 R2 E.
  apply (H v1 v2 (term (node w v1))); [by apply (i_leader w Hi)|]. rewrite E. by apply (i_leader w Hi).
Qed.


(** ** Running a cluster *)
Definition do_section (w : world) (v : string) (rs : replies) : world :=
  let '(s, r) := advance (cfg_of v) (clk v) (io v) (thread w v) rs (node w v) in
  World (upd (node w) v s) (upd (thread w) v (match r with Ok p => p | Raise _ => Idle end))
    (replied w) (claim_votes v r ++ votes w) (led v s ++ elected w).

Definition do_lease (w : world) (v : string) (tm : Z) (ep : string) : world :=
  let '(s, r) := handle_lease (cfg_of v) (clk v) (io v) tm ep None (node w v) in
  World (upd (node w) v s) (thread w)
    (match r with Ok j => [(v, tm, ep, j)] | Raise _ => [] end ++ replied w)
    (lease_votes v tm ep r ++ votes w) (elected w).

Lemma do_section_reachable w v rs :
  reachable w -> v ∈ cands -> received w v rs -> reachable (do_section w v rs).
Proof.
  intros Hr Hin Hrec. unfold do_section. destruct (advance _ _ _ _ _ _) as [s r] eqn:E.
  eapply reachable_step; [exact Hr|]. by eapply step_section.
Qed.

Lemma do_lease_reachable w v tm ep : reachable w -> v ∈ cands -> reachable (do_lease w v tm ep).
Proof.
  intros Hr Hin. unfold do_lease. destruct (handle_lease _ _ _ _ _ _ _) as [s r] eqn:E.
  eapply reachable_step; [exact Hr|]. by eapply step_lease.
Qed.

End Cluster.

(** ** Example: three candidates elect the first *)
Definition sample_initial : world := World sample_node (fun _ => Idle) [] [] [].

Lemma three_ok : cluster_ok three sample_cfg.
Proof.
  intros v Hv. constructor; [constructor|..]; try done.
  - repeat constructor; vm_compute; reflexivity.
  - repeat constructor; by apply (bool_decide_unpack _).
Qed.

#[local] Abbreviation section := (do_section sample_cfg sample_clk sample_io).

Definition granted : json := JObj [("ok", JBool true); ("granted", JBool true)].

(** The poll gets no reply, the prevote one grant, then [b:2] grants the lease. *)
Definition sample_claimed : world :=
  section (section (section (section (section sample_initial "a:1" []) "a:1" []) "a:1" [])
    "a:1" [("b:2", granted)]) "a:1" [].

Definition sample_leased : world := do_lease sample_cfg sample_clk sample_io sample_claimed "b:2" 1 "a:1".

Definition sample_reply : json :=
  match replied sample_leased with (_, _, _, r) :: _ => r | [] => JNull end.

Definition sample_elected : world := section sample_leased "a:1" [("b:2", sample_reply)].

Lemma sample_reachable : reachable three sample_cfg sample_clk sample_io sample_str sample_elected.
Proof.
  assert ("a:1" ∈ three /\ "b:2" ∈ three) as [Ha Hb] by (split; apply (bool_decide_unpack _); exact Logic.I).
  assert (forall w, match thread w "a:1" with Renewed _ _ _ | Leasing _ _ _ => False | _ => True end ->
            received three w "a:1" [] /\ received three w "a:1" [("b:2", granted)]) as Hrec.
  { intros w Hw. split; (split_and!; [apply (bool_decide_unpack _); exact Logic.I| |by destruct (thread w "a:1")]).
    - by intros ? ?%not_elem_of_nil.
    - by intros ? ->%list_elem_of_singleton. }
  assert (reachable three sample_cfg sample_clk sample_io sample_str sample_claimed) as Hc.
  { unfold sample_claimed.
    repeat (apply do_section_reachable; [|done|apply Hrec; vm_compute; exact Logic.I]).
    apply reachable_initial. split_and!; done. }
  apply do_section_reachable; [by apply do_lease_reachable|done|].
  split_and!; [apply (bool_decide_unpack _); exact Logic.I|by intros ? ->%list_elem_of_singleton|].
  vm_compute. intros ep r [= -> ->]%list_elem_of_singleton _. left.
Qed.

Lemma one_leader_per_term_witness :
  elected sample_elected = [("a:1", 1)] /\
  (forall v1 v2 tm, (v1, tm) ∈ elected sample_elected -> (v2, tm) ∈ elected sample_elected -> v1 = v2).
Proof.
  split; [vm_compute; reflexivity|].
  exact (proj1 (one_leader_per_term three sample_cfg sample_clk sample_io sample_str three_ok
                  sample_elected sample_reachable)).
Defined.


End Cluster.
