(* ===== verification/TxDuty.v ===== *)
(** * The transmit duty meter ([_active/active_tx_safety.py], [DutyCycleMeter])

    Bursts are intervals of the monotonic clock; every sliding window of
    [window_s] seconds may hold at most [duty_max * window_s] seconds of
    transmission.  The meter evaluates the windows at finitely many instants;
    the theorems show that these instants are enough, and that bursts admitted
    one by one never overload any window.  Clock readings and durations are
    rationals. *)
From S2P Require Import Prelude.

Module Duty.

(** [(start, duration)] on the monotonic clock. *)
Definition burst : Type := Q * Q.

Record meter := Meter {
  window_s : Q;
  duty_max : Q;
  bursts : list burst;
  reservations : list (string * burst) }.

Definition _REL_TOL : Q := 1 # 1000000000.
Definition ABS_TOL : Q := 1 # 1000000000000.

Definition init (window duty : Q) : res meter :=
  if Qltb 0 window && (Qltb 0 duty && Qle_bool duty 1) then Ok (Meter window duty [] [])
  else Raise ValueError.

Definition qmax (x y : Q) : Q := if Qle_bool x y then y else x.
Definition qmin (x y : Q) : Q := if Qle_bool x y then x else y.

Fixpoint qsum (l : list Q) : Q :=
  match l with
  | [] => 0
  | x :: l => x + qsum l
  end.

Fixpoint qmaximum (x : Q) (l : list Q) : Q :=
  match l with
  | [] => x
  | y :: l => qmax x (qmaximum y l)
  end.

(** [max(0, min(s + d, hi) - max(s, lo))] *)
Definition overlap (lo hi : Q) (b : burst) : Q :=
  qmax 0 (qmin (b.1 + b.2) hi - qmax b.1 lo).

(** Busy time of [l] in the window of [w] seconds that ends at [t]. *)
Definition busy (w t : Q) (l : list burst) : Q := qsum (map (overlap (t - w) t) l).

Definition _busy (m : meter) (t0 t1 : Q) : Q := qsum (map (overlap t0 t1) (bursts m)).

(** The order of Python tuples. *)
Definition burst_leb (a b : burst) : bool :=
  Qltb a.1 b.1 || (Qle_bool a.1 b.1 && Qle_bool a.2 b.2).

Fixpoint burst_insert (x : burst) (l : list burst) : list burst :=
  match l with
  | [] => [x]
  | y :: l' => if burst_leb x y then x :: l else y :: burst_insert x l'
  end.

Definition sorted (l : list burst) : list burst := foldr burst_insert [] l.

Definition ends (b : burst) : Q := b.1 + b.2.

Definition _prune (now : Q) (m : meter) : meter :=
  let horizon := (now - window_s m)%Q in
  Meter (window_s m) (duty_max m)
    (filter (fun b => Qle_bool horizon (ends b) = true) (sorted (bursts m))) (reservations m).

Fixpoint res_pop (key : string) (l : list (string * burst)) : list (string * burst) :=
  match l with
  | [] => []
  | kv :: l => if bool_decide (kv.1 = key) then res_pop key l else kv :: res_pop key l
  end.

Fixpoint res_set (key : string) (v : burst) (l : list (string * burst)) : list (string * burst) :=
  match l with
  | [] => [(key, v)]
  | kv :: l => if bool_decide (kv.1 = key) then (key, v) :: l else kv :: res_set key v l
  end.

Definition _intervals (exclude : option string) (m : meter) : list burst :=
  bursts m ++ map snd (match exclude with Some k => res_pop k (reservations m) | None => reservations m end).

(** The window ends that [max_busy] evaluates. *)
Definition candidates (w s0 e0 : Q) (iv : list burst) : list Q :=
  filter (fun c => Qle_bool (s0 - ABS_TOL) c && Qle_bool c (e0 + w + ABS_TOL) = true)
    (map fst iv ++ map ends iv ++ map (fun b => b.1 + w) iv ++ map (fun b => ends b + w) iv
     ++ [s0; e0; e0 + w])%Q.

Definition max_busy (start dur_s : Q) (exclude : option string) (m : meter) : Q :=
  let s0 := start in
  let d0 := qmax 0 dur_s in
  let e0 := (s0 + d0)%Q in
  let w := window_s m in
  let iv := filter (fun b => Qltb (s0 - w) (ends b) && Qltb b.1 (e0 + w) = true)
              (_intervals exclude m) ++ [(s0, d0)] in
  match candidates w s0 e0 iv with
  | [] => d0
  | c :: cs => qmaximum (busy w c iv) (map (fun c => busy w c iv) cs)
  end.

(** The busy time a window may hold. *)
Definition limit (m : meter) : Q := duty_max m * window_s m * (1 + _REL_TOL) + ABS_TOL.

Definition would_exceed (dur_s now : Q) (exclude : option string) (m : meter) : bool :=
  Qltb (limit m) (max_busy now dur_s exclude m).

Definition reserve (key : string) (start_mono dur_s : Q) (m : meter) : meter :=
  Meter (window_s m) (duty_max m) (bursts m) (res_set key (start_mono, dur_s) (reservations m)).

Definition release (key : string) (m : meter) : meter :=
  Meter (window_s m) (duty_max m) (bursts m) (res_pop key (reservations m)).

Definition release_all (m : meter) : meter :=
  Meter (window_s m) (duty_max m) (bursts m) [].

Definition reserved (m : meter) : nat := length (reservations m).

(** [clk] is the clock reading, [None] when reading it raises. *)
Definition record (start_mono dur_s : Q) (key : option string) (clk : option Q) (m : meter) : meter :=
  let rs := match key with Some k => res_pop k (reservations m) | None => reservations m end in
  let now := default start_mono clk in
  _prune (qmin start_mono now)
    (Meter (window_s m) (duty_max m) (bursts m ++ [(start_mono, dur_s)]) rs).

Definition duty (now : Q) (m : meter) : Q := _busy m (now - window_s m) now / window_s m.

Definition clear (m : meter) : meter := Meter (window_s m) (duty_max m) [] [].

(** ** Order lemmas *)
Local Open Scope Q_scope.

Lemma qmax_spec x y : (x <= y /\ qmax x y = y) \/ (y < x /\ qmax x y = x).
Proof. unfold qmax. destruct (Qle_bool x y) eqn:E; q_prop; auto. Qed.

Lemma qmin_spec x y : (x <= y /\ qmin x y = x) \/ (y < x /\ qmin x y = y).
Proof. unfold qmin. destruct (Qle_bool x y) eqn:E; q_prop; auto. Qed.

(** Case on every [qmax] and [qmin] of the goal. *)
Ltac q_cases :=
  repeat match goal with
    | |- context [qmin ?x ?y] => destruct (qmin_spec x y) as [[? ->]|[? ->]]
    | |- context [qmax ?x ?y] =>
        lazymatch y with context [qmin _ _] => fail | context [qmax _ _] => fail | _ =>
          destruct (qmax_spec x y) as [[? ->]|[? ->]] end
    end.

Lemma qmaximum_ge x l y : y ∈ x :: l -> y <= qmaximum x l.
Proof.
  revert x. induction l as [|z l IH]; intros x; cbn.
  - intros ->%list_elem_of_singleton. apply Qle_refl.
  - intros [->|Hy]%elem_of_cons.
    + destruct (qmax_spec x (qmaximum z l)) as [[? ->]|[? ->]]; [done | apply Qle_refl].
    + apply IH in Hy. destruct (qmax_spec x (qmaximum z l)) as [[? ->]|[? ->]]; lra.
Qed.

Lemma qmaximum_in x l : qmaximum x l ∈ x :: l.
Proof.
  revert x. induction l as [|z l IH]; intros x; cbn; [set_solver|].
  unfold qmax. specialize (IH z). case_match; set_solver.
Qed.

Lemma overlap_nonneg lo hi b : 0 <= overlap lo hi b.
Proof. unfold overlap. q_cases; lra. Qed.

Lemma overlap_outside lo hi b : ends b <= lo \/ hi <= b.1 -> overlap lo hi b == 0.
Proof. unfold overlap, ends. intros [?|?]; q_cases; lra. Qed.

Lemma qsum_app l k : qsum (l ++ k) == qsum l + qsum k.
Proof. induction l as [|x l IH]; cbn; [lra|]. rewrite IH. lra. Qed.

Lemma busy_app w t l k : busy w t (l ++ k) == busy w t l + busy w t k.
Proof. unfold busy. rewrite map_app. apply qsum_app. Qed.

Lemma busy_nonneg w t l : 0 <= busy w t l.
Proof.
  unfold busy. induction l as [|b l IH]; cbn; [lra|].
  pose proof (overlap_nonneg (t - w) t b). lra.
Qed.

Lemma busy_cons w t b l : busy w t (b :: l) == overlap (t - w) t b + busy w t l.
Proof. reflexivity. Qed.

Lemma busy_single w t b : busy w t [b] == overlap (t - w) t b.
Proof. unfold busy. cbn. lra. Qed.

Lemma busy_filter_le (P : burst -> Prop) `{forall b, Decision (P b)} w t l :
  busy w t (filter P l) <= busy w t l.
Proof.
  induction l as [|b l IH]; [apply Qle_refl|]. rewrite filter_cons.
  pose proof (overlap_nonneg (t - w) t b). case_decide; rewrite !busy_cons; lra.
Qed.

(** Intervals outside the window can be left out. *)
Lemma busy_filter_eq (P : burst -> Prop) `{forall b, Decision (P b)} w t l :
  (forall b, b ∈ l -> ~ P b -> overlap (t - w) t b == 0) -> busy w t (filter P l) == busy w t l.
Proof.
  induction l as [|b l IH]; intros Hl; [reflexivity|]. rewrite filter_cons.
  rewrite busy_cons. case_decide; rewrite ?busy_cons, IH by set_solver; [reflexivity|].
  rewrite (Hl b) by set_solver. lra.
Qed.

Lemma busy_perm w t l k : l ≡ₚ k -> busy w t l == busy w t k.
Proof.
  induction 1; rewrite ?busy_cons; [reflexivity | lra.. | by etrans].
Qed.

(** ** The busy time is piecewise linear *)

(** [t] is not a breakpoint strictly between [l] and [r]. *)
Definition not_between (l r t : Q) : Prop := t <= l \/ r <= t.

Lemma overlap_affine w b l r :
  0 <= w -> 0 <= b.2 ->
  not_between l r b.1 -> not_between l r (ends b) ->
  not_between l r (b.1 + w) -> not_between l r (ends b + w) ->
  exists k, forall x, l <= x <= r -> overlap (x - w) x b == overlap (l - w) l b + k * (x - l).
Proof.
  destruct b as [s d]. unfold overlap, not_between, ends. cbn. intros Hw Hd H1 H2 H3 H4.
  destruct (Qlt_le_dec l r) as [Hlr|Hlr].
  2:{ exists 0. intros x Hx. assert (x == l) by lra. q_cases; lra. }
  destruct H1 as [H1|H1].
  2:{ exists 0. intros x Hx. q_cases; lra. }
  destruct H4 as [H4|H4].
  { exists 0. intros x Hx. q_cases; lra. }
  destruct H2 as [H2|H2], H3 as [H3|H3].
  - exists (-1). intros x Hx. q_cases; lra.
  - exists 0. intros x Hx. q_cases; lra.
  - exists 0. intros x Hx. q_cases; lra.
  - exists 1. intros x Hx. q_cases; lra.
Qed.

(** The four breakpoints of a burst. *)
Definition breakpoints (w : Q) (b : burst) : list Q := [b.1; ends b; b.1 + w; ends b + w].

Lemma busy_affine w iv l r :
  0 <= w -> Forall (fun b => 0 <= b.2) iv ->
  Forall (fun b => Forall (not_between l r) (breakpoints w b)) iv ->
  exists k, forall x, l <= x <= r -> busy w x iv == busy w l iv + k * (x - l).
Proof.
  intros Hw. induction iv as [|b iv IH]; intros Hd Hb.
  { exists 0. intros x _. unfold busy. cbn. lra. }
  apply list.Forall_cons in Hd as [Hd1 Hd], Hb as [Hb1 Hb].
  destruct (IH Hd Hb) as [k Hk]. unfold breakpoints in Hb1. rewrite !list.Forall_cons in Hb1.
  destruct Hb1 as (? & ? & ? & ? & _).
  destruct (overlap_affine w b l r) as [k' Hk']; try done.
  exists (k' + k). intros x Hx. rewrite !busy_cons, (Hk x Hx), (Hk' x Hx). ring.
Qed.

Lemma nearest_below (t : Q) (cand : list Q) a :
  a ∈ cand -> a <= t ->
  exists l, l ∈ cand /\ l <= t /\ forall c, c ∈ cand -> c <= t -> c <= l.
Proof.
  revert a. induction cand as [|c cand IH]; intros a Ha Hat; [set_solver|].
  destruct (Qlt_le_dec t c) as [Hc|Hc].
  - assert (a ∈ cand) as Ha'.
    { apply elem_of_cons in Ha as [->|]; [exfalso; lra | done]. }
    destruct (IH a Ha' Hat) as (l & ? & ? & Hl). exists l. split_and!; [set_solver | done |].
    intros c' [->|?]%elem_of_cons; [intros; exfalso; lra | auto].
  - destruct (decide (Exists (fun x => Qle_bool x t = true) cand)) as [He|Hn].
    + apply list.Exists_exists in He as (a' & Ha' & Hle). q_prop.
      destruct (IH a' Ha' Hle) as (l & ? & ? & Hl).
      destruct (Qlt_le_dec c l).
      * exists l. split_and!; [set_solver | done |].
        intros c' [->|?]%elem_of_cons; [intros; lra | auto].
      * exists c. split_and!; [set_solver | done |].
        intros c' [->|Hin]%elem_of_cons ?; [lra|]. specialize (Hl _ Hin ltac:(done)). lra.
    + exists c. split_and!; [set_solver | done |].
      intros c' [->|Hin]%elem_of_cons Hct; [apply Qle_refl|]. exfalso. apply Hn.
      apply list.Exists_exists. exists c'. split; [done|]. by apply Qle_bool_iff.
Qed.

Lemma nearest_above (t : Q) (cand : list Q) a :
  a ∈ cand -> t <= a ->
  exists r, r ∈ cand /\ t <= r /\ forall c, c ∈ cand -> t <= c -> r <= c.
Proof.
  intros Ha Hta. destruct (nearest_below (- t) (map Qopp cand) (- a)) as (l & Hl & Hlt & Hall).
  - apply list_elem_of_fmap. by exists a.
  - lra.
  - apply list_elem_of_fmap in Hl as (r & -> & Hr). exists r. split_and!; [done | lra |].
    intros c Hc Htc. assert (- c <= - r); [|lra].
    apply Hall; [apply list_elem_of_fmap; by exists c | lra].
Qed.

(** Between two neighbouring candidates the busy time is linear, so one of
    the two is at least as busy. *)
Lemma busy_at_candidate w iv (cand : list Q) a b t :
  0 <= w -> Forall (fun b => 0 <= b.2) iv ->
  a ∈ cand -> b ∈ cand -> a <= t <= b ->
  (forall i x, i ∈ iv -> x ∈ breakpoints w i -> x ∈ cand \/ x <= a \/ b <= x) ->
  exists c, c ∈ cand /\ busy w t iv <= busy w c iv.
Proof.
  intros Hw Hd Ha Hb Ht Hbp.
  destruct (nearest_below t cand a) as (l & Hl & Hlt & Hlmax); [done | lra |].
  destruct (nearest_above t cand b) as (r & Hr & Htr & Hrmin); [done | lra |].
  assert (a <= l) by (apply Hlmax; [done|lra]). assert (r <= b) by (apply Hrmin; [done|lra]).
  destruct (busy_affine w iv l r Hw Hd) as [k Hk].
  { apply list.Forall_forall. intros i Hi. apply list.Forall_forall. intros x Hx. unfold not_between.
    destruct (Hbp i x Hi Hx) as [Hc|[?|?]]; [|lra..].
    destruct (Qlt_le_dec t x); [right; apply Hrmin; [done|lra] | left; by apply Hlmax]. }
  assert (Hlr : l <= r) by lra. pose proof (Hk r ltac:(lra)) as Hkr. pose proof (Hk t ltac:(lra)) as Hkt.
  destruct (Qlt_le_dec k 0).
  - exists l. split; [done|]. rewrite Hkt. nra.
  - exists r. split; [done|]. rewrite Hkt, Hkr. nra.
Qed.

(** ** [max_busy] *)

Lemma candidates_bounds w s0 e0 iv c :
  c ∈ candidates w s0 e0 iv -> s0 - ABS_TOL <= c <= e0 + w + ABS_TOL.
Proof.
  unfold candidates. intros [H _]%list_elem_of_filter. bool_prop. q_prop. done.
Qed.

Lemma candidate_in w s0 e0 iv x :
  x ∈ [s0; e0; e0 + w] \/ (exists b, b ∈ iv /\ x ∈ breakpoints w b) ->
  s0 - ABS_TOL <= x <= e0 + w + ABS_TOL -> x ∈ candidates w s0 e0 iv.
Proof.
  intros Hx [H1 H2]. unfold candidates. apply list_elem_of_filter. split.
  { apply andb_true_iff. by rewrite !Qle_bool_iff. }
  rewrite !elem_of_app, !list_elem_of_fmap. unfold breakpoints in Hx. set_solver.
Qed.

Section MaxBusy.
Variables (m : meter) (start dur : Q) (exclude : option string).
Hypothesis Hw : 0 < window_s m.
Hypothesis Hdur : 0 <= dur.
Hypothesis Hnonneg : Forall (fun b => 0 <= b.2) (_intervals exclude m).

Let w := window_s m.
Let near := filter (fun b => Qltb (start - w) (ends b) && Qltb b.1 (start + dur + w) = true)
              (_intervals exclude m) ++ [(start, dur)].

Lemma max_busy_unfold :
  exists c cs, candidates w start (start + dur) near = c :: cs /\
    max_busy start dur exclude m = qmaximum (busy w c near) (map (fun c => busy w c near) cs).
Proof.
  assert (qmax 0 dur = dur) as Hq by (unfold qmax; by apply Qle_bool_iff in Hdur as ->).
  unfold max_busy. rewrite Hq. fold w near. cbv zeta.
  destruct (candidates w start (start + dur) near) as [|c cs] eqn:Hc; [|eauto].
  assert (start ∈ candidates w start (start + dur) near) as Hs.
  { apply candidate_in; [set_solver|]. fold w in Hw. unfold ABS_TOL. lra. }
  rewrite Hc in Hs. set_solver.
Qed.

Lemma near_busy t :
  start <= t <= start + dur + w ->
  busy w t near == busy w t (_intervals exclude m ++ [(start, dur)]).
Proof.
  intros Ht. unfold near. rewrite !busy_app, busy_filter_eq; [reflexivity|].
  intros b _ Hb. rewrite not_true_iff_false, andb_false_iff in Hb.
  apply overlap_outside. destruct Hb; q_prop; [left|right]; lra.
Qed.

Lemma near_busy_le t : busy w t near <= busy w t (_intervals exclude m ++ [(start, dur)]).
Proof. unfold near. rewrite !busy_app. pose proof busy_filter_le as H. apply Qplus_le_l, H. Qed.

(** No window that overlaps the burst is busier than [max_busy]. *)
Lemma max_busy_ge t :
  start <= t <= start + dur + w ->
  busy w t (_intervals exclude m ++ [(start, dur)]) <= max_busy start dur exclude m.
Proof.
  intros Ht. rewrite <- near_busy by done. fold w in Hw.
  destruct (busy_at_candidate w near (candidates w start (start + dur) near)
              start (start + dur + w) t) as (c & Hc & Hle); try done.
  - lra.
  - unfold near. apply list.Forall_app. split; [|by repeat constructor].
    rewrite list.Forall_forall in Hnonneg |- *. intros b [_ Hb]%list_elem_of_filter. auto.
  - apply candidate_in; [set_solver | unfold ABS_TOL; lra].
  - apply candidate_in; [set_solver | unfold ABS_TOL; lra].
  - intros i x Hi Hx. destruct (Qlt_le_dec x start); [right; left; lra|].
    destruct (Qlt_le_dec (start + dur + w) x); [right; right; lra|]. left.
    apply candidate_in; [eauto | unfold ABS_TOL; lra].
  - eapply Qle_trans; [exact Hle|]. destruct max_busy_unfold as (c' & cs & Hcs & ->).
    apply qmaximum_ge. rewrite Hcs in Hc. apply elem_of_cons in Hc as [->|Hc]; [set_solver|].
    apply elem_of_cons. right. apply list_elem_of_fmap. by exists c.
Qed.

(** Some window is as busy as [max_busy] says. *)
Lemma max_busy_attained :
  exists t, start - ABS_TOL <= t <= start + dur + w + ABS_TOL /\
    max_busy start dur exclude m <= busy w t (_intervals exclude m ++ [(start, dur)]).
Proof.
  destruct max_busy_unfold as (c & cs & Hc & ->).
  pose proof (qmaximum_in (busy w c near) (map (fun c => busy w c near) cs)) as Hin.
  change (busy w c near :: map (fun c => busy w c near) cs)
    with (map (fun c => busy w c near) (c :: cs)) in Hin.
  apply list_elem_of_fmap in Hin as (t & -> & Ht). rewrite <- Hc in Ht.
  exists t. split; [by eapply candidates_bounds | apply near_busy_le].
Qed.

End MaxBusy.

(** [C24] [max_busy] is the supremum over all sliding windows: no window that
    touches the candidate burst is busier with the recorded, reserved and
    candidate bursts than [max_busy] says, and some window (up to the tolerance
    of the range test) is that busy, although only finitely many are evaluated. *)
Theorem max_busy_exact m start dur exclude :
  0 < window_s m -> 0 <= dur -> Forall (fun b => 0 <= b.2) (_intervals exclude m) ->
  let all := _intervals exclude m ++ [(start, dur)] in
  (forall t, start <= t <= start + dur + window_s m ->
     busy (window_s m) t all <= max_busy start dur exclude m) /\
  (exists t, start - ABS_TOL <= t <= start + dur + window_s m + ABS_TOL /\
     max_busy start dur exclude m <= busy (window_s m) t all).
Proof.
  intros Hw Hd Hn all. split; [intros t Ht; by apply max_busy_ge | by apply max_busy_attained].
Qed.

(** ** Bursts admitted one by one *)

Lemma burst_insert_perm x l : burst_insert x l ≡ₚ x :: l.
Proof.
  induction l as [|y l IH]; cbn; [done|]. case_match; [done|]. rewrite IH. apply perm_swap.
Qed.

Lemma sorted_perm l : sorted l ≡ₚ l.
Proof.
  induction l as [|x l IH]; cbn; [done|]. rewrite burst_insert_perm. by rewrite <- IH at 2.
Qed.

Lemma busy_res_pop w t k l : busy w t (map snd (res_pop k l)) <= busy w t (map snd l).
Proof.
  induction l as [|[k' b] l IH]; cbn [res_pop map fst snd]; [apply Qle_refl|].
  pose proof (overlap_nonneg (t - w) t b). case_bool_decide; cbn [map snd]; rewrite ?busy_cons; lra.
Qed.

Lemma busy_res_pop_in w t k b l :
  (k, b) ∈ l -> busy w t (map snd (res_pop k l)) + overlap (t - w) t b <= busy w t (map snd l).
Proof.
  induction l as [|[k' b'] l IH]; cbn [res_pop map fst snd]; [set_solver|].
  intros [[= -> ->]|Hin]%elem_of_cons; rewrite busy_cons.
  - rewrite bool_decide_true by done. pose proof (busy_res_pop w t k' l). lra.
  - specialize (IH Hin). pose proof (overlap_nonneg (t - w) t b').
    case_bool_decide; cbn [map snd]; rewrite ?busy_cons; lra.
Qed.

Lemma busy_res_set w t k b l :
  busy w t (map snd (res_set k b l)) <= busy w t (map snd l) + overlap (t - w) t b.
Proof.
  induction l as [|[k' b'] l IH]; cbn [res_set map fst snd]; [unfold busy; cbn; lra|].
  rewrite busy_cons. pose proof (overlap_nonneg (t - w) t b').
  case_bool_decide; cbn [map snd]; rewrite busy_cons; lra.
Qed.

Lemma res_pop_subset k (l : list (string * burst)) : res_pop k l ⊆ l.
Proof. induction l as [|kv l IH]; cbn; [done|]. case_bool_decide; set_solver. Qed.

Lemma res_set_in k b (l : list (string * burst)) kv : kv ∈ res_set k b l -> kv = (k, b) \/ kv ∈ l.
Proof. induction l as [|kv' l IH]; cbn; [set_solver|]. case_bool_decide; set_solver. Qed.

(** The meter as the controller uses it: a permit reserves its burst after
    [would_exceed] said no; a consumed permit is recorded, at its reserved
    start when it is timed, else at a start not before the clock, checked with
    its own reservation left out.  [sent] are all bursts ever recorded. *)
Inductive admitted (w d : Q) : meter -> list burst -> Q -> Prop :=
  | adm_init m now : init w d = Ok m -> admitted w d m [] now
  | adm_time m sent now now' : admitted w d m sent now -> now <= now' -> admitted w d m sent now'
  | adm_reserve m sent now key start dur :
      admitted w d m sent now -> now <= start -> 0 <= dur ->
      would_exceed dur start None m = false ->
      admitted w d (reserve key start dur m) sent now
  | adm_release m sent now key : admitted w d m sent now -> admitted w d (release key m) sent now
  | adm_release_all m sent now : admitted w d m sent now -> admitted w d (release_all m) sent now
  | adm_timed m sent now key start dur clk :
      admitted w d m sent now -> (key, (start, dur)) ∈ reservations m -> now <= clk ->
      admitted w d (record start dur (Some key) (Some clk) m) (sent ++ [(start, dur)]) clk
  | adm_untimed m sent now key start dur clk :
      admitted w d m sent now -> now <= start -> 0 <= dur ->
      would_exceed dur start (Some key) m = false -> now <= clk ->
      admitted w d (record start dur (Some key) (Some clk) m) (sent ++ [(start, dur)]) clk.

(** [old] are the bursts pruned so far. *)
Record duty_inv (w d : Q) (m : meter) (sent : list burst) (now : Q) (old : list burst) : Prop := {
  di_window : window_s m = w;
  di_duty : duty_max m = d;
  di_pos : 0 < w /\ 0 < d;
  di_sent : sent ≡ₚ bursts m ++ old;
  di_old : Forall (fun b => ends b <= now - w) old;
  di_nonneg : Forall (fun b => 0 <= b.2) (bursts m ++ map snd (reservations m));
  di_bound : forall t, busy w t (sent ++ map snd (reservations m)) <= limit m }.

Definition kept (exclude : option string) (m : meter) : list (string * burst) :=
  match exclude with Some k => res_pop k (reservations m) | None => reservations m end.

Lemma intervals_kept exclude m : _intervals exclude m = bursts m ++ map snd (kept exclude m).
Proof. by destruct exclude. Qed.

Lemma busy_kept w t exclude m :
  busy w t (map snd (kept exclude m)) <= busy w t (map snd (reservations m)).
Proof. destruct exclude; [apply busy_res_pop | apply Qle_refl]. Qed.

Lemma busy_zero w t l : Forall (fun b => ends b <= t - w) l -> busy w t l == 0.
Proof.
  induction 1 as [|b l Hb _ IH]; [reflexivity|]. rewrite busy_cons, IH, overlap_outside by auto. lra.
Qed.

Section Admit.
Variables (w d : Q) (m : meter) (sent : list burst) (now : Q) (old : list burst).
Hypothesis Hinv : duty_inv w d m sent now old.

Lemma di_busy_split t l :
  busy w t (sent ++ l) == busy w t old + busy w t (bursts m) + busy w t l.
Proof. rewrite busy_app, (busy_perm _ _ _ _ (di_sent _ _ _ _ _ _ Hinv)), busy_app. lra. Qed.

Lemma kept_nonneg exclude : Forall (fun b => 0 <= b.2) (_intervals exclude m).
Proof.
  pose proof (di_nonneg _ _ _ _ _ _ Hinv) as H. rewrite intervals_kept.
  rewrite list.Forall_app in *. destruct H as [H1 H2]. split; [done|].
  destruct exclude as [k|]; [|done]. rewrite list.Forall_forall in *.
  intros b ([k' b'] & -> & Hin)%list_elem_of_fmap. apply H2.
  apply list_elem_of_fmap. exists (k', b'). split; [done|]. by apply res_pop_subset in Hin.
Qed.

(** A burst the meter admits overloads no window, pruned bursts included. *)
Lemma admit_bound exclude start dur t :
  now <= start -> 0 <= dur -> would_exceed dur start exclude m = false ->
  busy w t (sent ++ map snd (kept exclude m) ++ [(start, dur)]) <= limit m.
Proof.
  intros Hs Hd Hx. unfold would_exceed in Hx. q_prop.
  pose proof (di_bound _ _ _ _ _ _ Hinv t) as Hb.
  rewrite !di_busy_split in *. rewrite busy_app.
  pose proof (busy_kept w t exclude m) as Hk.
  destruct (Qlt_le_dec t start) as [Ht|Ht]; [|destruct (Qlt_le_dec (start + dur + w) t) as [Ht'|Ht']].
  - assert (overlap (t - w) t (start, dur) == 0) as Ho by (apply overlap_outside; right; cbn; lra).
    rewrite busy_single, Ho. lra.
  - assert (overlap (t - w) t (start, dur) == 0) as Ho.
    { apply overlap_outside; left; unfold ends; cbn; lra. }
    rewrite busy_single, Ho. lra.
  - pose proof (max_busy_ge m start dur exclude) as Hm.
    rewrite (di_window _ _ _ _ _ _ Hinv) in Hm.
    specialize (Hm (proj1 (di_pos _ _ _ _ _ _ Hinv)) Hd (kept_nonneg exclude) t ltac:(lra)).
    rewrite intervals_kept, !busy_app in Hm.
    rewrite (busy_zero w t old); [lra|].
    eapply list.Forall_impl; [apply (di_old _ _ _ _ _ _ Hinv)|]. intros b Hb'. cbn in *. lra.
Qed.

End Admit.

Lemma limit_pos w d m : window_s m = w -> duty_max m = d -> 0 < w -> 0 < d -> 0 <= limit m.
Proof.
  intros <- <- Hw Hd. unfold limit, _REL_TOL, ABS_TOL.
  pose proof (Qmult_lt_0_compat _ _ Hd Hw). nra.
Qed.

Lemma meter_inv_init w d m now : init w d = Ok m -> duty_inv w d m [] now [].
Proof.
  unfold init. destruct (Qltb 0 w && _) eqn:E; [|done]. intros [= <-]%Ok_inj. bool_prop. q_prop.
  split; cbn; try done.
  intros t. unfold busy. cbn. by eapply limit_pos.
Qed.

(** Recording a burst: what is pruned ended a window before the clock. *)
Lemma inv_record w d m sent now old key start dur clk :
  duty_inv w d m sent now old -> 0 <= dur -> now <= clk ->
  (forall t, busy w t (sent ++ map snd (kept (Some key) m) ++ [(start, dur)]) <= limit m) ->
  exists old', duty_inv w d (record start dur (Some key) (Some clk) m) (sent ++ [(start, dur)]) clk old'.
Proof.
  intros Hi Hd Hclk Hb. pose proof (kept_nonneg w d m sent now old Hi (Some key)) as Hn.
  destruct Hi as [Hw Hdm Hp Hs Ho Hnn Hbd]. rewrite intervals_kept in Hn.
  unfold record, _prune. cbn [default window_s duty_max bursts reservations].
  set (hz := qmin start (default start (Some clk)) - window_s m).
  set (P := fun b => Qle_bool hz (ends b) = true).
  set (l := bursts m ++ [(start, dur)]).
  exists (filter (fun b => ~ P b) (sorted l) ++ old). split; cbn; try done.
  - assert (Hl : filter P (sorted l) ++ filter (fun b => ~ P b) (sorted l) ≡ₚ l).
    { rewrite filter_app_complement. apply sorted_perm. }
    rewrite app_assoc. transitivity (l ++ old); [unfold l; rewrite Hs; solve_Permutation|].
    apply Permutation_app_tail. by symmetry.
  - apply list.Forall_app. split.
    + apply list.Forall_forall. intros b [Hb' _]%list_elem_of_filter.
      unfold P in Hb'. apply not_true_iff_false in Hb'. q_prop. unfold hz in Hb'. cbn in Hb'.
      rewrite Hw in Hb'. revert Hb'. q_cases; lra.
    + eapply list.Forall_impl; [exact Ho|]. cbn. intros; lra.
  - rewrite list.Forall_app in *. split; [|apply Hn].
    apply list.Forall_forall. intros b [_ Hin]%list_elem_of_filter.
    rewrite sorted_perm in Hin. unfold l in Hin.
    apply elem_of_app in Hin as [Hin|Hin]; [|apply list_elem_of_singleton in Hin as ->; done].
    by apply (proj1 (list.Forall_forall _ _) (proj1 Hn)).
  - intros t. rewrite <- app_assoc. eapply Qle_trans; [|apply (Hb t)].
    rewrite !busy_app. change (kept (Some key) m) with (res_pop key (reservations m)). lra.
Qed.

Lemma admitted_inv w d m sent now :
  admitted w d m sent now -> exists old, duty_inv w d m sent now old.
Proof.
  induction 1 as [m now Hi | m sent now now' _ [old IH] Ht | m sent now key start dur _ [old IH] Hs Hd Hx
    | m sent now key _ [old IH] | m sent now _ [old IH] | m sent now key start dur clk _ [old IH] Hin Hc
    | m sent now key start dur clk _ [old IH] Hs Hd Hx Hc].
  - exists []. by apply meter_inv_init.
  - exists old. destruct IH as [Hw Hdm Hp Hse Ho Hnn Hbd]. split; try done.
    eapply list.Forall_impl; [exact Ho|]. cbn. intros; lra.
  - exists old. pose proof (admit_bound _ _ _ _ _ _ IH None start dur) as Hb.
    destruct IH as [Hw Hdm Hp Hse Ho Hnn Hbd]. split; cbn; try done.
    + rewrite list.Forall_app in *. split; [apply Hnn|]. apply list.Forall_forall.
      intros b ([k b'] & -> & [[= -> ->]|Hk]%res_set_in)%list_elem_of_fmap; [done|].
      apply (proj1 (list.Forall_forall _ _) (proj2 Hnn)). apply list_elem_of_fmap. by eexists.
    + intros t. specialize (Hb t Hs Hd Hx). rewrite !busy_app in *. cbn [kept] in Hb.
      pose proof (busy_res_set w t key (start, dur) (reservations m)).
      rewrite busy_single in Hb.
      change (limit (reserve key start dur m)) with (limit m). cbn [reserve reservations]. lra.
  - exists old. destruct IH as [Hw Hdm Hp Hse Ho Hnn Hbd]. split; cbn; try done.
    + rewrite list.Forall_app in *. split; [apply Hnn|]. apply list.Forall_forall.
      intros b ([k b'] & -> & Hk%res_pop_subset)%list_elem_of_fmap.
      apply (proj1 (list.Forall_forall _ _) (proj2 Hnn)). apply list_elem_of_fmap. by eexists.
    + intros t. specialize (Hbd t). rewrite !busy_app in *.
      pose proof (busy_res_pop w t key (reservations m)).
      change (limit (release key m)) with (limit m). cbn [release reservations]. lra.
  - exists old. destruct IH as [Hw Hdm Hp Hse Ho Hnn Hbd]. split; cbn; try done.
    + rewrite list.Forall_app in *. split; [apply Hnn | constructor].
    + intros t. specialize (Hbd t). rewrite !busy_app in *.
      pose proof (busy_nonneg w t (map snd (reservations m))). 
      change (limit (release_all m)) with (limit m). change (busy w t []) with 0. lra.
  - apply (inv_record w d m sent now old); try done.
    + pose proof (di_nonneg _ _ _ _ _ _ IH) as [_ Hr]%list.Forall_app.
      apply (proj1 (list.Forall_forall _ _) Hr (start, dur)). apply list_elem_of_fmap. by exists (key, (start, dur)).
    + intros t. pose proof (di_bound _ _ _ _ _ _ IH t) as Hb. rewrite !busy_app in *. cbn [kept].
      pose proof (busy_res_pop_in w t key (start, dur) _ Hin).
      rewrite busy_single. lra.
  - apply (inv_record w d m sent now old); try done.
    intros t. by apply (admit_bound _ _ _ _ _ _ IH).
Qed.

(** When every burst was admitted by [would_exceed] (reserved when its permit was
    issued, then recorded at its reserved start or re-checked at the time it is
    sent), no sliding window of [window_s] seconds, at any time, ever holds more
    than [duty_max * window_s] seconds of sent bursts (up to the meter's
    tolerance), although the meter forgets bursts that ended a window ago. *)
Lemma admitted_bound w d m sent now t :
  admitted w d m sent now ->
  busy w t sent <= d * w * (1 + _REL_TOL) + ABS_TOL.
Proof.
  intros [old H]%admitted_inv. pose proof (di_bound _ _ _ _ _ _ H t) as Hb.
  rewrite busy_app in Hb. pose proof (busy_nonneg w t (map snd (reservations m))).
  unfold limit in Hb. rewrite (di_window _ _ _ _ _ _ H), (di_duty _ _ _ _ _ _ H) in Hb. lra.
Qed.

(** A meter of 10 % over 10 s with one burst sent. *)
Definition sample : meter := Meter 10 (1 # 10) [(0, 1 # 2)] [].

Lemma max_busy_exact_witness :
  would_exceed (1 # 2) 8 None sample = false /\ would_exceed (3 # 4) 8 None sample = true /\
  busy 10 9 (_intervals None sample ++ [(8, 1 # 2)]) <= max_busy 8 (1 # 2) None sample.
Proof.
  split; [vm_compute; reflexivity|]. split; [vm_compute; reflexivity|].
  apply (max_busy_exact sample 8 (1 # 2) None).
  - reflexivity.
  - discriminate.
  - constructor; [discriminate | constructor].
  - split; discriminate.
Defined.

End Duty.
