(* ===== verification/RfControl.v ===== *)
(** * Front-end lines and their sequencing ([_active/active_rf_control.py])

    PA enable, T/R switch, LNA bias, calibration switch and noise source are
    output lines written through the backend; a write may fail, with or without
    having changed the line.  The model keeps the commanded state the class
    keeps and, beside it, the level of every line, so that the theorems speak
    of what the hardware does: no switch moves under power.  ATR configuration
    (hardware sequencing), the state files of the safety inputs and event
    logging are not modelled. *)
From S2P Require Import Prelude StateErr.

Module Rf.

(** ** Lines *)
Inductive kind := KNone | KGpio | KSim | KFile.

Record LineSpec := Line {
  lkind : kind;
  device : string;
  bank : string;
  mask : Z;
  active_high : bool;
  path : string;
  name : string }.

#[export] Instance kind_eq_dec : EqDecision kind.
Proof. solve_decision. Defined.

#[export] Instance line_eq_dec : EqDecision LineSpec.
Proof. solve_decision. Defined.

Definition configured (l : LineSpec) : bool := negb (bool_decide (lkind l = KNone)).

Record cfg := Cfg {
  n_tx : nat;
  pa_lines : list LineSpec;
  tr_line : LineSpec;
  lna_line : LineSpec;
  cal_injection_line : LineSpec;
  cal_loopback_line : LineSpec;
  noise_line : LineSpec;
  has_backend : bool;
  has_safety : bool;
  mute_rx_during_tx : bool;
  lna_off_during_tx : bool;
  rx_gain_min : nat -> list Q }.

Inductive cal_mode := Antenna | Injection | Loopback.

(** One line command; [hot]: some PA line was at its on level. *)
Inductive what :=
  | PaOn (cs : list nat) | PaOff (cs : list nat) | TrTo (tx : bool) | LnaTo (on : bool)
  | CalInjection (on : bool) | CalLoopback (on : bool) | NoiseTo (on : bool)
  | ForcePaOff | ForceTrRx.

Record cmd := Cmd { c_what : what; c_value : bool; hot : bool }.

Inductive rf_exc := HardwareFault | InterlockTrip | SafetyRefusal | RfValueError.

(** A backend write succeeds, or raises having changed the line or not. *)
Inductive io_result := IoOk | IoFail (applied : bool).

Record t := mk {
  pa : list bool;
  tr : bool;                        (* true = tx *)
  lna : bool;
  cal : cal_mode;
  noise : bool;
  atr : bool;
  saved_rx_gain : option (list Q);
  lna_before_tx : option bool;
  history : list cmd;
  level : LineSpec -> bool;         (* the lines themselves *)
  rx_gain : list Q;                 (* the receiver gains *)
  nio : nat }.                      (* backend calls made *)

Definition set_pa x s := mk x (tr s) (lna s) (cal s) (noise s) (atr s) (saved_rx_gain s) (lna_before_tx s) (history s) (level s) (rx_gain s) (nio s).
Definition set_tr x s := mk (pa s) x (lna s) (cal s) (noise s) (atr s) (saved_rx_gain s) (lna_before_tx s) (history s) (level s) (rx_gain s) (nio s).
Definition set_lna x s := mk (pa s) (tr s) x (cal s) (noise s) (atr s) (saved_rx_gain s) (lna_before_tx s) (history s) (level s) (rx_gain s) (nio s).
Definition set_cal x s := mk (pa s) (tr s) (lna s) x (noise s) (atr s) (saved_rx_gain s) (lna_before_tx s) (history s) (level s) (rx_gain s) (nio s).
Definition set_noise x s := mk (pa s) (tr s) (lna s) (cal s) x (atr s) (saved_rx_gain s) (lna_before_tx s) (history s) (level s) (rx_gain s) (nio s).
Definition set_atr x s := mk (pa s) (tr s) (lna s) (cal s) (noise s) x (saved_rx_gain s) (lna_before_tx s) (history s) (level s) (rx_gain s) (nio s).
Definition set_saved x s := mk (pa s) (tr s) (lna s) (cal s) (noise s) (atr s) x (lna_before_tx s) (history s) (level s) (rx_gain s) (nio s).
Definition set_lna_before x s := mk (pa s) (tr s) (lna s) (cal s) (noise s) (atr s) (saved_rx_gain s) x (history s) (level s) (rx_gain s) (nio s).
Definition set_history x s := mk (pa s) (tr s) (lna s) (cal s) (noise s) (atr s) (saved_rx_gain s) (lna_before_tx s) x (level s) (rx_gain s) (nio s).
Definition set_level x s := mk (pa s) (tr s) (lna s) (cal s) (noise s) (atr s) (saved_rx_gain s) (lna_before_tx s) (history s) x (rx_gain s) (nio s).
Definition set_rx_gain_db x s := mk (pa s) (tr s) (lna s) (cal s) (noise s) (atr s) (saved_rx_gain s) (lna_before_tx s) (history s) (level s) x (nio s).
Definition set_nio x s := mk (pa s) (tr s) (lna s) (cal s) (noise s) (atr s) (saved_rx_gain s) (lna_before_tx s) (history s) (level s) (rx_gain s) x.

Abbreviation M := (SE t rf_exc).

Section Control.
Variable cf : cfg.
Variable io : nat -> io_result.

Definition init (gains : list Q) : t :=
  mk (replicate (n_tx cf) false) false true Antenna false false None None [] (fun _ => false) gains 0.

Definition pa_any_on (s : t) : bool := existsb id (pa s).

(** Some PA line is at its on level. *)
Definition pa_hot (s : t) : bool :=
  existsb (fun l => configured l && level s l) (pa_lines cf).

Definition next_io : M io_result :=
  s ← get; modify (set_nio (S (nio s)));; mret (io (nio s)).

Definition set_line (l : LineSpec) (v : bool) (s : t) : t :=
  set_level (fun l' => if bool_decide (l' = l) then v else level s l') s.

Definition _write (l : LineSpec) (v : bool) (w : what) : M unit :=
  modify (fun s => set_history (history s ++ [Cmd w v (pa_hot s)]) s);;
  if negb (configured l) then mret tt
  else if negb (has_backend cf) then throw HardwareFault
  else
    r ← next_io;
    match r with
    | IoOk => modify (set_line l v)
    | IoFail applied => when applied (modify (set_line l v));; throw HardwareFault
    end.

(** [time.sleep], which a signal handler can leave by an exception. *)
Definition _sleep : M unit :=
  r ← next_io; match r with IoOk => mret tt | IoFail _ => throw HardwareFault end.

Definition pa_line (c : nat) : LineSpec := nth c (pa_lines cf) (Line KNone "" "" 0 true "" "").

(** [sorted(set(out))] of the chains; [None] is every chain. *)
Definition _resolve_chans (chans : option (list Z)) : M (list nat) :=
  match chans with
  | None => mret (seq 0 (n_tx cf))
  | Some cs =>
      if forallb (fun c => (0 <=? c) && (c <? Z.of_nat (n_tx cf))) cs
      then mret (filter (fun c => Z.of_nat c ∈ cs) (seq 0 (n_tx cf)))
      else throw RfValueError
  end.

(** What the safety controller answers about a permit. *)
Record grant := Grant {
  permit_given : bool;
  permit_active : bool;
  permit_chains : option (list Z);
  hold_active : bool }.

Definition _authorized (chans : list nat) (g : grant) : bool :=
  if negb (has_safety cf) then false
  else if permit_given g && permit_active g then
    match permit_chains g with
    | Some pc => forallb (fun c => bool_decide (Z.of_nat c ∈ pc)) chans
    | None => true
    end
  else negb (permit_given g) && hold_active g.

(** [d.setdefault(line, []).append(c)] for each chain *)
Fixpoint group_add (l : LineSpec) (c : nat) (g : list (LineSpec * list nat)) : list (LineSpec * list nat) :=
  match g with
  | [] => [(l, [c])]
  | (l', cs) :: g => if bool_decide (l' = l) then (l', cs ++ [c]) :: g else (l', cs) :: group_add l c g
  end.

Definition by_line (cs : list nat) : list (LineSpec * list nat) :=
  foldl (fun g c => group_add (pa_line c) c g) [] cs.

Definition mark (v : bool) (cs : list nat) (p : list bool) : list bool :=
  foldl (fun p c => <[c := v]> p) p cs.

Definition mark_pa (v : bool) (cs : list nat) (s : t) : t := set_pa (mark v cs (pa s)) s.

(** Every PA line off, then T/R rx when none may still be on.  Lines are
    attempted one by one; the result is whether all went off. *)
Fixpoint force_lines (ls : list LineSpec) : M bool :=
  match ls with
  | [] => mret true
  | l :: ls =>
      ok ← attempt (_write l false ForcePaOff);
      rest ← force_lines ls;
      mret (ok && rest)
  end.

Definition force_safe : M unit :=
  ok ← force_lines (remove_dups (pa_lines cf));
  modify (fun s => set_pa (replicate (n_tx cf) (negb ok)) s);;
  modify (set_atr false);;
  if (ok : bool) then
    moved ← attempt (_write (tr_line cf) false ForceTrRx);
    when moved (modify (set_tr false))
  else mret tt.

(** ** The lines *)
Definition tr_switch (tx : bool) : M unit :=
  s ← get;
  if pa_any_on s then throw SafetyRefusal
  else
    _write (tr_line cf) tx (TrTo tx);;
    modify (set_tr tx).

Definition lna_bias (on : bool) : M unit :=
  s ← get;
  if on && pa_any_on s && lna_off_during_tx cf then throw SafetyRefusal
  else
    _write (lna_line cf) on (LnaTo on);;
    modify (set_lna on).

Definition cal_input (m : cal_mode) : M unit :=
  s ← get;
  if pa_any_on s then throw SafetyRefusal
  else
    _write (cal_injection_line cf) false (CalInjection false);;
    _write (cal_loopback_line cf) false (CalLoopback false);;
    modify (set_cal Antenna);;
    match m with
    | Injection => _write (cal_injection_line cf) true (CalInjection true)
    | Loopback => _write (cal_loopback_line cf) true (CalLoopback true)
    | Antenna => mret tt
    end;;
    modify (set_cal m).

Definition noise_source (on : bool) : M unit :=
  _write (noise_line cf) on (NoiseTo on);;
  modify (set_noise on).

(** [backend.set_rx_gain], which may raise. *)
Definition backend_rx_gain (g : list Q) : M unit :=
  r ← next_io;
  match r with
  | IoOk => modify (set_rx_gain_db g)
  | IoFail applied => when applied (modify (set_rx_gain_db g));; throw HardwareFault
  end.

Definition mute_rx : M unit :=
  if negb (has_backend cf) then mret tt
  else
    s ← get;
    let cur := rx_gain s in
    modify (fun s => set_saved (match saved_rx_gain s with Some g => Some g | None => Some cur end) s);;
    backend_rx_gain (rx_gain_min cf (length cur)).

Definition restore_rx_gain : M unit :=
  s ← get;
  match saved_rx_gain s with
  | None => mret tt
  | Some saved =>
      if negb (has_backend cf) then mret tt
      else backend_rx_gain saved;; modify (set_saved None)
  end.

Definition lna_restore_value (s : t) : bool :=
  match lna_before_tx s with Some v => v | None => lna s end.

Definition restore_lna : M unit :=
  s ← get;
  lna_bias (lna_restore_value s);;
  modify (set_lna_before None).

(** ** The PA *)

(** The off branch: a shared line goes low only when no chain on it stays on. *)
Definition pa_off_line (target : list nat) (lc : LineSpec * list nat) : M bool :=
  let mine := filter (fun c => c ∈ target) lc.2 in
  match mine with
  | [] => mret true
  | _ =>
      s ← get;
      if existsb (fun c => bool_decide (c ∉ target) && default false (pa s !! c)) lc.2
      then modify (mark_pa false mine);; mret true
      else
        ok ← attempt (_write lc.1 false (PaOff mine));
        modify (mark_pa (negb ok) mine);;
        mret ok
  end.

Fixpoint pa_off_lines (target : list nat) (ls : list (LineSpec * list nat)) : M bool :=
  match ls with
  | [] => mret true
  | lc :: ls =>
      ok ← pa_off_line target lc;
      rest ← pa_off_lines target ls;
      mret (ok && rest)
  end.

Definition pa_off (chans : option (list Z)) : M unit :=
  target ← _resolve_chans chans;
  ok ← pa_off_lines target (by_line (seq 0 (n_tx cf)));
  s ← get;
  when (atr s) (modify (set_atr false));;
  if (ok : bool) then mret tt else throw HardwareFault.

(** The lines part of the safety controller's [safe_shutdown]: each step in its
    own [try]. *)
Definition shutdown_lines : M unit :=
  attempt (pa_off None);;
  attempt _sleep;;
  attempt (tr_switch false);;
  attempt _sleep;;
  attempt restore_lna;;
  attempt restore_rx_gain;;
  mret tt.

Definition refuse_on : M unit :=
  when (has_safety cf) shutdown_lines;; throw InterlockTrip.

Definition pa_on_lines (ls : list (LineSpec * list nat)) : M unit :=
  for_each ls (fun lc =>
    _write lc.1 true (PaOn lc.2);;
    modify (mark_pa true lc.2)).

Definition pa_on (chans : option (list Z)) (g : grant) : M unit :=
  cs ← _resolve_chans chans;
  if negb (_authorized cs g) then refuse_on
  else
    s ← get;
    if atr s then modify (mark_pa true cs)
    else catch (pa_on_lines (by_line cs)) (fun e => force_safe;; throw e).

Definition pa_enable (chans : option (list Z)) (on : bool) (g : grant) : M unit :=
  if on then pa_on chans g else pa_off chans.

(** ** Sequencing *)
Definition to_tx_body (chans : list nat) (g : grant) : M unit :=
  when (mute_rx_during_tx cf) mute_rx;;
  s ← get;
  if atr s then modify (mark_pa true chans)
  else
    modify (fun s => match lna_before_tx s with None => set_lna_before (Some (lna s)) s | Some _ => s end);;
    when (lna_off_during_tx cf) (lna_bias false);;
    _sleep;;
    tr_switch true;;
    _sleep;;
    pa_enable (Some (map Z.of_nat chans)) true g;;
    _sleep.

Definition sequence_to_tx (g : grant) : M unit :=
  chans ← _resolve_chans (permit_chains g);
  if negb (_authorized chans g) then refuse_on
  else catch (to_tx_body chans g) (fun e => force_safe;; throw e).

Definition sequence_to_rx : M unit :=
  s ← get;
  if atr s then
    modify (set_pa (replicate (n_tx cf) false));;
    attempt restore_rx_gain;; mret tt
  else
    pa_ok ← attempt (pa_off None);
    attempt _sleep;;
    s ← get;
    (if pa_ok && negb (pa_any_on s) then
       attempt (tr_switch false);;
       attempt _sleep;;
       s ← get;
       restored ← attempt (lna_bias (lna_restore_value s));
       when restored (modify (set_lna_before None))
     else mret tt);;
    attempt restore_rx_gain;;
    mret tt.

(** ** The operations *)
Inductive op :=
  | OTr (tx : bool) | OLna (on : bool) | OCal (m : cal_mode) | ONoise (on : bool)
  | OMute | ORestoreGain | ORestoreLna
  | OPa (chans : option (list Z)) (on : bool) (g : grant)
  | OToTx (g : grant) | OToRx | OForce | OShutdown.

Definition exec (o : op) : M unit :=
  match o with
  | OTr tx => tr_switch tx
  | OLna on => lna_bias on
  | OCal m => cal_input m
  | ONoise on => noise_source on
  | OMute => mute_rx
  | ORestoreGain => restore_rx_gain
  | ORestoreLna => restore_lna
  | OPa chans on g => pa_enable chans on g
  | OToTx g => sequence_to_tx g
  | OToRx => sequence_to_rx
  | OForce => force_safe
  | OShutdown => shutdown_lines
  end.

Fixpoint runs (ops : list op) (s : t) : t :=
  match ops with
  | [] => s
  | o :: ops => runs ops (exec o s).1
  end.

(** ** Switches move cold *)

(** A command that would move a switch, or bias a protected LNA, under power. *)
Definition cool (c : cmd) : Prop :=
  hot c = true ->
  match c_what c with
  | TrTo _ | CalInjection _ | CalLoopback _ | ForceTrRx => False
  | LnaTo true => lna_off_during_tx cf = false
  | _ => True
  end.

Definition base (s : t) : Prop := length (pa s) = n_tx cf /\ Forall cool (history s).

(** A PA line at its on level is marked on for a chain that uses it. *)
Definition backed (s : t) : Prop :=
  forall c, (c < n_tx cf)%nat -> configured (pa_line c) = true -> level s (pa_line c) = true ->
  exists c', (c' < n_tx cf)%nat /\ pa_line c' = pa_line c /\ pa s !! c' = Some true.

Definition inv (s : t) : Prop := base s /\ atr s = false /\ backed s.

(** One line per chain, and no other output on a PA line. *)
Record lines_ok : Prop := {
  ok_length : length (pa_lines cf) = n_tx cf;
  ok_other : forall l, l ∈ [tr_line cf; lna_line cf; cal_injection_line cf; cal_loopback_line cf; noise_line cf] ->
    configured l = true -> l ∉ pa_lines cf }.

Hypothesis Hlines : lines_ok.

Lemma pa_line_in c : (c < n_tx cf)%nat -> pa_line c ∈ pa_lines cf.
Proof. intros Hc. apply list_elem_of_In, nth_In. by rewrite (ok_length Hlines). Qed.

Lemma in_pa_line l : l ∈ pa_lines cf -> exists c, (c < n_tx cf)%nat /\ l = pa_line c.
Proof.
  intros (c & Hc & <-)%list_elem_of_In%(In_nth _ _ (Line KNone "" "" 0 true "" "")).
  exists c. by rewrite <- (ok_length Hlines).
Qed.

Lemma pa_hot_true s :
  pa_hot s = true <-> exists c, (c < n_tx cf)%nat /\ configured (pa_line c) = true /\ level s (pa_line c) = true.
Proof.
  unfold pa_hot. rewrite existsb_exists. split.
  - intros (l & (c & Hc & ->)%list_elem_of_In%in_pa_line & ?). bool_prop. eauto.
  - intros (c & Hc & H1 & H2). exists (pa_line c). rewrite H1, H2.
    split; [by apply list_elem_of_In, pa_line_in | done].
Qed.

Lemma pa_any_on_true s : pa_any_on s = true <-> exists c, pa s !! c = Some true.
Proof.
  unfold pa_any_on. rewrite existsb_exists. split.
  - intros ([] & (c & Hc)%list_elem_of_In%list_elem_of_lookup & ?); [eauto | done].
  - intros (c & Hc). exists true. split; [|done]. apply list_elem_of_In, list_elem_of_lookup. eauto.
Qed.

(** No chain marked on: no PA line is on. *)
Lemma inv_cold s : inv s -> pa_any_on s = false -> pa_hot s = false.
Proof.
  intros (_ & _ & Hb) Hp. apply not_true_iff_false. intros (c & Hc & H1 & H2)%pa_hot_true.
  destruct (Hb c Hc H1 H2) as (c' & _ & _ & Hc').
  assert (pa_any_on s = true) by (apply pa_any_on_true; eauto). congruence.
Qed.

Definition wrote (l : LineSpec) (v : bool) (w : what) (s s' : t) : Prop :=
  pa s' = pa s /\ tr s' = tr s /\ lna s' = lna s /\ atr s' = atr s /\
  saved_rx_gain s' = saved_rx_gain s /\ lna_before_tx s' = lna_before_tx s /\ rx_gain s' = rx_gain s /\
  history s' = history s ++ [Cmd w v (pa_hot s)] /\
  (forall l', l' <> l -> level s' l' = level s l') /\
  (level s' l = level s l \/ level s' l = v) /\
  (configured l = false -> level s' l = level s l).

Lemma write_spec l v w s s' r :
  _write l v w s = (s', r) ->
  wrote l v w s s' /\ (r = inl tt -> configured l = true -> level s' l = v).
Proof.
  unfold _write, next_io, wrote. se_unfold. destruct (configured l) eqn:Ec; cbn.
  2:{ intros [= <- <-]. cbn. naive_solver. }
  destruct (has_backend cf); cbn.
  2:{ intros [= <- <-]. cbn. naive_solver. }
  assert (Hset : forall l', l' <> l -> (if bool_decide (l' = l) then v else level s l') = level s l').
  { intros l' Hne. by rewrite bool_decide_false. }
  destruct (io (nio s)) as [|[]]; cbn; intros [=]; subst; cbn; split_and!; try done;
    rewrite ?bool_decide_true by done; auto.
Qed.

Definition invT {A} (m : M A) : Prop := triple inv m (fun _ => inv) (fun _ => inv).

Definition keep (p : list bool) {A} (m : M A) : Prop :=
  triple (fun s => inv s /\ pa s = p) m (fun _ s => inv s /\ pa s = p) (fun _ s => inv s /\ pa s = p).

Lemma write_base l v w s s' r :
  _write l v w s = (s', r) -> base s -> cool (Cmd w v (pa_hot s)) -> base s'.
Proof.
  intros [(Hp & _ & _ & _ & _ & _ & _ & Hh & _) _]%write_spec [Hl Hc] Hw.
  split; [congruence|]. rewrite Hh, list.Forall_app. by repeat constructor.
Qed.

Lemma write_keeps l v w p :
  (configured l = true -> l ∉ pa_lines cf) ->
  (forall s, inv s -> pa s = p -> cool (Cmd w v (pa_hot s))) -> keep p (_write l v w).
Proof.
  intros Hl Hw s [Hi Hp]. destruct (_write l v w s) as [s' r] eqn:E.
  assert (inv s' /\ pa s' = p) as H; [|by destruct r].
  destruct (write_spec _ _ _ _ _ _ E) as [(Hp' & _ & _ & Ha & _ & _ & _ & _ & Hne & _ & Hnc) _].
  pose proof (write_base _ _ _ _ _ _ E (proj1 Hi) (Hw s Hi Hp)) as Hb.
  destruct Hi as (_ & Hatr & Hbk). split; [|congruence]. split; [done|]. split; [congruence|].
  intros c Hc H1 H2. rewrite Hp'. apply Hbk; [done..|]. rewrite <- H2. symmetry.
  destruct (decide (pa_line c = l)) as [Heq|]; [|by apply Hne].
  rewrite Heq in *. exfalso. apply (Hl H1). rewrite <- Heq. by apply pa_line_in.
Qed.

(** Commands of the other lines keep the invariant; a switch needs no chain on. *)
Lemma write_cold l v w p :
  l ∈ [tr_line cf; lna_line cf; cal_injection_line cf; cal_loopback_line cf; noise_line cf] ->
  existsb id p = false -> keep p (_write l v w).
Proof.
  intros Hl Hp. apply write_keeps; [by apply ok_other|]. intros s Hi <- Hh. cbn in Hh.
  by rewrite (inv_cold s Hi Hp) in Hh.
Qed.

Lemma keep_inv {A} (m : M A) : (forall p, keep p m) -> invT m.
Proof.
  intros H s Hs. specialize (H (pa s) s (conj Hs eq_refl)). destruct (m s) as [s' [a|e]]; tauto.
Qed.

Lemma keep_bind {A B} p (m : M A) (f : A -> M B) : keep p m -> (forall a, keep p (f a)) -> keep p (m ≫= f).
Proof. intros Hm Hf. eapply triple_bind; [exact Hm | exact Hf]. Qed.

Lemma keep_ret {A} p (a : A) : keep p (mret a).
Proof. by apply triple_ret. Qed.

Lemma keep_throw {A} p e : keep p (throw (A := A) e).
Proof. by apply triple_throw. Qed.

(** Changes outside the chains, the lines and the history. *)
Definition quiet (f : t -> t) : Prop :=
  forall s, pa (f s) = pa s /\ atr (f s) = atr s /\ history (f s) = history s /\ level (f s) = level s.

Lemma inv_quiet f s : quiet f -> inv s -> inv (f s).
Proof.
  intros Hf. destruct (Hf s) as (Hp & Ha & Hh & Hl). unfold inv, base, backed. by rewrite Hp, Ha, Hh, Hl.
Qed.

Lemma keep_quiet p f : quiet f -> keep p (modify f).
Proof.
  intros Hf. apply triple_modify. intros s [Hi Hp]. split; [by apply inv_quiet|]. by rewrite (proj1 (Hf s)).
Qed.

Lemma keep_attempt p m : keep p m -> keep p (attempt m).
Proof.
  intros H s Hs. specialize (H s Hs). unfold attempt. by destruct (m s) as [s' [a|e]].
Qed.

Lemma keep_next_io p : keep p next_io.
Proof. unfold next_io. intros s Hs. se_unfold. by destruct s. Qed.

Lemma keep_sleep p : keep p _sleep.
Proof.
  apply keep_bind; [apply keep_next_io|]. intros [|]; [apply keep_ret | apply keep_throw].
Qed.


Lemma keep_get {A} p (f : t -> M A) :
  (forall s, inv s -> pa s = p -> keep p (f s)) -> keep p (get ≫= f).
Proof. intros H s [Hi Hp]. by apply (H s Hi Hp s). Qed.

Ltac quiet_done := intros []; split_and!; reflexivity || (repeat case_goal; reflexivity).

Lemma keep_tr p tx : keep p (tr_switch tx).
Proof.
  apply keep_get. intros s _ Hp. destruct (pa_any_on s) eqn:Eon; [apply keep_throw|].
  unfold pa_any_on in Eon. rewrite Hp in Eon.
  apply keep_bind; [apply write_cold; [set_solver | done] | intros _; apply keep_quiet; quiet_done].
Qed.

Lemma keep_lna p on : keep p (lna_bias on).
Proof.
  apply keep_get. intros s _ Hp. destruct (on && pa_any_on s && lna_off_during_tx cf) eqn:Eon; [apply keep_throw|].
  apply keep_bind; [|intros _; apply keep_quiet; quiet_done].
  apply write_keeps; [apply ok_other; [done | set_solver]|]. intros s' Hi Hp' Hh. cbn in *.
  destruct on; [|done]. destruct (pa_any_on s) eqn:Ep; [by destruct (lna_off_during_tx cf)|].
  unfold pa_any_on in Ep. rewrite (inv_cold s' Hi) in Hh; [done|]. unfold pa_any_on. congruence.
Qed.

Lemma keep_cal p m : keep p (cal_input m).
Proof.
  apply keep_get. intros s _ Hp. destruct (pa_any_on s) eqn:Eon; [apply keep_throw|].
  unfold pa_any_on in Eon. rewrite Hp in Eon.
  apply keep_bind; [apply write_cold; [set_solver | done] | intros _].
  apply keep_bind; [apply write_cold; [set_solver | done] | intros _].
  apply keep_bind; [apply keep_quiet; quiet_done | intros _].
  apply keep_bind; [|intros _; apply keep_quiet; quiet_done].
  destruct m; [apply keep_ret | apply write_cold; [set_solver | done]..].
Qed.

Lemma keep_noise p on : keep p (noise_source on).
Proof.
  apply keep_bind; [|intros _; apply keep_quiet; quiet_done].
  apply write_keeps; [apply ok_other; [done | set_solver] | done].
Qed.

Lemma keep_backend_gain p g : keep p (backend_rx_gain g).
Proof.
  apply keep_bind; [apply keep_next_io|]. intros [|[]].
  - apply keep_quiet; quiet_done.
  - apply keep_bind; [apply keep_quiet; quiet_done | intros _; apply keep_throw].
  - apply keep_bind; [apply keep_ret | intros _; apply keep_throw].
Qed.

Lemma keep_mute p : keep p mute_rx.
Proof.
  unfold mute_rx. destruct (has_backend cf); [|apply keep_ret]. apply keep_get. intros s _ _.
  apply keep_bind; [apply keep_quiet; quiet_done | intros _; apply keep_backend_gain].
Qed.

Lemma keep_restore_gain p : keep p restore_rx_gain.
Proof.
  apply keep_get. intros s _ _. destruct (saved_rx_gain s); [|apply keep_ret].
  destruct (has_backend cf); [|apply keep_ret].
  apply keep_bind; [apply keep_backend_gain | intros _; apply keep_quiet; quiet_done].
Qed.

Lemma keep_restore_lna p : keep p restore_lna.
Proof.
  apply keep_get. intros s _ _. apply keep_bind; [apply keep_lna | intros _; apply keep_quiet; quiet_done].
Qed.

(** ** The PA *)
Lemma force_lines_spec ls s s' r :
  force_lines ls s = (s', r) -> base s ->
  exists ok, r = inl ok /\ base s' /\
    (forall l, l ∉ ls -> level s' l = level s l) /\
    (ok = true -> forall l, l ∈ ls -> configured l = true -> level s' l = false).
Proof.
  revert s s' r. induction ls as [|l ls IH]; intros s s' r; cbn [force_lines].
  { intros [= <- <-] Hb. exists true. split_and!; try done. set_solver. }
  se_unfold. unfold attempt. destruct (_write l false ForcePaOff s) as [s1 r1] eqn:E1. intros H Hb.
  pose proof (write_base _ _ _ _ _ _ E1 Hb ltac:(done)) as Hb1.
  destruct (write_spec _ _ _ _ _ _ E1) as [(_ & _ & _ & _ & _ & _ & _ & _ & Hne & Hv & _) Hok].
  assert (exists ok1, (ok1 = true -> r1 = inl tt) /\
    (s', r) = match force_lines ls s1 with (s2, inl rest) => (s2, inl (ok1 && rest)) | (s2, inr e) => (s2, inr e) end)
    as (ok1 & Hok1 & H').
  { destruct r1 as [[]|e]; [exists true | exists false]; split; done || by rewrite <- H; destruct (force_lines ls s1) as [? []]. }
  clear H. destruct (force_lines ls s1) as [s2 r2] eqn:E2.
  destruct (IH _ _ _ E2 Hb1) as (ok & -> & Hb2 & Hout & Hin). injection H' as -> ->.
  exists (ok1 && ok). split_and!; try done.
  - intros l' Hl'. rewrite Hout, Hne by set_solver. done.
  - intros [-> ->]%andb_true_iff l' Hl' Hc. destruct (decide (l' ∈ ls)); [by apply Hin|].
    apply elem_of_cons in Hl' as [->|]; [|done]. rewrite Hout by done. apply Hok; [by apply Hok1 | done].
Qed.

Lemma all_off n : existsb id (replicate n false) = false.
Proof. by induction n. Qed.

Lemma force_safe_inv : triple base force_safe (fun _ => inv) (fun _ _ => False).
Proof.
  intros s Hs. unfold force_safe. se_unfold.
  destruct (force_lines (remove_dups (pa_lines cf)) s) as [s1 r] eqn:E.
  destruct (force_lines_spec _ _ _ _ E Hs) as (ok & -> & [_ Hh] & _ & Hlow). cbn.
  assert (Hi : inv (set_atr false (set_pa (replicate (n_tx cf) (negb ok)) s1))).
  { unfold inv, base. cbn. split_and!; [apply length_replicate | done | done |].
    intros c Hc H1 H2. cbn in H2. exists c. split_and!; [done..|]. cbn.
    destruct ok; [|by apply lookup_replicate_2].
    rewrite (Hlow eq_refl) in H2; [done | | done]. apply elem_of_remove_dups. by apply pa_line_in. }
  destruct ok; [|exact Hi]. unfold attempt.
  pose proof (write_cold (tr_line cf) false ForceTrRx (replicate (n_tx cf) false) ltac:(set_solver)) as Hw.
  specialize (Hw (all_off _) _ (conj Hi eq_refl)).
  destruct (_write _ _ _ _) as [s2 [[]|e]]; [|apply Hw].
  apply inv_quiet; [quiet_done | apply Hw].
Qed.

Lemma mark_length v cs p : length (mark v cs p) = length p.
Proof.
  revert p. unfold mark. induction cs as [|c cs IH]; intros p; cbn; [done|]. by rewrite IH, length_insert.
Qed.

Lemma mark_lookup v cs p c :
  (c < length p)%nat ->
  mark v cs p !! c = if decide (c ∈ cs) then Some v else p !! c.
Proof.
  revert p. unfold mark. induction cs as [|c' cs IH]; intros p Hc; cbn [foldl]; [done|].
  rewrite IH by (by rewrite length_insert).
  destruct (decide (c ∈ cs)), (decide (c ∈ c' :: cs)); try set_solver.
  - assert (c = c') as <- by set_solver. by apply list_lookup_insert_eq.
  - apply list_lookup_insert_ne. set_solver.
Qed.

(** A group holds chains of one line. *)
Definition group_ok (lc : LineSpec * list nat) : Prop :=
  lc.2 <> [] /\ Forall (fun c => pa_line c = lc.1 /\ (c < n_tx cf)%nat) lc.2.

Lemma by_line_ok cs : Forall (fun c => (c < n_tx cf)%nat) cs -> Forall group_ok (by_line cs).
Proof.
  unfold by_line. assert (Forall group_ok []) as H0 by constructor. revert H0.
  generalize (@nil (LineSpec * list nat)). induction cs as [|c cs IH]; intros g Hg Hc; [done|].
  apply list.Forall_cons in Hc as [Hc Hcs]. cbn [foldl]. apply IH; [|done].
  clear IH Hcs. induction g as [|[l' cs'] g IHg]; cbn.
  - repeat constructor; done.
  - apply list.Forall_cons in Hg as [[Hne Hall] Hg]. case_bool_decide as Heq.
    + constructor; [|done]. split; cbn; [by destruct cs'|]. apply list.Forall_app. cbn in Hall.
      split; [done|]. repeat constructor; done.
    + constructor; [done | by apply IHg].
Qed.

Lemma seq_lt n : Forall (fun c => (c < n)%nat) (seq 0 n).
Proof. apply list.Forall_forall. intros c Hc%elem_of_seq. lia. Qed.

(** Marking the chains of a line on keeps the invariant, whatever its level. *)
Lemma mark_on_backed cs s l :
  length (pa s) = n_tx cf -> cs <> [] -> Forall (fun c => pa_line c = l /\ (c < n_tx cf)%nat) cs ->
  (forall c, (c < n_tx cf)%nat -> pa_line c <> l -> configured (pa_line c) = true ->
     level s (pa_line c) = true -> exists c', (c' < n_tx cf)%nat /\ pa_line c' = pa_line c /\ pa s !! c' = Some true) ->
  backed (mark_pa true cs s).
Proof.
  intros Hlen Hne Hcs Hb c Hc H1 H2. cbn in *. destruct (decide (pa_line c = l)) as [Hl|Hl].
  - destruct cs as [|c' cs]; [done|]. apply list.Forall_cons in Hcs as [[H3 H4] _].
    exists c'. split_and!; [done | congruence |]. rewrite mark_lookup by lia. by rewrite decide_True by set_solver.
  - destruct (Hb c Hc Hl H1 H2) as (c' & ? & ? & Hp). exists c'. split_and!; [done..|].
    rewrite mark_lookup by lia. by case_decide.
Qed.

Lemma mark_base v cs s : base s -> base (mark_pa v cs s).
Proof. intros [Hl Hh]. split; [|done]. cbn. by rewrite mark_length. Qed.

Lemma inv_pa_off_line target lc : group_ok lc -> invT (pa_off_line target lc).
Proof.
  intros [_ Hg] s Hi. unfold pa_off_line. set (mine := filter (fun c => c ∈ target) lc.2).
  assert (Hm : Forall (fun c => pa_line c = lc.1 /\ (c < n_tx cf)%nat) mine).
  { apply list.Forall_forall. intros c [_ Hc]%list_elem_of_filter. by rewrite list.Forall_forall in Hg; auto. }
  destruct mine as [|m0 ms] eqn:Em; [done|]. rewrite <- Em in *. se_unfold.
  destruct Hi as (Hb & Ha & Hbk). pose proof Hb as [Hlen _].
  destruct (existsb _ lc.2) eqn:Eo; cbn.
  - apply existsb_exists in Eo as (c' & Hc'%list_elem_of_In & [Hnt%bool_decide_eq_true Hpc]%andb_true_iff).
    rewrite list.Forall_forall in Hg. destruct (Hg c' Hc') as [Hl' Hn'].
    assert (pa s !! c' = Some true) as Hp' by (by destruct (pa s !! c') as [[]|]).
    split; [by apply mark_base|]. split; [done|]. intros c Hc H1 H2. cbn in *.
    destruct (decide (pa_line c = lc.1)) as [Hl|Hl].
    + exists c'. split_and!; [done | congruence |]. rewrite mark_lookup by lia.
      rewrite decide_False; [done|]. intros Hin. unfold mine in Hin.
      apply list_elem_of_filter in Hin. tauto.
    + destruct (Hbk c Hc H1 H2) as (c1 & ? & Hl1 & ?). exists c1. split_and!; [done..|].
      rewrite mark_lookup by lia. rewrite decide_False; [done|]. intros Hin.
      rewrite list.Forall_forall in Hm. destruct (Hm c1 Hin). congruence.
  - unfold attempt. destruct (_write lc.1 false (PaOff mine) s) as [s1 r] eqn:E.
    pose proof (write_base _ _ _ _ _ _ E Hb ltac:(done)) as Hb1.
    destruct (write_spec _ _ _ _ _ _ E) as [(Hp & _ & _ & Ha1 & _ & _ & _ & _ & Hne & _ & _) Hok].
    assert (Hothers : forall c, (c < n_tx cf)%nat -> pa_line c <> lc.1 -> configured (pa_line c) = true ->
      level s1 (pa_line c) = true ->
      exists c', (c' < n_tx cf)%nat /\ pa_line c' = pa_line c /\ pa s1 !! c' = Some true).
    { intros c Hc Hl H1 H2. rewrite Hp. apply Hbk; [done..|]. by rewrite <- Hne. }
    destruct r as [[]|e]; cbn; (split; [by apply mark_base|]); (split; [cbn; congruence|]).
    + intros c Hc H1 H2. cbn in *. destruct (decide (pa_line c = lc.1)) as [Hl|Hl].
      { rewrite Hl in *. by rewrite (Hok eq_refl H1) in H2. }
      destruct (Hothers c Hc Hl H1 H2) as (c1 & ? & Hl1 & ?). exists c1. split_and!; [done..|].
      rewrite mark_lookup by congruence. rewrite decide_False; [done|]. intros Hin.
      rewrite list.Forall_forall in Hm. destruct (Hm c1 Hin). congruence.
    + apply (mark_on_backed _ _ lc.1); [congruence | by rewrite Em | done | done].
Qed.

Lemma inv_pa_off_lines target ls : Forall group_ok ls -> invT (pa_off_lines target ls).
Proof.
  induction 1 as [|lc ls Hlc _ IH]; cbn [pa_off_lines]; [by apply triple_ret|].
  eapply triple_bind; [by apply inv_pa_off_line|]. intros ok. cbn.
  eapply triple_bind; [apply IH|]. intros rest. by apply triple_ret.
Qed.

Lemma invT_get {A} (f : t -> M A) : (forall s, inv s -> invT (f s)) -> invT (get ≫= f).
Proof. intros H s Hs. by apply (H s Hs s). Qed.

Lemma resolve_lt chans :
  triple inv (_resolve_chans chans) (fun cs s => inv s /\ Forall (fun c => (c < n_tx cf)%nat) cs) (fun _ => inv).
Proof.
  unfold _resolve_chans. destruct chans as [cs|].
  - destruct (forallb _ cs); [|by apply triple_throw]. apply triple_ret. intros s Hs. split; [done|].
    apply list.Forall_forall. intros c [_ Hc%elem_of_seq]%list_elem_of_filter. lia.
  - apply triple_ret. intros s Hs. split; [done | apply seq_lt].
Qed.

Lemma inv_pa_off chans : invT (pa_off chans).
Proof.
  eapply triple_bind; [apply resolve_lt|]. intros target s [Hs _]. revert s Hs.
  change (invT (ok ← pa_off_lines target (by_line (seq 0 (n_tx cf)));
    s ← get; when (atr s) (modify (set_atr false));; if (ok : bool) then mret tt else throw HardwareFault)).
  eapply triple_bind; [apply inv_pa_off_lines, by_line_ok, seq_lt|]. intros ok. cbn.
  apply invT_get. intros s (_ & Ha & _). rewrite Ha.
  destruct ok; [by apply triple_ret | by apply triple_throw].
Qed.

Lemma invT_attempt m : invT m -> invT (attempt m).
Proof. intros H s Hs. specialize (H s Hs). unfold attempt. by destruct (m s) as [s' [a|e]]. Qed.

Lemma invT_bind {A B} (m : M A) (f : A -> M B) : invT m -> (forall a, invT (f a)) -> invT (m ≫= f).
Proof. intros Hm Hf. eapply triple_bind; [exact Hm | exact Hf]. Qed.

Lemma invT_ret {A} (a : A) : invT (mret a).
Proof. by apply triple_ret. Qed.

(** The invariant of a step, from the lemmas on the single operations. *)
Ltac inv_step :=
  first [ apply inv_pa_off
        | apply keep_inv; intros ?; solve [auto using keep_sleep, keep_tr, keep_lna, keep_restore_lna,
            keep_restore_gain, keep_mute, keep_ret, keep_throw] ].

Lemma inv_shutdown_lines : invT shutdown_lines.
Proof.
  unfold shutdown_lines.
  repeat (apply invT_bind; [apply invT_attempt; inv_step | intros _]). inv_step.
Qed.

Lemma inv_refuse_on : invT refuse_on.
Proof.
  apply invT_bind; [|intros _; inv_step]. unfold when. destruct (has_safety cf); [apply inv_shutdown_lines | inv_step].
Qed.

Lemma pa_on_group lc :
  group_ok lc ->
  triple inv (_write lc.1 true (PaOn lc.2);; modify (mark_pa true lc.2)) (fun _ => inv) (fun _ => base).
Proof.
  intros [Hne0 Hg] s (Hb & Ha & Hbk). se_unfold.
  destruct (_write lc.1 true (PaOn lc.2) s) as [s1 r] eqn:E.
  pose proof (write_base _ _ _ _ _ _ E Hb ltac:(done)) as Hb1.
  destruct (write_spec _ _ _ _ _ _ E) as [(Hp & _ & _ & Ha1 & _ & _ & _ & _ & Hne & _ & _) _].
  destruct r as [[]|e]; [|done]. split; [by apply mark_base|]. split; [cbn; congruence|].
  apply (mark_on_backed _ _ lc.1); [by destruct Hb1 | done | done |].
  intros c Hc Hl H1 H2. rewrite Hp. apply Hbk; [done..|]. by rewrite <- Hne.
Qed.

(** On a failure the lines are made safe before the exception goes on. *)
Lemma inv_or_force {A} (m : M A) :
  triple inv m (fun _ => inv) (fun _ => base) -> invT (catch m (fun e => force_safe;; throw e)).
Proof.
  intros H. eapply triple_catch; [exact H|]. intros e. eapply triple_bind.
  - eapply triple_conseq; [apply force_safe_inv | done | intros a s Hs; exact Hs | done].
  - intros []. by apply triple_throw.
Qed.

Lemma inv_pa_on chans g : invT (pa_on chans g).
Proof.
  eapply triple_bind; [apply resolve_lt|]. intros cs. cbn.
  destruct (_authorized cs g) eqn:Eauth; cbn [negb].
  2:{ eapply triple_conseq; [apply inv_refuse_on | by intros s [] | done | done]. }
  intros s [Hs Hcs]. revert s Hs.
  change (invT (s ← get; if atr s then modify (mark_pa true cs)
    else catch (pa_on_lines (by_line cs)) (fun e => force_safe;; throw e))).
  apply invT_get. intros s (_ & Ha & _). rewrite Ha. apply inv_or_force.
  unfold pa_on_lines. apply triple_for_each. intros lc Hlc. apply pa_on_group.
  pose proof (by_line_ok cs Hcs) as Hg. by rewrite list.Forall_forall in Hg; auto.
Qed.

Lemma inv_base s : inv s -> base s.
Proof. by intros []. Qed.

Lemma inv_to_tx_body chans g : invT (to_tx_body chans g).
Proof.
  unfold to_tx_body. apply invT_bind.
  { unfold when. destruct (mute_rx_during_tx cf); inv_step. }
  intros _. apply invT_get. intros s (_ & Ha & _). rewrite Ha.
  apply invT_bind; [|intros _].
  { apply triple_modify. intros s' Hs'. destruct (lna_before_tx s'); [done|]. apply inv_quiet; [quiet_done | done]. }
  apply invT_bind; [unfold when; destruct (lna_off_during_tx cf); inv_step | intros _].
  do 3 (apply invT_bind; [inv_step | intros _]).
  apply invT_bind; [apply inv_pa_on | intros _; inv_step].
Qed.

Lemma inv_sequence_to_tx g : invT (sequence_to_tx g).
Proof.
  eapply triple_bind; [apply resolve_lt|]. intros cs. cbn.
  eapply triple_conseq; [|by intros s [Hs _]; exact Hs | intros a s Hs; exact Hs | intros e s Hs; exact Hs].
  destruct (_authorized cs g); cbn [negb]; [|apply inv_refuse_on]. apply inv_or_force.
  eapply triple_conseq; [apply inv_to_tx_body | done | done | intros e s; apply inv_base].
Qed.

Lemma inv_sequence_to_rx : invT sequence_to_rx.
Proof.
  apply invT_get. intros s (_ & Ha & _). rewrite Ha.
  apply invT_bind; [apply invT_attempt, inv_pa_off | intros pa_ok].
  apply invT_bind; [apply invT_attempt; inv_step | intros _]. apply invT_get. intros s' _.
  apply invT_bind; [|intros _; apply invT_bind; [apply invT_attempt; inv_step | intros _; inv_step]].
  destruct (pa_ok && negb (pa_any_on s')); [|inv_step].
  do 2 (apply invT_bind; [apply invT_attempt; inv_step | intros _]). apply invT_get. intros s'' _.
  apply invT_bind; [apply invT_attempt; inv_step | intros restored].
  unfold when. destruct restored; [|inv_step]. apply keep_inv. intros p. apply keep_quiet. quiet_done.
Qed.

Lemma inv_force_safe : invT force_safe.
Proof. eapply triple_conseq; [apply force_safe_inv | apply inv_base | done | done]. Qed.

Lemma lines_inv_exec o : invT (exec o).
Proof.
  destruct o as [tx|on|m|on| | | |chans on g|g| | |]; cbn [exec].
  - apply keep_inv. intros p. apply keep_tr.
  - apply keep_inv. intros p. apply keep_lna.
  - apply keep_inv. intros p. apply keep_cal.
  - apply keep_inv. intros p. apply keep_noise.
  - inv_step.
  - inv_step.
  - inv_step.
  - destruct on; [apply inv_pa_on | apply inv_pa_off].
  - apply inv_sequence_to_tx.
  - apply inv_sequence_to_rx.
  - apply inv_force_safe.
  - apply inv_shutdown_lines.
Qed.

Lemma inv_runs ops s : inv s -> inv (runs ops s).
Proof.
  revert s. induction ops as [|o ops IH]; intros s Hs; cbn [runs]; [done|]. apply IH.
  pose proof (lines_inv_exec o s Hs) as H. by destruct (exec o s) as [s' [a|e]].
Qed.

Lemma lines_inv_init gains : inv (init gains).
Proof.
  split; [split; cbn; [apply length_replicate | constructor]|]. split; [done|]. by intros c _ _ ?.
Qed.

(** [C6] Switches never move under power: whatever operations run, and
    whichever backend writes fail (with the line changed or not), every command
    to the T/R switch and to the calibration switches was given while every PA
    line was at its off level, and so was every command that biases the LNA on
    when the policy keeps it off during TX; and whenever no chain is marked on,
    every PA line is off. *)
Theorem no_hot_switching gains ops :
  Forall cool (history (runs ops (init gains))) /\
  (pa_any_on (runs ops (init gains)) = false -> pa_hot (runs ops (init gains)) = false).
Proof.
  pose proof (inv_runs ops _ (lines_inv_init gains)) as Hi. split; [apply Hi | by apply inv_cold].
Qed.

(** ** What stays on when a command fails *)

(** A line command has failed. *)
Definition failed (s : t) : Prop := has_backend cf = false \/ exists n, (n < nio s)%nat /\ io n <> IoOk.

(** No chain is marked on, or a command has failed. *)
Definition quieted (s : t) : Prop := pa_any_on s = false \/ failed s.

Record calmer (s s' : t) : Prop := {
  calm_failed : failed s -> failed s';
  calm_pa : quieted s -> quieted s' }.

#[export] Instance calmer_pre : PreOrder calmer.
Proof. split; [by split|]. intros s1 s2 s3 [] []. split; auto. Qed.

Lemma failed_later s s' : (nio s <= nio s')%nat -> failed s -> failed s'.
Proof. intros Hn [H|(n & Hl & H)]; [by left|]. right. exists n. split; [lia | done]. Qed.

Lemma calmer_io s s' : pa s' = pa s -> (nio s <= nio s')%nat -> calmer s s'.
Proof.
  intros Hp Hn. split; [by apply failed_later|].
  intros [H|H]; [left; unfold pa_any_on in *; congruence | right; by eapply failed_later].
Qed.

Lemma write_failed l v w s s' r :
  _write l v w s = (s', r) -> pa s' = pa s /\ (nio s <= nio s')%nat /\ (r = inl tt \/ failed s').
Proof.
  unfold _write, next_io. se_unfold. destruct (configured l); cbn; [|by intros [= <- <-]; auto].
  destruct (has_backend cf) eqn:Eb; cbn; [|intros [= <- <-]; split_and!; [done.. | by right; left]].
  destruct (io (nio s)) as [|[]] eqn:Ei; cbn; intros [=]; subst; cbn; split_and!; try (done || lia); auto;
    right; right; exists (nio s); (split; [cbn; lia | congruence]).
Qed.

Lemma calm_write l v w : pres calmer (_write l v w).
Proof.
  intros s. destruct (_write l v w s) as [s' r] eqn:E. apply write_failed in E as (? & ? & _). by apply calmer_io.
Qed.

Lemma calm_next_io : pres calmer next_io.
Proof. intros s. unfold next_io. se_unfold. apply calmer_io; cbn; [done | lia]. Qed.

#[local] Hint Resolve calm_write calm_next_io : pres.

Ltac calm := repeat first [ pres_step | apply pres_modify; intros ?; apply calmer_io; repeat case_goal; cbn; done || lia ].

Lemma calm_sleep : pres calmer _sleep.
Proof. unfold _sleep. calm. Qed.

Lemma calm_tr tx : pres calmer (tr_switch tx).
Proof. unfold tr_switch. calm. Qed.

Lemma calm_lna on : pres calmer (lna_bias on).
Proof. unfold lna_bias. calm. Qed.

Lemma calm_backend_gain g : pres calmer (backend_rx_gain g).
Proof. unfold backend_rx_gain. calm. Qed.

#[local] Hint Resolve calm_sleep calm_tr calm_lna calm_backend_gain : pres.

Lemma calm_restore_gain : pres calmer restore_rx_gain.
Proof. unfold restore_rx_gain. calm. Qed.

Lemma calm_restore_lna : pres calmer restore_lna.
Proof. unfold restore_lna. calm. Qed.

#[local] Hint Resolve calm_restore_gain calm_restore_lna : pres.

Lemma filter_all {A} (P : A -> Prop) `{forall x, Decision (P x)} l : Forall P l -> filter P l = l.
Proof. induction 1 as [|x l Hx _ IH]; [done|]. rewrite filter_cons, decide_True by done. by f_equal. Qed.

Definition groups_of (done : list nat) (g : list (LineSpec * list nat)) : Prop :=
  NoDup (map fst g) /\ forall c, c ∈ done -> exists lc, lc ∈ g /\ lc.1 = pa_line c /\ c ∈ lc.2.

Lemma group_add_keys l c g :
  map fst (group_add l c g) = map fst g ++ (if decide (l ∈ map fst g) then [] else [l]).
Proof.
  induction g as [|[l' cs] g IH]; cbn [group_add map fst app]; [by rewrite decide_False by set_solver|].
  case_bool_decide as Heq; cbn [map fst].
  - subst. rewrite decide_True by set_solver. by rewrite app_nil_r.
  - rewrite IH. destruct (decide (l ∈ map fst g)), (decide (l ∈ l' :: map fst g)); done || set_solver.
Qed.

Lemma group_add_in l c g lc :
  lc ∈ g \/ (lc.1 = l /\ lc.2 = [c]) -> exists lc', lc' ∈ group_add l c g /\ lc'.1 = lc.1 /\ lc.2 ⊆ lc'.2.
Proof.
  induction g as [|[l' cs] g IH]; cbn [group_add].
  - intros [?|[<- Hc]]; [set_solver|]. exists (lc.1, [c]). rewrite Hc. set_solver.
  - intros H. case_bool_decide as Heq.
    + destruct H as [[->|H]%elem_of_cons|[Hl Hc]].
      * exists (l', cs ++ [c]). set_solver.
      * exists lc. set_solver.
      * exists (l', cs ++ [c]). rewrite Hc, Hl. set_solver.
    + destruct H as [[->|H]%elem_of_cons|[Hl Hc]].
      * exists (l', cs). set_solver.
      * destruct IH as (lc' & ? & ? & ?); [auto|]. exists lc'. set_solver.
      * destruct IH as (lc' & ? & ? & ?); [auto|]. exists lc'. set_solver.
Qed.

Lemma by_line_groups cs : groups_of cs (by_line cs).
Proof.
  unfold by_line. induction cs as [|c cs IH] using rev_ind; [split; [constructor | set_solver]|].
  rewrite foldl_app. cbn [foldl]. destruct IH as [Hnd Hall].
  set (g := foldl (fun g c => group_add (pa_line c) c g) [] cs) in *. split.
  - rewrite group_add_keys. case_decide; [by rewrite app_nil_r|].
    apply list.NoDup_app. split_and!; [done | set_solver | apply NoDup_singleton].
  - intros c' [Hc|Hc]%elem_of_app; [|apply list_elem_of_singleton in Hc as ->].
    + destruct (Hall c' Hc) as (lc & Hin & Hl & Hc').
      destruct (group_add_in (pa_line c) c g lc) as (lc' & ? & ? & ?); [auto|].
      exists lc'. split_and!; [done | congruence | set_solver].
    + destruct (group_add_in (pa_line c) c g (pa_line c, [c])) as (lc' & ? & ? & ?); [auto|].
      exists lc'. split_and!; [done | done | set_solver].
Qed.

(** The chains [T] are off, or a command has failed. *)
Definition dark (T : list nat) (s : t) : Prop :=
  length (pa s) = n_tx cf /\ (failed s \/ forall c, c ∈ T -> pa s !! c <> Some true).

Lemma dark_all s : dark (seq 0 (n_tx cf)) s -> quieted s.
Proof.
  intros [Hl [H|H]]; [by right|]. left. apply not_true_iff_false. intros (c & Hc)%pa_any_on_true.
  apply (H c); [|done]. apply elem_of_seq. apply lookup_lt_Some in Hc. lia.
Qed.

Lemma dark_off_line T lc :
  Forall (fun c => (c < n_tx cf)%nat) lc.2 ->
  triple (dark T) (pa_off_line (seq 0 (n_tx cf)) lc) (fun _ => dark (lc.2 ++ T)) (fun _ _ => False).
Proof.
  intros Hg s [Hl Hs]. unfold pa_off_line.
  rewrite filter_all by (eapply list.Forall_impl; [exact Hg|]; intros c Hc; apply elem_of_seq; cbn in Hc; lia).
  destruct lc.2 as [|c0 cs] eqn:Ec; [done|]. rewrite <- Ec in *. se_unfold.
  destruct (existsb _ lc.2) eqn:Eo.
  { apply existsb_exists in Eo as (c & Hc%list_elem_of_In & [Hn%bool_decide_eq_true _]%andb_true_iff).
    rewrite list.Forall_forall in Hg. exfalso. apply Hn, elem_of_seq. specialize (Hg c Hc). lia. }
  unfold attempt. destruct (_write lc.1 false (PaOff lc.2) s) as [s' r] eqn:E.
  destruct (write_failed _ _ _ _ _ _ E) as (Hp & Hn & Hr).
  assert (forall v, length (mark v lc.2 (pa s')) = n_tx cf) as Hlen by (intros v; rewrite mark_length; congruence).
  destruct Hs as [Hs|Hs]; [destruct r; (split; [apply Hlen|]); left; by eapply (failed_later s)|].
  destruct r as [[]|e]; cbn; (split; [apply Hlen|]); [|left; by destruct Hr].
  right. cbn. intros c Hc Hm. assert (c < n_tx cf)%nat as Hlt by (rewrite <- (Hlen false); by eapply lookup_lt_Some).
  rewrite mark_lookup in Hm by (rewrite Hp; lia). case_decide; [done|]. rewrite Hp in Hm.
  apply (Hs c); set_solver.
Qed.

Lemma dark_off_lines ls T :
  Forall (fun lc => Forall (fun c => (c < n_tx cf)%nat) lc.2) ls ->
  triple (dark T) (pa_off_lines (seq 0 (n_tx cf)) ls)
    (fun _ => dark (concat (map snd ls) ++ T)) (fun _ _ => False).
Proof.
  intros H. revert T. induction H as [|lc ls Hlc _ IH]; intros T; cbn [pa_off_lines]; [by apply triple_ret|].
  eapply triple_bind; [by apply dark_off_line|]. intros ok. cbn beta.
  eapply triple_bind; [apply IH|]. intros rest. apply triple_ret. intros s [Hl [H|H]]; (split; [done|]); [by left|].
  right. intros c Hc. apply H. cbn in Hc. set_solver.
Qed.

(** Switching every PA off leaves none marked on, unless a command failed. *)
Lemma pa_off_quiets s : length (pa s) = n_tx cf -> quieted (pa_off None s).1.
Proof.
  intros Hl. unfold pa_off, _resolve_chans. se_unfold.
  pose proof (dark_off_lines (by_line (seq 0 (n_tx cf))) [] ltac:(
    eapply list.Forall_impl; [apply by_line_ok, seq_lt|]; intros lc [_ Hg];
    eapply list.Forall_impl; [exact Hg|]; intros c [_ ?]; done) s) as H.
  destruct (pa_off_lines _ _ s) as [s' [ok|e]].
  2:{ destruct H. split; [done|]. right. set_solver. }
  assert (quieted s') as Hq.
  { apply dark_all. destruct H as [Hl' Hd]; [split; [done|]; right; set_solver|]. split; [done|].
    destruct Hd as [Hd|Hd]; [by left|]. right. intros c Hc. apply Hd.
    destruct (by_line_groups (seq 0 (n_tx cf))) as [_ Hg]. destruct (Hg c Hc) as (lc & Hin & _ & Hc').
    apply elem_of_app. left. apply list_elem_of_In, in_concat. exists lc.2.
    split; [|by apply list_elem_of_In]. apply list_elem_of_In, list_elem_of_fmap. eauto. }
  destruct ok, (atr s'); exact Hq.
Qed.

(** So does the way back to RX. *)
Lemma sequence_to_rx_quiets s : inv s -> quieted (sequence_to_rx s).1.
Proof.
  intros ([Hl _] & Ha & _). unfold sequence_to_rx. unfold mbind at 1, SE_bind at 1, get at 1. rewrite Ha.
  unfold mbind at 1, SE_bind at 1, attempt at 1. pose proof (pa_off_quiets s Hl) as Hq.
  assert (forall b, pres calmer (attempt _sleep;; s ← get;
    (if b && negb (pa_any_on s) then
       attempt (tr_switch false);; attempt _sleep;; s ← get;
       restored ← attempt (lna_bias (lna_restore_value s)); when restored (modify (set_lna_before None))
     else mret tt);; attempt restore_rx_gain;; mret tt)) as Hc by (intros b; calm).
  destruct (pa_off None s) as [s' [a|e]]; by apply (Hc _ s').
Qed.

(** ** To TX and back *)
Section NoFaults.
Hypothesis Hio : forall n, io n = IoOk.
Hypothesis Hbackend : has_backend cf = true.
Hypothesis Hdistinct : configured (tr_line cf) = true -> tr_line cf <> lna_line cf.

(** The lines are at the commanded levels. *)
Record synced (s : t) : Prop := {
  sync_pa : length (pa s) = n_tx cf;
  sync_tr : configured (tr_line cf) = true -> level s (tr_line cf) = tr s;
  sync_lna : configured (lna_line cf) = true -> level s (lna_line cf) = lna s;
  sync_on : forall c, pa s !! c = Some true -> configured (pa_line c) = true -> level s (pa_line c) = true }.

Lemma write_succeeds l v w s : exists s', _write l v w s = (s', inl tt).
Proof.
  unfold _write, next_io. se_unfold. rewrite Hbackend. cbn.
  destruct (configured l); cbn; [|eauto]. rewrite Hio. eauto.
Qed.

Lemma sleep_succeeds s : exists n, _sleep s = (set_nio n s, inl tt).
Proof. unfold _sleep, next_io. se_unfold. rewrite Hio. eauto. Qed.

(** The commanded state, with the lines in step. *)
Definition st_is (p : list bool -> Prop) (tr' lna' : bool) (saved : option (list Q)) (before : option bool)
    (gain : list Q) (s : t) : Prop :=
  synced s /\ atr s = false /\ p (pa s) /\ tr s = tr' /\ lna s = lna' /\
  saved_rx_gain s = saved /\ lna_before_tx s = before /\ rx_gain s = gain.

Definition off (p : list bool) : Prop := Forall (fun b => b = false) p.

Definition good (P : t -> Prop) (m : M unit) (Q : t -> Prop) : Prop :=
  triple P m (fun _ => Q) (fun _ _ => False).

Lemma good_bind P Q R m m' : good P m Q -> good Q m' R -> good P (m;; m') R.
Proof. intros H1 H2. eapply triple_bind; [exact H1 | intros ?; exact H2]. Qed.

Lemma good_attempt P Q (m : M unit) : good P m Q -> triple P (attempt m) (fun b s => b = true /\ Q s) (fun _ _ => False).
Proof. intros H s Hs. specialize (H s Hs). unfold attempt. by destruct (m s) as [s' [a|e]]. Qed.

Lemma good_get {A} (f : t -> A) (v : A) P Q (k : t -> M unit) :
  (forall s, P s -> f s = v) -> (forall s, f s = v -> good P (k s) Q) -> good P (s ← get; k s) Q.
Proof. intros Hf Hk s Hs. by apply (Hk s (Hf s Hs)). Qed.

Lemma off_any p s : off (pa s) -> pa s = p -> pa_any_on s = false.
Proof.
  intros Hp _. apply not_true_iff_false. intros (c & Hc)%pa_any_on_true.
  unfold off in Hp. rewrite list.Forall_lookup in Hp. by specialize (Hp c true Hc).
Qed.

(** A write to one of the single lines leaves the other lines in step. *)
Lemma write_single l v w s :
  (configured l = true -> l ∉ pa_lines cf) ->
  exists s', _write l v w s = (s', inl tt) /\ wrote l v w s s' /\
    (configured l = true -> level s' l = v) /\
    (synced s -> forall c, pa s' !! c = Some true -> configured (pa_line c) = true -> level s' (pa_line c) = true).
Proof.
  intros Hl. destruct (write_succeeds l v w s) as [s' E]. exists s'.
  destruct (write_spec _ _ _ _ _ _ E) as [Hw Hok]. split_and!; [done..| auto |].
  intros Hs c Hc H1. destruct Hw as (Hp & _ & _ & _ & _ & _ & _ & _ & Hne & _ & Hnc).
  rewrite Hp in Hc. rewrite Hne; [by apply (sync_on _ Hs)|]. intros <-.
  apply (Hl H1), pa_line_in. rewrite <- (sync_pa _ Hs). by eapply lookup_lt_Some.
Qed.

Lemma good_tr p tr' tx lna' saved before gain :
  (forall l, p l -> off l) ->
  good (st_is p tr' lna' saved before gain) (tr_switch tx) (st_is p tx lna' saved before gain).
Proof.
  intros Hoff s (Hs & Ha & Hp & <- & <- & <- & <- & <-). unfold tr_switch. se_unfold.
  rewrite (off_any _ _ (Hoff _ Hp) eq_refl).
  destruct (write_single (tr_line cf) tx (TrTo tx) s) as (s' & -> & Hw & Hv & Hon).
  { apply (ok_other Hlines). set_solver. }
  destruct Hw as (Hp' & _ & Hl' & Ha' & Hsv & Hbf & Hg & _ & Hne & _).
  unfold st_is; cbn. rewrite Hp', Ha', Hl', Hsv, Hbf, Hg. split_and!; try done.
  split; cbn; [by rewrite Hp'; apply Hs | done | | auto].
  intros Hc. rewrite Hl', <- (sync_lna _ Hs Hc). destruct (configured (tr_line cf)) eqn:Et.
  - apply Hne. intros ?. by apply Hdistinct.
  - destruct (decide (lna_line cf = tr_line cf)); [congruence | by apply Hne].
Qed.

Lemma good_lna p tr' lna' on saved before gain :
  (on = true -> forall l, p l -> off l) ->
  good (st_is p tr' lna' saved before gain) (lna_bias on) (st_is p tr' on saved before gain).
Proof.
  intros Hoff s (Hs & Ha & Hp & <- & <- & <- & <- & <-). unfold lna_bias. se_unfold.
  replace (on && pa_any_on s && lna_off_during_tx cf) with false.
  2:{ destruct on; [|done]. by rewrite (off_any _ _ (Hoff eq_refl _ Hp) eq_refl). }
  destruct (write_single (lna_line cf) on (LnaTo on) s) as (s' & -> & Hw & Hv & Hon).
  { apply (ok_other Hlines). set_solver. }
  destruct Hw as (Hp' & Ht & _ & Ha' & Hsv & Hbf & Hg & _ & Hne & _).
  unfold st_is; cbn. rewrite Hp', Ha', Ht, Hsv, Hbf, Hg. split_and!; try done.
  split; cbn; [by rewrite Hp'; apply Hs | | done | auto].
  intros Hc. rewrite Ht, <- (sync_tr _ Hs Hc). apply Hne. by apply Hdistinct.
Qed.

Lemma good_quiet (P Q : t -> Prop) f : (forall s, P s -> Q (f s)) -> good P (modify f) Q.
Proof. intros H. by apply triple_modify. Qed.

Lemma good_sleep p tr' lna' saved before gain :
  good (st_is p tr' lna' saved before gain) _sleep (st_is p tr' lna' saved before gain).
Proof. intros s Hs. destruct (sleep_succeeds s) as [n ->]. destruct Hs as [[] ?]. by split. Qed.

Lemma good_gain p tr' lna' saved before gain g :
  good (st_is p tr' lna' saved before gain) (backend_rx_gain g) (st_is p tr' lna' saved before g).
Proof.
  intros s ([] & Hs). unfold backend_rx_gain, next_io. se_unfold. rewrite Hio. cbn. split; [by split|]. cbn. tauto.
Qed.

Lemma good_mute p tr' lna' before gain :
  good (st_is p tr' lna' None before gain) mute_rx
    (st_is p tr' lna' (Some gain) before (rx_gain_min cf (length gain))).
Proof.
  unfold mute_rx. rewrite Hbackend. cbn [negb].
  intros s ([] & ? & ? & ? & ? & Hsv & ? & <-). se_unfold.
  apply (good_gain p tr' lna' (Some (rx_gain s)) before (rx_gain s)).
  split; [by split|]. cbn. rewrite Hsv. by split_and!.
Qed.

Lemma good_restore_gain p tr' lna' g before gain :
  good (st_is p tr' lna' (Some g) before gain) restore_rx_gain (st_is p tr' lna' None before g).
Proof.
  unfold restore_rx_gain. intros s Hs. se_unfold. pose proof Hs as (_ & _ & _ & _ & _ & -> & _).
  rewrite Hbackend. cbn [negb].
  pose proof (good_gain p tr' lna' (Some g) before gain g s Hs) as H.
  destruct (backend_rx_gain g s) as [s' [[]|e]]; [|done]. destruct H as ([] & ? & ? & ? & ? & ? & ? & ?).
  split; [by split|]. cbn. tauto.
Qed.

Definition on_at (T : list nat) (p : list bool) : Prop := forall c, c ∈ T -> p !! c = Some true.

Lemma good_on_group T tr' lna' saved before gain lc :
  group_ok lc ->
  good (st_is (on_at T) tr' lna' saved before gain)
    (_write lc.1 true (PaOn lc.2);; modify (mark_pa true lc.2))
    (st_is (on_at (lc.2 ++ T)) tr' lna' saved before gain).
Proof.
  intros [Hne0 Hg] s (Hs & Ha & Hp & <- & <- & <- & <- & <-). se_unfold.
  rewrite list.Forall_forall in Hg.
  destruct (write_succeeds lc.1 true (PaOn lc.2) s) as [s' E]. rewrite E.
  destruct (write_spec _ _ _ _ _ _ E) as [(Hp' & Ht' & Hl' & Ha' & Hsv & Hbf & Hgn & _ & Hne & Hv & Hnc) Hok].
  assert (Hother : forall l, l ∈ [tr_line cf; lna_line cf] -> configured l = true -> level s' l = level s l).
  { intros l Hl Hc. apply Hne. intros ->. apply (ok_other Hlines lc.1); [set_solver | done |].
    destruct lc.2 as [|c cs] eqn:Ec; [done|]. destruct (Hg c ltac:(set_solver)) as [<- ?]. by apply pa_line_in. }
  unfold st_is; cbn. rewrite Ht', Ha', Hl', Hsv, Hbf, Hgn. split_and!; try done.
  - split; cbn.
    + rewrite mark_length, Hp'. apply Hs.
    + intros Hc. rewrite Ht', Hother by (done || set_solver). by apply Hs.
    + intros Hc. rewrite Hl', Hother by (done || set_solver). by apply Hs.
    + intros c Hc H1. destruct (decide (pa_line c = lc.1)) as [Hl|Hl].
      { rewrite Hl in *. by apply Hok. }
      rewrite Hne by done. apply (sync_on _ Hs); [|done]. rewrite Hp', mark_lookup in Hc.
      * destruct (decide (c ∈ lc.2)) as [Hin|]; [|done]. by destruct (Hg c Hin).
      * apply lookup_lt_Some in Hc. by rewrite mark_length in Hc.
  - intros c Hc. destruct (decide (c ∈ lc.2)) as [Hin|Hin].
    + rewrite Hp', mark_lookup; [by rewrite decide_True|]. rewrite (sync_pa _ Hs). by apply (Hg c).
    + assert (pa s !! c = Some true) as Hcs by (apply Hp; set_solver).
      rewrite Hp', mark_lookup by (by eapply lookup_lt_Some). by rewrite decide_False.
Qed.

Lemma good_on_lines T tr' lna' saved before gain ls :
  Forall group_ok ls ->
  good (st_is (on_at T) tr' lna' saved before gain) (pa_on_lines ls)
    (st_is (on_at (concat (reverse (map snd ls)) ++ T)) tr' lna' saved before gain).
Proof.
  intros H. revert T. unfold pa_on_lines. induction H as [|lc ls Hlc _ IH]; intros T; cbn [for_each map].
  - apply triple_ret. done.
  - eapply good_bind; [by apply good_on_group|]. eapply triple_conseq; [apply IH | done | | done].
    intros ? s Hs. rewrite reverse_cons, concat_app. cbn. by rewrite app_nil_r, <- app_assoc.
Qed.

(** Every chain is in the group of its line, and each line has one group. *)
Lemma group_complete lc c :
  lc ∈ by_line (seq 0 (n_tx cf)) -> (c < n_tx cf)%nat -> pa_line c = lc.1 -> c ∈ lc.2.
Proof.
  intros Hin Hc Hl. destruct (by_line_groups (seq 0 (n_tx cf))) as [Hnd Hall].
  destruct (Hall c) as (lc' & Hin' & Hl' & Hc'); [apply elem_of_seq; lia|].
  assert (lc' = lc) as ->; [|done].
  apply list_elem_of_lookup in Hin as (i & Hi), Hin' as (j & Hj).
  assert (i = j) as ->; [|congruence].
  eapply NoDup_lookup; [exact Hnd | |]; rewrite list_lookup_fmap; [by rewrite Hi|].
  rewrite Hj. cbn. congruence.
Qed.

Definition off_at (T : list nat) (p : list bool) : Prop := forall c, c ∈ T -> p !! c <> Some true.

Lemma filter_ext_in {A} (P Q : A -> Prop) `{forall x, Decision (P x)} `{forall x, Decision (Q x)} (l : list A) :
  (forall x, x ∈ l -> P x <-> Q x) -> filter P l = filter Q l.
Proof.
  induction l as [|x l IH]; intros H'; [done|]. rewrite !filter_cons, IH by set_solver.
  destruct (H' x) as [H1 H2]; [set_solver|]. repeat case_decide; tauto.
Qed.

Lemma good_off_group T tr' lna' saved before gain lc :
  group_ok lc -> lc ∈ by_line (seq 0 (n_tx cf)) ->
  triple (st_is (off_at T) tr' lna' saved before gain) (pa_off_line (seq 0 (n_tx cf)) lc)
    (fun b s => b = true /\ st_is (off_at (lc.2 ++ T)) tr' lna' saved before gain s) (fun _ _ => False).
Proof.
  intros [Hne0 Hg] Hin s (Hs & Ha & Hp & <- & <- & <- & <- & <-). unfold pa_off_line.
  rewrite filter_all by (eapply list.Forall_impl; [exact Hg|]; intros c [_ ?]; apply elem_of_seq; lia).
  rewrite list.Forall_forall in Hg. destruct lc.2 as [|c0 cs] eqn:Ec; [done|]. rewrite <- Ec in *. se_unfold.
  destruct (existsb _ lc.2) eqn:Eo.
  { apply existsb_exists in Eo as (c & Hc%list_elem_of_In & [Hn%bool_decide_eq_true _]%andb_true_iff).
    exfalso. apply Hn, elem_of_seq. destruct (Hg c Hc). lia. }
  unfold attempt. destruct (write_succeeds lc.1 false (PaOff lc.2) s) as [s' E]. rewrite E.
  destruct (write_spec _ _ _ _ _ _ E) as [(Hp' & Ht' & Hl' & Ha' & Hsv & Hbf & Hgn & _ & Hne & Hv & Hnc) Hok].
  assert (Hother : forall l, l ∈ [tr_line cf; lna_line cf] -> configured l = true -> level s' l = level s l).
  { intros l Hl Hc. apply Hne. intros ->. apply (ok_other Hlines lc.1); [set_solver | done |].
    destruct (Hg c0) as [<- ?]; [rewrite Ec; set_solver | by apply pa_line_in]. }
  assert (Hmark : forall c, mark false lc.2 (pa s') !! c = Some true -> c ∉ lc.2 /\ pa s !! c = Some true).
  { intros c Hc. rewrite Hp', mark_lookup in Hc; [by case_decide|].
    apply lookup_lt_Some in Hc. by rewrite mark_length in Hc. }
  split; [done|]. unfold st_is; cbn. rewrite Ht', Ha', Hl', Hsv, Hbf, Hgn. split_and!; try done.
  - split; cbn.
    + rewrite mark_length, Hp'. apply Hs.
    + intros Hc. rewrite Ht', Hother by (done || set_solver). by apply Hs.
    + intros Hc. rewrite Hl', Hother by (done || set_solver). by apply Hs.
    + intros c [Hc Hpc]%Hmark H1. rewrite Hne; [by apply (sync_on _ Hs)|]. intros Hl. apply Hc.
      apply group_complete; [done | | done]. rewrite <- (sync_pa _ Hs). by eapply lookup_lt_Some.
  - intros c Hc [Hn Hpc]%Hmark. apply elem_of_app in Hc as [?|Hc]; [done|]. by apply (Hp c Hc).
Qed.

Lemma good_off_lines T tr' lna' saved before gain ls :
  Forall group_ok ls -> ls ⊆ by_line (seq 0 (n_tx cf)) ->
  triple (st_is (off_at T) tr' lna' saved before gain) (pa_off_lines (seq 0 (n_tx cf)) ls)
    (fun b s => b = true /\ exists T', (forall lc, lc ∈ ls -> lc.2 ⊆ T') /\ T ⊆ T' /\
       st_is (off_at T') tr' lna' saved before gain s) (fun _ _ => False).
Proof.
  intros H. revert T. induction H as [|lc ls Hlc _ IH]; intros T Hsub; cbn [pa_off_lines].
  - apply triple_ret. intros s Hs. split; [done|]. exists T. split_and!; [set_solver | done | done].
  - eapply triple_bind; [apply good_off_group; [done | set_solver]|]. intros ok s [-> Hs].
    pose proof (IH (lc.2 ++ T) ltac:(set_solver) s Hs) as H. se_unfold.
    destruct (pa_off_lines _ ls s) as [s' [b|e]]; [|done].
    destruct H as (-> & T' & H1 & H2 & H3). split; [done|]. exists T'.
    split_and!; [|set_solver | done]. intros lc' [->|?]%elem_of_cons; [set_solver | auto].
Qed.

Lemma good_pa_off p tr' lna' saved before gain :
  good (st_is p tr' lna' saved before gain) (pa_off None) (st_is off tr' lna' saved before gain).
Proof.
  intros s Hs. unfold pa_off, _resolve_chans. se_unfold.
  assert (st_is (off_at []) tr' lna' saved before gain s) as Hs0.
  { destruct Hs as (? & ? & _ & ?). split_and!; tauto || set_solver. }
  pose proof (good_off_lines [] tr' lna' saved before gain _ (by_line_ok _ (seq_lt _)) ltac:(done) s Hs0) as H.
  destruct (pa_off_lines _ _ s) as [s' [b|e]]; [|done]. destruct H as (-> & T' & Hall & _ & H).
  destruct H as (Hsy & Ha & Hoff & H). rewrite Ha. split_and!; try tauto.
  apply list.Forall_lookup. intros c [] Hc; [|done]. exfalso. apply (Hoff c); [|done].
  destruct (by_line_groups (seq 0 (n_tx cf))) as [_ Hg].
  destruct (Hg c) as (lc & Hin & _ & Hc'); [|by apply (Hall lc Hin)].
  apply elem_of_seq. apply lookup_lt_Some in Hc. rewrite (sync_pa _ Hsy) in Hc. lia.
Qed.

(** Resolving resolved chains changes nothing. *)
Lemma resolve_again chans cs s :
  _resolve_chans chans s = (s, inl cs) ->
  _resolve_chans (Some (map Z.of_nat cs)) s = (s, inl cs) /\ Forall (fun c => (c < n_tx cf)%nat) cs.
Proof.
  intros H. assert (exists P (_ : forall c, Decision (P c)), cs = filter P (seq 0 (n_tx cf))) as (P & HP & ->).
  { unfold _resolve_chans in H. destruct chans as [l|].
    - destruct (forallb _ l); [|done]. injection H as <-. eauto.
    - injection H as <-. exists (fun _ => True), _. symmetry. apply filter_all. by apply list.Forall_true. }
  assert (Hlt : Forall (fun c => (c < n_tx cf)%nat) (filter P (seq 0 (n_tx cf)))).
  { apply list.Forall_forall. intros c [_ Hc%elem_of_seq]%list_elem_of_filter. lia. }
  split; [|done]. unfold _resolve_chans.
  replace (forallb _ _) with true.
  2:{ symmetry. apply forallb_forall. intros z (c & <- & Hc)%in_map_iff.
      rewrite list.Forall_forall in Hlt. specialize (Hlt c ltac:(by apply list_elem_of_In)). lia. }
  se_unfold. do 2 f_equal. apply filter_ext_in. intros c Hseq. rewrite list_elem_of_fmap. split.
  - intros (c' & ->%Nat2Z.inj & [HPc _]%list_elem_of_filter). done.
  - intros HPc. exists c. split; [done|]. by apply list_elem_of_filter.
Qed.

Lemma good_pa_on tr' lna' saved before gain cs g s0 chans :
  _resolve_chans chans s0 = (s0, inl cs) -> _authorized cs g = true ->
  good (st_is off tr' lna' saved before gain) (pa_enable (Some (map Z.of_nat cs)) true g)
    (st_is (on_at cs) tr' lna' saved before gain).
Proof.
  intros Hr Hauth s Hs. destruct (resolve_again _ _ _ Hr) as [Hr' Hlt].
  assert (_resolve_chans (Some (map Z.of_nat cs)) s = (s, inl cs)) as Hr''.
  { revert Hr'. unfold _resolve_chans. destruct (forallb _ _); [|done]. se_unfold. by intros [= ->]. }
  pose proof Hs as (_ & Ha & _). unfold pa_enable, pa_on. se_unfold. rewrite Hr'', Hauth. cbn [negb]. rewrite Ha.
  assert (st_is (on_at []) tr' lna' saved before gain s) as Hs0.
  { destruct Hs as (? & ? & _ & ?). split_and!; tauto || set_solver. }
  pose proof (good_on_lines [] tr' lna' saved before gain _ (by_line_ok cs Hlt) s Hs0) as H.
  unfold catch. destruct (pa_on_lines (by_line cs) s) as [s' [[]|e]]; [|done].
  destruct H as (? & ? & Hon & ?). split_and!; try tauto. intros c Hc. apply Hon.
  destruct (proj2 (by_line_groups cs) c Hc) as (lc & Hin & _ & Hc'). apply elem_of_app. left.
  apply list_elem_of_In, in_concat. exists lc.2. split; [|by apply list_elem_of_In].
  apply list_elem_of_In, elem_of_reverse, list_elem_of_fmap. eauto.
Qed.

Definition muted (gain : list Q) : list Q :=
  if mute_rx_during_tx cf then rx_gain_min cf (length gain) else gain.

Definition saved_gain (gain : list Q) : option (list Q) :=
  if mute_rx_during_tx cf then Some gain else None.

Lemma good_to_tx lna0 gain cs g s0 :
  _resolve_chans (permit_chains g) s0 = (s0, inl cs) -> _authorized cs g = true ->
  good (st_is off false lna0 None None gain) (to_tx_body cs g)
    (st_is (on_at cs) true (if lna_off_during_tx cf then false else lna0) (saved_gain gain) (Some lna0) (muted gain)).
Proof.
  intros Hr Hauth. unfold to_tx_body.
  eapply (good_bind _ (st_is off false lna0 (saved_gain gain) None (muted gain))).
  { unfold when, saved_gain, muted. destruct (mute_rx_during_tx cf); [apply good_mute | by apply triple_ret]. }
  eapply good_get; [by intros s (_ & Ha & _)|]. intros s ->. eapply good_bind.
  { apply (good_quiet _ (st_is off false lna0 (saved_gain gain) (Some lna0) (muted gain))).
    intros s' ([] & ? & ? & ? & Hl & ? & Hb & ?). rewrite Hb. split; [by split|]. cbn. rewrite Hl. tauto. }
  eapply good_bind.
  { apply (triple_when _ _ _ (fun _ => st_is off false (if lna_off_during_tx cf then false else lna0)
             (saved_gain gain) (Some lna0) (muted gain))); intros ->; [by apply good_lna | done]. }
  eapply good_bind; [apply good_sleep|]. eapply good_bind; [by apply good_tr|].
  eapply good_bind; [apply good_sleep|]. eapply good_bind; [by eapply good_pa_on | apply good_sleep].
Qed.

Lemma good_run (m : M unit) P Q s :
  good P m Q -> P s -> exists s', m s = (s', inl tt) /\ attempt m s = (s', inl true) /\ Q s'.
Proof.
  intros H Hs. specialize (H s Hs). unfold attempt. destruct (m s) as [s' [[]|e]]; [|done].
  exists s'. done.
Qed.

Lemma good_to_rx p lna0 lna' gain g :
  good (st_is p true lna' g (Some lna0) gain) sequence_to_rx
    (st_is off false lna0 None None (default gain g)).
Proof.
  intros s Hs. unfold sequence_to_rx. se_unfold. pose proof Hs as (_ & -> & _).
  destruct (good_run _ _ _ s (good_pa_off p true lna' g (Some lna0) gain) Hs) as (s1 & _ & -> & H1).
  destruct (good_run _ _ _ s1 (good_sleep off true lna' g (Some lna0) gain) H1) as (s2 & _ & -> & H2).
  rewrite (off_any _ s2 (proj1 (proj2 (proj2 H2))) eq_refl). cbn [andb negb].
  destruct (good_run _ _ _ s2 (good_tr off true false lna' g (Some lna0) gain ltac:(done)) H2)
    as (s3 & _ & -> & H3).
  destruct (good_run _ _ _ s3 (good_sleep off false lna' g (Some lna0) gain) H3) as (s4 & _ & -> & H4).
  assert (lna_restore_value s4 = lna0) as ->.
  { unfold lna_restore_value. destruct H4 as (_ & _ & _ & _ & _ & _ & Hb & _). by rewrite Hb. }
  destruct (good_run _ _ _ s4 (good_lna off false lna' lna0 g (Some lna0) gain ltac:(done)) H4)
    as (s5 & _ & -> & H5).
  assert (H6 : st_is off false lna0 g None gain (set_lna_before None s5)).
  { destruct H5 as ([] & ? & ? & ? & ? & ? & ? & ?). split; [by split|]. cbn. tauto. }
  destruct g as [g|].
  - destruct (good_run _ _ _ _ (good_restore_gain off false lna0 g None gain) H6) as (s7 & _ & -> & H7). exact H7.
  - unfold attempt, restore_rx_gain. se_unfold. pose proof H6 as (_ & _ & _ & _ & _ & -> & _). exact H6.
Qed.

(** To TX and back: without faults, [sequence_to_tx] under an active
    permit succeeds with the LNA off (when the policy says so), the T/R switch
    in tx and every permitted chain's PA on, on the lines themselves; and
    [sequence_to_rx] then brings every PA off, the T/R switch to rx and the LNA
    bias and the receiver gains back to what they were before. *)
Theorem tx_rx_roundtrip g cs s :
  _resolve_chans (permit_chains g) s = (s, inl cs) -> _authorized cs g = true ->
  st_is off false (lna s) None None (rx_gain s) s ->
  exists s1 s2,
    sequence_to_tx g s = (s1, inl tt) /\ sequence_to_rx s1 = (s2, inl tt) /\
    st_is (on_at cs) true (if lna_off_during_tx cf then false else lna s)
      (saved_gain (rx_gain s)) (Some (lna s)) (muted (rx_gain s)) s1 /\
    st_is off false (lna s) None None (rx_gain s) s2.
Proof.
  intros Hr Hauth Hs.
  destruct (good_run _ _ _ s (good_to_tx (lna s) (rx_gain s) cs g s Hr Hauth) Hs) as (s1 & E1 & _ & H1).
  destruct (good_run _ _ _ s1 (good_to_rx _ _ _ _ _) H1) as (s2 & E2 & _ & H2).
  exists s1, s2. split_and!; [|done..|].
  - unfold sequence_to_tx. unfold mbind, SE_bind at 1. rewrite Hr, Hauth. cbn [negb]. unfold catch. by rewrite E1.
  - revert H2. unfold muted, saved_gain. by destruct (mute_rx_during_tx cf).
Qed.

End NoFaults.

End Control.

(** ** Samples *)
Definition gpio (m : Z) : LineSpec := Line KGpio "tx0" "FP0" m true "" "".
Definition none_line : LineSpec := Line KNone "" "" 0 true "" "".

(** Three chains, two of them on one PA line. *)
Definition sample_cfg : cfg :=
  Cfg 3 [gpio 1; gpio 2; gpio 1] (gpio 4) (gpio 8) none_line none_line none_line true true true true
    (fun n => replicate n 0%Q).

Lemma sample_lines : lines_ok sample_cfg.
Proof. split; [done|]. cbn. set_solver. Qed.

Definition permit01 : grant := Grant true true (Some [0; 1]) false.
Definition sample_ops : list op := [OToTx permit01; OTr true; OPa (Some [0]) false permit01; OToRx; OTr true].

(** The PA-off write of chain 0 fails, leaving the line on. *)
Definition one_failure (n : nat) : io_result := if (n =? 8)%nat then IoFail false else IoOk.

Lemma no_hot_switching_witness :
  let s := runs sample_cfg one_failure sample_ops (init sample_cfg [20%Q]) in
  length (history s) = 10%nat /\ Forall (cool sample_cfg) (history s).
Proof.
  split; [vm_compute; reflexivity|].
  apply (no_hot_switching sample_cfg one_failure sample_lines [20%Q] sample_ops).
Defined.

(** The front end in receive, the LNA biased. *)
Definition receiving : t := set_line (gpio 8) true (init sample_cfg [20%Q]).

Lemma tx_rx_roundtrip_witness :
  exists s1 s2,
    sequence_to_tx sample_cfg (fun _ => IoOk) permit01 receiving = (s1, inl tt) /\
    sequence_to_rx sample_cfg (fun _ => IoOk) s1 = (s2, inl tt) /\ rx_gain s2 = [20%Q].
Proof.
  destruct (tx_rx_roundtrip sample_cfg (fun _ => IoOk) sample_lines ltac:(done) eq_refl ltac:(done)
              permit01 [0%nat; 1%nat] receiving) as (s1 & s2 & H1 & H2 & _ & H3).
  - reflexivity.
  - reflexivity.
  - split_and!; try done; [|by repeat constructor]. split; try done. by intros [|[|[|c]]].
  - exists s1, s2. split; [exact H1|]. split; [exact H2 | apply H3].
Defined.

End Rf.
