(* ===== verification/TxSafety.v ===== *)
(** * The TX safety controller ([_active/active_tx_safety.py], [TxSafetyController])

    The arming state machine DISABLED / SAFE / ARMED / TRANSMITTING / FAULT,
    the per-burst permits, the watchdog, trips and the fail-safe shutdown.
    Whatever the controller reads from outside (clock, sensors, fingerprint,
    tuned frequency, fresh identifiers, the outcome of backend calls) comes
    from a sequence of environments, one per reading; an environment may also
    carry a trip or a signal that interrupts the critical section there (the lock
    is re-entrant, so a signal handler runs inside it, and a trip that cannot get
    the lock runs without it).  The numeric RF
    model (power prediction, reflection, spectrum, frequency plan) is not
    modelled: its verdict on a burst or an arming is an input.  The T/R, LNA
    and PA lines are those of [RfControl].  Event payloads, the banner,
    logging, process hooks and the watchdog thread are left out. *)
From S2P Require Import Prelude StateErr PyText TxDuty RfControl.

Module Tx.

Inductive TxState := DISABLED | SAFE | ARMED | TRANSMITTING | FAULT.

#[export] Instance TxState_eq_dec : EqDecision TxState.
Proof. solve_decision. Defined.

Definition TX_MODES : list string := ["dummy_load"; "cabled"; "radiate"].
Definition FREQ_TOL_HZ : Q := 1.
Definition FS_REL_TOL : Q := 1 # 1000000.
Definition F32_REL_TOL : Q := 1 # 1000000.
Definition DAC_FULL_SCALE : Q := 1.
Definition FINGERPRINT_POLL_S : Q := 1.
Definition VSWR_MIN_FWD_DBM : Q := -20.

Definition _LATER_CODES : list string :=
  ["FREQ_NOT_ALLOWED"; "FREQ_DENIED"; "CHAIN_POWER"; "PA_COMPRESSION"; "RX_PROTECTION";
   "DUMMY_LOAD"; "DUMMY_LOAD_RATING"; "CABLED_RX_OVERLOAD"; "NO_POWER_CAL"; "NO_AUTHORIZATION";
   "EIRP"; "MPE"; "PASSIVE_CHAIN"; "TOTAL_POWER"].

(** [str(mode).upper()] of a mode *)
Definition mode_upper (m : string) : string :=
  if bool_decide (m = "dummy_load") then "DUMMY_LOAD"
  else if bool_decide (m = "cabled") then "CABLED" else "RADIATE".

(** [fmt] is [%.6f] of the frequency in MHz. *)
Definition ack_phrase (fmt : Q -> string) (m : string) (fc : Q) : string :=
  "ARM " +:+ mode_upper m +:+ " " +:+ fmt fc +:+ " MHz".

(** Codes are upper-case ASCII, so [str(code).upper()] is the code. *)
Definition reset_phrase (code : string) : string := "RESET FAULT " +:+ code.

(** ** Numbers that may be non-finite *)
Definition isfinite (x : pynum) : bool := match x with Fin _ => true | _ => false end.

(** [a > b], [a <= b] on floats: false when one is NaN. *)
Definition fgt (a b : pynum) : bool :=
  match a, b with
  | NaN, _ | _, NaN => false
  | PInf, PInf | NInf, NInf | NInf, _ | _, PInf => false
  | PInf, _ | _, NInf => true
  | Fin x, Fin y => Qltb y x
  end.

Definition fle (a b : pynum) : bool :=
  match a, b with
  | NaN, _ | _, NaN => false
  | NInf, _ | _, PInf => true
  | PInf, _ | _, NInf => false
  | Fin x, Fin y => Qle_bool x y
  end.

Definition qabs (x : Q) : Q := if Qle_bool 0 x then x else - x.

(** [_finite_or_none]; a value that [float()] rejects is [None]. *)
Definition _finite_or_none (v : option pynum) : option Q :=
  match v with Some (Fin q) => Some q | _ => None end.

(** ** Policy ([TxPolicy]) *)
Record policy := Policy {
  enabled : bool;
  backend_sim : bool;                   (* backend == "sim" *)
  operator_cfg : string;
  fc_cfg_hz : Q;
  fs_cfg_hz : Q;
  n_tx : nat;
  allowed_modes : list string;
  occupied_bw_cfg_hz : Q;
  arm_timeout_s : Q;
  max_arm_total_s : Q;
  heartbeat_timeout_s : Q;
  max_digital_amplitude : Q;
  max_tx_gain_db : list Q;
  tx_gain_min_db : list Q;
  tx_gain_max_db : list Q;
  max_burst_s : Q;
  dummy_load_rating_w : list Q;
  max_reverse_power_dbm : option Q;
  max_vswr : pynum;
  max_temp_c : pynum;
  require_power_monitor_for_radiate : bool;
  underflow_trip_count : Z;
  underflow_window_s : Q;
  lna_off_during_tx : bool;
  min_start_lead_s : Q;
  min_tx_lead_s : Q;
  require_ref_lock : bool;
  pa_hold_between_bursts : bool;
  telemetry_max_age_s : Q;
  interlock_cfg : bool;                 (* interlock != "none" *)
  dummy_load_sense_cfg : bool;
  power_monitor_cfg : bool }.

Definition occupied_bw_hz (p : policy) (fs : option Q) : Q :=
  if Qltb 0 (occupied_bw_cfg_hz p) then occupied_bw_cfg_hz p else default (fs_cfg_hz p) fs.

(** ** Arm record and permits *)
Record ArmRecord := Arm {
  session_id : string;
  a_mode : string;
  operator : string;
  fc_hz : Q;
  occupied_hz : Q;
  armed_unix : Q;
  expires_unix : Q;
  fingerprint : string;
  flowgraph_sha256 : string;
  waveform_sha256 : string;
  max_bursts : Z }.

(** [obj] is the identity of the permit object, [samples] that of its buffer;
    [p_start] says whether the burst is timed. *)
Record TxPermit := Permit {
  obj : nat;
  permit_id : string;
  p_session : string;
  samples : nat;
  chains : list Z;
  p_fc_hz : Q;
  p_fs_hz : Q;
  tx_gains_db : list Q;
  p_start : bool;
  duration_s : Q;
  digest : string;
  issued_mono : Q;
  deadline_mono : Q;
  purpose : string }.

#[export] Instance Q_leibniz_dec : EqDecision Q.
Proof. solve_decision. Defined.

#[export] Instance ArmRecord_eq_dec : EqDecision ArmRecord.
Proof. solve_decision. Defined.

#[export] Instance TxPermit_eq_dec : EqDecision TxPermit.
Proof. solve_decision. Defined.

(** [_Entry]: the registry's side of a permit. *)
Record entry := Entry {
  e_permit : TxPermit;
  consumed : bool;
  completed : bool;
  duty_at : Q;
  at_offset : Q;
  lna_credit : bool;
  tr_credit : bool }.

(** ** Inputs *)
Inductive conf := NoMethod | ConfRaises | Conf (b : bool).
Inductive closing := ClosedRaises | Closed (v : option bool).
Record sensor := Sensor { s_configured : conf; s_closed : closing }.

Definition _obj_configured (o : option sensor) : bool :=
  match o with
  | None => false
  | Some s => match s_configured s with Conf b => b | NoMethod | ConfRaises => true end
  end.

Definition _obj_closed (s : sensor) : option bool :=
  match s_closed s with ClosedRaises => Some false | Closed v => v end.

Record telemetry := Telemetry {
  fwd_dbm : list (option pynum);
  rev_dbm : list (option pynum);
  temp_c : list (option pynum);
  age_s : pynum }.

Definition empty_telemetry : telemetry := Telemetry [] [] [] PInf.

Inductive ref_value := RefRaises | RefDict (l : list (option bool)) | RefNone | RefVal (b : bool).

Inductive interruption := NoInt | IntTrip (code : string) | IntSignal (name : string).

(** One reading of everything outside the controller. *)
Record env := Env {
  v_clock : Q;
  v_wall : Q;
  v_int : interruption;
  v_interlock : option sensor;
  v_dl : option sensor;
  v_monitor : option sensor;            (* the telemetry object *)
  v_tel : option telemetry;             (* its reading; None: reading raises *)
  v_ref : ref_value;
  v_freq : option pynum;                (* None: the provider raises *)
  v_rate : option pynum;
  v_fp : option string;                 (* None: the fingerprint raises *)
  v_model : option string;              (* fingerprint of the model, when current *)
  v_uuid : string;
  v_sha : nat -> string;                (* digest of a buffer's bytes now *)
  v_abort_ok : bool;
  v_gain_ok : bool;
  v_write_ok : bool;                    (* writing the arm record *)
  v_sync : bool;                        (* sync_ok(), False when it raises *)
  v_coherence : Z;
  v_cal : bool }.

Inductive tx_exc := SafetyRefusal (code : string) | InterlockTrip (code : string) | OtherExc.

Inductive event :=
  | EvArm (session : string) | EvDisarm (reason : string) | EvExpire
  | EvTrip (code : string) | EvReset (code : string) | EvShutdown (reason : string)
  | EvBurstStart (o : nat) (start dur : Q) | EvBurstDone (pid : string).

(** ** Requests *)
Record arm_req := AReq {
  r_mode : string;
  r_fc : Q;
  r_confirmation : option string;       (* None: not a string *)
  r_operator : string;
  r_tty : bool;                         (* confirmation_source == "tty" *)
  r_occupied : option Q;
  r_duration : option Q;
  r_beamformed : bool;
  r_flowgraph : string;
  r_waveform : string;
  r_max_bursts : Z }.

(** [start]: absent, not a [DevTime], or its lead on the device clock ([None]:
    the clock cannot be read). *)
Inductive start_req := Untimed | NotDevTime | At (lead : option pynum).

(** A burst; numbers that [float()] rejects are NaN.  [q_buf] is the frozen
    copy, the peaks are per chain. *)
Record burst_req := BReq {
  q_chains : option (list Z);
  q_numeric : bool;                     (* a numeric two-dimensional array *)
  q_rows : nat;
  q_cols : Z;
  q_finite : bool;
  q_buf : nat;
  q_pk128 : list Q;
  q_pk64 : list Q;
  q_isp : list Q;
  q_gains : option (list pynum);
  q_fs : pynum;
  q_timeout : pynum;
  q_at_offset : pynum;
  q_start : start_req;
  q_fc : option pynum;
  q_weights : bool;
  q_purpose : string }.

(** [TxResult] *)
Inductive async := Underflow | SeqError | RefUnlock | LoUnlock | OtherEvent.
Record result := Result {
  n_underflows : nat;
  n_late : nat;
  content_corrupt : bool;
  events : list async }.

(** ** State *)
Record t := mk {
  state : TxState;
  arm_record : option ArmRecord;
  mode : option string;
  armed_mono : Q;
  expiry_mono : Q;
  last_hb : option Q;
  trip_gen : Z;
  registry : list (string * nat);       (* permit id -> entry object *)
  heap : list entry;                    (* the entry objects, by number *)
  revoked : list (string * string);
  completed_q : list string;            (* deque, at most 4096 *)
  inflight : option nat;
  underflows : list Q;
  duty : Duty.meter;
  fault_code : string;
  fault_history : list string;
  adopted : bool;
  disk : option ArmRecord;              (* <state_dir>/tx_arm.json *)
  fp_checked : option Q;
  last_shutdown : list (string * bool);
  log : list event;
  rf : Rf.t;
  reads : nat }.

Definition set_state x (s : t) : t :=
  mk x (arm_record s) (mode s) (armed_mono s) (expiry_mono s) (last_hb s) (trip_gen s) (registry s)
     (heap s) (revoked s) (completed_q s) (inflight s) (underflows s) (duty s) (fault_code s)
     (fault_history s) (adopted s) (disk s) (fp_checked s) (last_shutdown s) (log s) (rf s) (reads s).
Definition set_arm_record x (s : t) : t :=
  mk (state s) x (mode s) (armed_mono s) (expiry_mono s) (last_hb s) (trip_gen s) (registry s) (heap s)
     (revoked s) (completed_q s) (inflight s) (underflows s) (duty s) (fault_code s) (fault_history s)
     (adopted s) (disk s) (fp_checked s) (last_shutdown s) (log s) (rf s) (reads s).
Definition set_mode x (s : t) : t :=
  mk (state s) (arm_record s) x (armed_mono s) (expiry_mono s) (last_hb s) (trip_gen s) (registry s)
     (heap s) (revoked s) (completed_q s) (inflight s) (underflows s) (duty s) (fault_code s)
     (fault_history s) (adopted s) (disk s) (fp_checked s) (last_shutdown s) (log s) (rf s) (reads s).
Definition set_armed_mono x (s : t) : t :=
  mk (state s) (arm_record s) (mode s) x (expiry_mono s) (last_hb s) (trip_gen s) (registry s) (heap s)
     (revoked s) (completed_q s) (inflight s) (underflows s) (duty s) (fault_code s) (fault_history s)
     (adopted s) (disk s) (fp_checked s) (last_shutdown s) (log s) (rf s) (reads s).
Definition set_expiry_mono x (s : t) : t :=
  mk (state s) (arm_record s) (mode s) (armed_mono s) x (last_hb s) (trip_gen s) (registry s) (heap s)
     (revoked s) (completed_q s) (inflight s) (underflows s) (duty s) (fault_code s) (fault_history s)
     (adopted s) (disk s) (fp_checked s) (last_shutdown s) (log s) (rf s) (reads s).
Definition set_last_hb x (s : t) : t :=
  mk (state s) (arm_record s) (mode s) (armed_mono s) (expiry_mono s) x (trip_gen s) (registry s)
     (heap s) (revoked s) (completed_q s) (inflight s) (underflows s) (duty s) (fault_code s)
     (fault_history s) (adopted s) (disk s) (fp_checked s) (last_shutdown s) (log s) (rf s) (reads s).
Definition set_trip_gen x (s : t) : t :=
  mk (state s) (arm_record s) (mode s) (armed_mono s) (expiry_mono s) (last_hb s) x (registry s) (heap s)
     (revoked s) (completed_q s) (inflight s) (underflows s) (duty s) (fault_code s) (fault_history s)
     (adopted s) (disk s) (fp_checked s) (last_shutdown s) (log s) (rf s) (reads s).
Definition set_registry x (s : t) : t :=
  mk (state s) (arm_record s) (mode s) (armed_mono s) (expiry_mono s) (last_hb s) (trip_gen s) x (heap s)
     (revoked s) (completed_q s) (inflight s) (underflows s) (duty s) (fault_code s) (fault_history s)
     (adopted s) (disk s) (fp_checked s) (last_shutdown s) (log s) (rf s) (reads s).
Definition set_heap x (s : t) : t :=
  mk (state s) (arm_record s) (mode s) (armed_mono s) (expiry_mono s) (last_hb s) (trip_gen s)
     (registry s) x (revoked s) (completed_q s) (inflight s) (underflows s) (duty s) (fault_code s)
     (fault_history s) (adopted s) (disk s) (fp_checked s) (last_shutdown s) (log s) (rf s) (reads s).
Definition set_revoked x (s : t) : t :=
  mk (state s) (arm_record s) (mode s) (armed_mono s) (expiry_mono s) (last_hb s) (trip_gen s)
     (registry s) (heap s) x (completed_q s) (inflight s) (underflows s) (duty s) (fault_code s)
     (fault_history s) (adopted s) (disk s) (fp_checked s) (last_shutdown s) (log s) (rf s) (reads s).
Definition set_completed_q x (s : t) : t :=
  mk (state s) (arm_record s) (mode s) (armed_mono s) (expiry_mono s) (last_hb s) (trip_gen s)
     (registry s) (heap s) (revoked s) x (inflight s) (underflows s) (duty s) (fault_code s)
     (fault_history s) (adopted s) (disk s) (fp_checked s) (last_shutdown s) (log s) (rf s) (reads s).
Definition set_inflight x (s : t) : t :=
  mk (state s) (arm_record s) (mode s) (armed_mono s) (expiry_mono s) (last_hb s) (trip_gen s)
     (registry s) (heap s) (revoked s) (completed_q s) x (underflows s) (duty s) (fault_code s)
     (fault_history s) (adopted s) (disk s) (fp_checked s) (last_shutdown s) (log s) (rf s) (reads s).
Definition set_underflows x (s : t) : t :=
  mk (state s) (arm_record s) (mode s) (armed_mono s) (expiry_mono s) (last_hb s) (trip_gen s)
     (registry s) (heap s) (revoked s) (completed_q s) (inflight s) x (duty s) (fault_code s)
     (fault_history s) (adopted s) (disk s) (fp_checked s) (last_shutdown s) (log s) (rf s) (reads s).
Definition set_duty x (s : t) : t :=
  mk (state s) (arm_record s) (mode s) (armed_mono s) (expiry_mono s) (last_hb s) (trip_gen s)
     (registry s) (heap s) (revoked s) (completed_q s) (inflight s) (underflows s) x (fault_code s)
     (fault_history s) (adopted s) (disk s) (fp_checked s) (last_shutdown s) (log s) (rf s) (reads s).
Definition set_fault_code x (s : t) : t :=
  mk (state s) (arm_record s) (mode s) (armed_mono s) (expiry_mono s) (last_hb s) (trip_gen s)
     (registry s) (heap s) (revoked s) (completed_q s) (inflight s) (underflows s) (duty s) x
     (fault_history s) (adopted s) (disk s) (fp_checked s) (last_shutdown s) (log s) (rf s) (reads s).
Definition set_fault_history x (s : t) : t :=
  mk (state s) (arm_record s) (mode s) (armed_mono s) (expiry_mono s) (last_hb s) (trip_gen s)
     (registry s) (heap s) (revoked s) (completed_q s) (inflight s) (underflows s) (duty s)
     (fault_code s) x (adopted s) (disk s) (fp_checked s) (last_shutdown s) (log s) (rf s) (reads s).
Definition set_adopted x (s : t) : t :=
  mk (state s) (arm_record s) (mode s) (armed_mono s) (expiry_mono s) (last_hb s) (trip_gen s)
     (registry s) (heap s) (revoked s) (completed_q s) (inflight s) (underflows s) (duty s)
     (fault_code s) (fault_history s) x (disk s) (fp_checked s) (last_shutdown s) (log s) (rf s)
     (reads s).
Definition set_disk x (s : t) : t :=
  mk (state s) (arm_record s) (mode s) (armed_mono s) (expiry_mono s) (last_hb s) (trip_gen s)
     (registry s) (heap s) (revoked s) (completed_q s) (inflight s) (underflows s) (duty s)
     (fault_code s) (fault_history s) (adopted s) x (fp_checked s) (last_shutdown s) (log s) (rf s)
     (reads s).
Definition set_fp_checked x (s : t) : t :=
  mk (state s) (arm_record s) (mode s) (armed_mono s) (expiry_mono s) (last_hb s) (trip_gen s)
     (registry s) (heap s) (revoked s) (completed_q s) (inflight s) (underflows s) (duty s)
     (fault_code s) (fault_history s) (adopted s) (disk s) x (last_shutdown s) (log s) (rf s) (reads s).
Definition set_last_shutdown x (s : t) : t :=
  mk (state s) (arm_record s) (mode s) (armed_mono s) (expiry_mono s) (last_hb s) (trip_gen s)
     (registry s) (heap s) (revoked s) (completed_q s) (inflight s) (underflows s) (duty s)
     (fault_code s) (fault_history s) (adopted s) (disk s) (fp_checked s) x (log s) (rf s) (reads s).
Definition set_log x (s : t) : t :=
  mk (state s) (arm_record s) (mode s) (armed_mono s) (expiry_mono s) (last_hb s) (trip_gen s)
     (registry s) (heap s) (revoked s) (completed_q s) (inflight s) (underflows s) (duty s)
     (fault_code s) (fault_history s) (adopted s) (disk s) (fp_checked s) (last_shutdown s) x (rf s)
     (reads s).
Definition set_rf x (s : t) : t :=
  mk (state s) (arm_record s) (mode s) (armed_mono s) (expiry_mono s) (last_hb s) (trip_gen s)
     (registry s) (heap s) (revoked s) (completed_q s) (inflight s) (underflows s) (duty s)
     (fault_code s) (fault_history s) (adopted s) (disk s) (fp_checked s) (last_shutdown s) (log s) x
     (reads s).
Definition set_reads x (s : t) : t :=
  mk (state s) (arm_record s) (mode s) (armed_mono s) (expiry_mono s) (last_hb s) (trip_gen s)
     (registry s) (heap s) (revoked s) (completed_q s) (inflight s) (underflows s) (duty s)
     (fault_code s) (fault_history s) (adopted s) (disk s) (fp_checked s) (last_shutdown s) (log s)
     (rf s) x.

Abbreviation M := (SE t tx_exc).

(** ** Dictionaries and lists *)
Fixpoint kv_get {V} (k : string) (l : list (string * V)) : option V :=
  match l with
  | [] => None
  | (k', v) :: l => if bool_decide (k' = k) then Some v else kv_get k l
  end.

Fixpoint kv_set {V} (k : string) (v : V) (l : list (string * V)) : list (string * V) :=
  match l with
  | [] => [(k, v)]
  | (k', v') :: l => if bool_decide (k' = k) then (k', v) :: l else (k', v') :: kv_set k v l
  end.

Fixpoint kv_pop {V} (k : string) (l : list (string * V)) : list (string * V) :=
  match l with
  | [] => []
  | (k', v) :: l => if bool_decide (k' = k) then l else (k', v) :: kv_pop k l
  end.

Fixpoint drop_old (horizon : Q) (l : list Q) : list Q :=
  match l with
  | x :: l' => if Qltb x horizon then drop_old horizon l' else l
  | [] => []
  end.

(** What one controller is built with: its policy, what is attached to it, the
    RF model's verdicts (the code of the first error), the backend's answers to
    line writes and the environments it will read. *)
Class Ctx := {
  p : policy;
  has_backend : bool;
  has_rf : bool;
  has_tx_freq : bool;
  has_time_now : bool;
  has_tx_rate : bool;
  is_simulation : bool;
  lna_controllable : bool;              (* of the front-end model *)
  has_tr_switch : bool;
  vswr_from_powers : Q -> Q -> pynum;
  fmt_mhz : Q -> string;                (* "%.6f" of the frequency in MHz *)
  static_errors : list string;
  freq_issues : string -> Q -> Q -> Q -> option string;
  static_power : string -> Q -> Q -> option string;
  burst_power : burst_req -> string -> Q -> Q -> bool -> bool -> option string;
  burst_reflection : burst_req -> Q -> option string;
  spectrum : nat -> Q -> Q -> Q -> Q -> string -> option string;
  rcf : Rf.cfg;
  rio : nat -> Rf.io_result;
  E : nat -> env }.

Section Controller.
Context `{C : Ctx}.

Definition look : M env := s ← get; modify (set_reads (S (reads s)));; mret (E (reads s)).
Definition clock : M Q := e ← look; mret (v_clock e).
Definition emit (ev : event) : M unit := modify (fun s => set_log (log s ++ [ev]) s).

(** A call on the RF control. *)
Definition on_rf {A} (m : Rf.M A) : M A := fun s =>
  match m (rf s) with
  | (r, inl a) => (set_rf r s, inl a)
  | (r, inr _) => (set_rf r s, inr OtherExc)
  end.

Definition armed_or_tx (x : TxState) : bool :=
  match x with ARMED | TRANSMITTING => true | _ => false end.

Definition init (d : Duty.meter) (f : Rf.t) : t :=
  mk (if enabled p then SAFE else DISABLED) None None 0 0 None 0 [] [] [] [] None [] d "" [] false None None
     [] [] f 0.

(** ** Shutdown and trips *)
Definition _revoke (pid reason : string) : M unit :=
  modify (fun s =>
    let r := kv_set pid reason (revoked s) in
    set_revoked (if (4096 <? length r)%nat then drop 1024 r else r) s).

Definition session_of (s : t) : string := match arm_record s with Some r => session_id r | None => "" end.

Definition clear_arm_record : M unit := modify (set_disk None).

Definition _clear_own_record (session : string) : M unit :=
  s ← get;
  if adopted s && negb (match disk s with Some d => bool_decide (session_id d = session) | None => false end)
  then mret tt
  else clear_arm_record.

Definition shut_state (fault : bool) (x : TxState) : TxState :=
  match x with
  | DISABLED => DISABLED
  | FAULT => FAULT
  | _ => if fault then FAULT else SAFE
  end.

Definition mark (reason : string) (fault : bool) : M unit :=
  modify (fun s => set_state (shut_state fault (state s)) s);;
  s ← get;
  for_each (map fst (registry s)) (fun pid => _revoke pid ("shutdown:" +:+ reason));;
  modify (set_registry []);;
  modify (fun s => set_duty (Duty.release_all (duty s)) s);;
  modify (set_inflight None);;
  modify (fun s => match state s with FAULT => s | _ => set_mode None (set_arm_record None s) end).

(** One step in its own [try]; skipped when its target is not attached. *)
Definition step (name : string) (target : bool) (m : M unit) : M unit :=
  ok ← (if target then attempt m else mret true);
  modify (fun s => set_last_shutdown (last_shutdown s ++ [(name, ok)]) s).

Definition outcome (f : env -> bool) : M unit := e ← look; if f e then mret tt else throw OtherExc.

Definition safe_shutdown (reason : string) (fault : bool) : M unit :=
  modify (fun s => set_trip_gen (trip_gen s + 1) s);;
  s0 ← get;
  modify (set_last_shutdown []);;
  step "mark_state" true (mark reason fault);;
  step "tx_abort" has_backend (outcome v_abort_ok);;
  step "tx_gain_min" has_backend (outcome v_gain_ok);;
  step "pa_off" has_rf (on_rf (Rf.pa_enable rcf rio None false (Rf.Grant false false None false)));;
  step "pa_settle" has_rf (on_rf (Rf._sleep rio));;
  step "tr_rx" has_rf (on_rf (Rf.tr_switch rcf rio false));;
  step "tr_guard" has_rf (on_rf (Rf._sleep rio));;
  step "lna_restore" has_rf (on_rf (Rf.restore_lna rcf rio));;
  step "rx_gain_restore" has_rf (on_rf (Rf.restore_rx_gain rcf rio));;
  step "clear_arm_record" true (_clear_own_record (session_of s0));;
  step "event" true (emit (EvShutdown reason)).

Definition trip (code : string) : M unit :=
  modify (fun s => set_trip_gen (trip_gen s + 1) s);;
  modify (fun s => set_fault_history (fault_history s ++ [code]) s);;
  s ← get;
  match state s with
  | DISABLED => emit (EvTrip code);; safe_shutdown ("trip:" +:+ code) false
  | x =>
      when (negb (bool_decide (x = FAULT))) (modify (set_fault_code code));;
      modify (set_state FAULT);;
      emit (EvTrip code);;
      safe_shutdown ("trip:" +:+ code) true
  end.

Definition _on_signal (name : string) : M unit :=
  s ← get;
  if armed_or_tx (state s) then trip "SIGNAL" else safe_shutdown ("signal:" +:+ name) false.

(** A point where a signal handler, or a trip that did not get the lock, runs. *)
Definition point : M unit :=
  e ← look;
  match v_int e with
  | NoInt => mret tt
  | IntTrip code => trip code
  | IntSignal name => _on_signal name
  end.

Definition _refuse {A} (code : string) : M A := throw (SafetyRefusal code).

Definition _trip_raise {A} (code : string) : M A := trip code;; throw (InterlockTrip code).

Definition disarm (reason : string) : M unit :=
  s ← get;
  match state s with
  | ARMED | TRANSMITTING => safe_shutdown reason false;; emit (EvDisarm reason)
  | SAFE => clear_arm_record
  | _ => mret tt
  end.

Definition _raise_interrupted {A} : M A :=
  s ← get;
  match state s with
  | FAULT => throw (InterlockTrip (if bool_decide (fault_code s = "") then "SIGNAL" else fault_code s))
  | _ => _refuse "SEQUENCE"
  end.

Definition _check_not_interrupted (gen0 : Z) : M unit :=
  s ← get; if trip_gen s =? gen0 then mret tt else _raise_interrupted.

Definition _undo_interrupted {A} (session : string) (ent : option nat) : M A :=
  modify (fun s => if armed_or_tx (state s)
                   then set_state (if bool_decide (fault_code s = "") then SAFE else FAULT) s else s);;
  modify (fun s => match ent with
                   | Some o => if bool_decide (inflight s = Some o) then set_inflight None s else s
                   | None => s
                   end);;
  modify (fun s => match state s with FAULT => s | _ => set_mode None (set_arm_record None s) end);;
  modify (fun s => match disk s with
                   | Some d => if bool_decide (session_id d = session) && negb (adopted s)
                               then set_disk None s else s
                   | None => s
                   end);;
  _raise_interrupted.

(** ** Inputs *)
Definition _loop_state (cfgd : bool) (o : option sensor) : option bool :=
  match o with
  | None => if cfgd then Some false else None
  | Some x =>
      if negb (_obj_configured o) && negb cfgd then None
      else Some (match _obj_closed x with Some v => v | None => false end)
  end.

Definition _interlock_state (e : env) : option bool := _loop_state (interlock_cfg p) (v_interlock e).
Definition _dl_state (e : env) : option bool := _loop_state (dummy_load_sense_cfg p) (v_dl e).
Definition _monitor_configured (e : env) : bool := power_monitor_cfg p || _obj_configured (v_monitor e).

Definition _read_telemetry (e : env) : telemetry :=
  match v_monitor e with
  | None => empty_telemetry
  | Some _ => default empty_telemetry (v_tel e)
  end.

(** Chains without a finite value. *)
Definition missing (vals : list (option pynum)) : bool :=
  existsb (fun k => match vals !! k with Some v => bool_decide (_finite_or_none v = None) | None => true end)
    (seq 0 (n_tx p)).

Definition reading (vals : list (option pynum)) (k : nat) : option Q :=
  match vals !! k with Some v => _finite_or_none v | None => None end.

Definition over_reverse (tel : telemetry) : bool :=
  match max_reverse_power_dbm p with
  | None => false
  | Some lim => existsb (fun v => match _finite_or_none v with Some r => Qltb lim r | None => false end) (rev_dbm tel)
  end.

Definition over_vswr (tel : telemetry) : bool :=
  existsb (fun k =>
    match reading (fwd_dbm tel) k, reading (rev_dbm tel) k with
    | Some f, Some r => Qle_bool VSWR_MIN_FWD_DBM f && fgt (vswr_from_powers f r) (max_vswr p)
    | _, _ => false
    end) (seq 0 (Nat.max (length (fwd_dbm tel)) (length (rev_dbm tel)))).

Definition over_temp (tel : telemetry) : bool :=
  existsb (fun v => match _finite_or_none v with Some x => fgt (Fin x) (max_temp_c p) | None => false end) (temp_c tel).

Definition _telemetry_violation (e : env) : option string :=
  if negb (_monitor_configured e) then None
  else
    let tel := _read_telemetry e in
    let vswr_on := isfinite (max_vswr p) && fgt (max_vswr p) (Fin 1) in
    let rev_on := bool_decide (max_reverse_power_dbm p <> None) || vswr_on in
    let temp_on := isfinite (max_temp_c p) in
    if negb (fle (age_s tel) (Fin (telemetry_max_age_s p))) then Some "TELEMETRY_STALE"
    else if rev_on && missing (rev_dbm tel) then Some "TELEMETRY_STALE"
    else if vswr_on && missing (fwd_dbm tel) then Some "TELEMETRY_STALE"
    else if temp_on && (bool_decide (temp_c tel = [])
                        || existsb (fun v => bool_decide (_finite_or_none v = None)) (temp_c tel))
    then Some "TELEMETRY_STALE"
    else if over_reverse tel then Some "REVERSE_POWER"
    else if over_vswr tel then Some "VSWR"
    else if over_temp tel then Some "OVER_TEMP"
    else None.

(** Locked, not locked, or unknown. *)
Definition _ref_state (e : env) : option bool :=
  match v_ref e with
  | RefRaises => Some false
  | RefDict l =>
      if bool_decide (Some false ∈ l) then Some false
      else if bool_decide (l = []) || bool_decide (None ∈ l) then None
      else Some true
  | RefNone => None
  | RefVal b => Some b
  end.

(** The tuned frequency; [None] when it cannot be read. *)
Definition _read_tx_freq (e : env) : option Q := _finite_or_none (v_freq e).

(** [reading]: [None] when there is no provider. *)
Definition _retune_problem (rd : option (option Q)) (s : t) : bool :=
  match rd, arm_record s with
  | Some None, Some _ => true
  | Some (Some v), Some r => Qltb FREQ_TOL_HZ (qabs (v - fc_hz r))
  | _, _ => false
  end.

Definition _adopted_record_problem (s : t) : bool :=
  match adopted s, arm_record s with
  | true, Some own =>
      match disk s with
      | None => true
      | Some d =>
          negb (bool_decide (session_id d = session_id own))
          || negb (bool_decide (fingerprint d = fingerprint own))
          || negb (bool_decide (a_mode d = a_mode own))
          || Qltb FREQ_TOL_HZ (qabs (fc_hz d - fc_hz own))
          || Qltb (expires_unix d) (expires_unix own - (1 # 1000000))
      end
  | _, _ => false
  end.

(** ** Permits *)
Definition entry_at (o : nat) (s : t) : option entry := heap s !! o.

Definition set_consumed (e : entry) : entry :=
  Entry (e_permit e) true (completed e) (duty_at e) (at_offset e) (lna_credit e) (tr_credit e).
Definition set_completed (e : entry) : entry :=
  Entry (e_permit e) (consumed e) true (duty_at e) (at_offset e) (lna_credit e) (tr_credit e).
Definition set_duty_at (q : Q) (e : entry) : entry :=
  Entry (e_permit e) (consumed e) (completed e) q (at_offset e) (lna_credit e) (tr_credit e).

Definition update_entry (o : nat) (f : entry -> entry) : M unit :=
  modify (fun s => set_heap (alter f o (heap s)) s).

Definition _drop_permit (pid reason : string) : M unit :=
  modify (fun s => set_registry (kv_pop pid (registry s)) s);;
  modify (fun s => set_duty (Duty.release pid (duty s)) s);;
  _revoke pid reason.

(** Issued and not consumed, past its deadline. *)
Definition expired (now : Q) (s : t) (o : nat) : bool :=
  match entry_at o s with
  | Some e => negb (consumed e) && Qltb (deadline_mono (e_permit e)) now
  | None => false
  end.

Definition _expire_permits (now : Q) : M unit :=
  s ← get;
  for_each (registry s) (fun po => s ← get; when (expired now s po.2) (_drop_permit po.1 "expired")).

Definition _live_issued (now : Q) (s : t) : bool :=
  existsb (fun po => match entry_at po.2 s with
                     | Some e => negb (consumed e) && Qle_bool now (deadline_mono (e_permit e))
                     | None => false
                     end) (registry s).

(** PA enabled while nothing may transmit: back to RX. *)
Definition _pa_idle_check (now : Q) : M unit :=
  s ← get;
  if negb has_rf || Rf.atr (rf s) then mret tt
  else
    let armed := armed_or_tx (state s) in
    if armed && (bool_decide (inflight s <> None) || pa_hold_between_bursts p) then mret tt
    else if negb (Rf.pa_any_on (rf s)) then mret tt
    else if armed && _live_issued now s then mret tt
    else attempt (on_rf (Rf.sequence_to_rx rcf rio));; mret tt.

Definition _refuse_consume {A} (pid : option string) (code : string) : M A :=
  match pid with Some pid => _drop_permit pid ("refused:" +:+ code) | None => mret tt end;;
  now ← clock;
  _pa_idle_check now;;
  _refuse code.

(** The front end is not in the state the RX protection assumed. *)
Definition _frontend_state_problem (e : entry) (s : t) : bool :=
  if negb has_rf || Rf.atr (rf s) || negb (lna_credit e || tr_credit e) then false
  else (lna_credit e && Rf.lna (rf s)) || (tr_credit e && negb (Rf.tr (rf s))).

Definition _remember_completed (pid : string) : M unit :=
  modify (fun s =>
    let q := if (length (completed_q s) =? 4096)%nat then drop 1 (completed_q s) else completed_q s in
    set_completed_q (q ++ [pid]) s).

Definition _check_underflows (now : Q) : M unit :=
  modify (fun s => set_underflows (drop_old (now - underflow_window_s p) (underflows s)) s);;
  s ← get;
  when ((underflow_trip_count p <=? Z.of_nat (length (underflows s))) && armed_or_tx (state s))
    (modify (set_underflows []);; trip "UNDERFLOW_STORM").

Definition handle_async_events (events : list async) : M unit :=
  now ← clock;
  for_each events (fun ev =>
    s ← get;
    match ev with
    | Underflow => modify (fun s => set_underflows (underflows s ++ [now]) s)
    | RefUnlock => when (armed_or_tx (state s)) (trip "REF_UNLOCK")
    | LoUnlock => when (armed_or_tx (state s)) (trip "LO_UNLOCK")
    | SeqError | OtherEvent => mret tt
    end);;
  _check_underflows now.

(** ** Watchdog *)
Record inputs := Inputs {
  i_il : option bool;
  i_dl : option bool;
  i_tv : option string;
  i_ref : option bool;
  i_freq : option (option Q);
  i_adopt : bool }.

Definition dummy_mode (s : t) : bool := bool_decide (mode s = Some "dummy_load").

Definition _gather_inputs : M inputs :=
  s ← get;
  e ← look;
  mret (Inputs (_interlock_state e)
               (if dummy_mode s then _dl_state e else None)
               (_telemetry_violation e)
               (if require_ref_lock p then _ref_state e else None)
               (if has_tx_freq then Some (_read_tx_freq e) else None)
               (_adopted_record_problem s)).

Definition _revoke_adopted : M unit :=
  safe_shutdown "arm_record_revoked" false;; emit (EvDisarm "arm_record_revoked").

Definition clock_or (now : option Q) : M Q := match now with Some q => mret q | None => clock end.

(** The fingerprint, at most once per [FINGERPRINT_POLL_S]. *)
Definition poll_fingerprint (now : Q) : M unit :=
  s ← get;
  if match fp_checked s with None => true | Some q => Qle_bool FINGERPRINT_POLL_S (now - q) end then
    modify (set_fp_checked (Some now));;
    e ← look;
    s ← get;
    let same := match v_fp e, arm_record s with
                | Some f, Some r => bool_decide (f = fingerprint r)
                | _, _ => false
                end in
    if same then mret tt else disarm "config_changed"
  else mret tt.

(** The decision on one set of inputs: what stops the transmission, if any. *)
Inductive verdict := VOk | VTrip (code : string) | VExpire | VDisarm (reason : string) | VRevoked.

Definition past_deadline (now : Q) (s : t) : bool :=
  match inflight s with
  | Some o => match entry_at o s with Some e => Qltb (deadline_mono (e_permit e)) now | None => false end
  | None => false
  end.

Definition hb_lost (now : Q) (s : t) : bool :=
  match last_hb s with Some h => Qltb (heartbeat_timeout_s p) (now - h) | None => false end.

Definition poll_verdict (now : Q) (i : inputs) (s : t) : verdict :=
  let tx := bool_decide (state s = TRANSMITTING) in
  if tx && past_deadline now s then VTrip "TX_HANG"
  else if Qltb (expiry_mono s) now then (if tx then VTrip "TX_HANG" else VExpire)
  else if hb_lost now s then (if tx then VTrip "HEARTBEAT" else VDisarm "watchdog")
  else if i_adopt i then VRevoked
  else if bool_decide (i_il i = Some false) then VTrip "INTERLOCK_OPEN"
  else if dummy_mode s && bool_decide (i_dl i = Some false) then VTrip "DUMMY_LOAD_LOST"
  else match i_tv i with
  | Some code => VTrip code
  | None =>
      if require_ref_lock p && bool_decide (i_ref i = Some false) then VTrip "REF_UNLOCK"
      else if _retune_problem (i_freq i) s then (if tx then VTrip "FREQ_CHANGED" else VDisarm "retune")
      else VOk
  end.

(** The evaluation under the lock. *)
Definition poll_locked (now : option Q) (inp : inputs) : M unit :=
  point;;
  now ← clock_or now;
  s ← get;
  if negb (armed_or_tx (state s)) then _pa_idle_check now
  else match poll_verdict now inp s with
  | VTrip code => trip code
  | VExpire => emit EvExpire;; disarm "expiry"
  | VDisarm reason => disarm reason
  | VRevoked => _revoke_adopted
  | VOk =>
      _check_underflows now;;
      s ← get;
      if negb (armed_or_tx (state s)) then mret tt
      else _expire_permits now;; _pa_idle_check now;; poll_fingerprint now
  end.

Definition poll (now : option Q) : M unit :=
  s ← get;
  if negb (armed_or_tx (state s)) then now ← clock_or now; _pa_idle_check now
  else inp ← _gather_inputs; poll_locked now inp.

(** ** Consume and complete *)
Definition eqb_state (a b : TxState) : bool := bool_decide (a = b).

(** The registry's entry of exactly this permit object. *)
Definition entry_of (permit : option TxPermit) (s : t) : option (nat * entry) :=
  pm ← permit;
  o ← kv_get (permit_id pm) (registry s);
  e ← entry_at o s;
  if bool_decide (e_permit e = pm) then Some (o, e) else None.

Definition unknown_permit {A} (permit : option TxPermit) (s : t) : M A :=
  match permit with
  | None => _trip_raise "PERMIT_FORGED"
  | Some pm =>
      let pid := permit_id pm in
      if bool_decide (kv_get pid (registry s) <> None) then _trip_raise "PERMIT_FORGED"
      else if bool_decide (pid ∈ completed_q s) then _trip_raise "PERMIT_REUSED"
      else match kv_get pid (revoked s) with
      | Some why => _refuse_consume None (if bool_decide (why = "expired") then "PERMIT_EXPIRED" else "NOT_ARMED")
      | None => _trip_raise "PERMIT_FORGED"
      end
  end.

(** The burst's start: reserved when timed, now otherwise. *)
Definition start_of (now : Q) (e : entry) : Q :=
  if p_start (e_permit e) then duty_at e else now + at_offset e.

(** The commit to TRANSMITTING; a trip or shutdown since [gen0] wins. *)
Definition consume_commit (gen0 : Z) (sess : string) (o : nat) (e : entry) (start : Q) : M unit :=
  let pid := permit_id (e_permit e) in
  s ← get;
  if negb (trip_gen s =? gen0) || negb (eqb_state (state s) ARMED)
     || negb (bool_decide (kv_get pid (registry s) = Some o))
  then _drop_permit pid "interrupted";; _raise_interrupted
  else
    update_entry o set_consumed;; point;;
    update_entry o (set_duty_at start);; point;;
    modify (set_inflight (Some o));; point;;
    modify (set_state TRANSMITTING);; point;;
    s ← get;
    if trip_gen s =? gen0 then
      clk ← clock;
      modify (fun s => set_duty (Duty.record start (duration_s (e_permit e)) (Some pid) (Some clk) (duty s)) s);;
      emit (EvBurstStart o start (duration_s (e_permit e)))
    else _drop_permit pid "interrupted";; _undo_interrupted sess (Some o).

(** The retune check, the watchdog and the duty at the real start. *)
Definition consume_recheck (gen0 : Z) (now : Q) (sess : string) (o : nat) (e : entry) : M unit :=
  let pid := permit_id (e_permit e) in
  rd ← look;
  s ← get;
  if has_tx_freq && _retune_problem (Some (_read_tx_freq rd)) s
  then disarm "retune";; _refuse_consume (Some pid) "FREQ_CHANGED"
  else
    poll (Some now);;
    s ← get;
    if eqb_state (state s) FAULT then throw (InterlockTrip (fault_code s))
    else if negb (eqb_state (state s) ARMED) || negb (bool_decide (kv_get pid (registry s) = Some o))
    then _refuse_consume (Some pid) "NOT_ARMED"
    else if Duty.would_exceed (duration_s (e_permit e)) (start_of now e) (Some pid) (duty s)
    then _refuse_consume (Some pid) "DUTY"
    else if _frontend_state_problem e s then _refuse_consume (Some pid) "SEQUENCE"
    else point;; consume_commit gen0 sess o e (start_of now e).

Definition consume (permit : option TxPermit) : M unit :=
  s0 ← get;
  now ← clock;
  rd ← look;
  s ← get;
  if eqb_state (state s) DISABLED then _refuse "TX_DISABLED"
  else match entry_of permit s with
  | None => unknown_permit permit s
  | Some (o, e) =>
      let pm := e_permit e in
      let pid := permit_id pm in
      if consumed e then _trip_raise "PERMIT_REUSED"
      else if match arm_record s with
              | Some r => negb (bool_decide (p_session pm = session_id r))
              | None => true
              end
      then _trip_raise "PERMIT_FORGED"
      else if negb (bool_decide (v_sha rd (samples pm) = digest pm)) then _trip_raise "DIGEST"
      else if Qltb (deadline_mono pm) now then _refuse_consume (Some pid) "PERMIT_EXPIRED"
      else if eqb_state (state s) TRANSMITTING then _refuse "SEQUENCE"
      else if negb (eqb_state (state s) ARMED) then _refuse_consume (Some pid) "NOT_ARMED"
      else consume_recheck (trip_gen s0) now (session_of s) o e
  end.

(** For a permit, or for the arm record of a held PA. *)
Definition permit_active (permit : option TxPermit) (now : Q) (s : t) : bool :=
  armed_or_tx (state s) &&
  match arm_record s, entry_of permit s with
  | Some r, Some (o, e) =>
      negb (completed e) && bool_decide (p_session (e_permit e) = session_id r)
      && Qle_bool now (deadline_mono (e_permit e))
  | _, _ => false
  end.

Definition record_active (r : ArmRecord) (s : t) : bool :=
  armed_or_tx (state s) && bool_decide (arm_record s = Some r) && pa_hold_between_bursts p.

Definition n_bad (r : result) : nat :=
  let n := (n_underflows r + n_late r)%nat in
  if content_corrupt r && (n =? 0)%nat then 1%nat else n.

Definition finish_entry (pid : string) (o : nat) : M unit :=
  modify (fun s => set_registry (kv_pop pid (registry s)) s);;
  update_entry o set_completed;;
  _remember_completed pid.

(** Back to ARMED unless a trip or shutdown ran since [gen0]. *)
Definition complete_state (gen0 : Z) : M unit :=
  s ← get;
  if eqb_state (state s) TRANSMITTING && (trip_gen s =? gen0) then
    point;;
    modify (set_state ARMED);;
    point;;
    modify (fun s => if negb (trip_gen s =? gen0) && eqb_state (state s) ARMED
                     then set_state (if bool_decide (fault_code s = "") then SAFE else FAULT) s else s)
  else mret tt.

Definition burst_complete (permit : option TxPermit) (res : option result) : M unit :=
  s0 ← get;
  now ← clock;
  s ← get;
  match entry_of permit s with
  | None => mret tt
  | Some (o, e) =>
      let pid := permit_id (e_permit e) in
      if negb (consumed e) then _drop_permit pid "completed_unconsumed";; _pa_idle_check now
      else if negb (bool_decide (inflight s = Some o)) then finish_entry pid o
      else
        finish_entry pid o;;
        modify (set_inflight None);;
        modify (fun s => set_underflows (underflows s ++ replicate (default 0%nat (n_bad <$> res)) now) s);;
        emit (EvBurstDone pid);;
        match res with
        | Some r => when (negb (bool_decide (events r = []))) (handle_async_events (events r))
        | None => mret tt
        end;;
        point;;
        _check_underflows now;;
        complete_state (trip_gen s0);;
        s ← get;
        if eqb_state (state s) ARMED then
          (if negb (pa_hold_between_bursts p) && has_rf && negb (Rf.atr (rf s))
           then attempt (on_rf (Rf.sequence_to_rx rcf rio));; mret tt else mret tt);;
          when (Qltb (expiry_mono s) now) (emit EvExpire;; disarm "expiry")
        else mret tt
  end.

(** ** Arming *)

(** [rf.sequence_to_tx]; the RF control asks [permit_active] and trips. *)
Definition rf_to_tx (active : bool) (chans : option (list Z)) : M unit :=
  let g := Rf.Grant true active chans false in
  cs ← on_rf (Rf._resolve_chans rcf chans);
  if Rf._authorized rcf cs g then on_rf (Rf.sequence_to_tx rcf rio g)
  else when (Rf.has_safety rcf) (trip "SEQUENCE");; throw OtherExc.

Definition need (b : bool) (code : string) : M unit := if b then mret tt else _refuse code.
Definition no_error (o : option string) : M unit := match o with Some code => _refuse code | None => mret tt end.

(** [op = (operator or p.operator_cfg or "").strip()] *)
Definition operator_of (r : arm_req) : string :=
  of_chars (strip (to_chars (if bool_decide (r_operator r = "") then operator_cfg p else r_operator r))).

Definition nonzero (o : option Q) : option Q :=
  match o with Some q => if Qeq_bool q 0 then None else Some q | None => None end.

Definition occ_of (r : arm_req) : Q := default (occupied_bw_hz p None) (nonzero (r_occupied r)).

Definition dur_of (r : arm_req) : Q :=
  match nonzero (r_duration r) with Some d => Duty.qmin d (arm_timeout_s p) | None => arm_timeout_s p end.

(** A6: errors no later check covers, and those that only radiate defers. *)
Definition deferred_radiate (m : string) : list string :=
  filter (fun c => c = "TX_RADIATE" /\ m = "radiate") static_errors.
Definition config_errors (m : string) : list string :=
  filter (fun c => c ∉ _LATER_CODES /\ ~ (c = "TX_RADIATE" /\ m = "radiate")) static_errors.

(** A7: [abs(cur - fc) > FREQ_TOL_HZ] *)
Definition detuned (cur : pynum) (fc : Q) : bool :=
  match cur with Fin c => Qltb FREQ_TOL_HZ (qabs (c - fc)) | NaN => false | _ => true end.

(** A1 to A6; the fingerprint of the model the checks use. *)
Definition arm_checks_config (r : arm_req) : M string :=
  s ← get;
  match state s with
  | DISABLED => _refuse "TX_DISABLED"
  | FAULT => _refuse "FAULT_LATCHED"
  | ARMED | TRANSMITTING => _refuse "ALREADY_ARMED"
  | SAFE => mret tt
  end;;
  need (bool_decide (r_mode r ∈ TX_MODES) && bool_decide (r_mode r ∈ allowed_modes p)) "MODE_NOT_ALLOWED";;
  need (negb (bool_decide (r_mode r = "radiate") && negb (r_tty r))) "CONFIRMATION_TTY_REQUIRED";;
  need (bool_decide (r_confirmation r = Some (ack_phrase fmt_mhz (r_mode r) (r_fc r)))) "CONFIRMATION";;
  need (negb (bool_decide (operator_of r = ""))) "NO_OPERATOR";;
  need (negb (is_simulation && negb (backend_sim p))) "BACKEND";;
  e ← look;
  fp ← match v_model e with Some fp => mret fp | None => _refuse "CONFIG_CHANGED" end;
  need (bool_decide (config_errors (r_mode r) = [])) "CONFIG_INVALID";;
  mret fp.

(** A7 to A15 *)
Definition arm_checks_rf (r : arm_req) : M unit :=
  let radiate := bool_decide (r_mode r = "radiate") in
  e ← look;
  (if has_tx_freq then
     match v_freq e with
     | None => _refuse "FREQ_CHANGED"
     | Some cur => need (negb (detuned cur (r_fc r))) "FREQ_CHANGED"
     end
   else mret tt);;
  no_error (freq_issues (r_mode r) (r_fc r) (occ_of r) (fs_cfg_hz p));;
  when (require_ref_lock p) (need (bool_decide (_ref_state e = Some true)) "REF_UNLOCK");;
  when (r_beamformed r || (1 <? n_tx p)%nat)
    (need (v_sync e) "NO_SYNC";; need (2 <=? v_coherence e) "COHERENCE_CLASS");;
  need (negb (bool_decide (_interlock_state e = None) && radiate)) "INTERLOCK_REQUIRED";;
  need (negb (bool_decide (_interlock_state e = Some false))) "INTERLOCK_OPEN";;
  when (bool_decide (r_mode r = "dummy_load"))
    (need (negb (bool_decide (_dl_state e = Some false))) "DUMMY_LOAD";;
     need (forallb (fun x => Qltb 0 x) (dummy_load_rating_w p)) "DUMMY_LOAD");;
  need (negb (radiate && require_power_monitor_for_radiate p && negb (_monitor_configured e))) "NO_POWER_MONITOR";;
  no_error (_telemetry_violation e);;
  no_error (static_power (r_mode r) (r_fc r) (occ_of r));;
  need (negb (radiate && r_beamformed r && negb (v_cal e))) "CAL_REQUIRED";;
  need (bool_decide (deferred_radiate (r_mode r) = [])) "CONFIG_INVALID".

Definition clear_permits : M unit :=
  modify (set_registry []);;
  modify (fun s => set_duty (Duty.release_all (duty s)) s).

(** What arming writes before the state, with a signal handler possible
    between the statements. *)
Definition arm_write (gen0 : Z) (now dur : Q) (rec : ArmRecord) : M unit :=
  _check_not_interrupted gen0;;
  point;;
  e ← look;
  need (v_write_ok e) "CONFIG_INVALID";;
  modify (set_disk (Some rec));;
  point;;
  modify (set_arm_record (Some rec));;
  modify (set_mode (Some (a_mode rec)));;
  modify (set_armed_mono now);;
  modify (set_expiry_mono (now + dur));;
  modify (set_last_hb (Some now));;
  modify (set_fp_checked (Some now));;
  point;;
  clear_permits;;
  modify (set_underflows []);;
  modify (set_adopted false);;
  point.

Definition arm_commit (gen0 : Z) (now dur : Q) (rec : ArmRecord) : M unit :=
  arm_write gen0 now dur rec;;
  modify (set_state ARMED);;
  point;;
  s ← get;
  if trip_gen s =? gen0 then mret tt else _undo_interrupted (session_id rec) None.

(** The PA held on for the whole session. *)
Definition arm_hold (rec : ArmRecord) : M unit :=
  s ← get;
  if pa_hold_between_bursts p && has_rf && negb (Rf.atr (rf s)) then
    catch (rf_to_tx (record_active rec s) None)
          (fun _ => trip "SEQUENCE";; throw (InterlockTrip "SEQUENCE"));;
    point;;
    s' ← get;
    if trip_gen s' =? trip_gen s then mret tt
    else safe_shutdown "trip_during_sequencing" (eqb_state (state s') FAULT);; _raise_interrupted
  else mret tt.

Definition arm (r : arm_req) : M ArmRecord :=
  s0 ← get;
  fp ← arm_checks_config r;
  point;;
  arm_checks_rf r;;
  e ← look;
  let dur := dur_of r in
  need (Qltb 0 dur) "ARM_TOTAL";;
  match v_fp e with
  | None => throw OtherExc
  | Some f => need (bool_decide (f = fp)) "CONFIG_CHANGED"
  end;;
  let rec := Arm (v_uuid e) (r_mode r) (operator_of r) (r_fc r) (occ_of r) (v_wall e) (v_wall e + dur) fp
                 (r_flowgraph r) (r_waveform r) (r_max_bursts r) in
  point;;
  arm_commit (trip_gen s0) (v_clock e) dur rec;;
  emit (EvArm (session_id rec));;
  point;;
  arm_hold rec;;
  mret rec.

(** The arming process's record, adopted by the flowgraph's own controller. *)
Definition _adopt (model_fp : option string) (rec : ArmRecord) : M unit :=
  need (enabled p) "TX_DISABLED";;
  need (bool_decide (model_fp = Some (fingerprint rec))) "CONFIG_CHANGED";;
  e ← look;
  let span := (expires_unix rec - armed_unix rec)%Q in
  need (Qltb 0 span && negb (Qltb (max_arm_total_s p + (1 # 1000000)) span)) "ARM_TOTAL";;
  let remaining := Duty.qmin (Duty.qmin (expires_unix rec - v_wall e) (arm_timeout_s p))
                             (armed_unix rec + max_arm_total_s p - v_wall e) in
  need (Qltb 0 remaining) "ARM_EXPIRED";;
  modify (set_arm_record (Some rec));;
  modify (set_mode (Some (a_mode rec)));;
  modify (set_armed_mono (v_clock e - Duty.qmax 0 (v_wall e - armed_unix rec)));;
  modify (set_expiry_mono (v_clock e + remaining));;
  modify (set_last_hb (Some (v_clock e)));;
  modify (set_fp_checked (Some (v_clock e)));;
  modify (set_adopted true);;
  modify (set_state ARMED).

Definition _check_expiry_heartbeat (now : Q) : M unit :=
  s ← get;
  if negb (eqb_state (state s) ARMED) then mret tt
  else if Qltb (expiry_mono s) now then emit EvExpire;; disarm "expiry";; _refuse "ARM_EXPIRED"
  else if hb_lost now s then disarm "watchdog";; _refuse "WATCHDOG"
  else mret tt.

Definition with_expiry (q : Q) (r : ArmRecord) : ArmRecord :=
  Arm (session_id r) (a_mode r) (operator r) (fc_hz r) (occupied_hz r) (armed_unix r) q (fingerprint r)
      (flowgraph_sha256 r) (waveform_sha256 r) (max_bursts r).

Definition CAP_TOL : Q := 1 # 1000000000.

Definition refresh : M ArmRecord :=
  s ← get;
  match state s with
  | DISABLED => _refuse "TX_DISABLED"
  | SAFE | FAULT => _refuse "NOT_ARMED"
  | ARMED | TRANSMITTING => mret tt
  end;;
  now ← clock;
  _check_expiry_heartbeat now;;
  s ← get;
  let cap := (armed_mono s + max_arm_total_s p)%Q in
  need (negb (Qle_bool (cap - CAP_TOL) now || Qle_bool (cap - CAP_TOL) (expiry_mono s))) "ARM_TOTAL";;
  let expiry := Duty.qmax (expiry_mono s) (Duty.qmin (now + arm_timeout_s p) cap) in
  modify (set_expiry_mono expiry);;
  e ← look;
  match arm_record s with
  | None => throw OtherExc
  | Some r =>
      let rec := with_expiry (v_wall e + (expiry - now)) r in
      point;;
      s1 ← get;
      w ← look;
      (if v_write_ok w then modify (set_disk (Some rec)) else throw OtherExc);;
      point;;
      s2 ← get;
      if negb (trip_gen s2 =? trip_gen s1) || negb (armed_or_tx (state s2)) then
        _clear_own_record (session_id rec);; _raise_interrupted
      else
        modify (set_arm_record (Some rec));;
        modify (set_last_hb (Some now));;
        mret rec
  end.

Definition heartbeat : M unit := now ← clock; modify (set_last_hb (Some now)).

(** ** Per-burst authorization *)
Definition _expected_fs : M Q :=
  if has_tx_rate then
    e ← look;
    match v_rate e with
    | Some (Fin v) => if Qltb 0 v then mret v else _refuse "SHAPE"
    | _ => _refuse "SHAPE"
    end
  else mret (fs_cfg_hz p).

(** [(lna_on, T/R in tx, lna_credit, tr_credit)] *)
Definition _b9_state : bool * bool * bool * bool :=
  if negb has_rf then (true, negb has_tr_switch, false, false)
  else
    let lna_on := negb (lna_off_during_tx p) in
    (lna_on, true, negb lna_on && lna_controllable, has_tr_switch).

(** B1 *)
Definition auth_armed (now : Q) : M ArmRecord :=
  s ← get;
  match state s with
  | DISABLED => _refuse "TX_DISABLED"
  | FAULT => _refuse "FAULT_LATCHED"
  | SAFE => _refuse "NOT_ARMED"
  | ARMED | TRANSMITTING => mret tt
  end;;
  let idle := eqb_state (state s) ARMED in
  (if Qltb (expiry_mono s) now
   then when idle (emit EvExpire;; disarm "expiry");; _refuse "ARM_EXPIRED" else mret tt);;
  (if bool_decide (last_hb s = None) || hb_lost now s
   then when idle (disarm "watchdog");; _refuse "WATCHDOG" else mret tt);;
  (if _adopted_record_problem s then _revoke_adopted;; _refuse "NOT_ARMED" else mret tt);;
  e ← look;
  match v_fp e, arm_record s with
  | Some f, Some r =>
      if bool_decide (f = fingerprint r) then mret r
      else when idle (disarm "config_changed");; _refuse "CONFIG_CHANGED"
  | _, _ => throw OtherExc
  end.

(** Per-chain limits have [n_tx] entries. *)
Definition at_chain (l : list Q) (c : Z) : Q := nth (Z.to_nat c) l 0%Q.

(** B4 for one chain *)
Definition gain_ok (c : Z) (g : pynum) : bool :=
  match g with
  | Fin g =>
      Qle_bool g (at_chain (max_tx_gain_db p) c + (1 # 1000000000))
      && Qle_bool (at_chain (tx_gain_min_db p) c - (1 # 1000000000)) g
      && Qle_bool g (at_chain (tx_gain_max_db p) c + (1 # 1000000000))
  | _ => false
  end.

Definition fin_or (d : Q) (x : pynum) : Q := match x with Fin q => q | _ => d end.

(** A burst that passed B2 to B5. *)
Record shaped := Shaped {
  f_chains : list Z;
  f_fs : Q;
  f_tmo : Q;
  f_at_off : Q;
  f_flowgraph : bool;
  f_gains : list Q;
  f_dur : Q }.

(** B2: chains, buffer and numbers *)
Definition auth_shape (b : burst_req) (adopted_now : bool) : M shaped :=
  cs ← match q_chains b with Some cs => mret cs | None => _refuse "SHAPE" end;
  need (negb (bool_decide (cs = [])) && bool_decide (NoDup cs)
        && forallb (fun c => (0 <=? c) && (c <? Z.of_nat (n_tx p))) cs) "SHAPE";;
  need (q_numeric b && (q_rows b =? length cs)%nat && (1 <=? q_cols b)) "SHAPE";;
  fs ← match q_fs b with Fin x => if Qltb 0 x then mret x else _refuse "SHAPE" | _ => _refuse "SHAPE" end;
  want ← _expected_fs;
  need (Qle_bool (qabs (fs - want)) (FS_REL_TOL * want)) "SHAPE";;
  tmo ← match q_timeout b with Fin x => if Qle_bool 0 x then mret x else _refuse "SHAPE" | _ => _refuse "SHAPE" end;
  off ← match q_at_offset b with Fin x => mret (Duty.qmax 0 x) | _ => _refuse "SHAPE" end;
  let flowgraph := bool_decide (q_purpose b = "flowgraph") && adopted_now in
  need (negb (Qltb 0 off && negb flowgraph)) "SHAPE";;
  need (q_finite b) "NONFINITE";;
  (* B3 *)
  need (forallb (fun x => Qle_bool x (max_digital_amplitude p * (1 + (1 # 1000000000000)))) (q_pk128 b)
        && forallb (fun x => Qle_bool x (max_digital_amplitude p * (1 + F32_REL_TOL))) (q_pk64 b)) "AMPLITUDE";;
  need (forallb (fun x => Qle_bool x DAC_FULL_SCALE) (q_isp b)) "AMPLITUDE";;
  (* B4 *)
  gs ← match q_gains b with Some gs => mret gs | None => _refuse "GAIN" end;
  need ((length gs =? length cs)%nat && forallb (fun gc => gain_ok gc.2 gc.1) (combine gs cs)) "GAIN";;
  (* B5 *)
  let dur := (inject_Z (q_cols b) / fs)%Q in
  need (Qle_bool dur (max_burst_s p * (1 + (1 # 1000000000000)))) "BURST_LENGTH";;
  mret (Shaped cs fs (Duty.qmin tmo (heartbeat_timeout_s p)) off flowgraph (map (fin_or 0) gs) dur).

(** B11: the lead of a timed burst *)
Definition auth_start (now : Q) (b : burst_req) (f : shaped) : M Q :=
  s ← get;
  match q_start b with
  | NotDevTime => _refuse "START_TIME"
  | At lead =>
      need has_time_now "START_TIME";;
      match lead with
      | Some (Fin lead) =>
          need (Qle_bool (Duty.qmax (min_start_lead_s p) (min_tx_lead_s p) - (1 # 1000000000000)) lead) "START_TIME";;
          need (Qle_bool (now + lead + f_dur f) (expiry_mono s)) "START_TIME";;
          mret lead
      | _ => _refuse "START_TIME"
      end
  | Untimed =>
      need (is_simulation || f_flowgraph f || negb (has_time_now || has_backend)) "START_TIME";;
      need (Qle_bool (now + f_at_off f + f_dur f) (expiry_mono s)) "START_TIME";;
      mret 0%Q
  end.

Definition timed (b : burst_req) : bool := match q_start b with Untimed => false | _ => true end.

(** The burst's centre: the tuned frequency when it can be read (B12). *)
Definition auth_freq (b : burst_req) (r : ArmRecord) : M Q :=
  arg ← match q_fc b with
        | None => mret None
        | Some (Fin q) => mret (Some q)
        | Some _ => _refuse "FREQ_CHANGED"
        end;
  fc ← (if has_tx_freq then
          e ← look;
          match _read_tx_freq e with
          | None => _refuse "FREQ_CHANGED"
          | Some cur =>
              need (match arg with Some a => negb (Qltb FREQ_TOL_HZ (qabs (a - cur))) | None => true end) "FREQ_CHANGED";;
              mret cur
          end
        else mret (default (fc_cfg_hz p) arg));
  need (negb (Qltb FREQ_TOL_HZ (qabs (fc - fc_hz r)))) "FREQ_CHANGED";;
  mret fc.

(** B7 to B12 on the final buffer *)
Definition auth_rf (b : burst_req) (r : ArmRecord) (f : shaped) (fc : Q) : M unit :=
  s ← get;
  let m := default "" (mode s) in
  let occ := occupied_bw_hz p (Some (f_fs f)) in
  let '(lna_on, tr_tx, _, _) := _b9_state in
  no_error (burst_power b m fc occ lna_on tr_tx);;
  no_error (burst_reflection b fc);;
  e ← look;
  need (negb (bool_decide (m = "radiate") && (q_weights b || (1 <? length (f_chains f))%nat) && negb (v_cal e)))
    "CAL_REQUIRED";;
  let a_lo := (fc_hz r - occupied_hz r / 2)%Q in
  let a_hi := (fc_hz r + occupied_hz r / 2)%Q in
  need (Qle_bool (a_lo - FREQ_TOL_HZ) (fc - occ / 2) && Qle_bool (fc + occ / 2) (a_hi + FREQ_TOL_HZ)) "FREQ_CHANGED";;
  no_error (spectrum (q_buf b) (f_fs f) fc (Duty.qmax a_lo (fc - occ / 2)) (Duty.qmin a_hi (fc + occ / 2)) m).

(** Registering a permit; never across a trip or shutdown. *)
Definition register (gen0 : Z) (o : nat) (ent : entry) : M unit :=
  let pid := permit_id (e_permit ent) in
  modify (fun s => set_heap (heap s ++ [ent]) s);;
  modify (fun s => set_registry (kv_set pid o (registry s)) s);;
  point;;
  modify (fun s => set_duty (Duty.reserve pid (duty_at ent) (duration_s (e_permit ent)) (duty s)) s);;
  point;;
  s ← get;
  if trip_gen s =? gen0 then mret tt else _drop_permit pid "interrupted";; _raise_interrupted.

Definition issue (gen0 : Z) (now lead duty_start fc : Q) (b : burst_req) (f : shaped) : M TxPermit :=
  s ← get;
  if negb (trip_gen s =? gen0) || negb (armed_or_tx (state s)) then _raise_interrupted
  else
    e ← look;
    let deadline := (now + lead + Duty.qmax 1 (2 * f_dur f + f_tmo f))%Q in
    let pm := Permit (length (heap s)) (v_uuid e) (session_of s) (q_buf b) (f_chains f) fc (f_fs f) (f_gains f)
                     (timed b) (f_dur f) (v_sha e (q_buf b)) now deadline (q_purpose b) in
    let '(_, _, lna_c, tr_c) := _b9_state in
    register gen0 (length (heap s)) (Entry pm false false duty_start (f_at_off f) lna_c tr_c);;
    mret pm.

Definition authorize_burst (b : burst_req) : M TxPermit :=
  s0 ← get;
  now ← clock;
  _expire_permits now;;
  r ← auth_armed now;
  s ← get;
  f ← auth_shape b (adopted s);
  lead ← auth_start now b f;
  s ← get;
  let duty_start := (now + (if timed b then lead else f_at_off f))%Q in
  need (negb (Duty.would_exceed (f_dur f) duty_start None (duty s))) "DUTY";;
  fc ← auth_freq b r;
  auth_rf b r f fc;;
  point;;
  issue (trip_gen s0) now lead duty_start fc b f.

(** ** Reset, process hooks, session *)
Definition reset_checks (who confirmation : string) : M string :=
  s ← get;
  match state s with
  | DISABLED => _refuse "TX_DISABLED"
  | FAULT => mret tt
  | _ => _refuse "SEQUENCE"
  end;;
  need (negb (bool_decide (strip (to_chars who) = []))) "NO_OPERATOR";;
  need (bool_decide (confirmation = reset_phrase (fault_code s))) "CONFIRMATION";;
  e ← look;
  need (negb (bool_decide (_interlock_state e = Some false))) "INTERLOCK_OPEN";;
  match _telemetry_violation e with
  | Some code => need (bool_decide (code = "TELEMETRY_STALE")) code
  | None => mret tt
  end;;
  need (negb (require_ref_lock p && bool_decide (_ref_state e = Some false))) "REF_UNLOCK";;
  mret (fault_code s).

Definition reset_fault (who confirmation : string) : M unit :=
  code ← reset_checks who confirmation;
  safe_shutdown "fault_reset" false;;
  point;;
  modify (set_state SAFE);;
  modify (set_arm_record None);;
  modify (set_mode None);;
  modify (set_fault_code "");;
  emit (EvReset code).

Definition _on_exit : M unit :=
  s ← get;
  if armed_or_tx (state s) then trip "EXIT_WHILE_ARMED"
  else when (has_backend || has_rf) (safe_shutdown "exit" false).

(** The [finally] of [session()]. *)
Definition session_end : M unit :=
  s ← get;
  if eqb_state (state s) FAULT then safe_shutdown "session_end" false
  else
    disarm "session_end";;
    s ← get;
    when (negb (eqb_state (state s) SAFE)) (safe_shutdown "session_end" false).

(** One round of the watchdog thread; an exception is a trip. *)
Definition watchdog_round (hb : bool) : M unit :=
  catch (when hb heartbeat;; poll None) (fun _ => trip "EXCEPTION").

(** ** Flowgraph guard *)
Definition check_waveform (rec : ArmRecord) (checked : Z) (b : burst_req) (sent_ok : result) : M (TxPermit * Z) :=
  need (negb ((max_bursts rec <=? 0) || (max_bursts rec <=? checked))) "ARM_TOTAL";;
  heartbeat;;
  poll None;;
  pm ← authorize_burst b;
  consume (Some pm);;
  burst_complete (Some pm) (Some sent_ok);;
  mret (pm, checked + 1).

(** The files' digests are [None] when a file cannot be read; the guard's
    controller starts from [init] and adopts the record. *)
Definition flowgraph_guard (tx_enabled : bool) (fs : pynum) (fp : string) (fg_sha wf_sha : option string)
    (n_bursts : option Z) (model_fp : option string) : M ArmRecord :=
  need tx_enabled "TX_DISABLED";;
  need (match fs with Fin x => Qle_bool (qabs (x - fs_cfg_hz p)) (FS_REL_TOL * fs_cfg_hz p) | _ => false end) "SHAPE";;
  s ← get;
  match disk s with
  | None => _refuse "NOT_ARMED"
  | Some rec =>
      need (bool_decide (fp = fingerprint rec)) "CONFIG_CHANGED";;
      match fg_sha, wf_sha with
      | Some fg, Some wf =>
          need (negb (bool_decide (flowgraph_sha256 rec = "")) && bool_decide (flowgraph_sha256 rec = fg)) "DIGEST";;
          need (negb (bool_decide (waveform_sha256 rec = "")) && bool_decide (waveform_sha256 rec = wf)) "DIGEST"
      | _, _ => _refuse "DIGEST"
      end;;
      e ← look;
      need (Qltb (v_wall e) (expires_unix rec)) "ARM_EXPIRED";;
      need (negb ((max_bursts rec <=? 0)
                  || match n_bursts with Some n => max_bursts rec <? n | None => false end)) "ARM_TOTAL";;
      _adopt model_fp rec;;
      mret rec
  end.

(** ** Runs *)
Inductive op :=
  | OArm (r : arm_req) | ORefresh | OHeartbeat | ODisarm (reason : string)
  | OAuthorize (b : burst_req) | OConsume (permit : option TxPermit)
  | OComplete (permit : option TxPermit) (res : option result)
  | OAsync (evs : list async) | OPoll (now : option Q) | OWatchdog (hb : bool)
  | OTrip (code : string) | OShutdown (reason : string) | OReset (who confirmation : string)
  | OSignal (name : string) | OExit | OSessionEnd
  | OSeqTx (permit : TxPermit) | OSeqRx.

(** The runner's own sequencing of the RF lines for a permit. *)
Definition seq_tx (pm : TxPermit) : M unit :=
  now ← clock;
  s ← get;
  when has_rf (rf_to_tx (permit_active (Some pm) now s) (Some (chains pm))).

Definition exec (o : op) : M unit :=
  match o with
  | OArm r => arm r;; mret tt
  | ORefresh => refresh;; mret tt
  | OHeartbeat => heartbeat
  | ODisarm reason => disarm reason
  | OAuthorize b => authorize_burst b;; mret tt
  | OConsume permit => consume permit
  | OComplete permit res => burst_complete permit res
  | OAsync evs => handle_async_events evs
  | OPoll now => poll now
  | OWatchdog hb => watchdog_round hb
  | OTrip code => trip code
  | OShutdown reason => safe_shutdown reason false
  | OReset who confirmation => reset_fault who confirmation
  | OSignal name => _on_signal name
  | OExit => _on_exit
  | OSessionEnd => session_end
  | OSeqTx pm => seq_tx pm
  | OSeqRx => when has_rf (on_rf (Rf.sequence_to_rx rcf rio))
  end.

Fixpoint runs (ops : list op) (s : t) : t :=
  match ops with
  | [] => s
  | o :: ops => runs ops (exec o s).1
  end.

End Controller.

End Tx.
