(* ===== verification/TxSample.v ===== *)
(** * A transmit session of the controller

    A small station (simulated backend, one gpio-switched front end, dummy load)
    on which the theorems about the controller are instantiated, and the runs
    that show two corner cases of the code. *)
From S2P Require Import Prelude StateErr PyText TxDuty RfControl TxSafety.

Module TxSample.
Import Tx.

Definition station : policy :=
  Policy true true "op" 915000000 1000000 2 ["dummy_load"; "cabled"] 200000 60 600 5 (8 # 10)
    [20%Q; 20%Q] [0%Q; 0%Q] [30%Q; 30%Q] (1 # 2) [50%Q; 50%Q] (Some 10%Q) (Fin 3) (Fin 80) true 5 10 true
    (1 # 1000) (1 # 1000) true false 1 true false false.

Definition closed_loop : sensor := Sensor (Conf true) (Closed (Some true)).

(** What is read at the n-th reading, with the given interruption. *)
Definition reading_at (int : nat -> interruption) (freq : pynum) (n : nat) : env :=
  Env (inject_Z (Z.of_nat n) / 1000) (inject_Z (Z.of_nat n) / 1000) (int n) (Some closed_loop) None None None
    (RefVal true) (Some freq) None (Some "fp") (Some "fp") "u" (fun _ => "sha") true true true true 3 true.

Definition bench (int : nat -> interruption) (freq : pynum) : Ctx := {|
  p := station; has_backend := true; has_rf := true; has_tx_freq := true; has_time_now := false;
  has_tx_rate := false; is_simulation := true; lna_controllable := true; has_tr_switch := true;
  vswr_from_powers := fun _ _ => Fin 1; fmt_mhz := fun _ => "915.000000"; static_errors := [];
  freq_issues := fun _ _ _ _ => None; static_power := fun _ _ _ => None;
  burst_power := fun _ _ _ _ _ _ => None; burst_reflection := fun _ _ => None;
  spectrum := fun _ _ _ _ _ _ => None; rcf := Rf.sample_cfg; rio := fun _ => Rf.IoOk;
  E := reading_at int freq |}.

Definition quiet_bench : Ctx := bench (fun _ => NoInt) (Fin 915000000).

Definition meter : Duty.meter := Duty.Meter 10 (1 # 10) [] [].
Definition start_state {C : Ctx} : t := init meter (Rf.init rcf [20%Q]).

Definition arming : arm_req :=
  AReq "dummy_load" 915000000 (Some "ARM DUMMY_LOAD 915.000000 MHz") "op" false None None false "" "" 0.

Definition burst : burst_req :=
  BReq (Some [0; 1]) true 2 1000 true 7 [1 # 2; 1 # 2] [1 # 2; 1 # 2] [1 # 2; 1 # 2] (Some [Fin 10; Fin 10])
    (Fin 1000000) (Fin 1) (Fin 0) Untimed None false "operate".

(** The permit of the first authorized burst. *)
Definition first_permit {C : Ctx} : option TxPermit :=
  match (authorize_burst burst (exec (OArm arming) start_state).1).2 with inl pm => Some pm | inr _ => None end.

Definition session_ops {C : Ctx} : list op :=
  [OArm arming; OAuthorize burst]
  ++ match first_permit with Some pm => [OSeqTx pm; OConsume (Some pm)] | None => [] end.

Definition transmitting : t := @runs quiet_bench (@session_ops quiet_bench) (@start_state quiet_bench).

Lemma session_runs :
  state transmitting = TRANSMITTING /\ Rf.pa_hot Rf.sample_cfg (rf transmitting) = true /\
  state (@runs quiet_bench [OComplete (@first_permit quiet_bench) None; ODisarm "operator"] transmitting) = SAFE.
Proof. vm_compute. done. Qed.

(** [reset_fault] has no generation guard: a trip that runs between its
    shutdown and its write of SAFE is overwritten. *)
Definition tripped_reset : Ctx :=
  bench (fun n => if (n =? 5)%nat then IntTrip "INTERLOCK_OPEN" else NoInt) (Fin 915000000).

Lemma reset_overwrites_trip :
  let s := @runs tripped_reset [OTrip "VSWR"; OReset "op" "RESET FAULT VSWR"] (@start_state tripped_reset) in
  fault_history s = ["VSWR"; "INTERLOCK_OPEN"] /\ state s = SAFE /\ fault_code s = "".
Proof. vm_compute. done. Qed.

(** The tuned frequency NaN passes the comparison of A7; an unreadable one does
    not, and a burst is refused with either. *)
Definition nan_bench : Ctx := bench (fun _ => NoInt) NaN.

Lemma nan_frequency_arms :
  state (@exec nan_bench (OArm arming) (@start_state nan_bench)).1 = ARMED /\
  (@authorize_burst nan_bench burst (@exec nan_bench (OArm arming) (@start_state nan_bench)).1).2
    = inr (SafetyRefusal "FREQ_CHANGED").
Proof. vm_compute. done. Qed.

End TxSample.
