(* ===== verification/TxInvariants.v ===== *)
(** * What the TX safety controller guarantees

    Two layers.  [shutdown_spec] and [trip_spec] give the outcome of the
    fail-safe sequence whatever fails inside it.  [calm] is a preorder on
    states: along it nothing is armed, no latch is undone, no burst starts and
    the front end stays as safe as it was; every method moves along it except
    in the three critical sections that write ARMED or TRANSMITTING, which are
    treated on their own with the generation counter.  The theorems then hold
    for every sequence of calls, every reading of the environment and every
    interleaving of trips and signals with the critical sections. *)
From S2P Require Import Prelude StateErr PyText TxDuty RfControl TxSafety TxSample.

Module TxInv.
Import Tx.

(** The bursts started, in order, with the entry they consumed. *)
Definition started (l : list event) : list (nat * Duty.burst) :=
  omap (fun ev => match ev with EvBurstStart o start dur => Some (o, (start, dur)) | _ => None end) l.

Lemma started_app l k : started (l ++ k) = started l ++ started k.
Proof. apply omap_app. Qed.

(** ** Dictionaries *)
Lemma kv_get_in {V} k (l : list (string * V)) v : kv_get k l = Some v -> (k, v) ∈ l.
Proof.
  induction l as [|[k' v'] l IH]; cbn; [done|]. case_bool_decide as H; [|set_solver].
  intros [= ->]. subst. set_solver.
Qed.

Lemma kv_pop_fst {V} k (l : list (string * V)) x : x ∈ map fst (kv_pop k l) -> x ∈ map fst l.
Proof. induction l as [|[k' v'] l IH]; cbn; [done|]. case_bool_decide; set_solver. Qed.

Lemma kv_pop_nodup {V} k (l : list (string * V)) : NoDup (map fst l) -> NoDup (map fst (kv_pop k l)).
Proof.
  induction l as [|[k' v'] l IH]; cbn; [done|]. intros [Hn Hd]%list.NoDup_cons.
  case_bool_decide; [done|]. cbn. apply list.NoDup_cons. split; [|by apply IH]. by intros ?%kv_pop_fst.
Qed.

Lemma kv_pop_in {V} k (l : list (string * V)) x :
  NoDup (map fst l) -> x ∈ kv_pop k l -> x ∈ l /\ x.1 <> k.
Proof.
  induction l as [|[k' v'] l IH]; cbn; [set_solver|]. intros [Hn Hd]%list.NoDup_cons.
  case_bool_decide as Hk.
  - intros Hx. split; [set_solver|]. intros Hx1. apply Hn. rewrite Hk, <- Hx1. apply list_elem_of_fmap. by exists x.
  - intros [->|Hx]%elem_of_cons; [split; [set_solver | done]|]. destruct (IH Hd Hx). split; [set_solver | done].
Qed.

Lemma kv_set_fst {V} k v (l : list (string * V)) x : x ∈ map fst (kv_set k v l) -> x = k \/ x ∈ map fst l.
Proof. induction l as [|[k' v'] l IH]; cbn; [set_solver|]. case_bool_decide; set_solver. Qed.

Lemma kv_set_nodup {V} k v (l : list (string * V)) : NoDup (map fst l) -> NoDup (map fst (kv_set k v l)).
Proof.
  induction l as [|[k' v'] l IH]; cbn; [intros _; apply list.NoDup_singleton|]. intros [Hn Hd]%list.NoDup_cons.
  case_bool_decide; cbn; apply list.NoDup_cons; (split; [|auto]); [done|]. by intros [?|?]%kv_set_fst.
Qed.

Lemma kv_set_in {V} k v (l : list (string * V)) x :
  NoDup (map fst l) -> x ∈ kv_set k v l -> x = (k, v) \/ (x ∈ l /\ x.1 <> k).
Proof.
  induction l as [|[k' v'] l IH]; cbn; [set_solver|]. intros [Hn Hd]%list.NoDup_cons. case_bool_decide as Hk.
  - intros [->|Hx]%elem_of_cons; [left; by subst|]. right. split; [set_solver|].
    intros Hx1. apply Hn. rewrite Hk, <- Hx1. apply list_elem_of_fmap. by exists x.
  - intros [->|Hx]%elem_of_cons; [right; split; [set_solver | done]|]. destruct (IH Hd Hx); set_solver.
Qed.

Lemma res_pop_other k k' b (l : list (string * Duty.burst)) : (k', b) ∈ l -> k' <> k -> (k', b) ∈ Duty.res_pop k l.
Proof. induction l as [|[k0 b0] l IH]; cbn; [set_solver|]. case_bool_decide; set_solver. Qed.

Lemma res_set_other k k' b b' (l : list (string * Duty.burst)) :
  (k', b) ∈ l -> k' <> k -> (k', b) ∈ Duty.res_set k b' l.
Proof. induction l as [|[k0 b0] l IH]; cbn; [set_solver|]. case_bool_decide; set_solver. Qed.

Lemma res_set_same k b (l : list (string * Duty.burst)) : (k, b) ∈ Duty.res_set k b l.
Proof. induction l as [|[k0 b0] l IH]; cbn; [set_solver|]. case_bool_decide; set_solver. Qed.

Section Inv.
Context `{C : Ctx}.

(** The fault code is there exactly while the fault is latched. *)
Definition latched (s : t) : Prop := state s = FAULT <-> fault_code s <> "".

(** The front end's own invariant, and no PA on unless armed. *)
Definition rf_safe (s : t) : Prop :=
  Rf.lines_ok rcf /\ Rf.inv rcf (rf s) /\
  (armed_or_tx (state s) = true \/ Rf.quieted rcf rio (rf s)) /\
  (has_rf = false -> Rf.quieted rcf rio (rf s)).

Definition same_entry (e e' : entry) : Prop :=
  e_permit e' = e_permit e /\ consumed e' = consumed e /\ duty_at e' = duty_at e /\ at_offset e' = at_offset e.

Definition heap_kept (s s' : t) : Prop :=
  forall o e, heap s !! o = Some e -> exists e', heap s' !! o = Some e' /\ same_entry e e'.

(** The duty meter has admitted exactly the bursts started, the last before
    [T], and holds a reservation for every permit not yet consumed. *)
Record duty_ok (w d T : Q) (s : t) : Prop := {
  du_admitted : Duty.admitted w d (duty s) (map snd (started (log s))) T;
  du_keys : NoDup (map fst (registry s));
  du_entry : forall pid o, (pid, o) ∈ registry s -> exists e, heap s !! o = Some e /\
    permit_id (e_permit e) = pid /\ (0 <= duration_s (e_permit e))%Q /\ (0 <= at_offset e)%Q /\
    (consumed e = false -> (pid, (duty_at e, duration_s (e_permit e))) ∈ Duty.reservations (duty s)) }.

(** The control part: nothing is armed, a shutdown leaves the controller
    unarmed, the latches hold. *)
Record ctl (s s' : t) : Prop := {
  ctl_gen : trip_gen s <= trip_gen s';
  ctl_still : trip_gen s' = trip_gen s -> state s' = state s;
  ctl_off : trip_gen s' <> trip_gen s -> armed_or_tx (state s') = false;
  ctl_fault : state s = FAULT -> state s' = FAULT;
  ctl_disabled : state s = DISABLED <-> state s' = DISABLED;
  ctl_latched : latched s -> latched s';
  ctl_rf : rf_safe s -> rf_safe s' }.

(** And no burst starts, no permit is consumed. *)
Record calm (s s' : t) : Prop := {
  calm_ctl : ctl s s';
  calm_started : started (log s') = started (log s);
  calm_heap : heap_kept s s';
  calm_duty : forall w d T, duty_ok w d T s -> duty_ok w d T s';
  calm_reads : (reads s <= reads s')%nat }.

#[export] Instance ctl_pre : PreOrder ctl.
Proof.
  split; [by split|]. intros s1 s2 s3 [] []. split; auto; try lia; try tauto.
  - intros H. rewrite ctl_still1, ctl_still0 by lia. done.
  - intros H. destruct (decide (trip_gen s3 = trip_gen s2)); [|auto]. rewrite ctl_still1 by done. apply ctl_off0. lia.
Qed.

#[export] Instance calm_pre : PreOrder calm.
Proof.
  split.
  - intros s. split; auto; try done. intros o e He. exists e. by repeat split.
  - intros s1 s2 s3 [] []. split; [by etrans | congruence | | auto | lia].
    intros o e He. destruct (calm_heap0 o e He) as (e' & He' & Hs).
    destruct (calm_heap1 o e' He') as (e'' & ? & Hs'). exists e''. split; [done|].
    unfold same_entry in *. intuition congruence.
Qed.

(** Nothing of the state machine or the permits changes. *)
Record frame (s s' : t) : Prop := {
  fr_state : state s' = state s;
  fr_gen : trip_gen s' = trip_gen s;
  fr_registry : registry s' = registry s;
  fr_heap : heap s' = heap s;
  fr_duty : duty s' = duty s;
  fr_inflight : inflight s' = inflight s;
  fr_record : arm_record s' = arm_record s;
  fr_code : fault_code s' = fault_code s;
  fr_started : started (log s') = started (log s);
  fr_reads : (reads s <= reads s')%nat;
  fr_rf : Rf.lines_ok rcf -> Rf.inv rcf (rf s) -> Rf.inv rcf (rf s');
  fr_quiet : Rf.lines_ok rcf -> Rf.inv rcf (rf s) -> Rf.quieted rcf rio (rf s) -> Rf.quieted rcf rio (rf s') }.

#[export] Instance frame_pre : PreOrder frame.
Proof.
  split; [by split; auto|]. intros s1 s2 s3 [] []. split; try congruence; auto; lia.
Qed.

Lemma frame_calm s s' : frame s s' -> calm s s'.
Proof.
  intros []. split; [|done| | |done].
  - split; unfold latched, rf_safe; rewrite ?fr_state0, ?fr_gen0, ?fr_code0; try done; try lia.
    intros (Hl & Hi & Hq & Hn). split_and!; [auto | auto | destruct Hq; auto | auto].
  - intros o e He. exists e. rewrite fr_heap0. by repeat split.
  - intros w d T []. split; rewrite ?fr_duty0, ?fr_started0, ?fr_registry0, ?fr_heap0; done.
Qed.

Lemma frame_on_rf {A} (m : Rf.M A) :
  (Rf.lines_ok rcf -> Rf.invT rcf m) ->
  (Rf.lines_ok rcf -> forall s, Rf.inv rcf s -> Rf.quieted rcf rio s -> Rf.quieted rcf rio (m s).1) ->
  pres frame (on_rf m).
Proof.
  intros Hi Hc s. unfold on_rf. destruct (m (rf s)) as [r [a|e]] eqn:Em; (split; try done; cbn; intros Hl H).
  1, 3: specialize (Hi Hl (rf s) H); by rewrite Em in Hi.
  all: intros Hq; specialize (Hc Hl (rf s) H Hq); by rewrite Em in Hc.
Qed.

Lemma frame_look : pres frame look.
Proof. intros s. unfold look. se_unfold. split; cbn; auto; lia. Qed.

Lemma frame_emit ev : started [ev] = [] -> pres frame (emit ev).
Proof.
  intros H s. unfold emit. se_unfold. split; cbn; auto. by rewrite started_app, H, app_nil_r.
Qed.

Lemma frame_outcome f : pres frame (outcome f).
Proof. unfold outcome. apply pres_bind; [apply _ | apply frame_look | intros e]. repeat pres_step. Qed.

(** Changes of the fields [frame] does not mention. *)
Ltac fr_modify := apply pres_modify; intros ?; repeat case_goal; split; cbn; auto.

#[local] Hint Resolve frame_look frame_emit frame_outcome : pres.
Ltac framed := repeat first [pres_step | fr_modify; fail].

Lemma frame_revoke pid reason : pres frame (_revoke pid reason).
Proof. unfold _revoke. framed. Qed.

Lemma frame_step name target m : pres frame m -> pres frame (step name target m).
Proof. intros H. unfold step. framed. Qed.

Lemma frame_clear session : pres frame (_clear_own_record session).
Proof. unfold _clear_own_record, clear_arm_record. framed. Qed.

#[local] Hint Resolve frame_revoke frame_step frame_clear : pres.

(** The lines other than the PA's. *)
Lemma frame_line (m : Rf.M unit) :
  (Rf.lines_ok rcf -> forall ps, Rf.keep rcf ps m) -> pres (Rf.calmer rcf rio) m -> pres frame (on_rf m).
Proof.
  intros Hk Hc. apply frame_on_rf.
  - intros Hl. apply Rf.keep_inv. auto.
  - intros _ s _. apply Hc.
Qed.

Lemma frame_sleep : pres frame (on_rf (Rf._sleep rio)).
Proof. apply frame_line; [intros _ ps; apply Rf.keep_sleep | apply Rf.calm_sleep]. Qed.

Lemma frame_tr_rx : pres frame (on_rf (Rf.tr_switch rcf rio false)).
Proof. apply frame_line; [intros Hl ps; by apply Rf.keep_tr | apply Rf.calm_tr]. Qed.

Lemma frame_restore_lna : pres frame (on_rf (Rf.restore_lna rcf rio)).
Proof. apply frame_line; [intros Hl ps; by apply Rf.keep_restore_lna | apply Rf.calm_restore_lna]. Qed.

Lemma frame_restore_gain : pres frame (on_rf (Rf.restore_rx_gain rcf rio)).
Proof. apply frame_line; [intros Hl ps; by apply Rf.keep_restore_gain | apply Rf.calm_restore_gain]. Qed.

Lemma frame_pa_off : pres frame (on_rf (Rf.pa_enable rcf rio None false (Rf.Grant false false None false))).
Proof.
  apply frame_on_rf; intros Hl; [by apply Rf.inv_pa_off|].
  intros s [[Hlen _] _] _. by apply Rf.pa_off_quiets.
Qed.

#[local] Hint Resolve frame_sleep frame_tr_rx frame_restore_lna frame_restore_gain frame_pa_off : pres.

(** ** The fail-safe sequence *)
Lemma step_ok name target m s : (step name target m s).2 = inl tt.
Proof. unfold step, attempt. se_unfold. destruct target; [|done]. by destruct (m s) as [? []]. Qed.

(** A step never raises: the sequence goes on from its state. *)
Lemma step_seq {A} name target m (k : M A) s : (step name target m;; k) s = k (step name target m s).1.
Proof.
  unfold mbind, SE_bind. pose proof (step_ok name target m s) as H.
  destruct (step name target m s) as [s' r]. cbn in H. by subst.
Qed.

(** What the sequence leaves, whatever failed in it. *)
Record shut (fault : bool) (s s' : t) : Prop := {
  sh_state : state s' = shut_state fault (state s);
  sh_gen : trip_gen s' = trip_gen s + 1;
  sh_registry : registry s' = [];
  sh_heap : heap s' = heap s;
  sh_duty : duty s' = Duty.release_all (duty s);
  sh_inflight : inflight s' = None;
  sh_record : arm_record s' = match state s' with FAULT => arm_record s | _ => None end;
  sh_code : fault_code s' = fault_code s;
  sh_started : started (log s') = started (log s);
  sh_reads : (reads s <= reads s')%nat;
  sh_rf : Rf.lines_ok rcf -> Rf.inv rcf (rf s) -> Rf.inv rcf (rf s');
  sh_quiet : Rf.lines_ok rcf -> Rf.inv rcf (rf s) ->
    (has_rf = false -> Rf.quieted rcf rio (rf s)) -> Rf.quieted rcf rio (rf s') }.

Lemma shut_frame fault s s1 s2 : shut fault s s1 -> frame s1 s2 -> shut fault s s2.
Proof. intros [] []. split; try congruence; auto; try (rewrite fr_state0; congruence); lia. Qed.

(** The marking alone, before the front end is switched. *)
Definition marked (fault : bool) (s s' : t) : Prop :=
  state s' = shut_state fault (state s) /\ trip_gen s' = trip_gen s /\ registry s' = [] /\ heap s' = heap s /\
  duty s' = Duty.release_all (duty s) /\ inflight s' = None /\
  arm_record s' = match state s' with FAULT => arm_record s | _ => None end /\
  fault_code s' = fault_code s /\ log s' = log s /\ reads s' = reads s /\ rf s' = rf s.

Definition only_revoked (s s' : t) : Prop := exists r, s' = set_revoked r s.

#[local] Instance only_revoked_pre : PreOrder only_revoked.
Proof.
  split; [intros []; eexists; reflexivity|]. intros s1 s2 s3 [r ->] [r' ->]. by exists r'.
Qed.

Lemma revoke_all l why : pres only_revoked (for_each l (fun pid => _revoke pid why)).
Proof. apply pres_for_each; [apply _|]. intros pid s. unfold _revoke. se_unfold. eexists. reflexivity. Qed.

Lemma for_each_ok {A} (l : list A) body (s : t) :
  (forall x s, (body x s).2 = inl tt) -> (for_each l body s).2 = (inl tt : unit + tx_exc).
Proof.
  intros H. revert s. induction l as [|x l IH]; intros s; [done|]. cbn. unfold mbind, SE_bind.
  specialize (H x s). destruct (body x s) as [s' r]. cbn in H. subst. apply IH.
Qed.

Lemma mark_spec reason fault s : marked fault s (mark reason fault s).1.
Proof.
  unfold mark. se_unfold. set (s1 := set_state _ s).
  pose proof (revoke_all (map fst (registry s1)) ("shutdown:" +:+ reason) s1) as [r Hr].
  pose proof (for_each_ok (map fst (registry s1)) (fun pid => _revoke pid ("shutdown:" +:+ reason)) s1
                ltac:(done)) as Hok.
  destruct (for_each _ _ s1) as [s2 [[]|e]]; [|done]. cbn in Hr. subst s2. cbn.
  unfold marked. destruct (shut_state fault (state s)); cbn; by split_and!.
Qed.

Lemma shutdown_mark reason fault s :
  marked fault s (step "mark_state" true (mark reason fault) s).1.
Proof.
  pose proof (mark_spec reason fault s) as H. unfold step, attempt. se_unfold.
  by destruct (mark reason fault s) as [s' [a|e]].
Qed.

Lemma shutdown_pa s1 s2 :
  s2 = (step "pa_off" has_rf (on_rf (Rf.pa_enable rcf rio None false (Rf.Grant false false None false))) s1).1 ->
  frame s1 s2 /\
  (Rf.lines_ok rcf -> Rf.inv rcf (rf s1) -> (has_rf = false -> Rf.quieted rcf rio (rf s1)) ->
   Rf.quieted rcf rio (rf s2)).
Proof.
  intros ->. split; [apply frame_step, frame_pa_off|]. intros Hl Hi Hq.
  unfold step, attempt, on_rf. se_unfold. destruct has_rf; [|by apply Hq].
  pose proof (Rf.pa_off_quiets rcf rio Hl (rf s1) (proj1 (proj1 Hi))) as H. cbn [Rf.pa_enable].
  by destruct (Rf.pa_off rcf rio None (rf s1)) as [r [a|e]].
Qed.

(** One more step of the sequence that only touches what [frame] leaves free. *)
Ltac next_step s F :=
  match goal with |- context [(step ?n ?tg ?m ?s0).1] =>
    is_var s0; assert (frame s0 (step n tg m s0).1) as F by (apply frame_step; auto using frame_emit, eq_refl with pres nocore);
    revert F; generalize (step n tg m s0).1; intros s F end.

Lemma shutdown_spec reason fault s :
  shut fault s (safe_shutdown reason fault s).1 /\ (safe_shutdown reason fault s).2 = inl tt.
Proof.
  remember (safe_shutdown reason fault s) as x eqn:Ex.
  unfold safe_shutdown in Ex. unfold modify at 1 in Ex. unfold mbind at 1, SE_bind at 1 in Ex.
  unfold get at 1 in Ex. unfold mbind at 1, SE_bind at 1 in Ex.
  unfold modify at 1 in Ex. unfold mbind at 1, SE_bind at 1 in Ex.
  set (s0 := set_last_shutdown [] _) in Ex. rewrite !step_seq in Ex. subst x.
  pose proof (shutdown_mark reason fault s0) as Hm. revert Hm. generalize (step "mark_state" true (mark reason fault) s0).1.
  intros s1 (Hst & Hg & Hr & Hh & Hd & Hi & Ha & Hc & Hl & Hn & Hf). split; [|apply step_ok].
  next_step s2 F2. next_step s3 F3.
  match goal with |- context [(step "pa_off" ?t ?m s3).1] => remember (step "pa_off" t m s3).1 as s4 eqn:E4 end.
  destruct (shutdown_pa _ _ E4) as [F4 Hq4]. clear E4.
  next_step s5 F5. next_step s6 F6. next_step s7 F7. next_step s8 F8. next_step s9 F9. next_step s10 F10. next_step s11 F11.
  assert (frame s4 s11) as Ftail by (do 7 (etrans; [eassumption|]); done).
  assert (frame s1 s3) as Fhead by (by etrans).
  apply (shut_frame _ _ s4); [|done]. clear - Hst Hg Hr Hh Hd Hi Ha Hc Hl Hn Hf Fhead F4 Hq4.
  assert (frame s1 s4) as [] by (by etrans). destruct Fhead. subst s0. cbn in *. rewrite Hf in *.
  split; try congruence; auto.
  rewrite fr_state0. congruence.
Qed.

(** *** The order of its steps *)
Definition side (s s' : t) : Prop := last_shutdown s' = last_shutdown s /\ adopted s' = adopted s.

#[local] Instance side_pre : PreOrder side.
Proof. split; [by split|]. unfold side. intros s1 s2 s3 [] []. split; congruence. Qed.

Ltac sideways := repeat first [pres_step | apply pres_modify; intros ?; repeat case_goal; split; reflexivity].

Lemma side_mark reason fault : pres side (mark reason fault).
Proof. unfold mark, _revoke. sideways. Qed.

Lemma side_outcome f : pres side (outcome f).
Proof. unfold outcome, look. sideways. Qed.

Lemma side_rf {A} (m : Rf.M A) : pres side (on_rf m).
Proof. intros s. unfold on_rf. by destruct (m (rf s)) as [r []]. Qed.

Lemma side_clear session : pres side (_clear_own_record session).
Proof. unfold _clear_own_record, clear_arm_record. sideways. Qed.

Lemma side_emit ev : pres side (emit ev).
Proof. unfold emit. sideways. Qed.

Lemma step_side name target m s :
  pres side m ->
  map fst (last_shutdown (step name target m s).1) = map fst (last_shutdown s) ++ [name] /\
  adopted (step name target m s).1 = adopted s.
Proof.
  intros H. unfold step, attempt. se_unfold. destruct target; [|cbn; by rewrite map_app].
  destruct (H s) as [H1 H2]. destruct (m s) as [s1 [a|e]]; cbn in *; by rewrite map_app, H1.
Qed.

Definition SHUTDOWN_STEPS : list string :=
  ["mark_state"; "tx_abort"; "tx_gain_min"; "pa_off"; "pa_settle"; "tr_rx"; "tr_guard"; "lna_restore";
   "rx_gain_restore"; "clear_arm_record"; "event"].

Lemma clear_disk session s :
  adopted s = false -> disk (step "clear_arm_record" true (_clear_own_record session) s).1 = None.
Proof.
  intros Ha. unfold step, attempt, _clear_own_record, clear_arm_record. se_unfold. by rewrite Ha.
Qed.

Lemma emit_disk name ev s : disk (step name true (emit ev) s).1 = disk s.
Proof. by unfold step, attempt, emit; se_unfold. Qed.

(** The next step's name is recorded. *)
Ltac next_name s :=
  match goal with |- context [(step ?n ?tg ?m ?s0).1] =>
    is_var s0; let H := fresh in pose proof (step_side n tg m s0 ltac:(auto using side_mark, side_outcome, @side_rf, side_clear, side_emit)) as H;
    revert H; generalize (step n tg m s0).1; intros s [? ?] end.

Lemma shutdown_order reason fault s :
  map fst (last_shutdown (safe_shutdown reason fault s).1) = SHUTDOWN_STEPS /\
  (adopted s = false -> disk (safe_shutdown reason fault s).1 = None).
Proof.
  remember (safe_shutdown reason fault s) as x eqn:Ex.
  unfold safe_shutdown in Ex. unfold modify at 1 in Ex. unfold mbind at 1, SE_bind at 1 in Ex.
  unfold get at 1 in Ex. unfold mbind at 1, SE_bind at 1 in Ex.
  unfold modify at 1 in Ex. unfold mbind at 1, SE_bind at 1 in Ex.
  remember (set_last_shutdown [] _) as s0 eqn:E0 in Ex. rewrite !step_seq in Ex. subst x.
  assert (last_shutdown s0 = [] /\ adopted s0 = adopted s) as [Hl Ha] by (by subst).
  generalize (session_of (set_trip_gen (trip_gen s + 1) s)). intros session. clear E0.
  next_name s1. next_name s2. next_name s3. next_name s4. next_name s5. next_name s6.
  next_name s7. next_name s8. next_name s9. split.
  - destruct (step_side "clear_arm_record" true _ s9 (side_clear session)) as [Hc _].
    destruct (step_side "event" true _ (step "clear_arm_record" true (_clear_own_record session) s9).1
                (side_emit (EvShutdown reason))) as [He _].
    rewrite He, Hc. repeat match goal with H : map fst _ = _ |- _ => rewrite H; clear H end. by rewrite Hl.
  - intros Hs. rewrite emit_disk. apply clear_disk. congruence.
Qed.

(** ** Trips *)

(** The fault code may wait for the state inside a critical section. *)
Definition half_latched (s : t) : Prop :=
  (state s = FAULT -> fault_code s <> "") /\
  (fault_code s <> "" -> state s = FAULT \/ armed_or_tx (state s) = true).

Lemma latched_half s : latched s -> half_latched s.
Proof. intros [H1 H2]. split; auto. Qed.

(** Everything a shutdown or a trip stops. *)
Record stopped (s s' : t) : Prop := {
  st_gen : trip_gen s < trip_gen s';
  st_off : armed_or_tx (state s') = false;
  st_registry : registry s' = [];
  st_heap : heap s' = heap s;
  st_duty : duty s' = Duty.release_all (duty s);
  st_inflight : inflight s' = None;
  st_started : started (log s') = started (log s);
  st_reads : (reads s <= reads s')%nat;
  st_fault : state s = FAULT -> state s' = FAULT;
  st_disabled : state s = DISABLED <-> state s' = DISABLED;
  st_rf : Rf.lines_ok rcf -> Rf.inv rcf (rf s) -> Rf.inv rcf (rf s');
  st_quiet : Rf.lines_ok rcf -> Rf.inv rcf (rf s) ->
    (has_rf = false -> Rf.quieted rcf rio (rf s)) -> Rf.quieted rcf rio (rf s') }.

Lemma stopped_calm s s' : stopped s s' -> (latched s -> latched s') -> calm s s'.
Proof.
  intros [] Hl. split; auto.
  - split; auto; try lia. intros (? & ? & ? & ?). unfold rf_safe. split_and!; auto.
  - intros o e He. exists e. rewrite st_heap0. by repeat split.
  - intros w d T []. split; rewrite ?st_duty0, ?st_started0, ?st_registry0; [by constructor | constructor | set_solver].
Qed.

Lemma shut_stopped fault s s' : shut fault s s' -> stopped s s'.
Proof.
  intros []. split; auto; try lia.
  - rewrite sh_state0. destruct (state s), fault; done.
  - intros H. by rewrite sh_state0, H.
  - rewrite sh_state0. destruct (state s), fault; done.
Qed.

Lemma shut_latched s s' :
  shut false s s' -> half_latched s -> (armed_or_tx (state s) = true -> fault_code s = "") -> latched s'.
Proof.
  intros [] [H1 H2] H3. unfold latched. rewrite sh_state0, sh_code0.
  destruct (state s); cbn in *; split; try done; auto; intros Hc; destruct (H2 Hc) as [?|?]; try done; by destruct Hc; auto.
Qed.

(** The state in which [trip] runs the fail-safe sequence. *)
Definition trip_pre (code : string) (s : t) : t :=
  let s1 := set_fault_history (fault_history s ++ [code]) (set_trip_gen (trip_gen s + 1) s) in
  set_log (log s ++ [EvTrip code])
    (match state s with
     | DISABLED => s1
     | FAULT => set_state FAULT s1
     | _ => set_state FAULT (set_fault_code code s1)
     end).

Lemma trip_eq code s :
  trip code s = safe_shutdown ("trip:" +:+ code) (negb (eqb_state (state s) DISABLED)) (trip_pre code s).
Proof.
  unfold trip, emit, trip_pre, when. se_unfold.
  change (state (set_fault_history _ _)) with (state s). by destruct (state s) eqn:Es.
Qed.

Lemma trip_spec code s :
  code <> "" ->
  stopped s (trip code s).1 /\ (half_latched s -> latched (trip code s).1) /\ (trip code s).2 = inl tt.
Proof.
  intros Hcode. rewrite trip_eq. set (f := negb _).
  destruct (shutdown_spec ("trip:" +:+ code) f (trip_pre code s)) as [Hs Hok]. rewrite Hok.
  destruct (safe_shutdown _ _ _) as [s' r]. cbn [fst snd] in *. clear Hok.
  pose proof (shut_stopped _ _ _ Hs) as []. destruct Hs as [Hst _ _ _ _ _ _ Hc _ _ _ _].
  unfold trip_pre in *. split; [|split; [|done]].
  - destruct (state s) eqn:Es; split; cbn in *; auto; try lia; try congruence;
      first [rewrite st_started0, started_app; apply app_nil_r | rewrite Hst, ?Es; cbn; done].
  - intros [H1 H2]. unfold latched. rewrite Hst, Hc. destruct (state s) eqn:Es; cbn in *; rewrite ?Es; cbn;
      split; try done; try (by auto); intros Hn; destruct (H2 Hn); congruence.
Qed.

(** ** Methods that only move along [calm] *)
Hypothesis Hcodes : forall n code, v_int (E n) = IntTrip code -> code <> "".

Lemma pres_frame {A} (m : M A) : pres frame m -> pres calm m.
Proof. intros H s. apply frame_calm, H. Qed.

Lemma calm_same s s' :
  state s' = state s -> trip_gen s' = trip_gen s -> fault_code s' = fault_code s -> rf s' = rf s ->
  started (log s') = started (log s) -> heap_kept s s' -> reads s' = reads s ->
  registry s' = registry s -> duty s' = duty s -> calm s s'.
Proof.
  intros Hst Hg Hc Hr Hl Hh Hn Hreg Hd. split; [|done|done| |lia].
  2:{ intros w d T []. split; rewrite ?Hd, ?Hl, ?Hreg; try done. intros pid o Hin.
      destruct (du_entry0 pid o Hin) as (e & He & Hrest). destruct (Hh o e He) as (e' & He' & H1 & H2 & H3 & H4).
      exists e'. by rewrite H1, H2, H3, H4. }
  split; unfold latched, rf_safe; rewrite ?Hst, ?Hg, ?Hc, ?Hr; try done; lia.
Qed.

Lemma heap_kept_refl s s' : heap s' = heap s -> heap_kept s s'.
Proof. intros H o e He. exists e. rewrite H. by repeat split. Qed.

Lemma calm_shutdown reason : pres calm (safe_shutdown reason false).
Proof.
  intros s. destruct (shutdown_spec reason false s) as [Hs _]. apply stopped_calm; [by eapply shut_stopped|].
  intros Hl. eapply shut_latched; [done | by apply latched_half|]. destruct Hl as [_ Hl].
  intros Ha. destruct (decide (fault_code s = "")) as [|Hn]; [done|]. apply Hl in Hn. by rewrite Hn in Ha.
Qed.

Lemma calm_trip code : code <> "" -> pres calm (trip code).
Proof.
  intros Hc s. destruct (trip_spec code s Hc) as (Hs & Hl & _). apply stopped_calm; [done|].
  intros ?. by apply Hl, latched_half.
Qed.

#[local] Hint Extern 1 (_ <> _) => discriminate : pres.
#[local] Hint Resolve calm_shutdown calm_trip : pres.

(** Changes of the fields [calm] does not mention. *)
Ltac calm_modify :=
  apply pres_modify; intros ?; repeat case_goal; apply calm_same; cbn; try reflexivity;
  apply heap_kept_refl; reflexivity.
Ltac calmly := repeat first [pres_step | calm_modify].

Lemma calm_look : pres calm look.
Proof. apply pres_frame, frame_look. Qed.

Lemma calm_emit ev : started [ev] = [] -> pres calm (emit ev).
Proof. intros H. by apply pres_frame, frame_emit. Qed.

Lemma calm_revoke pid reason : pres calm (_revoke pid reason).
Proof. apply pres_frame, frame_revoke. Qed.

Lemma calm_seq_rx : pres calm (on_rf (Rf.sequence_to_rx rcf rio)).
Proof.
  apply pres_frame, frame_on_rf; intros Hl; [by apply Rf.inv_sequence_to_rx|].
  intros s Hi _. by apply Rf.sequence_to_rx_quiets.
Qed.

Lemma calm_clear session : pres calm (_clear_own_record session).
Proof. apply pres_frame, frame_clear. Qed.

#[local] Hint Resolve calm_look calm_emit calm_revoke calm_seq_rx calm_clear eq_refl : pres.

Lemma calm_clock : pres calm clock.
Proof. unfold clock. calmly. Qed.

Lemma calm_on_signal name : pres calm (_on_signal name).
Proof. unfold _on_signal. calmly. Qed.

#[local] Hint Resolve calm_clock calm_on_signal : pres.

Lemma calm_point : pres calm point.
Proof.
  intros s. unfold point, look. se_unfold. set (s1 := set_reads _ s).
  assert (calm s s1) as H by (apply (calm_look s)). etrans; [exact H|].
  destruct (v_int _) eqn:Ei; [reflexivity| |apply calm_on_signal]. apply calm_trip. by eapply Hcodes.
Qed.

(** An interruption never raises. *)
Lemma point_ok s : (point s).2 = inl tt.
Proof.
  unfold point, look. se_unfold. destruct (v_int _) eqn:Ei; [done|..].
  - apply trip_spec. by eapply Hcodes.
  - unfold _on_signal. se_unfold. destruct (armed_or_tx _); [by apply trip_spec | apply shutdown_spec].
Qed.

#[local] Hint Resolve calm_point : pres.

Lemma calm_disarm reason : pres calm (disarm reason).
Proof. unfold disarm, clear_arm_record. calmly. Qed.

Lemma calm_raise {A} : pres calm (_raise_interrupted (A := A)).
Proof. unfold _raise_interrupted, _refuse. calmly. Qed.

Lemma calm_refuse {A} code : pres calm (_refuse (A := A) code).
Proof. unfold _refuse. calmly. Qed.

Lemma calm_trip_raise {A} code : code <> "" -> pres calm (_trip_raise (A := A) code).
Proof. intros H. unfold _trip_raise. calmly. Qed.

Lemma calm_drop pid reason : pres calm (_drop_permit pid reason).
Proof.
  intros s. unfold _drop_permit, _revoke. se_unfold. set (r := if (4096 <? _)%nat then _ else _). clearbody r.
  split; [|done|by apply heap_kept_refl| |done]; cbn; [split; cbn; try done; lia|].
  intros w d T []. split; cbn; [by constructor | by apply kv_pop_nodup|].
  intros pid' o [Hin Hne]%kv_pop_in; [|done]. destruct (du_entry0 pid' o Hin) as (e & ? & ? & ? & ? & Hr).
  exists e. split_and!; auto. intros Hc. by apply res_pop_other; auto.
Qed.

#[local] Hint Resolve calm_disarm calm_raise calm_refuse calm_trip_raise calm_drop : pres.

Lemma calm_need b code : pres calm (need b code).
Proof. unfold need. calmly. Qed.

Lemma calm_no_error o : pres calm (no_error o).
Proof. unfold no_error. calmly. Qed.

Lemma calm_expire now : pres calm (_expire_permits now).
Proof. unfold _expire_permits. calmly. Qed.

Lemma calm_pa_idle now : pres calm (_pa_idle_check now).
Proof. unfold _pa_idle_check. calmly. Qed.

#[local] Hint Resolve calm_need calm_no_error calm_expire calm_pa_idle : pres.

Lemma calm_refuse_consume {A} pid code : pres calm (_refuse_consume (A := A) pid code).
Proof. unfold _refuse_consume. calmly. Qed.

Lemma calm_underflows now : pres calm (_check_underflows now).
Proof. unfold _check_underflows. calmly. Qed.

#[local] Hint Resolve calm_refuse_consume calm_underflows : pres.

Lemma calm_async evs : pres calm (handle_async_events evs).
Proof. unfold handle_async_events. calmly. Qed.

Lemma calm_entry o f : (forall e, same_entry e (f e)) -> pres calm (update_entry o f).
Proof.
  intros Hf s. unfold update_entry. se_unfold. apply calm_same; try done. intros o' e He. cbn.
  destruct (decide (o = o')) as [<-|]; [exists (f e); by rewrite list_lookup_alter_eq, He|].
  exists e. rewrite list_lookup_alter_ne by done. by repeat split.
Qed.

Lemma calm_pop pid : pres calm (modify (E := tx_exc) (fun s => set_registry (kv_pop pid (registry s)) s)).
Proof.
  intros s. se_unfold. split; [|done|by apply heap_kept_refl| |done]; cbn; [split; cbn; try done; lia|].
  intros w d T []. split; cbn; [done | by apply kv_pop_nodup|].
  intros pid' o [Hin Hne]%kv_pop_in; [|done]. by apply du_entry0.
Qed.

Lemma calm_finish pid o : pres calm (finish_entry pid o).
Proof.
  unfold finish_entry, _remember_completed. pose proof (calm_entry o set_completed ltac:(by intros [])).
  pose proof (calm_pop pid). calmly.
Qed.

Lemma calm_gather : pres calm _gather_inputs.
Proof. unfold _gather_inputs. calmly. Qed.

Lemma calm_revoke_adopted : pres calm _revoke_adopted.
Proof. unfold _revoke_adopted. calmly. Qed.

Lemma calm_fingerprint now : pres calm (poll_fingerprint now).
Proof. unfold poll_fingerprint. calmly. Qed.

#[local] Hint Resolve calm_async calm_finish calm_gather calm_revoke_adopted calm_fingerprint : pres.

Lemma telemetry_code e code : _telemetry_violation e = Some code -> code <> "".
Proof. unfold _telemetry_violation. intros H. repeat case_hyp H; simplify_eq; done. Qed.

Lemma poll_code now inp s code :
  (forall c, i_tv inp = Some c -> c <> "") -> poll_verdict now inp s = VTrip code -> code <> "".
Proof. intros Hi. unfold poll_verdict. intros H. repeat case_hyp H; simplify_eq; try done; auto. Qed.

Lemma gather_codes s inp s' : _gather_inputs s = (s', inl inp) -> forall c, i_tv inp = Some c -> c <> "".
Proof. unfold _gather_inputs, look. se_unfold. intros [= _ <-] c. cbn. apply telemetry_code. Qed.

Lemma calm_poll_locked now inp : (forall c, i_tv inp = Some c -> c <> "") -> pres calm (poll_locked now inp).
Proof.
  intros Hi. unfold poll_locked.
  apply pres_bind; [apply _ | apply calm_point | intros _].
  apply pres_bind; [apply _ | unfold clock_or; calmly | intros now'].
  apply pres_bind; [apply _ | calmly | intros s].
  destruct (negb _); [calmly|]. destruct (poll_verdict now' inp s) eqn:Ev; [calmly| |calmly..].
  apply calm_trip. by eapply poll_code.
Qed.

Lemma calm_poll now : pres calm (poll now).
Proof.
  unfold poll. apply pres_bind; [apply _ | calmly | intros s0].
  destruct (negb _); [unfold clock_or; calmly|].
  intros s. unfold mbind, SE_bind. pose proof (calm_gather s) as Hc.
  destruct (_gather_inputs s) as [s1 [inp|e]] eqn:Eg; [|exact Hc]. etrans; [exact Hc|].
  apply calm_poll_locked. by eapply gather_codes.
Qed.

#[local] Hint Resolve calm_poll : pres.

Lemma calm_heartbeat : pres calm heartbeat.
Proof. unfold heartbeat. calmly. Qed.

Lemma calm_expiry now : pres calm (_check_expiry_heartbeat now).
Proof. unfold _check_expiry_heartbeat. calmly. Qed.

#[local] Hint Resolve calm_heartbeat calm_expiry : pres.

Lemma calm_refresh : pres calm refresh.
Proof. unfold refresh. calmly. Qed.

Lemma calm_watchdog hb : pres calm (watchdog_round hb).
Proof. unfold watchdog_round. calmly. Qed.

Lemma calm_unknown {A} permit s : pres calm (unknown_permit (A := A) permit s).
Proof. unfold unknown_permit. calmly. Qed.

#[local] Hint Resolve calm_refresh calm_watchdog calm_unknown : pres.

Lemma calm_arm_config r : pres calm (arm_checks_config r).
Proof. unfold arm_checks_config. calmly. Qed.

Lemma calm_arm_rf r : pres calm (arm_checks_rf r).
Proof. unfold arm_checks_rf. calmly. Qed.

Lemma calm_auth_armed now : pres calm (auth_armed now).
Proof. unfold auth_armed. calmly. Qed.

Lemma calm_auth_shape b a : pres calm (auth_shape b a).
Proof. unfold auth_shape, _expected_fs. calmly. Qed.

Lemma calm_auth_start now b f : pres calm (auth_start now b f).
Proof. unfold auth_start. calmly. Qed.

Lemma calm_auth_freq b r : pres calm (auth_freq b r).
Proof. unfold auth_freq. calmly. Qed.

Lemma calm_auth_rf b r f fc : pres calm (auth_rf b r f fc).
Proof. unfold auth_rf. calmly. Qed.

#[local] Hint Resolve calm_arm_config calm_arm_rf calm_auth_armed calm_auth_shape calm_auth_start
  calm_auth_freq calm_auth_rf : pres.

(** Issuing a permit adds to the meter: only the control part, and that no
    burst starts. *)
Definition still (s s' : t) : Prop :=
  started (log s') = started (log s) /\ heap_kept s s' /\ (reads s <= reads s')%nat.

#[export] Instance still_pre : PreOrder still.
Proof.
  split.
  - intros s. split_and!; [done | by apply heap_kept_refl | done].
  - intros s1 s2 s3 (H1 & H2 & H3) (H1' & H2' & H3'). split_and!; [congruence| |lia].
    intros o e He. destruct (H2 o e He) as (e' & He' & Hs). destruct (H2' o e' He') as (e'' & ? & Hs').
    exists e''. split; [done|]. unfold same_entry in *. intuition congruence.
Qed.

Lemma pres_ctl {A} (m : M A) : pres calm m -> pres ctl m.
Proof. intros H s. apply H. Qed.

Lemma pres_still {A} (m : M A) : pres calm m -> pres still m.
Proof. intros H s. destruct (H s). done. Qed.

#[local] Hint Resolve pres_ctl pres_still : pres.

Ltac ctl_modify := apply pres_modify; intros ?; split; cbn; try done; lia.
Ltac still_modify := apply pres_modify; intros ?; split_and!; [reflexivity | apply heap_kept_refl; reflexivity | done].
Ltac controlled := repeat first [pres_step | ctl_modify | still_modify].

Lemma still_alloc e : pres still (modify (E := tx_exc) (fun s => set_heap (heap s ++ [e]) s)).
Proof.
  intros s. split_and!; [done| |done]. intros o e' He. exists e'. split; [|by repeat split].
  by apply lookup_app_l_Some.
Qed.

#[local] Hint Resolve still_alloc : pres.

Lemma ctl_authorize b : pres ctl (authorize_burst b).
Proof. unfold authorize_burst, issue, register. controlled. Qed.

Lemma still_authorize b : pres still (authorize_burst b).
Proof. unfold authorize_burst, issue, register. controlled. Qed.

(** The PA goes on only while armed. *)
Lemma calm_to_tx active chans s :
  has_rf = true -> (active = true -> armed_or_tx (state s) = true) -> calm s (rf_to_tx active chans s).1.
Proof.
  intros Hrf Hact. unfold rf_to_tx. unfold mbind at 1, SE_bind at 1.
  assert (forall r, on_rf (Rf._resolve_chans rcf chans) s = r -> r.1 = s) as Hs.
  { intros r <-. unfold on_rf, Rf._resolve_chans. destruct chans; [|by destruct s]. destruct (forallb _ _); by destruct s. }
  destruct (on_rf (Rf._resolve_chans rcf chans) s) as [s1 [cs|e]]; specialize (Hs _ eq_refl); cbn in Hs; subst s1;
    [|reflexivity].
  destruct (Rf._authorized _ _ _) eqn:Ea.
  2:{ revert s Hact. intros s _. revert s.
      change (pres calm (when (Rf.has_safety rcf) (trip "SEQUENCE");; throw (A := unit) OtherExc)). calmly. }
  assert (active = true) as ->.
  { unfold Rf._authorized in Ea. cbn in Ea. destruct (Rf.has_safety rcf), active; done. }
  specialize (Hact eq_refl). unfold on_rf.
  pose proof (fun Hl => Rf.inv_sequence_to_tx rcf rio Hl (Rf.Grant true true chans false) (rf s)) as Hi.
  destruct (Rf.sequence_to_tx _ _ _ (rf s)) as [r x]; cbn in Hi.
  assert (Hr : Rf.lines_ok rcf -> Rf.inv rcf (rf s) -> Rf.inv rcf r) by (intros H1 H2; specialize (Hi H1 H2); by destruct x).
  destruct x; cbn;
    (split; [|done|by apply heap_kept_refl|by intros ? ? ? []|done]); (split; try done; cbn; try lia);
    intros (Hl & Hin & Hq & Hn); unfold rf_safe; cbn; rewrite Hrf; split_and!; auto; done.
Qed.

Lemma calm_seq_tx pm : pres calm (seq_tx pm).
Proof.
  unfold seq_tx. apply pres_bind; [apply _ | calmly | intros now]. intros s. unfold mbind, SE_bind, get, when.
  destruct has_rf eqn:Hrf; [|reflexivity]. apply calm_to_tx; [done|].
  unfold permit_active. by intros [H _]%andb_true_iff.
Qed.

#[local] Hint Resolve ctl_authorize calm_seq_tx : pres.

Lemma calm_reassert g :
  pres calm (s ← get; if trip_gen s =? g then mret tt
             else safe_shutdown "trip_during_sequencing" (eqb_state (state s) FAULT);; _raise_interrupted).
Proof.
  intros s. unfold mbind at 1, SE_bind at 1, get at 1. destruct (_ =? _); [reflexivity|].
  destruct (shutdown_spec "trip_during_sequencing" (eqb_state (state s) FAULT) s) as [Hs _].
  unfold mbind, SE_bind. destruct (safe_shutdown _ _ s) as [s1 [[]|e]]; cbn in Hs |- *.
  1: etrans; [|apply calm_raise].
  all: apply stopped_calm; [by eapply shut_stopped|]; intros [H1 H2]; destruct Hs; unfold latched;
    rewrite sh_state0, sh_code0; unfold eqb_state; case_bool_decide as Hf; destruct (state s); cbn in *; (split; [try done; by auto | intros Hc; specialize (H2 Hc); done]).
Qed.

Lemma calm_hold rec : pres calm (arm_hold rec).
Proof.
  intros s. unfold arm_hold. unfold mbind at 1, SE_bind at 1, get at 1.
  destruct (_ && _ && _) eqn:Eg; [|reflexivity]. apply andb_true_iff in Eg as [[_ Hrf]%andb_true_iff _].
  assert (Hto : calm s (rf_to_tx (record_active rec s) None s).1).
  { apply calm_to_tx; [done|]. unfold record_active. by intros [[H _]%andb_true_iff _]%andb_true_iff. }
  assert (Hcatch : pres calm (trip "SEQUENCE";; throw (A := unit) (InterlockTrip "SEQUENCE"))) by calmly.
  pose proof (calm_reassert (trip_gen s)) as Hre.
  set (k := point;; _) at 1. assert (Hk : pres calm k) by (apply pres_bind; [apply _ | apply calm_point | intros _; apply Hre]).
  clearbody k. unfold mbind, SE_bind, catch.
  destruct (rf_to_tx _ _ s) as [s1 [[]|e]]; cbn in Hto |- *; (etrans; [exact Hto|]); [apply Hk|].
  specialize (Hcatch s1). unfold mbind, SE_bind in Hcatch.
  destruct (trip "SEQUENCE" s1) as [s2 [[]|e']]; exact Hcatch.
Qed.

#[local] Hint Resolve calm_hold : pres.

(** ** The critical sections *)

(** Inside one, entered from [sc] to write the state [x]. *)
Record mid (sc : t) (x : TxState) (s : t) : Prop := {
  mid_gen : trip_gen sc <= trip_gen s;
  mid_enabled : state s <> DISABLED;
  mid_half : latched sc -> half_latched s;
  mid_clean : latched sc -> trip_gen s = trip_gen sc -> fault_code s = "";
  mid_state : trip_gen s = trip_gen sc -> state s = x;
  mid_armed : armed_or_tx (state s) = true -> state s = x;
  mid_rf : rf_safe sc -> Rf.lines_ok rcf /\ Rf.inv rcf (rf s) /\
    (has_rf = false -> Rf.quieted rcf rio (rf s)) /\
    (trip_gen s <> trip_gen sc -> Rf.quieted rcf rio (rf s)) }.

(** What every call guarantees. *)
Record sound (s s' : t) : Prop := {
  so_gen : trip_gen s <= trip_gen s';
  so_off : trip_gen s' <> trip_gen s -> armed_or_tx (state s') = false;
  so_fault : state s = FAULT -> state s' = FAULT;
  so_disabled : state s = DISABLED <-> state s' = DISABLED;
  so_latched : latched s -> latched s';
  so_rf : rf_safe s -> rf_safe s' }.

Lemma ctl_sound s s' : ctl s s' -> sound s s'.
Proof. intros []. by split. Qed.

Lemma mid_enter sc x s :
  ctl sc s -> state sc <> DISABLED -> state sc <> FAULT -> armed_or_tx x = true -> mid sc x (set_state x s).
Proof.
  intros [] Hd Hf Hx. split; cbn; auto.
  - by destruct x.
  - intros Hl. split; cbn; [by intros ->|]. by right.
  - intros Hl Hg. destruct (decide (fault_code s = "")) as [|Hn]; [done|].
    apply (ctl_latched0 Hl) in Hn. rewrite ctl_still0 in Hn by done. done.
  - intros (? & ? & Hq & ?)%ctl_rf0. split_and!; auto. intros Hg. destruct Hq as [Hq|]; [|done].
    by rewrite ctl_off0 in Hq.
Qed.

Lemma mid_same sc x s s' :
  state s' = state s -> trip_gen s' = trip_gen s -> fault_code s' = fault_code s -> rf s' = rf s ->
  mid sc x s -> mid sc x s'.
Proof.
  intros Hst Hg Hc Hr []. split; unfold half_latched in *; rewrite ?Hst, ?Hg, ?Hc, ?Hr; auto.
Qed.

Lemma mid_stopped sc x s s' : mid sc x s -> stopped s s' -> (half_latched s -> latched s') -> mid sc x s'.
Proof.
  intros [] [] Hl. split; auto; try lia; try congruence.
  - tauto.
  - intros H. by apply latched_half, Hl, mid_half0.
  - intros H. destruct (mid_rf0 H) as (? & ? & ? & ?). split_and!; auto.
Qed.

(** Trips and signals keep the section's invariant. *)
Lemma mid_point sc x s : mid sc x s -> mid sc x (point s).1.
Proof.
  intros Hm. unfold point, look. se_unfold. set (s1 := set_reads _ s).
  assert (mid sc x s1) as H1 by by eapply (mid_same _ _ s).
  destruct (v_int _) eqn:Ei; [done|..].
  - destruct (trip_spec code s1) as (Hs & Hl & _); [by eapply Hcodes | by eapply mid_stopped].
  - unfold _on_signal. se_unfold. destruct (armed_or_tx (state s1)) eqn:Ea.
    + destruct (trip_spec "SIGNAL" s1) as (Hs & Hl & _); [done | by eapply mid_stopped].
    + destruct (shutdown_spec ("signal:" +:+ name) false s1) as [Hs _].
      eapply mid_stopped; [done | by eapply shut_stopped|].
      intros Hh. eapply shut_latched; [done..|]. congruence.
Qed.

(** Leaving with nothing interrupted, or undoing what was written. *)
Lemma mid_commit sc x s :
  state sc <> DISABLED -> state sc <> FAULT -> armed_or_tx x = true ->
  mid sc x s -> trip_gen s = trip_gen sc -> sound sc s.
Proof.
  intros Hd Hf Hx [] Hg. split; auto; try done.
  - intros Hl. destruct (mid_half0 Hl) as [H1 _]. split; [auto|]. by rewrite mid_clean0.
  - intros H. destruct (mid_rf0 H) as (? & ? & ? & ?). unfold rf_safe. rewrite mid_state0 by done. auto.
Qed.

Definition undone (s s' : t) : Prop :=
  state s' = (if armed_or_tx (state s) then if bool_decide (fault_code s = "") then SAFE else FAULT else state s) /\
  trip_gen s' = trip_gen s /\ fault_code s' = fault_code s /\ rf s' = rf s.

Lemma mid_undo sc x s s' :
  state sc <> DISABLED -> state sc <> FAULT -> mid sc x s -> trip_gen s <> trip_gen sc -> undone s s' -> sound sc s'.
Proof.
  intros Hd Hf [] Hg (Hst & Hg' & Hc & Hr). assert (armed_or_tx (state s') = false) as Hoff.
  { rewrite Hst. destruct (armed_or_tx (state s)) eqn:Ea; [|done]. by case_bool_decide. }
  split; auto; try lia; try done.
  - split; [done|]. intros H. rewrite Hst in H. destruct (armed_or_tx (state s)); [|done]. by case_bool_decide.
  - intros Hl. destruct (mid_half0 Hl) as [H1 H2]. unfold latched. rewrite Hst, Hc.
    destruct (armed_or_tx (state s)) eqn:Ea.
    + case_bool_decide; split; done.
    + split; [done|]. intros H. destruct (H2 H); [done | congruence].
  - intros H. destruct (mid_rf0 H) as (? & ? & ? & ?). unfold rf_safe. rewrite Hr. split_and!; [done | done | right; by auto | done].
Qed.

Lemma raise_same {A} s : (_raise_interrupted (A := A) s).1 = s.
Proof. unfold _raise_interrupted, _refuse. se_unfold. by destruct (state s). Qed.

Lemma undo_spec {A} session ent s : undone s (_undo_interrupted (A := A) session ent s).1.
Proof.
  unfold _undo_interrupted, mbind, SE_bind, modify. rewrite raise_same. unfold undone.
  repeat case_goal; cbn in *; simplify_eq; done.
Qed.

Lemma sound_ctl s1 s2 s3 : sound s1 s2 -> ctl s2 s3 -> sound s1 s3.
Proof.
  intros [] []. split; auto; try lia; try tauto.
  intros H. destruct (decide (trip_gen s3 = trip_gen s2)); [|auto]. rewrite ctl_still0 by done. apply so_off0. lia.
Qed.

(** A method that goes on after [m]. *)
Lemma sound_bind {A B} (m : M A) (k : A -> M B) sc s :
  pres ctl m -> ctl sc s -> (forall a s', ctl sc s' -> sound sc (k a s').1) -> sound sc ((m ≫= k) s).1.
Proof.
  intros Hm Hs Hk. unfold mbind, SE_bind. specialize (Hm s). destruct (m s) as [s1 [a|e]]; cbn in Hm.
  - apply Hk. by etrans.
  - apply ctl_sound. by etrans.
Qed.

Lemma sound_then {A B} (m : M A) (k : A -> M B) sc s :
  sound sc (m s).1 -> (forall a, pres ctl (k a)) -> sound sc ((m ≫= k) s).1.
Proof.
  intros Hm Hk. unfold mbind, SE_bind. destruct (m s) as [s1 [a|e]]; [|done].
  eapply sound_ctl; [exact Hm | apply Hk].
Qed.

(** The state a critical section writes is kept only if nothing interrupted it. *)
Lemma sound_section (k u : M unit) sc x s :
  ctl sc s -> state sc <> DISABLED -> state sc <> FAULT -> armed_or_tx x = true ->
  pres ctl k -> (forall s, mid sc x s -> trip_gen s <> trip_gen sc -> sound sc (u s).1) ->
  sound sc ((modify (set_state x);; point;; s ← get; if trip_gen s =? trip_gen sc then k else u) s).1.
Proof.
  intros Hs Hd Hf Hx Hk Hu. unfold modify, get. unfold mbind at 1, SE_bind at 1.
  pose proof (mid_enter sc x s Hs Hd Hf Hx) as Hm. pose proof (mid_point sc x _ Hm) as Hm'. pose proof (point_ok (set_state x s)) as Hok.
  unfold mbind at 1, SE_bind at 1. destruct (point _) as [s1 [[]|e]]; [|done]. cbn in Hm'.
  unfold mbind, SE_bind. destruct (trip_gen s1 =? trip_gen sc) eqn:Eg; [|apply Hu; [done | lia]].
  eapply sound_ctl; [|apply Hk]. apply (mid_commit sc x); [done..|lia].
Qed.

Lemma calm_clear_permits : pres calm clear_permits.
Proof.
  intros s. unfold clear_permits. se_unfold. split; [|done|by apply heap_kept_refl| |done]; cbn.
  - split; cbn; try done; lia.
  - intros w d T []. split; cbn; [by constructor | constructor | set_solver].
Qed.

#[local] Hint Resolve calm_clear_permits : pres.

Lemma calm_arm_write gen0 now dur rec : pres calm (arm_write gen0 now dur rec).
Proof. unfold arm_write, _check_not_interrupted. calmly. Qed.

Lemma sound_arm_commit now dur rec sc s :
  ctl sc s -> state sc <> DISABLED -> state sc <> FAULT -> sound sc (arm_commit (trip_gen sc) now dur rec s).1.
Proof.
  intros Hs Hd Hf. unfold arm_commit. apply sound_bind; [apply pres_ctl, calm_arm_write | done|].
  intros _ s1 H1. apply sound_section; [done.. | apply pres_ret, _ |].
  intros s2 Hm Hg. eapply mid_undo; [done.. | apply undo_spec].
Qed.

Lemma arm_config_safe r s s' fp : arm_checks_config r s = (s', inl fp) -> state s = SAFE.
Proof.
  unfold arm_checks_config, _refuse. unfold mbind at 1, SE_bind at 1, get at 1. unfold mbind at 1, SE_bind at 1.
  by destruct (state s).
Qed.

(** The next part of a method, along [ctl]. *)
Ltac sound_step s H := apply sound_bind; [apply pres_ctl; calmly | assumption | intros ? s H].

Lemma sound_arm r s : sound s (arm r s).1.
Proof.
  unfold arm. unfold mbind at 1, SE_bind at 1, get at 1.
  unfold mbind at 1, SE_bind at 1. pose proof (calm_arm_config r s) as H1.
  destruct (arm_checks_config r s) as [s1 [fp|e]] eqn:Ec; [|apply ctl_sound, H1].
  apply arm_config_safe in Ec. assert (ctl s s1) as Hc by apply H1. clear H1.
  sound_step s2 H2. sound_step s3 H3. sound_step s4 H4. sound_step s5 H5. sound_step s6 H6. sound_step s7 H7.
  apply sound_then; [apply sound_arm_commit; congruence|]. intros _. apply pres_ctl. calmly.
Qed.

(** ** Consume *)
Lemma ctl_entry o f : pres ctl (update_entry o f).
Proof. intros s. unfold update_entry. se_unfold. split; cbn; try done; lia. Qed.

Lemma ctl_emit ev : pres ctl (emit ev).
Proof. intros s. unfold emit. se_unfold. split; cbn; try done; lia. Qed.

Lemma drop_spec pid reason s :
  exists r d v, _drop_permit pid reason s = (set_revoked r (set_duty d (set_registry v s)), inl tt).
Proof. unfold _drop_permit, _revoke. se_unfold. by repeat eexists. Qed.

Lemma mid_drop sc x pid reason s : mid sc x s -> mid sc x (_drop_permit pid reason s).1.
Proof. destruct (drop_spec pid reason s) as (r & d & v & ->). by apply mid_same. Qed.

Lemma sound_consume_commit sess o e start sc s :
  ctl sc s -> state sc <> DISABLED -> state sc <> FAULT ->
  sound sc (consume_commit (trip_gen sc) sess o e start s).1.
Proof.
  intros Hs Hd Hf. unfold consume_commit. sound_step s1 H1.
  destruct (_ || _); [apply ctl_sound; etrans; [exact H1|]; apply pres_ctl; calmly|]. clear dependent s.
  apply sound_bind; [apply ctl_entry | assumption | intros ? s H]. sound_step s2 H2.
  apply sound_bind; [apply ctl_entry | assumption | intros ? s3 H3]. sound_step s4 H4.
  sound_step s5 H5. sound_step s6 H6. apply sound_section; [done.. | |].
  - apply pres_bind; [apply _ | apply pres_ctl; calmly | intros clk].
    apply pres_bind; [apply _ | ctl_modify | intros _]. apply ctl_emit.
  - intros s7 Hm Hg. unfold mbind, SE_bind.
    pose proof (mid_drop _ _ (permit_id (e_permit e)) "interrupted" _ Hm) as Hm'.
    destruct (drop_spec (permit_id (e_permit e)) "interrupted" s7) as (r & d & v & Ed). rewrite Ed in Hm' |- *.
    eapply mid_undo; [done | done | exact Hm' | exact Hg | apply undo_spec].
Qed.

Lemma sound_consume_recheck now sess o e sc s :
  ctl sc s -> state sc <> DISABLED -> state sc <> FAULT ->
  sound sc (consume_recheck (trip_gen sc) now sess o e s).1.
Proof.
  intros Hs Hd Hf. unfold consume_recheck. sound_step s1 H1. sound_step s2 H2.
  destruct (_ && _); [apply ctl_sound; etrans; [exact H2|]; apply pres_ctl; calmly|].
  sound_step s3 H3. sound_step s4 H4.
  repeat (case_goal; [apply ctl_sound; etrans; [exact H4|]; apply pres_ctl; calmly|]).
  sound_step s5 H5. by apply sound_consume_commit.
Qed.

Lemma sound_consume permit s : sound s (consume permit s).1.
Proof.
  unfold consume. unfold mbind at 1, SE_bind at 1, get at 1.
  assert (ctl s s) as H by reflexivity. sound_step s1 H1. sound_step s2 H2.
  unfold mbind at 1, SE_bind at 1, get at 1.
  destruct (eqb_state (state s2) DISABLED) eqn:Ed; [apply ctl_sound; etrans; [exact H2|]; apply pres_ctl; calmly|].
  destruct (entry_of permit s2) as [[o e]|]; [|apply ctl_sound; etrans; [exact H2|]; apply pres_ctl; calmly].
  do 5 (match goal with |- context [if ?b then _ else _] =>
    destruct b; [apply ctl_sound; etrans; [exact H2|]; apply pres_ctl; calmly|] end).
  destruct (negb _) eqn:Ea; [apply ctl_sound; etrans; [exact H2|]; apply pres_ctl; calmly|].
  unfold eqb_state in *. apply sound_consume_recheck; [done|..]; intros Hs.
  - apply H2 in Hs. by rewrite Hs in Ed.
  - apply (ctl_fault _ _ H2) in Hs. by rewrite Hs in Ea.
Qed.

(** ** Completion *)
Lemma sound_complete_state sc s : ctl sc s -> sound sc (complete_state (trip_gen sc) s).1.
Proof.
  intros Hs. unfold complete_state. unfold mbind at 1, SE_bind at 1, get at 1.
  destruct (_ && _) eqn:Eg; [|by apply ctl_sound].
  apply andb_true_iff in Eg as [Ht%bool_decide_eq_true Hg%Z.eqb_eq].
  assert (state sc = TRANSMITTING) as Hsc by (rewrite <- (ctl_still _ _ Hs); done). clear Ht Hg.
  sound_step s1 H1. unfold modify. unfold mbind at 1, SE_bind at 1.
  pose proof (mid_enter sc ARMED s1 H1 ltac:(congruence) ltac:(congruence) eq_refl) as Hm.
  pose proof (mid_point sc ARMED _ Hm) as Hm'. pose proof (point_ok (set_state ARMED s1)) as Hok. unfold mbind, SE_bind.
  destruct (point _) as [s2 [[]|e]]; [|done]. cbn in Hm' |- *.
  destruct (trip_gen s2 =? trip_gen sc) eqn:Eg; cbn.
  - apply (mid_commit sc ARMED); try done; [congruence.. | lia].
  - apply (mid_undo sc ARMED s2); try done; [congruence.. | lia |].
    unfold undone, eqb_state. case_bool_decide as Ha; cbn; [by rewrite Ha|].
    destruct (armed_or_tx (state s2)) eqn:E2; [|done]. by apply (mid_armed _ _ _ Hm') in E2.
Qed.

Lemma sound_complete permit res s : sound s (burst_complete permit res s).1.
Proof.
  unfold burst_complete. unfold mbind at 1, SE_bind at 1, get at 1.
  assert (ctl s s) as H by reflexivity. sound_step s1 H1. unfold mbind at 1, SE_bind at 1, get at 1.
  destruct (entry_of permit s1) as [[o e]|]; [|by apply ctl_sound].
  destruct (negb (consumed e)); [apply ctl_sound; etrans; [exact H1|]; apply pres_ctl; calmly|].
  destruct (negb _); [apply ctl_sound; etrans; [exact H1|]; apply pres_ctl; calmly|].
  sound_step s2 H2. sound_step s3 H3. sound_step s4 H4. sound_step s5 H5. sound_step s6 H6. sound_step s7 H7.
  sound_step s8 H8. apply sound_then; [by apply sound_complete_state|]. intros _. apply pres_ctl. calmly.
Qed.

(** ** Reset *)

(** Leaving FAULT is possible only here, and leads to SAFE. *)
Record reset_ok (s s' : t) : Prop := {
  rs_gen : trip_gen s <= trip_gen s';
  rs_off : trip_gen s' <> trip_gen s -> armed_or_tx (state s') = false;
  rs_state : state s' = state s \/ (state s = FAULT /\ state s' = SAFE);
  rs_latched : latched s -> latched s';
  rs_rf : rf_safe s -> rf_safe s' }.

Lemma frame_reset_checks who confirmation : pres frame (reset_checks who confirmation).
Proof. unfold reset_checks, need, _refuse. framed. Qed.

Lemma reset_checks_fault who confirmation s s' code :
  reset_checks who confirmation s = (s', inl code) -> state s = FAULT /\ confirmation = reset_phrase (fault_code s).
Proof.
  unfold reset_checks. intros (s1 & s0 & [= -> ->] & H)%bind_ok. apply bind_ok in H as (s2 & [] & H1 & H).
  assert (state s0 = FAULT /\ s2 = s0) as [Hf ->].
  { unfold _refuse in H1. se_unfold. by destruct (state s0); simplify_eq. }
  apply bind_ok in H as (s3 & [] & H2 & H). apply bind_ok in H as (s4 & [] & H3 & H).
  unfold need, _refuse in H2, H3. se_unfold. destruct (negb _) in H2; simplify_eq.
  case_bool_decide; simplify_eq; done.
Qed.

Lemma reset_spec who confirmation s : reset_ok s (reset_fault who confirmation s).1.
Proof.
  unfold reset_fault. unfold mbind at 1, SE_bind at 1.
  pose proof (frame_reset_checks who confirmation s) as Hfr.
  destruct (reset_checks who confirmation s) as [s1 [code|e]] eqn:Er; cbn in Hfr.
  2:{ pose proof (calm_ctl _ _ (frame_calm _ _ Hfr)) as []. destruct Hfr. split; auto; lia. }
  apply reset_checks_fault in Er as [Hf _]. pose proof (calm_ctl _ _ (frame_calm _ _ Hfr)) as Hc.
  destruct (shutdown_spec "fault_reset" false s1) as [Hs Hok]. unfold mbind at 1, SE_bind at 1.
  pose proof (calm_ctl _ _ (calm_shutdown "fault_reset" s1)) as Hc2.
  destruct (safe_shutdown _ _ s1) as [s2 r]. cbn in Hs, Hok, Hc2. subst r.
  pose proof (calm_ctl _ _ (calm_point s2)) as Hc3. destruct (point s2) as [s3 r] eqn:Ep.
  assert (r = inl tt) as -> by (rewrite <- (point_ok s2), Ep; done).
  unfold emit. se_unfold. rewrite Ep. cbn in Hc3 |- *.
  assert (ctl s s3) as [] by (by do 2 (etrans; [eassumption|])).
  assert (trip_gen s3 <> trip_gen s) as Hg by (pose proof (sh_gen _ _ _ Hs); pose proof (ctl_gen _ _ Hc3);
    pose proof (fr_gen _ _ Hfr); lia).
  split; cbn; auto; [done|]. intros (? & ? & Hq & ?)%ctl_rf0. unfold rf_safe; cbn. split_and!; try done.
  right. destruct Hq as [Hq|]; [|done]. by rewrite ctl_off0 in Hq.
Qed.

(** ** Every call *)
Definition op_ok (o : op) : Prop := match o with OTrip code => code <> "" | _ => True end.
Definition is_reset (o : op) : bool := match o with OReset _ _ => true | _ => false end.

Lemma calm_on_exit : pres calm _on_exit.
Proof. unfold _on_exit. calmly. Qed.

Lemma calm_session_end : pres calm session_end.
Proof. unfold session_end. calmly. Qed.

#[local] Hint Resolve calm_on_exit calm_session_end : pres.

Lemma sound_void {A} (m : M A) s : sound s (m s).1 -> sound s ((m;; mret tt : M unit) s).1.
Proof. intros H. apply sound_then; [done|]. intros _ s'. reflexivity. Qed.

Lemma exec_sound o s : op_ok o -> is_reset o = false -> sound s (exec o s).1.
Proof.
  intros Ho Hr. destruct o; cbn [exec is_reset op_ok] in *; try discriminate;
    try (apply ctl_sound, calm_ctl; match goal with |- calm _ (?m _).1 =>
      assert (pres calm m) as H by (auto with pres nocore); exact (H s) end).
  - apply sound_void, sound_arm.
  - apply sound_void, ctl_sound, calm_ctl, calm_refresh.
  - apply sound_void, ctl_sound, ctl_authorize.
  - apply sound_consume.
  - apply sound_complete.
  - apply ctl_sound, calm_ctl. unfold when. destruct has_rf; [apply calm_seq_rx | reflexivity].
Qed.

Lemma exec_keeps o s :
  op_ok o -> trip_gen s <= trip_gen (exec o s).1 /\
  (trip_gen (exec o s).1 <> trip_gen s -> armed_or_tx (state (exec o s).1) = false) /\
  (latched s -> latched (exec o s).1) /\ (rf_safe s -> rf_safe (exec o s).1).
Proof.
  intros Ho. destruct (is_reset o) eqn:Er; [|by destruct (exec_sound o s Ho Er)].
  destruct o; try done. by destruct (reset_spec who confirmation s).
Qed.

Lemma runs_rf ops s : Forall op_ok ops -> rf_safe s -> rf_safe (runs ops s).
Proof.
  intros H. revert s. induction H as [|o ops Ho _ IH]; intros s Hs; [done|]. apply IH. by apply (exec_keeps o s Ho).
Qed.


(** An interruption either changes nothing but the reading, or stops. *)
Lemma point_cases s : (point s).1 = set_reads (S (reads s)) s \/ stopped s (point s).1.
Proof.
  unfold point, look. se_unfold. set (s1 := set_reads _ s).
  assert (forall s2, stopped s1 s2 -> stopped s s2) as Hs by (intros s2 []; split; cbn in *; auto; lia).
  destruct (v_int _) eqn:Ei; [by left|..]; right; apply Hs.
  - apply trip_spec. by eapply Hcodes.
  - unfold _on_signal. se_unfold. destruct (armed_or_tx _); [by apply trip_spec|].
    eapply shut_stopped, shutdown_spec.
Qed.

(** ** The watchdog *)
Lemma disarm_off reason s : armed_or_tx (state s) = true -> armed_or_tx (state (disarm reason s).1) = false.
Proof.
  intros Ha. unfold disarm, emit. se_unfold. pose proof (shutdown_spec reason false s) as [Hs Hok].
  destruct (state s) eqn:Es; try done; destruct (safe_shutdown reason false s) as [s1 [[]|e]]; try done; cbn in *;
    apply (st_off _ _ (shut_stopped _ _ _ Hs)).
Qed.

(** Any verdict but [VOk] leaves the controller unarmed. *)
Lemma poll_locked_ok now inp s :
  (forall c, i_tv inp = Some c -> c <> "") ->
  armed_or_tx (state (poll_locked (Some now) inp s).1) = true ->
  poll_verdict now inp s = VOk.
Proof.
  intros Hi. unfold poll_locked. unfold mbind at 1, SE_bind at 1. pose proof (calm_point s) as Hc.
  pose proof (point_ok s) as Hok. pose proof (point_cases s) as Hcases.
  destruct (point s) as [s1 r]. cbn in *. subst r. unfold mbind at 1, SE_bind at 1, mret, SE_ret.
  unfold mbind at 1, SE_bind at 1, get at 1. destruct (armed_or_tx (state s1)) eqn:Ea; cbn [negb].
  2:{ intros H. pose proof (calm_ctl _ _ (calm_pa_idle now s1)) as [? Hst Hoff _ _ _ _].
      destruct (decide (trip_gen (_pa_idle_check now s1).1 = trip_gen s1)) as [Hg|Hg].
      - rewrite Hst in H by done. congruence.
      - rewrite Hoff in H by done. done. }
  assert (s1 = set_reads (S (reads s)) s) as ->.
  { destruct Hcases as [|Hst]; [done|]. rewrite (st_off _ _ Hst) in Ea. done. }
  change (poll_verdict now inp (set_reads (S (reads s)) s)) with (poll_verdict now inp s).
  destruct (poll_verdict now inp s) eqn:Ev; [done|..]; intros H; exfalso.
  - pose proof (trip_spec code (set_reads (S (reads s)) s) ltac:(by eapply poll_code)) as (Hst & _).
    rewrite (st_off _ _ Hst) in H. done.
  - unfold emit in H. se_unfold. rewrite disarm_off in H by done. done.
  - rewrite disarm_off in H by done. done.
  - unfold _revoke_adopted, emit in H. se_unfold.
    pose proof (shutdown_spec "arm_record_revoked" false (set_reads (S (reads s)) s)) as [Hs _].
    apply shut_stopped in Hs. destruct (safe_shutdown _ _ _) as [s2 [[]|e]]; cbn in *;
      rewrite (st_off _ _ Hs) in H; done.
Qed.

(** [C38] The watchdog.  If a poll at [now] leaves the controller armed or
    transmitting, then at that moment: no burst in flight is past its deadline,
    the arming has not expired, the heartbeat is fresh, the interlock is not
    open, in dummy-load mode the load is there, the telemetry is complete and
    within its limits, a required reference is not unlocked and the tuned
    frequency is the armed one.  A violation of any of these stops it. *)
Theorem watchdog_stops now s :
  armed_or_tx (state (poll (Some now) s).1) = true ->
  let e := E (reads s) in
  armed_or_tx (state s) = true /\
  (state s = TRANSMITTING -> past_deadline now s = false) /\
  (now <= expiry_mono s)%Q /\ hb_lost now s = false /\ _adopted_record_problem s = false /\
  _interlock_state e <> Some false /\ (mode s = Some "dummy_load" -> _dl_state e <> Some false) /\
  _telemetry_violation e = None /\ (require_ref_lock p = true -> _ref_state e <> Some false) /\
  (has_tx_freq = true -> _retune_problem (Some (_read_tx_freq e)) s = false).
Proof.
  intros H e. assert (armed_or_tx (state s) = true) as Ha.
  { destruct (calm_ctl _ _ (calm_poll (Some now) s)) as [? Hst Hoff _ _ _ _].
    destruct (decide (trip_gen (poll (Some now) s).1 = trip_gen s)) as [Hg|Hg].
    - by rewrite <- Hst.
    - rewrite Hoff in H by done. done. }
  revert H. unfold poll. unfold mbind at 1, SE_bind at 1, get at 1. rewrite Ha. cbn [negb].
  unfold mbind at 1, SE_bind at 1. destruct (_gather_inputs s) as [s1 r] eqn:Eg.
  unfold _gather_inputs, look in Eg. se_unfold. injection Eg as <- <-. intros H.
  apply poll_locked_ok in H; [|cbn; intros c; apply telemetry_code].
  unfold poll_verdict, eqb_state in H. cbn in H. fold e in H. split; [done|].
  destruct (bool_decide (state s = TRANSMITTING) && _) eqn:E1; [done|].
  destruct (Qltb (expiry_mono s) now) eqn:E2; [by destruct (bool_decide _)|].
  change (hb_lost now (set_reads (S (reads s)) s)) with (hb_lost now s) in H.
  destruct (hb_lost now s); [by destruct (bool_decide _)|].
  destruct (_adopted_record_problem s); [done|]. destruct (bool_decide (_interlock_state e = _)) eqn:E3; [done|].
  change (dummy_mode (set_reads (S (reads s)) s)) with (dummy_mode s) in H. unfold dummy_mode in H.
  destruct (bool_decide (mode s = _) && _) eqn:E4; [done|]. destruct (_telemetry_violation e); [done|].
  destruct (require_ref_lock p && _) eqn:E5; [done|].
  apply bool_decide_eq_false in E3. q_prop. split_and!; try done.
  - intros Ht. rewrite bool_decide_true in E1 by done. exact E1.
  - intros Hm Hd. rewrite Hm, !bool_decide_true in E4 by done. done.
  - intros Hr Hd. rewrite Hr in E5. rewrite bool_decide_true in E5 by done. done.
  - intros Hf. rewrite Hf in H. change (_retune_problem ?x (set_reads (S (reads s)) s)) with (_retune_problem x s) in H.
    destruct (_retune_problem _ s); [|done]. by destruct (bool_decide _).
Qed.

(** [C23] The fault latch.  Whatever calls follow, in whatever environment, a
    latched fault stays latched and a disabled controller stays disabled, as
    long as [reset_fault] is not called; and [reset_fault] itself either changes
    nothing or leads from FAULT to SAFE, never to ARMED. *)
Theorem fault_latched ops who confirmation s :
  Forall op_ok ops -> Forall (fun o => is_reset o = false) ops ->
  (state s = FAULT -> state (runs ops s) = FAULT) /\
  (state s = DISABLED <-> state (runs ops s) = DISABLED) /\
  (state (exec (OReset who confirmation) s).1 = state s \/
   (state s = FAULT /\ state (exec (OReset who confirmation) s).1 = SAFE)).
Proof.
  intros Ho Hr. split_and!; [| |apply (reset_spec who confirmation s)].
  - revert s. induction Ho; intros s Hs; [done|]. inversion_clear Hr. apply IHHo; [done|]. by apply exec_sound.
  - revert s. induction Ho as [|o ops Ho' _ IH]; intros s; [done|]. inversion_clear Hr.
    rewrite (so_disabled _ _ (exec_sound o s Ho' ltac:(done))). by apply IH.
Qed.

(** [C5] A trip or a shutdown always wins.  If one ran during a call, wherever
    it interrupted it (a signal between the statements that write TRANSMITTING
    or ARMED included), the controller is not armed when the call ends. *)
Theorem trip_wins o s :
  op_ok o -> trip_gen (exec o s).1 <> trip_gen s -> armed_or_tx (state (exec o s).1) = false.
Proof. intros Ho. by apply exec_keeps. Qed.


Lemma frame_auth_freq b r : pres frame (auth_freq b r).
Proof. unfold auth_freq, need, _refuse. framed. Qed.

Lemma frame_auth_rf b r f fc : pres frame (auth_rf b r f fc).
Proof. unfold auth_rf, need, no_error, _refuse. framed. Qed.

End Inv.

#[export] Hint Extern 1 (_ <> _) => discriminate : pres.
#[export] Hint Resolve calm_look calm_emit calm_clock calm_point calm_disarm calm_raise calm_refuse calm_trip
  calm_trip_raise calm_drop calm_need calm_no_error calm_expire calm_pa_idle calm_refuse_consume
  calm_underflows calm_async calm_finish calm_poll calm_heartbeat calm_expiry calm_refresh calm_watchdog
  calm_unknown calm_arm_config calm_arm_rf calm_auth_armed calm_auth_shape calm_auth_start calm_auth_freq
  calm_auth_rf calm_seq_tx calm_seq_rx calm_hold calm_arm_write calm_on_exit calm_session_end
  calm_on_signal calm_shutdown eq_refl : pres.

(** ** Samples *)
Import TxSample.

Lemma quiet_codes n code : v_int (@E quiet_bench n) = IntTrip code -> code <> "".
Proof. done. Qed.

Lemma session_ok : Forall op_ok (@session_ops quiet_bench).
Proof.
  unfold session_ops. apply list.Forall_app. split; [repeat constructor|].
  destruct (@first_permit quiet_bench); repeat constructor.
Qed.

Definition faulted : t := (@exec quiet_bench (OTrip "VSWR") (@start_state quiet_bench)).1.

Lemma fault_latched_witness :
  state (@runs quiet_bench [OArm arming; OPoll None; ODisarm "operator"] faulted) = FAULT /\
  state (@exec quiet_bench (OReset "op" "RESET FAULT VSWR") faulted).1 = SAFE.
Proof.
  destruct (@fault_latched quiet_bench quiet_codes [OArm arming; OPoll None; ODisarm "operator"] "op"
              "RESET FAULT VSWR" faulted) as (H1 & _ & [H3|[_ H3]]).
  - repeat constructor.
  - repeat constructor.
  - vm_compute in H3. discriminate.
  - split; [|exact H3]. apply H1. reflexivity.
Defined.

(** A signal right after the write of TRANSMITTING. *)
Definition hit : Ctx := bench (fun n => if (n =? 30)%nat then IntSignal "SIGTERM" else NoInt) (Fin 915000000).

Lemma hit_codes n code : v_int (@E hit n) = IntTrip code -> code <> "".
Proof. cbn. by destruct (n =? 30)%nat. Qed.

Definition hit_state : t := @runs hit (firstn 3 (@session_ops quiet_bench)) (@start_state hit).

Lemma trip_wins_witness :
  trip_gen (@exec hit (OConsume (@first_permit quiet_bench)) hit_state).1 = 2 /\
  armed_or_tx (state (@exec hit (OConsume (@first_permit quiet_bench)) hit_state).1) = false.
Proof.
  split; [reflexivity|].
  apply (@trip_wins hit hit_codes (OConsume (@first_permit quiet_bench)) hit_state); [exact I|].
  vm_compute. discriminate.
Defined.


(** Armed, and polled half a second later. *)
Lemma watchdog_stops_witness :
  let s := (@exec quiet_bench (OArm arming) (@start_state quiet_bench)).1 in
  (1 # 2 <= expiry_mono s)%Q /\ @_interlock_state quiet_bench (@E quiet_bench (reads s)) <> Some false.
Proof.
  intros s. destruct (@watchdog_stops quiet_bench quiet_codes (1 # 2) s) as (_ & _ & H1 & _ & _ & H2 & _).
  - vm_compute. reflexivity.
  - split; [exact H1 | exact H2].
Defined.

End TxInv.
