(* ===== verification/TxPermits.v ===== *)
(** * Permits and the transmit duty

    Every permit starts at most one burst, and the bursts started never exceed
    the duty limit: [perm] is the part of [TxInv.calm] that the critical
    sections keep as well, so that only issuing and consuming a permit remain
    to be followed step by step. *)
From S2P Require Import Prelude StateErr PyText TxDuty RfControl TxSafety TxSample TxInvariants.

Create HintDb raises discriminated.

Module TxPerm.
Import Tx TxInv.

Lemma NoDup_fst_inj {V} {l : list (string * V)} k v v' :
  NoDup (map fst l) -> (k, v) ∈ l -> (k, v') ∈ l -> v = v'.
Proof.
  induction l as [|[k0 v0] l IH]; cbn; [set_solver|]. intros [Hn Hd]%list.NoDup_cons H1 H2.
  assert (forall x, (k, x) ∈ l -> k <> k0) as Hne.
  { intros x Hx ->. apply Hn, list_elem_of_fmap. by exists (k0, x). }
  apply elem_of_cons in H1 as [H1|H1], H2 as [H2|H2]; [congruence|..|by apply IH].
  - by apply Hne in H2; simplify_eq.
  - by apply Hne in H1; simplify_eq.
Qed.

Section Perm.
Context `{C : Ctx}.
Hypothesis Hcodes : forall n code, v_int (E n) = IntTrip code -> code <> "".

(** Permits, meter and started bursts are as before. *)
Record perm (s s' : t) : Prop := {
  pm_started : started (log s') = started (log s);
  pm_heap : heap_kept s s';
  pm_duty : forall w d T, duty_ok w d T s -> duty_ok w d T s';
  pm_reads : (reads s <= reads s')%nat }.

#[export] Instance perm_pre : PreOrder perm.
Proof.
  split.
  - intros s. split; [done | by apply heap_kept_refl | done | done].
  - intros s1 s2 s3 [H1 H2 H3 H4] [H1' H2' H3' H4']. split; [congruence| |auto|lia].
    intros o e He. destruct (H2 o e He) as (e' & He' & Hs). destruct (H2' o e' He') as (e'' & ? & Hs').
    exists e''. split; [done|]. unfold same_entry in *. intuition congruence.
Qed.

Lemma calm_perm s s' : calm s s' -> perm s s'.
Proof. by intros []. Qed.

Lemma pres_perm {A} (m : M A) : pres calm m -> pres perm m.
Proof. intros H s. apply calm_perm, H. Qed.

Hint Resolve pres_perm : pres.

(** Changes outside the permits. *)
Ltac perm_modify := apply pres_modify; intros ?; repeat case_goal;
  (split; [reflexivity | apply heap_kept_refl; reflexivity | intros ? ? ? []; split; done | done]).
Ltac permitted := repeat first [pres_step | perm_modify].
Ltac calmly := repeat pres_step.

Lemma perm_undo {A} session ent : pres perm (_undo_interrupted (A := A) session ent).
Proof. unfold _undo_interrupted. permitted. Qed.

Hint Resolve perm_undo : pres.

Lemma perm_arm r : pres perm (arm r).
Proof. unfold arm, arm_commit. permitted. Qed.

Lemma perm_complete permit res : pres perm (burst_complete permit res).
Proof. unfold burst_complete, complete_state. permitted. Qed.

Lemma perm_reset who confirmation : pres perm (reset_fault who confirmation).
Proof. unfold reset_fault, reset_checks. permitted. Qed.

(** ** Across interruptions *)

(** Either nothing stopped and permits and meter are the same, or everything
    outstanding was revoked. *)
Record sect (s s' : t) : Prop := {
  se_started : started (log s') = started (log s);
  se_reads : (reads s <= reads s')%nat;
  se_cases : (trip_gen s' = trip_gen s /\ registry s' = registry s /\ duty s' = duty s) \/
             (trip_gen s < trip_gen s' /\ registry s' = [] /\ duty s' = Duty.release_all (duty s)) }.

#[export] Instance sect_pre : PreOrder sect.
Proof.
  split; [by split; auto|]. intros s1 s2 s3 [H1 H2 H3] [H1' H2' H3']. split; [congruence | lia|].
  destruct H3 as [(?&?&?)|(?&?&Hd)], H3' as [(?&?&?)|(?&?&Hd')]; [left|right..]; split_and!; try congruence; try lia.
  by rewrite Hd', Hd.
Qed.

Lemma sect_point s : sect s (point s).1 /\ heap (point s).1 = heap s.
Proof.
  destruct (point_cases Hcodes s) as [->|[]]; (split; [split; cbn; auto|done]).
Qed.

Lemma sect_gen s s' : sect s s' -> trip_gen s <= trip_gen s'.
Proof. intros [_ _ [(?&_)|(?&_)]]; lia. Qed.

(** A point that stops nothing. *)
Lemma point_same s : trip_gen (point s).1 = trip_gen s -> (point s).1 = set_reads (S (reads s)) s.
Proof. intros Hg. destruct (point_cases Hcodes s) as [|Hst]; [done|]. pose proof (st_gen _ _ Hst). lia. Qed.

(** Duty across a section. *)
Lemma sect_duty w d T s s' :
  sect s s' -> heap_kept s s' -> duty_ok w d T s -> duty_ok w d T s'.
Proof.
  intros [H1 _ [(_ & Hr & Hd)|(_ & Hr & Hd)]] Hh []; split; rewrite ?H1, ?Hr, ?Hd.
  - done.
  - done.
  - intros pid o Hin. destruct (du_entry0 pid o Hin) as (e & He & Hrest).
    destruct (Hh o e He) as (e' & He' & E1 & E2 & E3 & E4). exists e'. by rewrite E1, E2, E3, E4.
  - by constructor.
  - constructor.
  - set_solver.
Qed.

(** A method that runs [point] and goes on. *)
Lemma run_point {A} (k : M A) s : (point;; k) s = k (point s).1.
Proof.
  unfold mbind, SE_bind. pose proof (point_ok Hcodes s). destruct (point s) as [s1 r]. cbn in H. by subst.
Qed.

(** ** Consuming a permit *)

(** Refusals do not return. *)
Definition raises {A} (m : M A) : Prop := forall s, exists e, (m s).2 = inr e.

Lemma raises_throw {A} e : raises (throw (A := A) e).
Proof. intros s. by exists e. Qed.

Lemma raises_seq {A B} (m : M A) (k : A -> M B) : (forall a, raises (k a)) -> raises (m ≫= k).
Proof. intros H s. unfold mbind, SE_bind. destruct (m s) as [s1 [a|e]]; [apply H | by exists e]. Qed.

Lemma raises_interrupted {A} : raises (_raise_interrupted (A := A)).
Proof. apply raises_seq. intros s. destruct (state s); apply raises_throw. Qed.

Lemma raises_undo {A} session ent : raises (_undo_interrupted (A := A) session ent).
Proof. do 4 (apply raises_seq; intros _). apply raises_interrupted. Qed.

Lemma raises_refuse {A} code : raises (_refuse (A := A) code).
Proof. apply raises_throw. Qed.

Lemma raises_trip {A} code : raises (_trip_raise (A := A) code).
Proof. apply raises_seq. intros _. apply raises_throw. Qed.

Lemma raises_refuse_consume {A} pid code : raises (_refuse_consume (A := A) pid code).
Proof. do 3 (apply raises_seq; intros ?). apply raises_throw. Qed.

Lemma raises_unknown {A} permit s : raises (unknown_permit (A := A) permit s).
Proof.
  unfold unknown_permit. repeat case_goal; auto using @raises_trip, @raises_refuse_consume.
Qed.

Hint Resolve raises_throw raises_seq raises_interrupted raises_undo raises_refuse raises_trip
  raises_refuse_consume raises_unknown : raises.

(** The permit is used up in [s'], nothing else changes on the heap. *)
Definition used (o : nat) (start : Q) (s s' : t) : Prop :=
  heap s' = alter (set_duty_at start) o (alter set_consumed o (heap s)).

Lemma commit_prefix gen0 sess o e start s :
  let pid := permit_id (e_permit e) in
  trip_gen s = gen0 -> state s = ARMED -> kv_get pid (registry s) = Some o ->
  exists s1, sect s s1 /\ used o start s s1 /\
    (trip_gen s1 = gen0 -> state s1 = TRANSMITTING /\ inflight s1 = Some o) /\
    consume_commit gen0 sess o e start s =
    (if trip_gen s1 =? gen0 then
       clk ← clock;
       modify (fun s => set_duty (Duty.record start (duration_s (e_permit e)) (Some pid) (Some clk) (duty s)) s);;
       emit (EvBurstStart o start (duration_s (e_permit e)))
     else _drop_permit pid "interrupted";; _undo_interrupted sess (Some o)) s1.
Proof.
  intros pid Hg Hs Hk. subst pid. unfold consume_commit. unfold mbind at 1, SE_bind at 1, get at 1.
  rewrite Hg, Z.eqb_refl, Hs, Hk. rewrite bool_decide_true by done. change (eqb_state ARMED ARMED) with true. cbn [negb orb].
  unfold update_entry, modify. unfold mbind at 1, SE_bind at 1. rewrite run_point.
  destruct (sect_point (set_heap (alter set_consumed o (heap s)) s)) as [S1 H1].
  set (s1 := (point (set_heap _ s)).1) in *. unfold mbind at 1, SE_bind at 1. rewrite run_point.
  destruct (sect_point (set_heap (alter (set_duty_at start) o (heap s1)) s1)) as [S2 H2].
  set (s2 := (point (set_heap _ s1)).1) in *. unfold mbind at 1, SE_bind at 1. rewrite run_point.
  destruct (sect_point (set_inflight (Some o) s2)) as [S3 H3].
  set (s3 := (point (set_inflight _ s2)).1) in *. unfold mbind at 1, SE_bind at 1. rewrite run_point.
  destruct (sect_point (set_state TRANSMITTING s3)) as [S4 H4].
  set (s4 := (point (set_state _ s3)).1) in *. exists s4. split_and!; [| | |reflexivity].
  - assert (sect s s1) as ? by (by destruct S1). assert (sect s1 s2) as ? by (by destruct S2).
    assert (sect s2 s3) as ? by (by destruct S3). assert (sect s3 s4) as ? by (by destruct S4).
    by do 3 (etrans; [eassumption|]).
  - unfold used. rewrite H4. cbn. rewrite H3. cbn. rewrite H2. cbn. by rewrite H1.
  - intros Hg4. pose proof (sect_gen _ _ S1). pose proof (sect_gen _ _ S2). pose proof (sect_gen _ _ S3).
    pose proof (sect_gen _ _ S4). cbn in *. unfold s4, s3.
    rewrite point_same by (fold s3; fold s4; cbn; lia). cbn. split; [done|].
    by rewrite point_same by (fold s3; cbn; lia).
Qed.

(** The commit is refused when it was interrupted before. *)
Lemma commit_refused gen0 sess o e start s :
  let pid := permit_id (e_permit e) in
  ~ (trip_gen s = gen0 /\ state s = ARMED /\ kv_get pid (registry s) = Some o) ->
  perm s (consume_commit gen0 sess o e start s).1 /\ exists ex, (consume_commit gen0 sess o e start s).2 = inr ex.
Proof.
  intros pid Hn. remember (consume_commit _ _ _ _ _ s) as x eqn:Ex. revert Ex. unfold consume_commit.
  unfold mbind at 1, SE_bind at 1, get at 1. destruct (_ || _) eqn:Eg.
  - intros ->. clear Hn Eg. split; [|revert s; change (raises (_drop_permit pid "interrupted";; _raise_interrupted (A := unit)));
                               auto with raises].
    revert s. change (pres perm (_drop_permit pid "interrupted";; _raise_interrupted (A := unit))). permitted.
  - exfalso. apply Hn. apply orb_false_iff in Eg as [[E1 E2]%orb_false_iff E3].
    apply negb_false_iff in E1, E2, E3. apply Z.eqb_eq in E1. apply bool_decide_eq_true in E2, E3. done.
Qed.

(** No permit object starts two bursts. *)
Definition single_use (s : t) : Prop :=
  NoDup (map fst (started (log s))) /\
  (forall o, o ∈ map fst (started (log s)) -> exists e, heap s !! o = Some e /\ consumed e = true).

Lemma single_perm s s' : perm s s' -> single_use s -> single_use s'.
Proof.
  intros [H1 H2 _ _] [Hn Hc]. split; rewrite H1; [done|]. intros o Ho. destruct (Hc o Ho) as (e & He & Hce).
  destruct (H2 o e He) as (e' & He' & _ & E2 & _). exists e'. split; [done | congruence].
Qed.

Lemma used_lookup o start s s' o' e :
  used o start s s' -> heap s !! o' = Some e ->
  heap s' !! o' = Some (if decide (o' = o) then set_duty_at start (set_consumed e) else e).
Proof.
  intros -> He. case_decide as Ho; [subst; by rewrite !list_lookup_alter_eq, He|].
  by rewrite !list_lookup_alter_ne.
Qed.

Lemma commit_single gen0 sess o e start s e1 :
  heap s !! o = Some e1 -> consumed e1 = false -> single_use s ->
  single_use (consume_commit gen0 sess o e start s).1.
Proof.
  intros He1 Hc1 Hs. set (pid := permit_id (e_permit e)).
  destruct (decide (trip_gen s = gen0 /\ state s = ARMED /\ kv_get pid (registry s) = Some o))
    as [(Hg & Hst & Hk)|Hn]; [|eapply single_perm; [by eapply commit_refused | done]].
  destruct (commit_prefix gen0 sess o e start s Hg Hst Hk) as (s1 & Hse & Hu & _ & ->).
  assert (Hs1 : single_use s1).
  { destruct Hs as [Hnd Hc]. split; rewrite (se_started _ _ Hse); [done|]. intros o' Ho.
    destruct (Hc o' Ho) as (e' & He' & ?). pose proof (used_lookup _ _ _ _ _ _ Hu He') as Hl.
    eexists. split; [exact Hl|]. by case_decide. }
  destruct (trip_gen s1 =? gen0).
  - unfold clock, look, emit. se_unfold. cbn. destruct Hs1 as [Hnd Hc].
    assert (o ∉ map fst (started (log s1))) as Ho.
    { rewrite (se_started _ _ Hse). intros Ho. destruct (proj2 Hs o Ho) as (e' & He' & ?). congruence. }
    split; cbn; rewrite started_app, map_app; cbn.
    + apply list.NoDup_app. split_and!; [done | set_solver | apply list.NoDup_singleton].
    + intros o' [Ho'|Ho']%elem_of_app; [auto|]. apply list_elem_of_singleton in Ho' as ->.
      pose proof (used_lookup _ _ _ _ _ _ Hu He1) as H. rewrite decide_True in H by done. eauto.
  - eapply single_perm; [|exact Hs1]. revert s1 Hse Hu Hs1. intros s1 _ _ _. revert s1.
    change (pres perm (_drop_permit pid "interrupted";; _undo_interrupted (A := unit) sess (Some o))). permitted.
Qed.

(** What a call of [consume] has verified when it reaches its commit. *)
Record reached (permit : option TxPermit) (s : t) (o : nat) (e : entry) (r : ArmRecord) (s2 : t) : Prop := {
  re_entry : entry_of permit s = Some (o, e);
  re_unused : consumed e = false;
  re_armed : state s = ARMED;
  re_record : arm_record s = Some r;
  re_session : p_session (e_permit e) = session_id r;
  re_digest : v_sha (E (S (reads s))) (samples (e_permit e)) = digest (e_permit e);
  re_deadline : (v_clock (E (reads s)) <= deadline_mono (e_permit e))%Q;
  re_tuned : has_tx_freq = true -> _retune_problem (Some (_read_tx_freq (E (S (S (reads s)))))) s = false;
  re_perm : perm s s2;
  re_ctl : ctl s s2;
  re_duty : trip_gen s2 = trip_gen s ->
    Duty.would_exceed (duration_s (e_permit e)) (start_of (v_clock (E (reads s))) e)
      (Some (permit_id (e_permit e))) (duty s2) = false;
  re_frontend : trip_gen s2 = trip_gen s -> _frontend_state_problem e s2 = false }.

Lemma recheck_reaches permit s s1 o e r :
  let now := v_clock (E (reads s)) in
  entry_of permit s = Some (o, e) -> consumed e = false -> state s = ARMED -> arm_record s = Some r ->
  p_session (e_permit e) = session_id r ->
  v_sha (E (S (reads s))) (samples (e_permit e)) = digest (e_permit e) ->
  (now <= deadline_mono (e_permit e))%Q -> s1 = set_reads (S (S (reads s))) s ->
  forall sess,
  (perm s (consume_recheck (trip_gen s) now sess o e s1).1 /\
   exists ex, (consume_recheck (trip_gen s) now sess o e s1).2 = inr ex) \/
  exists s2, reached permit s o e r s2 /\
    consume_recheck (trip_gen s) now sess o e s1 = consume_commit (trip_gen s) sess o e (start_of now e) s2.
Proof.
  intros now He Hu Ha Hr Hss Hd Hdl -> sess.
  assert (P1 : calm s (set_reads (S (S (S (reads s)))) s)) by (apply frame_calm; split; cbn; auto; lia).
  remember (consume_recheck _ _ _ _ _ _) as x eqn:Ex. revert Ex. unfold consume_recheck. unfold mbind at 1, SE_bind at 1, look, mbind at 1, SE_bind at 1, get at 1, modify.
  cbn [reads set_reads]. unfold mbind at 1, SE_bind at 1, mret, SE_ret. unfold mbind at 1, SE_bind at 1, get at 1.
  set (sa := set_reads (S (S (S (reads s)))) (set_reads (S (S (reads s))) s)).
  change (calm s sa) in P1.
  assert (Hrefuse : forall m : M unit, pres calm m -> raises m -> forall s', calm s s' ->
    perm s (m s').1 /\ exists ex, (m s').2 = inr ex).
  { intros m Hm Hr' s' Hs'. split; [|apply Hr']. apply calm_perm. etrans; [exact Hs' | apply Hm]. }
  destruct (has_tx_freq && _) eqn:Et; [intros ->; left; apply Hrefuse; [calmly | auto with raises | done]|].
  unfold mbind at 1, SE_bind at 1. pose proof (calm_poll Hcodes (Some now) sa) as P2.
  destruct (poll (Some now) sa) as [s3 [[]|ex]]; [|intros ->; left; split; [apply calm_perm; by etrans | by exists ex]].
  assert (calm s s3) as P3 by (by etrans). clear P1 P2.
  unfold mbind at 1, SE_bind at 1, get at 1.
  destruct (eqb_state (state s3) FAULT); [intros ->; left; apply (Hrefuse (throw _)); [calmly | auto with raises | done]|].
  destruct (_ || _); [intros ->; left; apply Hrefuse; [calmly | auto with raises | done]|].
  destruct (Duty.would_exceed _ _ _ _) eqn:Ew; [intros ->; left; apply Hrefuse; [calmly | auto with raises | done]|].
  destruct (_frontend_state_problem e s3) eqn:Ef; [intros ->; left; apply Hrefuse; [calmly | auto with raises | done]|].
  rewrite run_point. intros ->. right. exists (point s3).1. split; [|done].
  pose proof (calm_point Hcodes s3) as P4. pose proof (ctl_gen _ _ (calm_ctl _ _ P3)) as G3.
  assert (Hsame : trip_gen (point s3).1 = trip_gen s -> (point s3).1 = set_reads (S (reads s3)) s3).
  { intros Hg. apply point_same. pose proof (ctl_gen _ _ (calm_ctl _ _ P4)). lia. }
  split; try done.
  - intros Hf. by rewrite Hf in Et.
  - apply calm_perm. by etrans.
  - apply calm_ctl. by etrans.
  - by intros ->%Hsame.
  - by intros ->%Hsame.
Qed.

Lemma consume_reaches permit s :
  (perm s (consume permit s).1 /\ exists ex, (consume permit s).2 = inr ex) \/
  exists o e r sess s2, reached permit s o e r s2 /\
    consume permit s = consume_commit (trip_gen s) sess o e (start_of (v_clock (E (reads s))) e) s2.
Proof.
  remember (consume permit s) as x eqn:Ex. revert Ex. unfold consume. unfold mbind at 1, SE_bind at 1, get at 1.
  unfold clock, look. unfold mbind at 1, SE_bind at 1. se_unfold. cbn [reads set_reads].
  set (s1 := set_reads (S (S (reads s))) (set_reads (S (reads s)) s)).
  assert (P1 : calm s s1) by (apply frame_calm; split; cbn; auto; lia).
  assert (Hrefuse : forall m : M unit, pres calm m -> raises m -> perm s (m s1).1 /\ exists ex, (m s1).2 = inr ex).
  { intros m Hm Hr'. split; [|apply Hr']. apply calm_perm. etrans; [exact P1 | apply Hm]. }
  destruct (eqb_state (state s1) DISABLED); [intros ->; left; apply Hrefuse; [calmly | auto with raises]|].
  change (entry_of permit s1) with (entry_of permit s). change (arm_record s1) with (arm_record s).
  change (state s1) with (state s). change (session_of s1) with (session_of s).
  destruct (entry_of permit s) as [[o e]|] eqn:Ee; [|intros ->; left; apply Hrefuse; [calmly | auto with raises]].
  destruct (consumed e) eqn:Ec; [intros ->; left; apply Hrefuse; [calmly | auto with raises]|].
  destruct (arm_record s) as [r|] eqn:Er; [|intros ->; left; apply Hrefuse; [calmly | auto with raises]].
  destruct (negb (bool_decide (p_session _ = _))) eqn:Es; [intros ->; left; apply Hrefuse; [calmly | auto with raises]|].
  destruct (negb (bool_decide (v_sha _ _ = _))) eqn:Ed; [intros ->; left; apply Hrefuse; [calmly | auto with raises]|].
  destruct (Qltb _ _) eqn:Eq; [intros ->; left; apply Hrefuse; [calmly | auto with raises]|].
  destruct (eqb_state (state s) TRANSMITTING); [intros ->; left; apply Hrefuse; [calmly | auto with raises]|].
  destruct (negb (eqb_state (state s) ARMED)) eqn:Ea; [intros ->; left; apply Hrefuse; [calmly | auto with raises]|].
  apply negb_false_iff, bool_decide_eq_true in Es, Ed, Ea.
  assert (v_clock (E (reads s)) <= deadline_mono (e_permit e))%Q as Hdl.
  { apply Qnot_lt_le. intros H%Qltb_lt. congruence. }
  intros ->. destruct (recheck_reaches permit s s1 o e r Ee Ec Ea Er Es Ed Hdl eq_refl (session_of s)) as [?|(s2 & ? & ?)];
    [by left|]. right. by exists o, e, r, (session_of s), s2.
Qed.

Lemma entry_of_some permit s o e :
  entry_of permit s = Some (o, e) ->
  permit = Some (e_permit e) /\ kv_get (permit_id (e_permit e)) (registry s) = Some o /\ heap s !! o = Some e.
Proof.
  unfold entry_of, entry_at. destruct permit as [pm|]; [|done]. cbn.
  destruct (kv_get _ _) as [o'|] eqn:Ek; [|done]. cbn. destruct (heap s !! o') as [e'|] eqn:Eh; [|done]. cbn.
  case_bool_decide as Hp; [|done]. intros [= -> ->]. subst. done.
Qed.

Lemma reached_entry permit s o e r s2 :
  reached permit s o e r s2 -> exists e1, heap s2 !! o = Some e1 /\ same_entry e e1 /\ consumed e1 = false.
Proof.
  intros H. destruct (entry_of_some _ _ _ _ (re_entry _ _ _ _ _ _ H)) as (_ & _ & Hh).
  destruct (pm_heap _ _ (re_perm _ _ _ _ _ _ H) o e Hh) as (e1 & He1 & Hs). exists e1. split_and!; [done..|].
  destruct Hs as (_ & -> & _). apply (re_unused _ _ _ _ _ _ H).
Qed.

Lemma single_consume permit s : single_use s -> single_use (consume permit s).1.
Proof.
  intros Hs. destruct (consume_reaches permit s) as [[? _]|(o & e & r & sess & s2 & Hr & ->)]; [by eapply single_perm|].
  destruct (reached_entry _ _ _ _ _ _ Hr) as (e1 & He1 & _ & Hc1).
  eapply commit_single; [done..|]. eapply single_perm; [apply Hr | done].
Qed.

(** A commit that returns has started the burst, and nothing interrupted it. *)
Lemma commit_ok gen0 sess o e start s s' :
  consume_commit gen0 sess o e start s = (s', inl tt) ->
  trip_gen s = gen0 /\ state s = ARMED /\ kv_get (permit_id (e_permit e)) (registry s) = Some o /\
  trip_gen s' = gen0 /\ state s' = TRANSMITTING /\ inflight s' = Some o /\
  started (log s') = started (log s) ++ [(o, (start, duration_s (e_permit e)))] /\
  (forall e1, heap s !! o = Some e1 -> exists e2, heap s' !! o = Some e2 /\ consumed e2 = true).
Proof.
  intros Hc.
  destruct (decide (trip_gen s = gen0 /\ state s = ARMED /\ kv_get (permit_id (e_permit e)) (registry s) = Some o))
    as [(Hg & Hst & Hk)|Hn]; [|destruct (commit_refused gen0 sess o e start s Hn) as [_ [ex Hx]]; by rewrite Hc in Hx].
  destruct (commit_prefix gen0 sess o e start s Hg Hst Hk) as (s1 & Hse & Hu & Hcommit & Heq).
  rewrite Heq in Hc. destruct (trip_gen s1 =? gen0) eqn:Eg.
  2:{ destruct (raises_seq (_drop_permit (permit_id (e_permit e)) "interrupted")
        (fun _ => _undo_interrupted (A := unit) sess (Some o)) (fun _ => raises_undo _ _) s1) as [ex Hx].
      by rewrite Hc in Hx. }
  apply Z.eqb_eq in Eg. destruct (Hcommit Eg) as [H1 H2]. unfold clock, look, emit in Hc. se_unfold.
  injection Hc as <-. split_and!; try done.
  - change (started (log s1 ++ [EvBurstStart o start (duration_s (e_permit e))]) =
            started (log s) ++ [(o, (start, duration_s (e_permit e)))]).
    rewrite started_app, (se_started _ _ Hse). done.
  - intros e1 He1. pose proof (used_lookup _ _ _ _ _ _ Hu He1) as Hl. rewrite decide_True in Hl by done. eauto.
Qed.


(** ** The calls that keep permits and meter *)
Definition keeps_perm (o : op) : bool :=
  match o with OConsume _ | OAuthorize _ => false | _ => true end.

Lemma perm_void {A} (m : M A) : pres perm m -> pres perm (m;; mret tt : M unit).
Proof. intros H. permitted. Qed.

Lemma exec_perm o : op_ok o -> keeps_perm o = true -> pres perm (exec o).
Proof.
  intros Ho Hk. destruct o; cbn [exec keeps_perm op_ok] in *; try discriminate; try (solve [auto with pres nocore]).
  - apply perm_void, perm_arm.
  - apply perm_void. auto with pres nocore.
  - apply perm_complete.
  - apply perm_reset.
  - unfold when. permitted.
Qed.

Lemma single_exec o s : op_ok o -> single_use s -> single_use (exec o s).1.
Proof.
  intros Ho Hs. destruct (keeps_perm o) eqn:Ek; [eapply single_perm; [by apply exec_perm | done]|].
  destruct o; try done; [|by apply single_consume]. cbn [exec]. unfold mbind, SE_bind.
  destruct (still_authorize Hcodes b s) as (H1 & H2 & _).
  assert (single_use (authorize_burst b s).1) as H.
  { destruct Hs as [Hn Hc]. split; rewrite H1; [done|]. intros o Ho'. destruct (Hc o Ho') as (e & He & ?).
    destruct (H2 o e He) as (e' & He' & _ & E2 & _). exists e'. split; [done | congruence]. }
  by destruct (authorize_burst b s) as [s1 [a|e]].
Qed.

(** [C22] A permit is good for one burst: in no run of the controller do two
    started bursts belong to the same permit object. *)
Theorem permit_single_use d f ops :
  Forall op_ok ops -> NoDup (map fst (started (log (runs ops (init d f))))).
Proof.
  intros Ho. assert (single_use (init d f)) as H0 by (split; [constructor | set_solver]).
  revert H0. generalize (init d f). induction Ho as [|o ops Ho _ IH]; intros s Hs; [apply Hs|].
  by apply IH, single_exec.
Qed.

(** ** The duty limit *)
Section DutyLimit.
Hypothesis Hmono : forall i j, (i <= j)%nat -> (v_clock (E i) <= v_clock (E j))%Q.
Hypothesis Hlead : ((1 # 1000000000000) <= Duty.qmax (min_start_lead_s p) (min_tx_lead_s p))%Q.
Variable w d : Q.

(** The meter's account, up to date with the clock. *)
Definition duty_inv (s : t) : Prop := exists T, duty_ok w d T s /\ (T <= v_clock (E (reads s)))%Q.

Lemma duty_perm s s' : perm s s' -> duty_inv s -> duty_inv s'.
Proof.
  intros [_ _ Hd Hr] (T & HT & Hc). exists T. split; [by apply Hd|].
  eapply Qle_trans; [exact Hc | by apply Hmono].
Qed.

(** The commit records the burst at a start that was reserved, or checked. *)
Lemma record_duty T s s1 o e e1 start r :
  duty_ok w d T s -> sect s s1 -> used o start s s1 -> trip_gen s1 = trip_gen s ->
  let pid := permit_id (e_permit e) in
  kv_get pid (registry s) = Some o -> heap s !! o = Some e1 -> same_entry e e1 -> consumed e = false ->
  (T <= v_clock (E r))%Q ->
  (p_start (e_permit e) = true -> start = duty_at e) ->
  (p_start (e_permit e) = false -> (T <= start)%Q /\
     Duty.would_exceed (duration_s (e_permit e)) start (Some pid) (duty s) = false) ->
  let s' := set_log (log s1 ++ [EvBurstStart o start (duration_s (e_permit e))])
    (set_duty (Duty.record start (duration_s (e_permit e)) (Some pid) (Some (v_clock (E r))) (duty s1))
       (set_reads (S r) s1)) in
  duty_ok w d (v_clock (E r)) s'.
Proof.
  intros [Had Hnd Hent] Hse Hu Hg pid Hk%kv_get_in He1 (E1 & E2 & E3 & E4) Hun HT Htim Hunt s'.
  destruct Hse as [Hlog _ [(_ & Hreg & Hdu)|(Hlt & _)]]; [|lia].
  destruct (Hent pid o Hk) as (e' & He' & _ & Hdur & _ & Hres). assert (e' = e1) as -> by congruence.
  rewrite E1, E3 in Hres. rewrite E1 in Hdur. subst s'. split; cbn.
  - rewrite started_app, map_app, Hlog, Hdu. cbn. destruct (p_start (e_permit e)) eqn:Ep.
    + rewrite Htim by done. eapply Duty.adm_timed; [done | | done]. apply Hres. congruence.
    + destruct (Hunt eq_refl). by eapply Duty.adm_untimed.
  - by rewrite Hreg.
  - intros pid' o' Hin. rewrite Hreg in Hin. destruct (Hent pid' o' Hin) as (e' & He'' & Hp & Hd' & Ha & Hr).
    pose proof (used_lookup _ _ _ _ _ _ Hu He'') as Hl. eexists. split; [exact Hl|].
    case_decide as Ho; [by subst; split_and!|]. split_and!; try done. intros Hc. rewrite Hdu.
    apply res_pop_other; [auto|]. intros ->. apply Ho.
    by apply (NoDup_fst_inj pid o' o Hnd).
Qed.

Lemma sect_stopped T s s1 : sect s s1 -> trip_gen s1 <> trip_gen s -> duty_ok w d T s -> duty_ok w d T s1.
Proof.
  intros [Hl _ [(Hg & _)|(_ & Hr & Hd)]] Hn []; [done|].
  split; rewrite ?Hl, ?Hr, ?Hd; [by constructor | constructor | set_solver].
Qed.

Lemma duty_consume permit s : duty_inv s -> duty_inv (consume permit s).1.
Proof.
  intros Hs. destruct (consume_reaches permit s) as [[? _]|(o & e & r & sess & s2 & Hre & ->)]; [by eapply duty_perm|].
  pose proof Hs as (T & HT & Hc). pose proof (re_perm _ _ _ _ _ _ Hre) as Hp.
  assert (duty_ok w d T s2) as HT2 by by apply Hp.
  destruct (reached_entry _ _ _ _ _ _ Hre) as (e1 & He1 & Hsame & _).
  set (start := start_of _ e). set (pid := permit_id (e_permit e)).
  destruct (decide (trip_gen s2 = trip_gen s /\ state s2 = ARMED /\ kv_get pid (registry s2) = Some o))
    as [(Hg & Hst & Hk)|Hn].
  2:{ eapply duty_perm; [by eapply commit_refused|]. by eapply duty_perm. }
  destruct (commit_prefix (trip_gen s) sess o e start s2 Hg Hst Hk) as (s1 & Hse & Hu & _ & ->).
  assert (T <= v_clock (E (reads s1)))%Q as Hc1.
  { eapply Qle_trans; [exact Hc|]. apply Hmono. etrans; [apply (pm_reads _ _ Hp) | apply (se_reads _ _ Hse)]. }
  destruct (trip_gen s1 =? trip_gen s) eqn:Eg.
  - exists (v_clock (E (reads s1))). split; [|apply Hmono; unfold clock, look, emit; se_unfold; cbn; lia].
    unfold clock, look, emit. se_unfold. cbn [fst].
    eapply (record_duty T s2 s1 o e e1 start); try done.
    + lia.
    + apply Hre.
    + unfold start, start_of. by intros ->.
    + intros Hps. split; [|by apply Hre]. unfold start, start_of. rewrite Hps.
      destruct (entry_of_some _ _ _ _ (re_entry _ _ _ _ _ _ Hre)) as (_ & Hk0%kv_get_in & Hh0).
      destruct (du_entry _ _ _ _ HT _ _ Hk0) as (e0 & Hh1 & _ & _ & Hoff & _).
      assert (e0 = e) as -> by congruence. lra.
  - assert (duty_inv s1) as H1.
    { exists T. split; [|done]. eapply sect_stopped; [done | lia | done]. }
    eapply duty_perm; [|exact H1]. revert s1 Hse Hu Hc1 Eg H1. intros s1 _ _ _ _ _. revert s1.
    change (pres perm (_drop_permit pid "interrupted";; _undo_interrupted (A := unit) sess (Some o))). permitted.
Qed.

(** *** Issuing *)
Lemma need_ok b code s s' u : need b code s = (s', inl u) -> b = true.
Proof. unfold need, _refuse. by destruct b. Qed.

Lemma auth_shape_ok b a s s' f : auth_shape b a s = (s', inl f) -> (0 <= f_dur f /\ 0 <= f_at_off f)%Q.
Proof.
  unfold auth_shape. intros H. do 15 (apply bind_ok in H as (? & ? & ? & H)).
  unfold mret, SE_ret, _refuse, throw in *. injection H as <- <-. cbn.
  repeat match goal with H : need _ _ _ = _ |- _ => apply need_ok in H end.
  match goal with H : _ && _ && (1 <=? q_cols b) = true |- _ =>
    apply andb_true_iff in H as [_ Hcols]; apply Z.leb_le in Hcols end.
  destruct (q_fs b) as [| | |fs] in *; try discriminate. destruct (Qltb 0 fs) eqn:Ex in *; try discriminate.
  destruct (q_at_offset b) as [| | |off] in *; try discriminate. simplify_eq.
  q_prop. split; [|destruct (Duty.qmax_spec 0 off) as [[? ->]|[? ->]]; lra].
  apply Qle_shift_div_l; [done|]. rewrite Qmult_0_l. change 0%Q with (inject_Z 0). rewrite <- Zle_Qle. lia.
Qed.

Lemma auth_start_ok now b f s s' lead : auth_start now b f s = (s', inl lead) -> timed b = true -> (0 <= lead)%Q.
Proof.
  unfold auth_start, timed. intros (? & ? & _ & H)%bind_ok. destruct (q_start b) as [| |l]; [done..|].
  intros _. apply bind_ok in H as (? & ? & _ & H). destruct l as [[| | |q]|]; try done.
  apply bind_ok in H as (? & ? & H1%need_ok & H). apply bind_ok in H as (? & ? & _ & H).
  unfold mret, SE_ret in H. injection H as _ <-. q_prop. lra.
Qed.

(** A burst that passed the duty check is reserved, or everything was revoked. *)
Lemma register_duty T s ent :
  let pid := permit_id (e_permit ent) in
  duty_ok w d T s -> (T <= duty_at ent)%Q -> (0 <= duration_s (e_permit ent))%Q -> (0 <= at_offset ent)%Q ->
  Duty.would_exceed (duration_s (e_permit ent)) (duty_at ent) None (duty s) = false ->
  duty_ok w d T (register (trip_gen s) (length (heap s)) ent s).1.
Proof.
  intros pid [Had Hnd Hent] Hst Hdur Hoff Hw. remember (register _ _ _ s) as x eqn:Ex. revert Ex.
  unfold register, modify. cbn zeta. do 2 (unfold mbind at 1, SE_bind at 1).
  rewrite run_point. set (s1 := set_registry _ _). destruct (sect_point s1) as [S1 H1].
  set (s2 := (point s1).1) in *. unfold mbind at 1, SE_bind at 1. rewrite run_point.
  set (s3 := set_duty _ s2). destruct (sect_point s3) as [S2 H2]. set (s4 := (point s3).1) in *.
  unfold mbind at 1, SE_bind at 1, get. fold pid in s1, s3.
  assert (Hdrop : forall s', duty_ok w d T s' -> duty_ok w d T ((_drop_permit pid "interrupted";; _raise_interrupted (A := unit)) s').1).
  { assert (pres perm (_drop_permit pid "interrupted";; _raise_interrupted (A := unit))) as H by permitted.
    intros s'. apply H. }
  destruct S1 as [L1 _ [(G1 & R1 & D1)|(G1 & R1 & D1)]].
  - assert (duty_ok w d T s3) as H3.
    { change (duty s1) with (duty s) in D1. change (started (log s1)) with (started (log s)) in L1.
      change (registry s1) with (kv_set pid (length (heap s)) (registry s)) in R1.
      change (heap s1) with (heap s ++ [ent]) in H1.
      split; [| |intros pid' o'].
      - change (log s3) with (log s2). rewrite L1. cbn. rewrite D1. by apply Duty.adm_reserve.
      - cbn. rewrite R1. by apply kv_set_nodup.
      - cbn. rewrite R1, H1, D1. intros [[= -> ->]|[Hin Hne]]%kv_set_in; [..|done].
        + exists ent. rewrite lookup_app_r, Nat.sub_diag by lia. split_and!; try done. intros _. apply res_set_same.
        + destruct (Hent pid' o' Hin) as (e & He & ? & ? & ? & Hr). exists e.
          split_and!; try done; [by apply lookup_app_l_Some|]. intros Hc. by apply res_set_other; auto. }
    assert (duty_ok w d T s4) as H4.
    { apply (sect_duty w d T s3); [done | | done]. apply heap_kept_refl. by rewrite H2. }
    destruct (trip_gen s4 =? trip_gen s); intros ->; [done | by apply Hdrop].
  - destruct S2 as [L2 _ S2]. assert (trip_gen s4 <> trip_gen s) as Hg.
    { cbn in G1. destruct S2 as [(G2 & _)|(G2 & _)]; cbn in G2; lia. }
    rewrite (proj2 (Z.eqb_neq _ _) Hg). intros ->.
    unfold _drop_permit, _revoke, modify, mbind, SE_bind. rewrite raise_same.
    assert (Hd4 : Duty.release pid (duty s4) = Duty.release_all (duty s)).
    { destruct S2 as [(_ & _ & D2)|(_ & _ & D2)]; rewrite D2; cbn; rewrite D1; unfold Duty.release, Duty.reserve; cbn;
        by rewrite ?bool_decide_true by done. }
    assert (Hr4 : registry s4 = []) by (destruct S2 as [(_ & R2 & _)|(_ & R2 & _)]; rewrite R2; done).
    split; [|cbn; rewrite Hr4; constructor|cbn; rewrite Hr4; set_solver].
    change (Duty.admitted w d (Duty.release pid (duty s4)) (map snd (started (log s4))) T). rewrite Hd4, L2.
    change (log s3) with (log s2). rewrite L1. by constructor.
Qed.

(** Along a call: the account, and how far the generation is. *)
Definition going (T : Q) (g : Z) (s : t) : Prop := duty_ok w d T s /\ g <= trip_gen s.

Lemma going_bind {A B} (m : M A) (k : A -> M B) T g s :
  pres calm m -> going T g s ->
  (forall a s', m s = (s', inl a) -> going T g s' -> duty_ok w d T (k a s').1) -> duty_ok w d T ((m ≫= k) s).1.
Proof.
  intros Hm [Hs Hg] Hk. specialize (Hm s). unfold mbind, SE_bind.
  destruct (m s) as [s1 [a|e]] eqn:Em; cbn in Hm; [|by apply Hm].
  apply Hk; [done|]. split; [by apply Hm|]. pose proof (ctl_gen _ _ (calm_ctl _ _ Hm)). lia.
Qed.

Lemma issue_duty T g s s1 now lead start fc b f :
  duty_ok w d T s1 -> g <= trip_gen s -> sect s s1 ->
  (T <= start)%Q -> (0 <= f_dur f)%Q -> (0 <= f_at_off f)%Q ->
  Duty.would_exceed (f_dur f) start None (duty s) = false ->
  duty_ok w d T (issue g now lead start fc b f s1).1.
Proof.
  intros HT Hg Hse Hst Hdur Hoff Hw. unfold issue. unfold mbind at 1, SE_bind at 1, get at 1.
  destruct (_ || _) eqn:Eg; [by rewrite raise_same|].
  apply orb_false_iff in Eg as [Hgen%negb_false_iff%Z.eqb_eq _].
  assert (duty s1 = duty s) as Hd by (destruct Hse as [_ _ [(_ & _ & ?)|(? & _)]]; [done | lia]).
  unfold look at 1. unfold mbind at 1, SE_bind at 1, get at 1, mbind at 1, SE_bind at 1, modify at 1.
  unfold mbind at 1, SE_bind at 1, mret at 1, SE_ret at 1. set (s2 := set_reads _ s1).
  destruct _b9_state as [[[lna_on tr_tx] lna_c] tr_c].
  match goal with |- context [register _ _ ?en] => set (ent := en) end.
  assert (duty_ok w d T (register g (length (heap s1)) ent s2).1) as H.
  { rewrite <- Hgen. change (trip_gen s1) with (trip_gen s2). change (heap s1) with (heap s2).
    apply register_duty; try done; [by destruct HT|]. cbn. by rewrite Hd. }
  unfold mbind, SE_bind. by destruct (register _ _ _ _) as [s3 [[]|e]].
Qed.

Lemma duty_authorize b s : duty_inv s -> duty_inv (authorize_burst b s).1.
Proof.
  intros (T & HT & Hc). pose proof (still_authorize Hcodes b s) as (_ & _ & Hr).
  exists T. split; [|eapply Qle_trans; [exact Hc | by apply Hmono]]. clear Hr.
  unfold authorize_burst. unfold mbind at 1, SE_bind at 1, get at 1.
  assert (going T (trip_gen s) s) as G by done. set (g := trip_gen s) in *.
  apply (going_bind _ _ T g); [calmly | done|]. intros now s1 E1 G1.
  assert (now = v_clock (E (reads s))) as -> by (unfold clock, look in E1; se_unfold; by simplify_eq). clear E1.
  apply (going_bind _ _ T g); [calmly | done|]. intros [] s2 _ G2.
  apply (going_bind _ _ T g); [calmly | done|]. intros rec s3 _ G3.
  apply (going_bind _ _ T g); [calmly | done|]. intros sx s3' _ G3'.
  apply (going_bind _ _ T g); [calmly | done|]. intros f s4 [Hdur Hoff]%auth_shape_ok G4.
  apply (going_bind _ _ T g); [calmly | done|]. intros lead s5 Hld G5.
  apply (going_bind _ _ T g); [calmly | done|]. intros s6 s6' [= <- <-] _.
  apply (going_bind _ _ T g); [calmly | done|]. intros [] s7 Hw _.
  assert (s7 = s5) as -> by (unfold need, _refuse in Hw; se_unfold; by destruct (negb _); simplify_eq).
  apply need_ok, negb_true_iff in Hw.
  apply (going_bind _ _ T g); [calmly | done|]. intros fc s8 E8 G8.
  pose proof (frame_auth_freq b rec s5) as F1. rewrite E8 in F1.
  apply (going_bind _ _ T g); [calmly | done|]. intros [] s9 E9 G9.
  pose proof (frame_auth_rf b rec f fc s8) as F2. rewrite E9 in F2. cbn in F1, F2.
  rewrite run_point. assert (frame s5 s9) as F by (by etrans).
  destruct (sect_point s9) as [Hse Hh].
  apply (issue_duty T g s9); try done.
  - apply (sect_duty w d T s9); [done | by apply heap_kept_refl | apply G9].
  - apply G9.
  - destruct (timed b) eqn:Et; [apply auth_start_ok in Hld; [|done]|]; lra.
  - by rewrite (fr_duty _ _ F).
Qed.

Lemma duty_exec o s : op_ok o -> duty_inv s -> duty_inv (exec o s).1.
Proof.
  intros Ho Hs. destruct (keeps_perm o) eqn:Ek; [eapply duty_perm; [by apply exec_perm | done]|].
  destruct o; try done; [|by apply duty_consume]. cbn [exec]. unfold mbind, SE_bind.
  pose proof (duty_authorize b s Hs) as H. by destruct (authorize_burst b s) as [s1 [a|e]].
Qed.

End DutyLimit.

(** [C2] The duty limit of the whole controller.  With a clock that does not
    run backwards, after any sequence of calls the bursts started so far occupy
    no more than [duty_max * window_s] seconds (up to the meter's tolerance) of
    any sliding window of [window_s] seconds, at any time [x]: no path through
    authorization, expiry, interruption, revocation and completion lets a burst
    escape the account. *)
Theorem transmit_duty_bounded w d m f ops x :
  (forall i j, (i <= j)%nat -> (v_clock (E i) <= v_clock (E j))%Q) ->
  ((1 # 1000000000000) <= Duty.qmax (min_start_lead_s p) (min_tx_lead_s p))%Q ->
  Duty.init w d = Ok m -> Forall op_ok ops ->
  (Duty.busy w x (map snd (started (log (runs ops (init m f))))) <=
   d * w * (1 + Duty._REL_TOL) + Duty.ABS_TOL)%Q.
Proof.
  intros Hmono Hlead Hm Ho.
  assert (duty_inv w d (init m f)) as H0.
  { exists (v_clock (E 0)). split; [|by apply Hmono].
    split; [by apply Duty.adm_init | constructor | set_solver]. }
  assert (duty_inv w d (runs ops (init m f))) as (T & HT & _).
  { revert H0. generalize (init m f). induction Ho as [|o ops Ho _ IH]; intros s Hs; [done|].
    by apply IH, duty_exec. }
  apply (Duty.admitted_bound w d (duty (runs ops (init m f))) _ T), HT.
Qed.

End Perm.
(** ** Samples *)
Import TxSample.

Definition armed_state : t := (@runs quiet_bench (firstn 3 (@session_ops quiet_bench)) (@start_state quiet_bench)).


Lemma permit_single_use_witness :
  length (started (log transmitting)) = 1%nat /\ NoDup (map fst (started (log transmitting))).
Proof.
  split; [reflexivity|].
  apply (@permit_single_use quiet_bench quiet_codes meter (Rf.init Rf.sample_cfg [20%Q]) (@session_ops quiet_bench)).
  exact session_ok.
Defined.

Lemma transmit_duty_bounded_witness :
  (0 < Duty.busy 10 1 (map snd (started (log transmitting))))%Q /\
  (Duty.busy 10 1 (map snd (started (log transmitting))) <=
   (1 # 10) * 10 * (1 + Duty._REL_TOL) + Duty.ABS_TOL)%Q.
Proof.
  split; [vm_compute; reflexivity|].
  apply (@transmit_duty_bounded quiet_bench quiet_codes 10 (1 # 10) meter (Rf.init Rf.sample_cfg [20%Q])
           (@session_ops quiet_bench) 1).
  - intros i j Hij. cbn. unfold Qle, Qdiv, Qmult, Qinv; cbn. lia.
  - vm_compute. discriminate.
  - reflexivity.
  - exact session_ok.
Defined.

End TxPerm.
